(* ===== verification/_CoqProject ===== *)
-Q . S2P
Prelude.v
CLib.v
Rand.v
Event.v
Registry.v
Runner.v
Main.v
Emitters.v
ChaosMem.v
ChaosIo.v
IoThreads.v
ChaosNet.v
NetClose.v
ChaosThread.v
ThreadLife.v
Prog.v
Catalogue.v
ScenMemory.v
ScenTimeio.v
ScenConcurrency.v
ScenNetwork.v
ScenCompound.v
ScenReplicas.v
Herd.v
Tui.v
TuiWindows.v
TuiLoop.v
Assembly.v
Resources.v
UnitTests.v
Playground.v
GoldenScript.v
