(* ===== verification/Prelude.v ===== *)
(** * A verification library for the failure playground

    The program (C, under src/) starts one of 19 scenarios in a forked child.
    The child breaks something on purpose (a thread, the memory, a socket, the
    disk, the clock) through the chaos libraries and writes fixed 256-byte
    event records to a pipe; the parent reads them and either prints them
    (src/main.c, the headless mode) or shows them on the terminal
    (src/tui/tui.c).

    ** What models what

    - Prelude.v: machine words with their wrap-around ([u8] .. [u64], [i32],
      [i64]), bytes as [list Z], NUL-terminated strings, little-endian integers,
      the monad [res] in which a memory access can fault, and the automation
      ([zlia], [deex], the hint database [pg]).
    - CLib.v: the part of the C library whose results reach the output:
      [strtoull], the [printf] conversions ([%f] exactly, on IEEE doubles).
    - Rand.v: src/core/rand.c, splitmix64 and xoshiro256**.
    - Event.v: include/playground/event.h, the record, its representation and
      the emit helpers of src/core/runner.c ([pg_logf], [pg_count], ...).
    - Registry.v: src/core/registry.c, the 256-slot table the constructors fill.
    - Runner.v: src/core/runner.c, the child's side ([pg_emit] with its write
      loop, the fault handlers, [child_setup], [init]/[run]/[teardown]) and the
      parent's ([pg_run_start], [pg_run_poll], [pg_run_abort], [pg_run_reap]).
    - Main.v: src/main.c, arguments, [--list], the JSON and text renderings, the
      headless pump with what it and the runner print to standard error.
    - Emitters.v: several threads in [pg_emit] on one pipe, a step relation.
    - ChaosMem.v, ChaosIo.v, ChaosNet.v, ChaosThread.v: src/chaos/, one file each:
      the arena with its redzones at byte level; the table of wrapped
      descriptors and the chaotic clock; the forwarder threads and socket
      pairs; tagged threads, cancellation, the watchdog.
    - IoThreads.v: the wrapped files with their operations split at the table's
      lock, used by several threads.  NetClose.v: closing a socket pair while its two forwarders and the readers
      of its ends are still at work; ThreadLife.v: a thread, the timer that
      cancels it and the thread that joins and frees its handle.  All three are
      step relations over all interleavings.
    - Prog.v: the language the scenarios are written in: programs over a world
      that emit records and return, die from a signal, exit or wait for ever;
      with the postcondition logic [emits] for the records they emit, and the
      class [World] of worlds that hold resources ([released]).
    - Catalogue.v: the 19 descriptors of src/scenarios/ with all their texts.
    - ScenMemory.v, ScenTimeio.v, ScenConcurrency.v, ScenNetwork.v,
      ScenCompound.v, ScenReplicas.v: the scenarios by category.  Where threads
      race (race_counter, deadlock_classic, thundering_herd, split_brain) the
      threads are a step relation over all interleavings and the main thread a
      program that reports the state they end in.
    - Herd.v: thundering_herd's main thread and workers call by call (spawns that
      may fail, three mutexes, the condition variable, the writes and fsyncs, the
      joins), implementing the coarser relation of ScenReplicas.v; [worker_do] is
      [worker_fn] and [main_do] lines 83-106 of [run].
    - Tui.v, TuiLoop.v: src/tui/tui.c, the log ring, the statistics table, every
      pane as the ncurses calls that draw it, the loop that shows one run and
      the state machine of the menu.  TuiWindows.v plays those calls on the
      windows they name.
    - Assembly.v: the linked program: one record [system] of everything the
      kernel, the scheduler and the clock answer, [program], the scenario behind
      each function pointer of the catalogue, and [callbacks], what calling it
      does.
    - Resources.v: a Hoare logic for those programs ([triple]) and what each
      scenario has given back when it returns.
    - UnitTests.v: the four programs of src/tests/unit/.
    - Playground.v: the promises of the assembled program, and the golden files
      of src/tests/golden/ quoted byte for byte with the normalisation of run.sh.
    - GoldenScript.v: src/tests/golden/run.sh itself, over a directory of files and
      the binary's answers.

    A function of the source is a definition of the same name; its state is a
    [Record] with the source's fields; a system call is an argument: the list
    (or function of the call's number) of what the kernel answered, in call
    order.  A C access outside the modelled memory is [Fault].

    ** How the parts are joined

    The runner and both front ends know a scenario only by the interface
    [records_sound] (Main.v): every callback emits records that fit the wire
    format and end their strings, and forges no [PG_EV_DONE].  Their theorems are proved from it;
    Assembly.v proves it of all 19 scenarios ([callbacks_sound]) for any system
    that is [admissible] (a write takes no more than it is offered, the
    sockets deliver no more than is sent, descriptors are not negative, the races
    end in states their steps reach, ...; Assembly.v's [quiet] is one such system), and Playground.v puts
    the two together.

    ** What the theorems show

    - The whole program: [Playground.every_scenario_shown] (what a child wrote is
      what either front end shows), [Playground.golden_conformance] (the models
      print the seven golden files), [GoldenScript.golden_script_accepts] (the
      project's script accepts exactly those files), [UnitTests.unit_tests_hold] (the unit tests
      pass on the models, test_io only after 30 seconds of uptime),
      [Resources.resources_released] (a scenario that returns has closed every
      wrapped file, every socket pair and its own descriptors, on every path).
    - The pipe: [Event.event_wire_roundtrip], [Runner.pg_emit_delivers],
      [Runner.child_fault_record], [Main.run_headless_end_to_end],
      [Main.json_escape_roundtrip], [TuiLoop.tui_shows_child],
      [Emitters.concurrent_emits_interleave]; and where it does not hold what
      its comments say, [Runner.pg_run_poll_no_resync],
      [Runner.pg_run_poll_splices_torn], [TuiLoop.tui_poll_error_drops_rest].
    - The chaos libraries against specifications: [ChaosMem.arena_refines_blocks]
      (a list of blocks), [ChaosMem.overrun_detected], [ChaosMem.free_poisons_once],
      [ChaosMem.check_counts_damage], [ChaosMem.alloc_size_max_wraps];
      [ChaosIo.io_table_refines_map] (a finite map), [ChaosIo.quota_race_tight],
      [ChaosIo.clock_jitter_bounds]; [ChaosNet.forwarder_stream],
      [ChaosNet.net_pair_no_leak]; [ChaosThread.spawned_tags_unique];
      [Rand.xosh_never_stuck].
    - Their threads against each other: [IoThreads.io_table_threads] (the table
      agrees with the files, and what callers must keep to), [NetClose.net_close_ends] (when closing a
      pair ends, with the descriptors closed), [NetClose.net_close_hazards] (when
      it waits for ever or a forwarder dies of SIGPIPE),
      [ThreadLife.cancel_timer_lifetime] (when the cancel timer uses a freed
      handle and when it cannot), [Herd.herd_refines] (the herd's threads
      implement their specification; mutual exclusion, no lost wake-up) and
      [Herd.herd_ends] (every schedule ends, within a number of steps).
    - The scenarios: what each demonstrates, over all interleavings or all
      answers of the kernel: [ScenConcurrency.race_counter_range],
      [ScenConcurrency.deadlock_exactly_crossed], [ScenReplicas.herd_is_serial],
      [ScenReplicas.split_brain_hears_itself], [ScenNetwork.packet_loss_by_seed],
      [ScenNetwork.partial_read_reassembles], [ScenNetwork.connection_reset_reports],
      [ScenTimeio.clock_jump_terminates], [ScenTimeio.partial_write_loses_nothing],
      [ScenCompound.cascade_bound_by_fsync], [ScenCompound.flaky_heartbeats].
    - The interface: [Tui.stats_summarise_run], [Tui.log_pane_shows_tail],
      [Tui.overlay_wraps_body], [Tui.windows_tile_screen],
      [TuiLoop.menu_stays_in_bounds], the last also for the windows' lives.

    ** Loops and fuel

    Loops over the kernel's answers recurse on the list of answers; when the
    list ends the call has not returned yet, and the results say so
    ([WBlocked], [PollBlocked], ...).  Where a loop is not structural it takes
    fuel, and the fuel is shown to be enough: [check_fuel] (a block of the arena
    takes at least 40 bytes; [check_loop_spec]), [pump_fuel] (a record takes 256
    bytes of the pipe), [forward_chunks] (each turn takes at least a byte of the
    buffer; [forward_chunks_spec]), [wrap_line] (each turn takes at least one
    character when a column is left), the digits printed by [hex_go].  The
    [while] loops of the scenarios are [loop] and [rounds] with a bound; a
    loop still running at its bound ends in [FHang], an outcome of its own, and the
    termination theorems show that it does not occur.  The threads of Herd.v
    take steps a schedule names; [herd_left] bounds their number (656, and two
    for each spurious wake-up), and [herd_progress] shows that they can go on
    until they are done.

    ** Not modelled

    - What ncurses does with the calls it is given, the terminal, and locales.
      [newwin] is taken to succeed; that it extends a height or width of 0 to the
      screen's edge is modelled.  In the terminal interface the complaint of
      [pg_run_poll] about a bad header ([poll_stderr]) goes to the screen unseen
      by ncurses.
    - What lies behind a record in memory.  Printing a text that does not end
      in its array reads on there; such a run has the outcome [PumpOverread] in
      the headless mode and none ([None]) in the terminal.
    - The threads the scenarios start without looking at the result of
      [pthread_create] (cascading_failure, connection_reset, flaky_environment,
      split_brain) are taken to start: when one does not, the code joins a thread
      it never made.
    - The enforcement of the CPU limit and of signals sent from outside: the
      limit's value and the parent's signals are modelled, not the kernel's
      response beyond the exit status [waitpid] reports.
    - What a compiler or a weak memory may make of a data race: race_counter's
      counter is a cell that each thread loads and stores as written, one access
      at a time, in some interleaving.
    - src/CMakeLists.txt and src/scripts/ (build description and a generator of
      scenario skeletons).  Of src/tests/golden/run.sh: what [diff] prints of two
      different texts and the shell's complaint about a file it cannot write. *)

From Stdlib Require Export ZArith Lia.
From stdpp Require Export base list gmap strings pretty relations.
#[global] Open Scope Z_scope.

(** ** Automation *)

(** Linear arithmetic with [/] and [mod] by constants. *)
Ltac zlia := Z.to_euclidean_division_equations; lia.

(** Split conjunctions and existentials of the context. *)
Ltac deex :=
  repeat match goal with
         | H : exists x, _ |- _ => let y := fresh x in destruct H as [y H]
         | H : _ /\ _ |- _ => destruct H
         end.

Create HintDb pg discriminated.

(** ** Machine integers: values are [Z], the width is written out *)

Definition u8 (z : Z) : Z := z mod 2 ^ 8.
Definition u16 (z : Z) : Z := z mod 2 ^ 16.
Definition u32 (z : Z) : Z := z mod 2 ^ 32.
Definition u64 (z : Z) : Z := z mod 2 ^ 64.

(** Conversion to a signed type, two's complement. *)
Definition i32 (z : Z) : Z := (z + 2 ^ 31) mod 2 ^ 32 - 2 ^ 31.
Definition i64 (z : Z) : Z := (z + 2 ^ 63) mod 2 ^ 64 - 2 ^ 63.

Abbreviation in_u8 z := (0 <= z < 2 ^ 8).
Abbreviation in_u16 z := (0 <= z < 2 ^ 16).
Abbreviation in_u32 z := (0 <= z < 2 ^ 32).
Abbreviation in_u64 z := (0 <= z < 2 ^ 64).
Abbreviation in_i64 z := (- 2 ^ 63 <= z < 2 ^ 63).

Lemma u64_range z : in_u64 (u64 z).
Proof. unfold u64. apply Z.mod_pos_bound. lia. Qed.

Lemma u32_range z : in_u32 (u32 z).
Proof. unfold u32. apply Z.mod_pos_bound. lia. Qed.

Lemma u64_small z : in_u64 z -> u64 z = z.
Proof. apply Z.mod_small. Qed.

Lemma u32_small z : in_u32 z -> u32 z = z.
Proof. apply Z.mod_small. Qed.

Lemma i64_small z : in_i64 z -> i64 z = z.
Proof. unfold i64. intros. rewrite Z.mod_small; lia. Qed.

Lemma i64_range z : in_i64 (i64 z).
Proof. unfold i64. pose proof (Z.mod_pos_bound (z + 2 ^ 63) (2 ^ 64)). lia. Qed.

Lemma u64_i64 z : u64 (i64 z) = u64 z.
Proof. unfold u64, i64. zlia. Qed.

Lemma i64_u64 z : i64 (u64 z) = i64 z.
Proof. unfold u64, i64. zlia. Qed.

#[export] Hint Resolve u64_range u32_range i64_range : pg.

(** ** Computations that may fault

    [Fault] is an access outside every mapped object (undefined behaviour in
    the source); [NoFuel] means the fuel of a loop ran out, and every function
    with fuel comes with a lemma that excludes it. *)
Inductive res (A : Type) : Type :=
| Ok (a : A)
| Fault
| NoFuel.
Arguments Ok {A} a.
Arguments Fault {A}.
Arguments NoFuel {A}.

#[export] Instance res_ret : MRet res := fun A a => Ok a.
#[export] Instance res_bind : MBind res := fun A B f m =>
  match m with Ok a => f a | Fault => Fault | NoFuel => NoFuel end.

Lemma res_bind_Ok {A B} (f : A -> res B) (m : res A) b :
  (m ≫= f) = Ok b <-> exists a, m = Ok a /\ f a = Ok b.
Proof. destruct m; cbn; split; intros; deex; naive_solver. Qed.

Lemma res_bind_ok {A B} (f : A -> res B) a : (Ok a ≫= f) = f a.
Proof. done. Qed.

(** ** Bytes and C strings *)

Abbreviation bytes := (list Z) (only parsing).
Abbreviation is_byte b := (0 <= b < 256).
Abbreviation are_bytes := (Forall (fun b => is_byte b)).

(** The bytes of a string literal. *)
Fixpoint str (s : string) : bytes :=
  match s with
  | EmptyString => []
  | String c s => Z.of_N (Ascii.N_of_ascii c) :: str s
  end.

Fixpoint unstr (l : bytes) : string :=
  match l with
  | [] => EmptyString
  | b :: l => String (Ascii.ascii_of_N (Z.to_N b)) (unstr l)
  end.

(** What a [%s] conversion or [strcmp] sees of an array: up to the first NUL. *)
Fixpoint cstr (l : bytes) : bytes :=
  match l with
  | [] => []
  | b :: l => if b =? 0 then [] else b :: cstr l
  end.

(** A C string: no NUL inside. *)
Definition nul_free (l : bytes) : Prop := Forall (fun b => b <> 0) l.

(** [snprintf(buf, n, "%s", s)] into a zeroed array of [n] chars. *)
Definition snprintf (n : nat) (s : bytes) : bytes :=
  let t := take (n - 1) (cstr s) in t ++ replicate (n - length t) 0.

Lemma str_bytes s : are_bytes (str s).
Proof.
  induction s as [|c s IH]; cbn; constructor; [|done].
  pose proof (Ascii.N_ascii_bounded c). lia.
Qed.

Lemma unstr_str s : unstr (str s) = s.
Proof.
  induction s as [|c s IH]; cbn; [done|].
  by rewrite N2Z.id, Ascii.ascii_N_embedding, IH.
Qed.

Lemma str_unstr l : are_bytes l -> str (unstr l) = l.
Proof.
  induction 1 as [|b l Hb _ IH]; cbn; [done|].
  rewrite Ascii.N_ascii_embedding by lia. by rewrite Z2N.id, IH by lia.
Qed.

Lemma str_app s t : str (s +:+ t) = str s ++ str t.
Proof. induction s as [|c s IH]; cbn; [done|]. by rewrite <- IH. Qed.

Lemma cstr_nul_free l : nul_free (cstr l).
Proof.
  induction l as [|b l IH]; cbn; [constructor|].
  destruct (Z.eqb_spec b 0); constructor; done.
Qed.

Lemma cstr_app_0 l r : nul_free l -> cstr (l ++ 0 :: r) = l.
Proof.
  induction 1 as [|b l Hb _ IH]; cbn; [done|].
  destruct (Z.eqb_spec b 0); [done|]. by rewrite IH.
Qed.

Lemma cstr_id l : nul_free l -> cstr l = l.
Proof.
  induction 1 as [|b l Hb _ IH]; cbn; [done|].
  destruct (Z.eqb_spec b 0); [done|]. by rewrite IH.
Qed.

Lemma length_snprintf n s : (0 < n)%nat -> length (snprintf n s) = n.
Proof.
  intros. unfold snprintf. rewrite length_app, length_replicate, length_take. lia.
Qed.

Lemma cstr_snprintf n s : (0 < n)%nat -> cstr (snprintf n s) = take (n - 1) (cstr s).
Proof.
  intros Hn. unfold snprintf.
  assert (Hl : (length (take (n - 1) (cstr s)) <= n - 1)%nat)
    by (rewrite length_take; lia).
  destruct (n - length (take (n - 1) (cstr s)))%nat eqn:E; [lia|].
  cbn [replicate]. apply cstr_app_0, Forall_take, cstr_nul_free.
Qed.

(** Whether a [char] array holds a string at all. *)
Definition has_nul (l : bytes) : bool := existsb (Z.eqb 0) l.

Lemma has_nul_app l r : has_nul (l ++ r) = has_nul l || has_nul r.
Proof. apply existsb_app. Qed.

Lemma has_nul_snprintf n s : (0 < n)%nat -> has_nul (snprintf n s) = true.
Proof.
  intros Hn. unfold snprintf. cbv zeta. rewrite has_nul_app.
  assert (Hl : (length (take (n - 1) (cstr s)) <= n - 1)%nat) by (rewrite length_take; lia).
  destruct (n - length (take (n - 1) (cstr s)))%nat eqn:E; [lia|]. cbn. apply orb_true_r.
Qed.

(** Reading stops at the first NUL, wherever the array ends. *)
Lemma cstr_app_nul l r : has_nul l = true -> cstr (l ++ r) = cstr l.
Proof.
  unfold has_nul. induction l as [|b l IH]; cbn [existsb app cstr]; [done|].
  rewrite (Z.eqb_sym 0 b). destruct (b =? 0); [done|]. intros H. by rewrite IH.
Qed.

Lemma are_bytes_cstr l : are_bytes l -> are_bytes (cstr l).
Proof.
  induction 1 as [|b l Hb _ IH]; cbn; [done|]. destruct (b =? 0); auto.
Qed.

Lemma are_bytes_snprintf n s : are_bytes s -> are_bytes (snprintf n s).
Proof.
  intros. apply Forall_app; split.
  - by apply Forall_take, are_bytes_cstr.
  - apply Forall_replicate. lia.
Qed.

#[export] Hint Resolve str_bytes are_bytes_cstr are_bytes_snprintf : pg.

(** ** Little-endian object representation of unsigned integers *)

Fixpoint le_bytes (n : nat) (z : Z) : bytes :=
  match n with
  | O => []
  | S n => z mod 256 :: le_bytes n (z / 256)
  end.

Fixpoint le_val (l : bytes) : Z :=
  match l with
  | [] => 0
  | b :: l => b + 256 * le_val l
  end.

Lemma length_le_bytes n z : length (le_bytes n z) = n.
Proof. revert z; induction n; intros; cbn; auto. Qed.

Lemma are_bytes_le_bytes n z : are_bytes (le_bytes n z).
Proof. revert z; induction n; intros; cbn; constructor; auto. zlia. Qed.

Lemma le_val_le_bytes n z : le_val (le_bytes n z) = z mod 256 ^ Z.of_nat n.
Proof.
  revert z; induction n as [|n IH]; intros z; cbn [le_bytes le_val].
  - by rewrite Z.mod_1_r.
  - rewrite IH, Nat2Z.inj_succ, Z.pow_succ_r, Z.rem_mul_r by lia. lia.
Qed.

Lemma le_bytes_le_val l : are_bytes l -> le_bytes (length l) (le_val l) = l.
Proof.
  induction 1 as [|b l Hb _ IH]; cbn [length le_bytes le_val]; [done|].
  replace ((b + 256 * le_val l) mod 256) with b by zlia.
  replace ((b + 256 * le_val l) / 256) with (le_val l) by zlia.
  by rewrite IH.
Qed.

Lemma le_val_range l : are_bytes l -> 0 <= le_val l < 256 ^ Z.of_nat (length l).
Proof.
  induction 1 as [|b l Hb _ IH]; cbn [length le_val]; [lia|].
  rewrite Nat2Z.inj_succ, Z.pow_succ_r by lia. lia.
Qed.

#[export] Hint Resolve are_bytes_le_bytes : pg.

Arguments snprintf : simpl never.
Arguments le_bytes : simpl never.
Arguments u8 : simpl never.
Arguments u16 : simpl never.
Arguments u32 : simpl never.
Arguments u64 : simpl never.
Arguments i32 : simpl never.
Arguments i64 : simpl never.

(** ** Counting *)

Fixpoint count {A} (f : A -> bool) (l : list A) : nat :=
  match l with
  | [] => O
  | x :: l => if f x then S (count f l) else count f l
  end.

Lemma count_app {A} (f : A -> bool) l k : count f (l ++ k) = (count f l + count f k)%nat.
Proof. induction l as [|x l IH]; cbn; [done|]. rewrite IH. by destruct (f x). Qed.

Lemma count_le_length {A} (f : A -> bool) l : (count f l <= length l)%nat.
Proof. induction l as [|x l IH]; cbn; [done|]. destruct (f x); lia. Qed.

(** [min]-free reading of [take]. *)
Lemma length_take_lt {A} (l : list A) n : (n <= length l)%nat -> length (take n l) = n.
Proof. intros. rewrite length_take. lia. Qed.

Lemma drop_length_take {A} (l : list A) m : drop (length (take m l)) l = drop m l.
Proof.
  rewrite length_take. destruct (decide (m <= length l)%nat) as [H|H].
  - by rewrite Nat.min_l by lia.
  - rewrite Nat.min_r by lia. rewrite drop_all. symmetry. apply drop_ge. lia.
Qed.

(** ** Lines of a text *)

Fixpoint lines (l : list Z) : list (list Z) :=
  match l with
  | [] => []
  | c :: l =>
      if c =? 10 then [] :: lines l
      else match lines l with [] => [[c]] | x :: xs => (c :: x) :: xs end
  end.

Lemma lines_cons line rest :
  Forall (fun c => 32 <= c) line -> lines (line ++ 10 :: rest) = line :: lines rest.
Proof.
  induction 1 as [|c line Hc _ IH]; [done|]. cbn [app lines].
  rewrite (proj2 (Z.eqb_neq c 10)), IH by lia. done.
Qed.

Lemma lines_concat ls : Forall (Forall (fun c => 32 <= c)) ls -> lines (concat (map (fun l => l ++ [10]) ls)) = ls.
Proof.
  induction 1 as [|l ls Hl _ IH]; [done|]. cbn [map concat]. rewrite <- app_assoc. cbn [app].
  by rewrite lines_cons, IH.
Qed.
