(* ===== verification/CLib.v ===== *)
(** * The parts of the C library the program's results depend on

    Number parsing ([strtoul], [strtoull]) and the [printf] conversions the
    sources use.  Floating point is IEEE binary64 ([SpecFloat], exact); [%f]
    rounds the exact binary value half to even. *)

From Stdlib Require Import SpecFloat.
From S2P Require Import Prelude.

(** ** strtoul / strtoull *)

Definition ULLONG_MAX : Z := 2 ^ 64 - 1.

Definition is_space (c : Z) : bool := (c =? 32) || ((9 <=? c) && (c <=? 13)).

Fixpoint skip_space (s : list Z) : list Z :=
  match s with
  | c :: s' => if is_space c then skip_space s' else s
  | [] => []
  end.

(** The value of a digit character, letters included. *)
Definition digit_val (c : Z) : option Z :=
  if (48 <=? c) && (c <=? 57) then Some (c - 48)
  else if (97 <=? c) && (c <=? 122) then Some (c - 87)
  else if (65 <=? c) && (c <=? 90) then Some (c - 55)
  else None.

Definition digit_in (base c : Z) : option Z :=
  match digit_val c with
  | Some d => if d <? base then Some d else None
  | None => None
  end.

(** The longest prefix of digits, as an unbounded number. *)
Fixpoint parse_digits (base acc : Z) (s : list Z) : Z :=
  match s with
  | [] => acc
  | c :: s => match digit_in base c with
              | Some d => parse_digits base (acc * base + d) s
              | None => acc
              end
  end.

Definition has_hex_prefix (s : list Z) : bool :=
  match s with
  | 48 :: x :: d :: _ =>
      ((x =? 120) || (x =? 88)) && bool_decide (is_Some (digit_in 16 d))
  | _ => false
  end.

(** The digits and the effective base: [0x] selects 16 for bases 0 and 16, a
    leading [0] selects 8 for base 0. *)
Definition strto_base (base : Z) (s : list Z) : Z * list Z :=
  if ((base =? 0) || (base =? 16)) && has_hex_prefix s then (16, drop 2 s)
  else if base =? 0 then
    match s with 48 :: _ => (8, s) | _ => (10, s) end
  else (base, s).

Definition strtoull (base : Z) (s : list Z) : Z :=
  let s := skip_space (cstr s) in
  let '(neg, s) := match s with
                   | 45 :: s => (true, s)
                   | 43 :: s => (false, s)
                   | _ => (false, s)
                   end in
  let '(b, s) := strto_base base s in
  let v := parse_digits b 0 s in
  if ULLONG_MAX <? v then ULLONG_MAX else if (neg : bool) then u64 (- v) else v.

(** ** printf conversions *)

(** Characters a literal cannot hold. *)
Definition chr (n : N) : string := String (Ascii.ascii_of_N n) EmptyString.
Definition dq : string := chr 34.
Definition nl : string := chr 10.

Definition fmt_d (z : Z) : string := pretty z.

Fixpoint spaces (n : nat) : string :=
  match n with O => EmptyString | S n => String (Ascii.ascii_of_N 32) (spaces n) end.

(** [%w...] and [%-w...]. *)
Definition pad_left (w : nat) (s : string) : string := spaces (w - String.length s) +:+ s.
Definition pad_right (w : nat) (s : string) : string := s +:+ spaces (w - String.length s).

(** [%.ns]. *)
Definition prec_s (n : nat) (s : string) : string := String.substring 0 n s.

Definition hex_digit (d : Z) : Ascii.ascii :=
  Ascii.ascii_of_N (Z.to_N (if d <? 10 then 48 + d else 87 + d)).

Fixpoint hex_go (fuel : nat) (z : Z) (acc : string) : string :=
  match fuel with
  | O => acc
  | S fuel => let acc := String (hex_digit (z mod 16)) acc in
              if z / 16 =? 0 then acc else hex_go fuel (z / 16) acc
  end.

(** [%x] of a value of at most 64 bits. *)
Definition fmt_x (z : Z) : string := hex_go 16 z EmptyString.

Fixpoint zeros (n : nat) : string :=
  match n with O => EmptyString | S n => String (Ascii.ascii_of_N 48) (zeros n) end.

(** [%0wx]. *)
Definition fmt_0x (w : nat) (z : Z) : string :=
  let s := fmt_x z in zeros (w - String.length s) +:+ s.

(** [%p] on the supported systems. *)
Definition fmt_p (z : Z) : string := "0x" +:+ fmt_x z.

(** [%+lld]. *)
Definition fmt_plus_d (z : Z) : string := if 0 <=? z then "+" +:+ fmt_d z else fmt_d z.

(** ** binary64 *)

Abbreviation double := spec_float (only parsing).

Definition d_of_Z (z : Z) : double := binary_normalize 53 1024 z 0 false.
Definition d_div (x y : double) : double := SFdiv 53 1024 x y.
Definition d_mul (x y : double) : double := SFmul 53 1024 x y.

(** Conversion to an integer, towards zero. *)
Definition d_trunc (x : double) : Z :=
  match x with
  | S754_finite sg m e =>
      let n := if 0 <=? e then Zpos m * 2 ^ e else Zpos m / 2 ^ (- e) in if sg then - n else n
  | _ => 0
  end.

(** Nearest integer to [a / b], ties to even. *)
Definition div_rne (a b : Z) : Z :=
  let q := a / b in
  let r := a mod b in
  if 2 * r <? b then q
  else if b <? 2 * r then q + 1
  else if Z.even q then q else q + 1.

(** [%.pf]. *)
Definition fmt_f (p : nat) (x : double) : string :=
  match x with
  | S754_zero sg =>
      (if sg then "-" else "") +:+ "0" +:+ (if (p =? 0)%nat then "" else "." +:+ zeros p)
  | S754_infinity sg => (if sg then "-inf" else "inf")
  | S754_nan => "nan"
  | S754_finite sg m e =>
      let scale := 10 ^ Z.of_nat p in
      let n := if 0 <=? e then Zpos m * 2 ^ e * scale
               else div_rne (Zpos m * scale) (2 ^ (- e)) in
      let frac := fmt_d (n mod scale) in
      (if sg then "-" else "") +:+ fmt_d (n / scale) +:+
      (if (p =? 0)%nat then "" else "." +:+ zeros (p - String.length frac) +:+ frac)
  end.

(** [100.0 * (double)part / (double)whole], as [%.1f]. *)
Definition percent (part whole : Z) : string :=
  fmt_f 1 (d_div (d_mul (d_of_Z 100) (d_of_Z part)) (d_of_Z whole)).

(** ** Round trip of decimal numbers *)

Lemma digit_in_10_pretty (d : N) :
  (d < 10)%N -> digit_in 10 (Z.of_N (Ascii.N_of_ascii (pretty_N_char d))) = Some (Z.of_N d).
Proof.
  intros H. destruct d as [|p]; [done|].
  do 4 (destruct p as [p|p|]; try (cbn in H; lia); try reflexivity).
Qed.

Lemma parse_pretty_go (x : N) (s : string) :
  parse_digits 10 0 (str (pretty_N_go x s)) = parse_digits 10 (Z.of_N x) (str s).
Proof.
  revert s. induction (N.lt_wf_0 x) as [x _ IH]; intros s.
  destruct (decide (x = 0)%N) as [->|Hx]; [by rewrite pretty_N_go_0|].
  rewrite pretty_N_go_step by lia. rewrite IH by (apply N.div_lt; lia).
  cbn [str parse_digits].
  rewrite digit_in_10_pretty by (apply N.mod_lt; lia). f_equal.
  rewrite (N.div_mod x 10) at 3 by lia. lia.
Qed.

Lemma pretty_Z_nonneg (z : Z) : 0 < z -> (pretty z : string) = pretty_N_go (Z.to_N z) "".
Proof. destruct z; [lia| |lia]. intros _. done. Qed.

Lemma parse_fmt_d z : 0 <= z -> parse_digits 10 0 (str (fmt_d z)) = z.
Proof.
  intros Hz. destruct (decide (z = 0)) as [->|]; [done|].
  unfold fmt_d. rewrite pretty_Z_nonneg by lia.
  rewrite parse_pretty_go. cbn. lia.
Qed.

(** ** Printed numbers are printable *)

Abbreviation printable := (Forall (fun b => 32 <= b)).

Lemma pretty_char_printable (d : N) : 32 <= Z.of_N (Ascii.N_of_ascii (pretty_N_char d)).
Proof.
  destruct d as [|p]; [done|].
  do 4 (destruct p as [p|p|]; try (vm_compute; discriminate)).
Qed.

Lemma pretty_go_printable (x : N) (s : string) :
  printable (str s) -> printable (str (pretty_N_go x s)).
Proof.
  revert s. induction (N.lt_wf_0 x) as [x _ IH]; intros s Hs.
  destruct (decide (x = 0)%N) as [->|Hx]; [by rewrite pretty_N_go_0|].
  rewrite pretty_N_go_step by lia. apply IH; [apply N.div_lt; lia|].
  cbn [str]. constructor; [apply pretty_char_printable|done].
Qed.

Lemma fmt_d_printable z : printable (str (fmt_d z)).
Proof.
  unfold fmt_d. destruct z as [|p|p]; [by repeat constructor| |].
  - rewrite pretty_Z_nonneg by lia. by apply pretty_go_printable.
  - change (pretty (Zneg p) : string) with (String (Ascii.ascii_of_N 45) (pretty (Zpos p))).
    rewrite pretty_Z_nonneg by lia. constructor; [done|]. by apply pretty_go_printable.
Qed.

(** A positive number prints with a leading digit from 1 to 9. *)
Lemma pretty_go_head (x : N) (s : string) :
  (0 < x)%N -> exists c t, str (pretty_N_go x s) = c :: t /\ 49 <= c <= 57.
Proof.
  revert s. induction (N.lt_wf_0 x) as [x _ IH]; intros s Hx.
  rewrite pretty_N_go_step by lia.
  destruct (decide (x < 10)%N) as [Hlt|Hge].
  - rewrite N.div_small, N.mod_small, pretty_N_go_0 by lia. cbn [str]. eexists _, _. split; [done|].
    destruct x as [|p]; [lia|].
    do 4 (destruct p as [p|p|]; try lia; try (vm_compute; split; discriminate)).
  - apply IH; [apply N.div_lt; lia|]. 
    assert (1 <= x / 10)%N by (apply N.div_le_lower_bound; lia). lia.
Qed.

Lemma fmt_d_head z : 0 < z -> exists c t, str (fmt_d z) = c :: t /\ 49 <= c <= 57.
Proof. intros. unfold fmt_d. rewrite pretty_Z_nonneg by lia. apply pretty_go_head. lia. Qed.

Lemma printable_nul_free l : printable l -> nul_free l.
Proof. intros H. eapply Forall_impl; [exact H|]. cbn. lia. Qed.

(** The decimal text of an unsigned 64-bit number parses back, base 0 or 10. *)
Lemma strtoull_fmt_d base z :
  base = 0 \/ base = 10 -> in_u64 z -> strtoull base (str (fmt_d z)) = z.
Proof.
  intros Hb Hz. destruct (decide (z = 0)) as [->|Hnz]; [by destruct Hb as [-> | ->]|].
  pose proof (parse_fmt_d z ltac:(lia)) as Hp.
  pose proof (cstr_id _ (printable_nul_free _ (fmt_d_printable z))) as Hc.
  destruct (fmt_d_head z ltac:(lia)) as (c & t & E & Hr). unfold strtoull. rewrite Hc, E in *.
  cbn [skip_space]. unfold is_space.
  rewrite (proj2 (Z.eqb_neq c 32)), (proj2 (Z.leb_gt c 13)), andb_false_r by lia. cbn [orb].
  assert (Hm : (match c :: t with 45 :: s => (true, s) | 43 :: s => (false, s) | _ => (false, c :: t) end)
               = (false, c :: t)).
  { assert (Hin : c ∈ [49; 50; 51; 52; 53; 54; 55; 56; 57]) by (rewrite !elem_of_cons; lia).
    repeat (apply elem_of_cons in Hin as [->|Hin]; [done|]). by apply elem_of_nil in Hin. }
  rewrite Hm.
  assert (Hs : strto_base base (c :: t) = (10, c :: t)).
  { assert (Hin : c ∈ [49; 50; 51; 52; 53; 54; 55; 56; 57]) by (rewrite !elem_of_cons; lia).
    unfold strto_base. destruct Hb as [-> | ->];
      repeat (apply elem_of_cons in Hin as [->|Hin]; [done|]); by apply elem_of_nil in Hin. }
  rewrite Hs, Hp. unfold ULLONG_MAX. rewrite (proj2 (Z.ltb_ge _ _)) by lia. done.
Qed.

(** *** Printed numbers are runs of digits *)

Definition is_digit (c : Z) : bool := (48 <=? c) && (c <=? 57).
Definition is_xdigit (c : Z) : bool := bool_decide (is_Some (digit_in 16 c)).

Lemma pretty_char_digit (d : N) : is_digit (Z.of_N (Ascii.N_of_ascii (pretty_N_char d))) = true.
Proof.
  destruct d as [|p]; [done|].
  do 4 (destruct p as [p|p|]; try reflexivity).
Qed.

Lemma pretty_go_digits (x : N) (s : string) :
  Forall is_digit (str s) -> Forall is_digit (str (pretty_N_go x s)).
Proof.
  revert s. induction (N.lt_wf_0 x) as [x _ IH]; intros s Hs.
  destruct (decide (x = 0)%N) as [->|Hx]; [by rewrite pretty_N_go_0|].
  rewrite pretty_N_go_step by lia. apply IH; [apply N.div_lt; lia|].
  cbn [str]. constructor; [by rewrite pretty_char_digit|done].
Qed.

(** [%llu] writes at least one digit and nothing else. *)
Lemma fmt_d_digits z : 0 <= z -> exists d t, str (fmt_d z) = d :: t /\ Forall is_digit (d :: t).
Proof.
  intros Hz. destruct (decide (z = 0)) as [->|]; [by exists 48, []; repeat constructor|].
  destruct (fmt_d_head z ltac:(lia)) as (d & t & E & _). exists d, t. split; [done|].
  rewrite <- E. unfold fmt_d. rewrite pretty_Z_nonneg by lia. by apply pretty_go_digits.
Qed.

Lemma hex_digit_xdigit d : 0 <= d < 16 -> is_xdigit (Z.of_N (Ascii.N_of_ascii (hex_digit d))) = true.
Proof.
  intros H. assert (Hd : d ∈ seqZ 0 16) by (apply elem_of_seqZ; lia).
  clear H. revert d Hd. apply Forall_forall, (bool_decide_unpack _). vm_compute. exact I.
Qed.

Lemma hex_go_spec fuel z acc :
  exists ds, str (hex_go fuel z acc) = ds ++ str acc /\ Forall is_xdigit ds /\
    (length ds <= fuel)%nat /\ (fuel <> O -> ds <> []).
Proof.
  revert z acc. induction fuel as [|fuel IH]; intros z acc; [by exists []; repeat constructor|].
  assert (Hd : is_xdigit (Z.of_N (Ascii.N_of_ascii (hex_digit (z mod 16))))).
  { apply Is_true_true, hex_digit_xdigit. zlia. }
  cbn [hex_go]. destruct (z / 16 =? 0).
  - eexists [_]. cbn. split_and!; [done|by constructor|lia|done].
  - destruct (IH (z / 16) (String (hex_digit (z mod 16)) acc)) as (ds & E & Hds & Hl & _).
    eexists (ds ++ [_]). rewrite E, <- app_assoc. split; [done|].
    rewrite length_app. cbn. split_and!; [by apply Forall_app_2; [|constructor]|lia|by destruct ds].
Qed.

Lemma fmt_x_digits z : exists d t, str (fmt_x z) = d :: t /\ Forall is_xdigit (d :: t) /\ (length t < 16)%nat.
Proof.
  destruct (hex_go_spec 16 z EmptyString) as (ds & E & Hds & Hl & Hne).
  destruct ds as [|d t]; [by destruct (Hne ltac:(done))|].
  exists d, t. unfold fmt_x. rewrite E, app_nil_r. cbn in Hl. split_and!; [done|done|lia].
Qed.
