(* ===== verification/Rand.v ===== *)
(** * The seeded generator (src/core/rand.c, src/core/rand.h)

    xoshiro256** with splitmix64 seeding.  Words are [Z] in [0, 2^64). The
    results: the seeded state is never the all-zero fixed point, stepping is
    injective and so never reaches it either, and distinct seeds give distinct
    states, up to the one collision the source creates by remapping seed 0. *)

From S2P Require Import Prelude.

(** ** The code *)

(* @ src/core/rand.c:3-5 rotl *)
Definition rotl (x k : Z) : Z := Z.lor (u64 (Z.shiftl x k)) (Z.shiftr x (64 - k)).

(** [*st += GAMMA], then the finaliser applied to the new [*st]. *)
(* @ src/core/rand.c:8-8 splitmix64 *)
Definition GAMMA : Z := 0x9E3779B97F4A7C15.

(* @ src/core/rand.c:9-11 splitmix64 *)
Definition splitmix64_mix (z : Z) : Z :=
  let z := u64 (Z.lxor z (Z.shiftr z 30) * 0xBF58476D1CE4E5B9) in
  let z := u64 (Z.lxor z (Z.shiftr z 27) * 0x94D049BB133111EB) in
  Z.lxor z (Z.shiftr z 31).

(** Returns the output and the new [*st]. *)
(* @ src/core/rand.c:7-12 splitmix64 *)
Definition splitmix64 (st : Z) : Z * Z :=
  let st := u64 (st + GAMMA) in (splitmix64_mix st, st).

(* @ src/core/rand.h:5-5 pg_xosh_t *)
Record pg_xosh_t := XoshState { s0 : Z; s1 : Z; s2 : Z; s3 : Z }.

#[export] Instance pg_xosh_t_eq_dec : EqDecision pg_xosh_t.
Proof. solve_decision. Defined.

(* @ src/core/rand.c:15-15 pg_xosh_seed *)
Definition SEED_ZERO_REMAP : Z := 0xDEADBEEFDEADBEEF.

(* @ src/core/rand.c:14-19 pg_xosh_seed *)
Definition pg_xosh_seed (seed : Z) : pg_xosh_t :=
  let sm := if seed =? 0 then SEED_ZERO_REMAP else seed in
  let '(a, sm) := splitmix64 sm in
  let '(b, sm) := splitmix64 sm in
  let '(c, sm) := splitmix64 sm in
  let '(d, sm) := splitmix64 sm in
  XoshState a b c d.

(* @ src/core/rand.c:21-33 pg_xosh_next *)
Definition pg_xosh_next (r : pg_xosh_t) : Z * pg_xosh_t :=
  let result := u64 (rotl (u64 (s1 r * 5)) 7 * 9) in
  let t := u64 (Z.shiftl (s1 r) 17) in
  let r2 := Z.lxor (s2 r) (s0 r) in
  let r3 := Z.lxor (s3 r) (s1 r) in
  let r1 := Z.lxor (s1 r) r2 in
  let r0 := Z.lxor (s0 r) r3 in
  let r2 := Z.lxor r2 t in
  let r3 := rotl r3 45 in
  (result, XoshState r0 r1 r2 r3).

(** The first [n] draws. *)
Fixpoint xosh_draws (n : nat) (r : pg_xosh_t) : list Z * pg_xosh_t :=
  match n with
  | O => ([], r)
  | S n => let '(x, r) := pg_xosh_next r in
           let '(xs, r) := xosh_draws n r in (x :: xs, r)
  end.

Definition xosh_wf (r : pg_xosh_t) : Prop :=
  in_u64 (s0 r) /\ in_u64 (s1 r) /\ in_u64 (s2 r) /\ in_u64 (s3 r).

Definition xosh_zero : pg_xosh_t := XoshState 0 0 0 0.

(** A state the generator may be in: 64-bit words, not the fixed point. *)
Definition xosh_live (r : pg_xosh_t) : Prop := xosh_wf r /\ r <> xosh_zero.

(** ** Bit-level lemmas *)

Lemma u64_testbit z i : Z.testbit (u64 z) i = (i <? 64) && Z.testbit z i.
Proof. apply Z.testbit_mod_pow2. lia. Qed.

Lemma testbit_high z i : in_u64 z -> 64 <= i -> Z.testbit z i = false.
Proof.
  intros. rewrite <- (u64_small z) by done. rewrite u64_testbit.
  destruct (Z.ltb_spec i 64); [lia|done].
Qed.

Lemma in_u64_bits z :
  in_u64 z <-> u64 z = z.
Proof. split; [apply u64_small|]. intros <-. apply u64_range. Qed.

Ltac bitwise i Hi :=
  apply Z.bits_inj'; intros i Hi;
  repeat first [rewrite u64_testbit | rewrite Z.lxor_spec | rewrite Z.lor_spec | rewrite Z.shiftr_spec by lia].

Lemma lxor_u64 a b : in_u64 a -> in_u64 b -> in_u64 (Z.lxor a b).
Proof.
  rewrite !in_u64_bits. intros Ha Hb. bitwise i Hi.
  rewrite <- Ha, <- Hb, !u64_testbit. by destruct (i <? 64), (Z.testbit a i), (Z.testbit b i).
Qed.

Lemma shiftr_u64 a k : 0 <= k -> in_u64 a -> in_u64 (Z.shiftr a k).
Proof.
  intros Hk Ha. rewrite Z.shiftr_div_pow2 by done. split.
  - apply Z.div_pos; lia.
  - apply Z.div_lt_upper_bound; nia.
Qed.

Lemma rotl_u64 x k : 0 <= k <= 64 -> in_u64 x -> in_u64 (rotl x k).
Proof.
  intros Hk Hx. rewrite in_u64_bits. unfold rotl. bitwise i Hi.
  destruct (Z.ltb_spec i 64); cbn; [done|].
  by rewrite testbit_high by lia.
Qed.

Lemma lxor_cancel_l a b c : Z.lxor a b = Z.lxor a c -> b = c.
Proof.
  intros H. apply (f_equal (Z.lxor a)) in H.
  by rewrite <- !Z.lxor_assoc, !Z.lxor_nilpotent, !Z.lxor_0_l in H.
Qed.

Lemma lxor_cancel_r a b c : Z.lxor b a = Z.lxor c a -> b = c.
Proof. rewrite !(Z.lxor_comm _ a). apply lxor_cancel_l. Qed.

Lemma lxor_chain b u t : Z.lxor b t = Z.lxor (Z.lxor b u) (Z.lxor u t).
Proof. by rewrite Z.lxor_assoc, <- (Z.lxor_assoc u), Z.lxor_nilpotent, Z.lxor_0_l. Qed.

(** [z ^ (z >> k)] loses nothing. *)
Lemma xorshift_r_inj k x y :
  0 < k -> 0 <= x -> 0 <= y ->
  Z.lxor x (Z.shiftr x k) = Z.lxor y (Z.shiftr y k) -> x = y.
Proof.
  intros Hk Hx Hy H. apply Z.lxor_eq.
  assert (Hd : Z.lxor x y = Z.shiftr (Z.lxor x y) k).
  { rewrite Z.shiftr_lxor. apply Z.lxor_eq.
    rewrite <- (Z.lxor_nilpotent (Z.lxor x (Z.shiftr x k))). rewrite H at 2.
    apply Z.bits_inj'; intros i Hi. rewrite !Z.lxor_spec.
    by destruct (Z.testbit x i), (Z.testbit y i), (Z.testbit (Z.shiftr x k) i), (Z.testbit (Z.shiftr y k) i). }
  set (d := Z.lxor x y) in *.
  assert (0 <= d) by (apply Z.lxor_nonneg; lia).
  rewrite Z.shiftr_div_pow2 in Hd by lia.
  assert (2 <= 2 ^ k) by (change 2 with (2 ^ 1) at 1; apply Z.pow_le_mono_r; lia).
  pose proof (Z.div_mod d (2 ^ k)). pose proof (Z.mod_pos_bound d (2 ^ k)). nia.
Qed.

(** So does [z ^ (z << k)] on 64-bit words. *)
Lemma xorshift_l_inj k x y :
  0 < k -> in_u64 x -> in_u64 y ->
  Z.lxor x (u64 (Z.shiftl x k)) = Z.lxor y (u64 (Z.shiftl y k)) -> x = y.
Proof.
  intros Hk Hx Hy H.
  assert (Hb : forall n : nat, forall i, 0 <= i < Z.of_nat n -> Z.testbit x i = Z.testbit y i).
  { induction n as [|n IH]; intros i Hi; [lia|].
    destruct (decide (i < 64)) as [Hi64|]; [|by rewrite !testbit_high by lia].
    apply (f_equal (fun z => Z.testbit z i)) in H.
    rewrite !Z.lxor_spec, !u64_testbit in H.
    rewrite (proj2 (Z.ltb_lt i 64)) in H by done.
    rewrite !Z.shiftl_spec in H by lia. cbn in H.
    assert (E : Z.testbit x (i - k) = Z.testbit y (i - k)).
    { destruct (decide (i - k < 0)); [by rewrite !Z.testbit_neg_r by lia|]. apply IH. lia. }
    rewrite E in H. by destruct (Z.testbit x i), (Z.testbit y i), (Z.testbit y (i - k)). }
  apply Z.bits_inj'. intros i Hi. apply (Hb (S (Z.to_nat i))). lia.
Qed.

(** Multiplication by an odd constant, with its inverse [c'] modulo 2^64. *)
Lemma u64_mul_inj c c' x y :
  u64 (c * c') = 1 -> in_u64 x -> in_u64 y -> u64 (x * c) = u64 (y * c) -> x = y.
Proof.
  unfold u64. intros Hc Hx Hy H.
  apply (f_equal (fun z => (z * c') mod 2 ^ 64)) in H.
  rewrite !Z.mul_mod_idemp_l, <- !Z.mul_assoc in H by lia.
  rewrite !(Z.mul_mod _ (c * c')), Hc, !Z.mul_1_r, !Z.mod_mod, !Z.mod_small in H by lia.
  done.
Qed.

Lemma rotl_inj k x y :
  0 < k < 64 -> in_u64 x -> in_u64 y -> rotl x k = rotl y k -> x = y.
Proof.
  intros Hk Hx Hy H. apply Z.bits_inj'. intros i Hi.
  destruct (decide (64 <= i)); [by rewrite !testbit_high by lia|].
  set (j := if i <? 64 - k then i + k else i + k - 64).
  apply (f_equal (fun z => Z.testbit z j)) in H.
  unfold rotl in H. subst j. destruct (Z.ltb_spec i (64 - k)).
  - rewrite !Z.lor_spec, !u64_testbit, !Z.shiftr_spec, !Z.shiftl_spec in H by lia.
    rewrite (proj2 (Z.ltb_lt _ 64)) in H by lia.
    rewrite !(testbit_high _ (i + k + (64 - k))) in H by lia.
    replace (i + k - k) with i in H by lia. by rewrite !orb_false_r in H.
  - rewrite !Z.lor_spec, !u64_testbit, !Z.shiftr_spec, !Z.shiftl_spec in H by lia.
    rewrite !(Z.testbit_neg_r _ (i + k - 64 - k)) in H by lia.
    replace (i + k - 64 + (64 - k)) with i in H by lia. by rewrite !andb_false_r in H.
Qed.

(** ** Seeding *)

Lemma splitmix64_mix_u64 z : in_u64 (splitmix64_mix z).
Proof.
  unfold splitmix64_mix. apply lxor_u64; [|apply shiftr_u64; [lia|]]; apply u64_range.
Qed.

Lemma splitmix64_mix_inj x y :
  in_u64 x -> in_u64 y -> splitmix64_mix x = splitmix64_mix y -> x = y.
Proof.
  unfold splitmix64_mix. intros Hx Hy H.
  apply xorshift_r_inj in H; [|lia|apply u64_range..].
  apply (u64_mul_inj _ 0x319642B2D24D8EC3) in H; [|done|..].
  2,3: apply lxor_u64; [|apply shiftr_u64; [lia|]]; apply u64_range.
  apply xorshift_r_inj in H; [|lia|apply u64_range..].
  apply (u64_mul_inj _ 0x96DE1B173F119089) in H; [|done|..].
  2,3: apply lxor_u64; [|apply shiftr_u64; [lia|]]; done.
  apply xorshift_r_inj in H; lia.
Qed.

Definition xosh_seed_word (sm i : Z) : Z := splitmix64_mix (u64 (sm + i * GAMMA)).

Lemma pg_xosh_seed_eq seed :
  let sm := if seed =? 0 then SEED_ZERO_REMAP else seed in
  pg_xosh_seed seed = XoshState (xosh_seed_word sm 1) (xosh_seed_word sm 2)
                                (xosh_seed_word sm 3) (xosh_seed_word sm 4).
Proof.
  cbn zeta. unfold pg_xosh_seed, splitmix64, xosh_seed_word. cbv beta iota zeta.
  f_equal; f_equal; unfold u64; zlia.
Qed.

Lemma xosh_seed_word_u64 sm i : in_u64 (xosh_seed_word sm i).
Proof. apply splitmix64_mix_u64. Qed.

Lemma pg_xosh_seed_wf seed : xosh_wf (pg_xosh_seed seed).
Proof. rewrite pg_xosh_seed_eq. repeat split; apply xosh_seed_word_u64. Qed.

Lemma pg_xosh_seed_nonzero seed : pg_xosh_seed seed <> xosh_zero.
Proof.
  rewrite pg_xosh_seed_eq. cbn zeta. set (sm := if seed =? 0 then _ else _).
  intros [= H1 H2 _ _]. rewrite <- H2 in H1.
  apply splitmix64_mix_inj in H1; [|apply u64_range..].
  revert H1. unfold u64, GAMMA. zlia.
Qed.

Lemma pg_xosh_seed_inj a b :
  in_u64 a -> in_u64 b -> a <> 0 -> b <> 0 -> pg_xosh_seed a = pg_xosh_seed b -> a = b.
Proof.
  intros Ha Hb Na Nb. rewrite !pg_xosh_seed_eq. cbn zeta.
  rewrite (proj2 (Z.eqb_neq a 0)), (proj2 (Z.eqb_neq b 0)) by done.
  intros [= H _ _ _]. apply splitmix64_mix_inj in H; [|apply u64_range..].
  revert H. unfold u64, GAMMA. zlia.
Qed.

(** ** Stepping *)

Lemma pg_xosh_next_wf r : xosh_wf r -> xosh_wf (snd (pg_xosh_next r)).
Proof.
  intros (?&?&?&?). unfold pg_xosh_next. repeat split; cbn [snd s0 s1 s2 s3];
    try apply rotl_u64; repeat apply lxor_u64; first [done | lia | apply u64_range].
Qed.

Lemma pg_xosh_next_u64 r : in_u64 (fst (pg_xosh_next r)).
Proof. apply u64_range. Qed.

Lemma pg_xosh_next_inj r r' :
  xosh_wf r -> xosh_wf r' -> snd (pg_xosh_next r) = snd (pg_xosh_next r') -> r = r'.
Proof.
  destruct r as [a b c d], r' as [a' b' c' d']. intros (?&?&?&?) (?&?&?&?).
  cbn in *. intros [= E0 E1 E2 E3].
  apply rotl_inj in E3; [|lia|by apply lxor_u64..].
  rewrite E3 in E0. apply lxor_cancel_r in E0 as <-.
  assert (Eb : b = b').
  { apply (xorshift_l_inj 17); [lia|done..|].
    by rewrite (lxor_chain b (Z.lxor c a)), (lxor_chain b' (Z.lxor c' a)), E1, E2. }
  subst b'. apply lxor_cancel_l, lxor_cancel_r in E1 as <-.
  by apply lxor_cancel_r in E3 as <-.
Qed.

Lemma pg_xosh_next_live r : xosh_live r -> xosh_live (snd (pg_xosh_next r)).
Proof.
  intros [Hwf Hnz]. split; [by apply pg_xosh_next_wf|]. intros H. apply Hnz.
  apply pg_xosh_next_inj; [done|by unfold xosh_wf; cbn; lia|].
  by rewrite H.
Qed.

Lemma pg_xosh_seed_live seed : xosh_live (pg_xosh_seed seed).
Proof. split; [apply pg_xosh_seed_wf|apply pg_xosh_seed_nonzero]. Qed.

Lemma xosh_draws_live n r :
  xosh_live r -> xosh_live (snd (xosh_draws n r)) /\
  Forall (fun x => in_u64 x) (fst (xosh_draws n r)) /\ length (fst (xosh_draws n r)) = n.
Proof.
  revert r; induction n as [|n IH]; intros r Hr; cbn [xosh_draws]; [split_and!; [done|constructor|done]|].
  pose proof (pg_xosh_next_live r Hr) as Hn. pose proof (pg_xosh_next_u64 r) as Hu.
  destruct (pg_xosh_next r) as [x r']. specialize (IH r' Hn).
  destruct (xosh_draws n r') as [xs r'']. cbn [fst snd] in *. deex.
  split; [done|]. split; [by constructor|cbn; congruence].
Qed.

#[export] Hint Resolve pg_xosh_seed_wf pg_xosh_seed_live pg_xosh_next_wf pg_xosh_next_live
  pg_xosh_next_u64 : pg.

(** ** Properties *)

(** C35: a seeded generator never gets stuck: whatever the seed and however many
    draws were made, the state is four 64-bit words that are not all zero (the
    fixed point of the generator), and the draws are 64-bit words. *)
Theorem xosh_never_stuck seed n :
  xosh_live (xosh_draws n (pg_xosh_seed seed)).2 /\
  Forall (fun x => in_u64 x) (xosh_draws n (pg_xosh_seed seed)).1 /\
  length (xosh_draws n (pg_xosh_seed seed)).1 = n.
Proof. apply xosh_draws_live, pg_xosh_seed_live. Qed.

(** Two seeds are the same to the generator: equal, or the pair the source
    identifies by replacing seed 0. *)
Definition same_seed (a b : Z) : Prop :=
  a = b \/ (a = 0 /\ b = SEED_ZERO_REMAP) \/ (a = SEED_ZERO_REMAP /\ b = 0).

Lemma pg_xosh_seed_remap : pg_xosh_seed 0 = pg_xosh_seed SEED_ZERO_REMAP.
Proof. reflexivity. Qed.

Lemma remap_u64 : in_u64 SEED_ZERO_REMAP /\ SEED_ZERO_REMAP <> 0.
Proof. unfold SEED_ZERO_REMAP. lia. Qed.

Lemma pg_xosh_seed_same a b :
  in_u64 a -> in_u64 b -> pg_xosh_seed a = pg_xosh_seed b <-> same_seed a b.
Proof.
  intros Ha Hb. unfold same_seed. pose proof remap_u64 as [Hr Hn]. split.
  - destruct (decide (a = 0)) as [->|Na], (decide (b = 0)) as [->|Nb]; intros H; [by left|..].
    + rewrite pg_xosh_seed_remap in H. apply pg_xosh_seed_inj in H; auto.
    + rewrite pg_xosh_seed_remap in H. apply pg_xosh_seed_inj in H; auto.
    + left. by apply pg_xosh_seed_inj.
  - intros [-> | [[-> ->] | [-> ->]]]; [done|apply pg_xosh_seed_remap|symmetry; apply pg_xosh_seed_remap].
Qed.

(** [n] steps lose no information about the state. *)
Lemma xosh_draws_inj n r r' :
  xosh_wf r -> xosh_wf r' -> (xosh_draws n r).2 = (xosh_draws n r').2 -> r = r'.
Proof.
  revert r r'; induction n as [|n IH]; intros r r' Hr Hr' H; cbn [xosh_draws] in H; [done|].
  apply pg_xosh_next_inj; [done..|].
  pose proof (pg_xosh_next_wf r Hr) as H1. pose proof (pg_xosh_next_wf r' Hr') as H2.
  destruct (pg_xosh_next r) as [x s], (pg_xosh_next r') as [x' s']. cbn [snd] in *.
  apply (IH _ _ H1 H2). destruct (xosh_draws n s), (xosh_draws n s'). done.
Qed.

(** Replay needs the right seed: after any number of draws two runs are in
    the same generator state exactly when their 64-bit seeds are equal, with the
    single exception of seed 0 and its replacement 0xDEADBEEFDEADBEEF. *)
Theorem xosh_seed_determines a b n :
  in_u64 a -> in_u64 b ->
  ((xosh_draws n (pg_xosh_seed a)).2 = (xosh_draws n (pg_xosh_seed b)).2 <-> same_seed a b).
Proof.
  intros Ha Hb. rewrite <- pg_xosh_seed_same by done. split; [|by intros ->].
  apply xosh_draws_inj; apply pg_xosh_seed_wf.
Qed.

Lemma xosh_seed_determines_witness :
  (xosh_draws 3 (pg_xosh_seed 1)).2 = (xosh_draws 3 (pg_xosh_seed 2)).2 <-> same_seed 1 2.
Proof. apply (xosh_seed_determines 1 2 3); lia. Defined.
