(* ===== verification/Event.v ===== *)
(** * The wire record (include/playground/event.h, src/core/runner.c)

    [pg_event_t] with its exact 256-byte object representation on the
    supported (little-endian, LP64) targets, the kind and category names, and
    the constructors behind the scenario-side emit API: what [pg_logf],
    [pg_phase], [pg_count], ... put in the record before they call [pg_emit]. *)

From S2P Require Import Prelude.

(** ** Kinds and categories *)

(* @ include/playground/event.h:15-29 pg_event_kind_t *)
Inductive pg_event_kind_t :=
| PG_EV_LOG | PG_EV_COUNTER | PG_EV_GAUGE | PG_EV_PHASE | PG_EV_EXPECT
| PG_EV_ACTUAL | PG_EV_SUT_FAULT | PG_EV_DONE | PG_EV_CHILD_CRASH | PG_EV_WATCHDOG.

#[export] Instance pg_event_kind_t_eq_dec : EqDecision pg_event_kind_t.
Proof. solve_decision. Defined.

(* @ include/playground/event.h:15-29 pg_event_kind_t *)
Definition kind_code (k : pg_event_kind_t) : Z :=
  match k with
  | PG_EV_LOG => 0 | PG_EV_COUNTER => 1 | PG_EV_GAUGE => 2 | PG_EV_PHASE => 3
  | PG_EV_EXPECT => 4 | PG_EV_ACTUAL => 5 | PG_EV_SUT_FAULT => 6 | PG_EV_DONE => 7
  | PG_EV_CHILD_CRASH => 8 | PG_EV_WATCHDOG => 9
  end.

Definition all_kinds : list pg_event_kind_t :=
  [PG_EV_LOG; PG_EV_COUNTER; PG_EV_GAUGE; PG_EV_PHASE; PG_EV_EXPECT;
   PG_EV_ACTUAL; PG_EV_SUT_FAULT; PG_EV_DONE; PG_EV_CHILD_CRASH; PG_EV_WATCHDOG].

(** The enumerator a 32-bit [kind] field denotes, if any. *)
Definition kind_of_code (z : Z) : option pg_event_kind_t :=
  list_find (fun k => kind_code k = z) all_kinds ≫= fun p => Some p.2.

(* @ src/core/runner.c pg_event_kind_name *)
Definition pg_event_kind_name (z : Z) : string :=
  match kind_of_code z with
  | Some PG_EV_LOG => "log"
  | Some PG_EV_COUNTER => "counter"
  | Some PG_EV_GAUGE => "gauge"
  | Some PG_EV_PHASE => "phase"
  | Some PG_EV_EXPECT => "expect"
  | Some PG_EV_ACTUAL => "actual"
  | Some PG_EV_SUT_FAULT => "sut_fault"
  | Some PG_EV_DONE => "done"
  | Some PG_EV_CHILD_CRASH => "child_crash"
  | Some PG_EV_WATCHDOG => "watchdog"
  | None => "?"
  end.

(* @ include/playground/scenario.h:19-27 pg_category_t *)
Inductive pg_category_t :=
| PG_CAT_CONCURRENCY | PG_CAT_MEMORY | PG_CAT_NETWORK | PG_CAT_TIMEIO
| PG_CAT_COMPOUND | PG_CAT__COUNT.

#[export] Instance pg_category_t_eq_dec : EqDecision pg_category_t.
Proof. solve_decision. Defined.

(* @ src/core/runner.c pg_category_name *)
Definition pg_category_name (cat : pg_category_t) : string :=
  match cat with
  | PG_CAT_CONCURRENCY => "concurrency"
  | PG_CAT_MEMORY => "memory"
  | PG_CAT_NETWORK => "network"
  | PG_CAT_TIMEIO => "timeio"
  | PG_CAT_COMPOUND => "compound"
  | PG_CAT__COUNT => "?"
  end.

(** ** The record *)

(* @ include/playground/event.h:33-33 PG_EVENT_KEY_LEN *)
Definition PG_EVENT_KEY_LEN : nat := 32.
(* @ include/playground/event.h:34-34 PG_EVENT_TEXT_LEN *)
Definition PG_EVENT_TEXT_LEN : nat := 192.

(* @ include/playground/event.h:36-36 PG_EVENT_MAGIC *)
Definition PG_EVENT_MAGIC : Z := 0xE5E7.
(* @ include/playground/event.h:37-37 PG_EVENT_VERSION *)
Definition PG_EVENT_VERSION : Z := 1.

(** [ev_pad1] holds the four implicit padding bytes before [ts_ns]. *)
(* @ include/playground/event.h:44-58 pg_event_t *)
Record pg_event_t := Event {
  ev_magic : Z;        (* uint16_t *)
  ev_version : Z;      (* uint8_t *)
  ev_pad0 : Z;         (* uint8_t *)
  ev_kind : Z;         (* uint32_t *)
  ev_thread_tag : Z;   (* uint32_t *)
  ev_pad1 : Z;
  ev_ts_ns : Z;        (* uint64_t *)
  ev_num : Z;          (* int64_t *)
  ev_key : list Z;     (* char[32] *)
  ev_text : list Z     (* char[192] *)
}.

#[export] Instance pg_event_t_eq_dec : EqDecision pg_event_t.
Proof. solve_decision. Defined.

Record event_wf (e : pg_event_t) : Prop := {
  wf_magic : in_u16 (ev_magic e);
  wf_version : in_u8 (ev_version e);
  wf_pad0 : in_u8 (ev_pad0 e);
  wf_kind : in_u32 (ev_kind e);
  wf_tag : in_u32 (ev_thread_tag e);
  wf_pad1 : in_u32 (ev_pad1 e);
  wf_ts : in_u64 (ev_ts_ns e);
  wf_num : in_i64 (ev_num e);
  wf_key_len : length (ev_key e) = PG_EVENT_KEY_LEN;
  wf_key : are_bytes (ev_key e);
  wf_text_len : length (ev_text e) = PG_EVENT_TEXT_LEN;
  wf_text : are_bytes (ev_text e)
}.

(** ** Object representation *)

Definition EVENT_SIZE : nat := 256.

(* @ include/playground/event.h:44-58 pg_event_t *)
Definition encode (e : pg_event_t) : list Z :=
  le_bytes 2 (ev_magic e) ++ le_bytes 1 (ev_version e) ++ le_bytes 1 (ev_pad0 e) ++
  le_bytes 4 (ev_kind e) ++ le_bytes 4 (ev_thread_tag e) ++ le_bytes 4 (ev_pad1 e) ++
  le_bytes 8 (ev_ts_ns e) ++ le_bytes 8 (u64 (ev_num e)) ++ ev_key e ++ ev_text e.

(** Field [n] bytes long at offset [off]. *)
Definition field (off n : nat) (b : list Z) : list Z := take n (drop off b).

(* @ include/playground/event.h:44-58 pg_event_t *)
Definition decode (b : list Z) : pg_event_t :=
  {| ev_magic := le_val (field 0 2 b);
     ev_version := le_val (field 2 1 b);
     ev_pad0 := le_val (field 3 1 b);
     ev_kind := le_val (field 4 4 b);
     ev_thread_tag := le_val (field 8 4 b);
     ev_pad1 := le_val (field 12 4 b);
     ev_ts_ns := le_val (field 16 8 b);
     ev_num := i64 (le_val (field 24 8 b));
     ev_key := field 32 32 b;
     ev_text := field 64 192 b |}.

(** ** The strings in a record

    [key] and [text] as [char *]: what a record read from the pipe holds need not
    end them.  A key without a NUL goes on into the text, which it is followed by;
    a text without one goes on behind the record. *)

(* @ include/playground/event.h:54-55 pg_event_t *)
Definition key_chars (e : pg_event_t) : list Z := ev_key e ++ ev_text e.

Definition key_ends (e : pg_event_t) : bool := has_nul (key_chars e).
Definition text_ends (e : pg_event_t) : bool := has_nul (ev_text e).

(** Both strings end in their own arrays. *)
Definition strings_end (e : pg_event_t) : Prop := has_nul (ev_key e) = true /\ has_nul (ev_text e) = true.

Lemma text_key_ends e : text_ends e = true -> key_ends e = true.
Proof. intros H. unfold key_ends, key_chars. rewrite has_nul_app. unfold text_ends in H. by rewrite H, orb_true_r. Qed.

Lemma key_chars_bytes e : event_wf e -> are_bytes (key_chars e).
Proof. intros Hw. apply Forall_app. split; apply Hw. Qed.
#[export] Hint Resolve key_chars_bytes : pg.

Lemma cstr_key_chars e : strings_end e -> cstr (key_chars e) = cstr (ev_key e).
Proof. intros [H _]. by apply cstr_app_nul. Qed.

(** ** What the emit helpers build *)

(** [{ .kind = k }]: every other member zero. *)
Definition ev_init (k : pg_event_kind_t) : pg_event_t :=
  Event 0 0 0 (kind_code k) 0 0 0 0
        (replicate PG_EVENT_KEY_LEN 0) (replicate PG_EVENT_TEXT_LEN 0).

Definition ev_set_text (t : list Z) (e : pg_event_t) : pg_event_t :=
  Event (ev_magic e) (ev_version e) (ev_pad0 e) (ev_kind e) (ev_thread_tag e) (ev_pad1 e)
        (ev_ts_ns e) (ev_num e) (ev_key e) t.

(** [pg_logf]: the argument is the text after conversion of the format. *)
(* @ src/core/runner.c pg_logf *)
Definition pg_logf (text : string) : pg_event_t :=
  ev_set_text (snprintf PG_EVENT_TEXT_LEN (str text)) (ev_init PG_EV_LOG).

(* @ src/core/runner.c pg_phase *)
Definition pg_phase (name : option string) : pg_event_t :=
  ev_set_text (snprintf PG_EVENT_TEXT_LEN (str (default EmptyString name))) (ev_init PG_EV_PHASE).

(* @ src/core/runner.c emit_kv *)
Definition emit_kv (k : pg_event_kind_t) (key : option string) (v : Z) : pg_event_t :=
  let e := ev_init k in
  Event (ev_magic e) (ev_version e) (ev_pad0 e) (ev_kind e) (ev_thread_tag e) (ev_pad1 e)
        (ev_ts_ns e) v (snprintf PG_EVENT_KEY_LEN (str (default EmptyString key))) (ev_text e).

(* @ src/core/runner.c:104-104 pg_count *)
Definition pg_count (key : option string) (v : Z) : pg_event_t := emit_kv PG_EV_COUNTER key v.
(* @ src/core/runner.c:105-105 pg_gauge *)
Definition pg_gauge (key : option string) (v : Z) : pg_event_t := emit_kv PG_EV_GAUGE key v.
(* @ src/core/runner.c:106-106 pg_expect *)
Definition pg_expect (key : option string) (v : Z) : pg_event_t := emit_kv PG_EV_EXPECT key v.
(* @ src/core/runner.c:107-107 pg_actual *)
Definition pg_actual (key : option string) (v : Z) : pg_event_t := emit_kv PG_EV_ACTUAL key v.

(* @ src/core/runner.c pg_sut_fault *)
Definition pg_sut_fault (what : option string) : pg_event_t :=
  ev_set_text (snprintf PG_EVENT_TEXT_LEN (str (default EmptyString what))) (ev_init PG_EV_SUT_FAULT).

(* @ src/core/runner.c pg_watchdog *)
Definition pg_watchdog (what : option string) : pg_event_t :=
  ev_set_text (snprintf PG_EVENT_TEXT_LEN (str (default EmptyString what))) (ev_init PG_EV_WATCHDOG).

(* @ src/core/runner.c pg_done *)
Definition pg_done : pg_event_t := ev_init PG_EV_DONE.

(** ** Lemmas *)

Lemma kind_of_code_code k : kind_of_code (kind_code k) = Some k.
Proof. by destruct k. Qed.

Lemma kind_of_code_Some z k : kind_of_code z = Some k -> z = kind_code k.
Proof.
  unfold kind_of_code. destruct (list_find _ _) as [[i k']|] eqn:E; cbn; [|done].
  apply list_find_Some in E. intros [= <-]. by deex.
Qed.

Lemma kind_code_inj k k' : kind_code k = kind_code k' -> k = k'.
Proof. by destruct k, k'. Qed.

(** Distinct kinds have distinct printed names, so the name identifies the kind. *)
Lemma pg_event_kind_name_inj k k' :
  pg_event_kind_name (kind_code k) = pg_event_kind_name (kind_code k') -> k = k'.
Proof. by destruct k, k'. Qed.

Lemma length_encode e :
  length (ev_key e) = PG_EVENT_KEY_LEN -> length (ev_text e) = PG_EVENT_TEXT_LEN ->
  length (encode e) = EVENT_SIZE.
Proof. intros Hk Ht. unfold encode. rewrite !length_app, !length_le_bytes, Hk, Ht. done. Qed.

Lemma are_bytes_encode e : event_wf e -> are_bytes (encode e).
Proof. intros []. unfold encode. rewrite !Forall_app. split_and!; auto with pg. Qed.

(** The field after a prefix of known length. *)
Lemma field_app off n a b : length a = off -> field off n (a ++ b) = take n b.
Proof. intros <-. unfold field. by rewrite drop_app_length. Qed.

Lemma field_skip off n a b :
  (length a <= off)%nat -> field off n (a ++ b) = field (off - length a) n b.
Proof. intros H. unfold field. rewrite drop_app_ge by done. done. Qed.

Lemma field_here n a b : length a = n -> field 0 n (a ++ b) = a.
Proof. intros <-. unfold field. by rewrite drop_0, take_app_length. Qed.

Ltac fields :=
  repeat first
    [ rewrite field_here by (rewrite ?length_le_bytes; done)
    | rewrite field_skip by (rewrite ?length_le_bytes; lia);
      rewrite length_le_bytes; cbn [Nat.sub] ].

Lemma decode_encode e : event_wf e -> decode (encode e) = e.
Proof.
  intros []. unfold decode, encode. fields.
  rewrite !le_val_le_bytes, !Z.mod_small by (cbn; unfold u64; zlia).
  rewrite i64_u64, i64_small by done. destruct e; cbn in *. f_equal.
  unfold PG_EVENT_KEY_LEN in *. rewrite drop_app_ge, wf_key_len0 by lia. cbn. rewrite drop_0.
  apply take_ge. by rewrite wf_text_len0.
Qed.

(** The text is the end of a record. *)
Lemma drop_encode_text e : event_wf e -> drop 64 (encode e) = ev_text e.
Proof.
  intros Hw. pose proof (f_equal ev_text (decode_encode e Hw)) as H. cbn [decode ev_text] in H.
  unfold field in H. rewrite take_ge in H; [done|]. rewrite length_drop, length_encode by apply Hw. unfold EVENT_SIZE. lia.
Qed.

(** Where a record made of two ends its text. *)
Lemma text_ends_splice e1 e2 k :
  event_wf e1 -> event_wf e2 -> (64 <= k < EVENT_SIZE)%nat ->
  text_ends (decode (take k (encode e1) ++ take (EVENT_SIZE - k) (encode e2)))
  = has_nul (take (k - 64) (ev_text e1)) || has_nul (take (EVENT_SIZE - k) (encode e2)).
Proof.
  intros H1 H2 Hk. rewrite <- has_nul_app, <- (drop_encode_text e1) by done.
  assert (L1 : length (encode e1) = EVENT_SIZE) by (apply length_encode; apply H1).
  assert (L2 : length (encode e2) = EVENT_SIZE) by (apply length_encode; apply H2).
  unfold text_ends. cbn [decode ev_text]. unfold field, EVENT_SIZE in *.
  rewrite drop_app_le by (rewrite length_take; lia).
  replace (drop 64 (take k (encode e1))) with (take (k - 64) (drop 64 (encode e1))).
  - rewrite take_ge; [done|]. rewrite length_app, !length_take, length_drop. lia.
  - by rewrite take_drop_commute, Nat.add_comm, Nat.sub_add by lia.
Qed.

Lemma encode_inj e e' : event_wf e -> event_wf e' -> encode e = encode e' -> e = e'.
Proof. intros H H' E. by rewrite <- (decode_encode e), <- (decode_encode e'), E. Qed.

Lemma are_bytes_field off n b : are_bytes b -> are_bytes (field off n b).
Proof. intros. by apply Forall_take, Forall_drop. Qed.

Lemma length_field off n b : (off + n <= length b)%nat -> length (field off n b) = n.
Proof. intros. unfold field. rewrite length_take, length_drop. lia. Qed.

Lemma le_val_field off n b : 
  are_bytes b -> (off + n <= length b)%nat -> 0 <= le_val (field off n b) < 256 ^ Z.of_nat n.
Proof.
  intros Hb Hl. rewrite <- (length_field off n b) at 3 by done.
  by apply le_val_range, are_bytes_field.
Qed.

Lemma le_bytes_field off n b :
  are_bytes b -> (off + n <= length b)%nat ->
  le_bytes n (le_val (field off n b)) = field off n b.
Proof.
  intros Hb Hl. rewrite <- (length_field off n b) at 1 by done.
  by apply le_bytes_le_val, are_bytes_field.
Qed.

Lemma decode_wf b : are_bytes b -> length b = EVENT_SIZE -> event_wf (decode b).
Proof.
  intros Hb Hl. unfold EVENT_SIZE in Hl.
  split; cbn [ev_magic ev_version ev_pad0 ev_kind ev_thread_tag ev_pad1 ev_ts_ns ev_num
              ev_key ev_text decode].
  1-7: match goal with |- context [field ?o ?n ?c] =>
         exact (le_val_field o n c Hb ltac:(lia)) end.
  - apply i64_range.
  - apply length_field. unfold PG_EVENT_KEY_LEN, PG_EVENT_TEXT_LEN; lia.
  - by apply are_bytes_field.
  - apply length_field. unfold PG_EVENT_KEY_LEN, PG_EVENT_TEXT_LEN; lia.
  - by apply are_bytes_field.
Qed.

Lemma field_join off n m b : field off n b ++ field (off + n) m b = field off (n + m) b.
Proof. unfold field. rewrite <- drop_drop, take_take_drop. done. Qed.

Ltac join off n m b :=
  let k := eval cbv in (off + n)%nat in
  change (field k m b) with (field (off + n) m b); rewrite field_join; cbn [Nat.add].

(** Every 256-byte block is the representation of the record it decodes to. *)
Lemma encode_decode b : are_bytes b -> length b = EVENT_SIZE -> encode (decode b) = b.
Proof.
  intros Hb Hl. unfold EVENT_SIZE in Hl. unfold encode.
  cbn [ev_magic ev_version ev_pad0 ev_kind ev_thread_tag ev_pad1 ev_ts_ns ev_num
              ev_key ev_text decode].
  pose proof (le_val_field 24 8 b Hb ltac:(lia)) as Hn.
  rewrite u64_i64, u64_small by done.
  rewrite !le_bytes_field by (done || lia).
  join 32%nat 32%nat 192%nat b. join 24%nat 8%nat 224%nat b. join 16%nat 8%nat 232%nat b. join 12%nat 4%nat 240%nat b. join 8%nat 4%nat 244%nat b.
  join 4%nat 4%nat 248%nat b. join 3%nat 1%nat 252%nat b. join 2%nat 1%nat 253%nat b. join 0%nat 2%nat 254%nat b.
  unfold field. rewrite drop_0. apply take_ge. cbn. lia.
Qed.

Lemma snprintf_str_bytes n s : are_bytes (snprintf n (str s)).
Proof. auto with pg. Qed.

Lemma ev_init_wf k : event_wf (ev_init k).
Proof.
  split; cbn -[replicate]; try lia; try done.
  - destruct k; cbn; lia.
  - by apply Forall_replicate.
  - by apply Forall_replicate.
Qed.

Lemma ev_set_text_wf t e :
  event_wf e -> length t = PG_EVENT_TEXT_LEN -> are_bytes t -> event_wf (ev_set_text t e).
Proof. intros []; by split. Qed.

Lemma ev_text_wf n k s :
  n = PG_EVENT_TEXT_LEN -> event_wf (ev_set_text (snprintf n (str s)) (ev_init k)).
Proof.
  intros ->. apply ev_set_text_wf; [apply ev_init_wf| |auto with pg].
  apply length_snprintf. cbv; lia.
Qed.

Lemma emit_kv_wf k key v : in_i64 v -> event_wf (emit_kv k key v).
Proof.
  intros Hv. destruct (ev_init_wf k).
  split; cbn; try done; auto with pg. apply length_snprintf. unfold PG_EVENT_KEY_LEN. lia.
Qed.

(** The helpers end their strings. *)
Lemma ev_init_strings k : strings_end (ev_init k).
Proof. by split. Qed.

Lemma ev_text_strings n k s : n = PG_EVENT_TEXT_LEN -> strings_end (ev_set_text (snprintf n (str s)) (ev_init k)).
Proof. intros ->. split; [done|]. apply has_nul_snprintf. unfold PG_EVENT_TEXT_LEN. lia. Qed.

Lemma emit_kv_strings k key v : strings_end (emit_kv k key v).
Proof. split; [|done]. apply has_nul_snprintf. unfold PG_EVENT_KEY_LEN. lia. Qed.

#[export] Hint Resolve ev_init_strings ev_text_strings emit_kv_strings : pg.
#[export] Hint Resolve ev_init_wf ev_text_wf emit_kv_wf : pg.

(** ** Properties *)

(** C8: the wire record: every well-formed event is 256 bytes on the wire and
    decodes to itself, and conversely every 256-byte block is the representation
    of exactly one well-formed event, the one it decodes to. *)
Theorem event_wire_roundtrip e b :
  event_wf e -> are_bytes b -> length b = EVENT_SIZE ->
  length (encode e) = EVENT_SIZE /\ are_bytes (encode e) /\ decode (encode e) = e /\
  event_wf (decode b) /\ encode (decode b) = b.
Proof.
  intros He Hb Hl. split; [apply length_encode; apply He|]. split; [by apply are_bytes_encode|].
  split; [by apply decode_encode|]. split; [by apply decode_wf|by apply encode_decode].
Qed.

Lemma event_wire_roundtrip_witness :
  let e := emit_kv PG_EV_COUNTER (Some "writes"%string) (-3) in
  let b := replicate EVENT_SIZE 7 in
  length (encode e) = EVENT_SIZE /\ are_bytes (encode e) /\ decode (encode e) = e /\
  event_wf (decode b) /\ encode (decode b) = b.
Proof.
  apply event_wire_roundtrip; [apply emit_kv_wf; lia|by apply Forall_replicate|reflexivity].
Defined.
