(* ===== verification/Registry.v ===== *)
(** * The scenario contract and the plug-in registry
    (include/playground/scenario.h, src/core/registry.c)

    Callbacks are function pointers of a type [C]; what calling one does is
    an argument of the runner's definitions. The registry is the filled prefix
    [g_reg[0 .. g_reg_n)] of the static array. *)

From S2P Require Import Prelude Event.

Section Registry.
Context {C : Type}.

(* @ include/playground/scenario.h:33-52 pg_scenario_t *)
Record pg_scenario_t := Scenario {
  sc_id : string;
  sc_title : string;
  sc_one_liner : string;
  sc_description : string;
  sc_expected : string;
  sc_lesson : option string;
  sc_category : pg_category_t;
  sc_init : option C;
  sc_run : C;
  sc_teardown : option C;
  sc_explain : option C
}.

(* @ src/core/registry.c:5-5 PG_REG_MAX *)
Definition PG_REG_MAX : nat := 256.

(* @ src/core/registry.c pg_registry_add *)
Definition pg_registry_add (s : option pg_scenario_t) (g_reg : list pg_scenario_t)
  : list pg_scenario_t :=
  match s with
  | Some s => if (length g_reg <? PG_REG_MAX)%nat then g_reg ++ [s] else g_reg
  | None => g_reg
  end.

(* @ src/core/registry.c pg_registry_list *)
Definition pg_registry_list (g_reg : list pg_scenario_t) : list pg_scenario_t * nat :=
  (g_reg, length g_reg).

Fixpoint find_id (id : list Z) (l : list pg_scenario_t) : option pg_scenario_t :=
  match l with
  | [] => None
  | s :: l => if decide (cstr (str (sc_id s)) = id) then Some s else find_id id l
  end.

(* @ src/core/registry.c pg_registry_find *)
Definition pg_registry_find (id : option string) (g_reg : list pg_scenario_t)
  : option pg_scenario_t :=
  match id with
  | None => None
  | Some id => find_id (cstr (str id)) g_reg
  end.

(** One constructor per linked scenario file, run in link order. *)
(* @ include/playground/scenario.h:54-58 PG_SCENARIO_REGISTER *)
Definition PG_SCENARIO_REGISTER (descs : list pg_scenario_t) : list pg_scenario_t :=
  foldl (fun reg d => pg_registry_add (Some d) reg) [] descs.

(** ** Lemmas *)

Definition same_id (id : string) (s : pg_scenario_t) : Prop :=
  cstr (str (sc_id s)) = cstr (str id).

#[export] Instance same_id_dec id s : Decision (same_id id s).
Proof. unfold same_id. apply _. Defined.

Lemma find_id_app id l1 l2 :
  find_id id (l1 ++ l2) = match find_id id l1 with Some s => Some s | None => find_id id l2 end.
Proof. induction l1 as [|s l IH]; cbn; [done|]. by case_decide. Qed.

Lemma find_id_Some id l s :
  find_id id l = Some s <->
  exists l1 l2, l = l1 ++ s :: l2 /\ cstr (str (sc_id s)) = id /\
                Forall (fun t => cstr (str (sc_id t)) <> id) l1.
Proof.
  split.
  - induction l as [|t l IH]; cbn; [done|]. case_decide.
    + intros [= <-]. by exists [], l.
    + intros Hf. destruct (IH Hf) as (l1 & l2 & -> & Hs & Hl).
      exists (t :: l1), l2. by repeat constructor.
  - intros (l1 & l2 & -> & Hs & Hl). rewrite find_id_app.
    assert (find_id id l1 = None) as ->.
    { induction Hl; cbn; [done|]. by case_decide. }
    cbn. by case_decide.
Qed.

Lemma find_id_None id l :
  find_id id l = None <-> Forall (fun t => cstr (str (sc_id t)) <> id) l.
Proof.
  induction l as [|t l IH]; cbn; [by split; constructor|].
  rewrite Forall_cons, <- IH. case_decide; split; intros; deex; done.
Qed.

Lemma pg_registry_add_length s reg :
  (length reg <= PG_REG_MAX)%nat -> (length (pg_registry_add s reg) <= PG_REG_MAX)%nat.
Proof.
  intros. destruct s; unfold pg_registry_add; [|done]. destruct (Nat.ltb_spec (length reg) PG_REG_MAX); [|done].
  rewrite length_app. cbn [length]. lia.
Qed.

Lemma pg_scenario_register_take descs :
  PG_SCENARIO_REGISTER descs = take PG_REG_MAX descs.
Proof.
  unfold PG_SCENARIO_REGISTER. rewrite <- (app_nil_l (take _ _)).
  assert (H : forall reg, (length reg <= PG_REG_MAX)%nat ->
    foldl (fun reg d => pg_registry_add (Some d) reg) reg descs
    = reg ++ take (PG_REG_MAX - length reg) descs).
  { induction descs as [|d descs IH]; intros reg Hr; cbn [foldl]; [by rewrite take_nil, app_nil_r|].
    rewrite IH by by apply pg_registry_add_length. cbn [pg_registry_add].
    destruct (Nat.ltb_spec (length reg) PG_REG_MAX) as [Hlt|Hge].
    - rewrite length_app. cbn [length].
      replace (PG_REG_MAX - length reg)%nat with (S (PG_REG_MAX - (length reg + 1))) by lia.
      cbn [take]. by rewrite <- app_assoc.
    - replace (PG_REG_MAX - length reg)%nat with O by lia. done. }
  rewrite H by (cbn; lia). by rewrite Nat.sub_0_r.
Qed.

(** ** Properties *)

(** Lookup finds the first match: after the linked constructors ran,
    [pg_registry_find] returns the first registered scenario with that id among
    the first 256 linked, and NULL exactly when none of those has it; scenario
    number 257 and later are silently lost. *)
Theorem registry_find_first descs id :
  let reg := PG_SCENARIO_REGISTER descs in
  pg_registry_list reg = (take PG_REG_MAX descs, Nat.min PG_REG_MAX (length descs)) /\
  (pg_registry_find (Some id) reg = None <->
     Forall (fun t => ~ same_id id t) (take PG_REG_MAX descs)) /\
  (forall s, pg_registry_find (Some id) reg = Some s <->
     exists l1 l2, take PG_REG_MAX descs = l1 ++ s :: l2 /\ same_id id s /\
                   Forall (fun t => ~ same_id id t) l1).
Proof.
  cbn zeta. rewrite pg_scenario_register_take. unfold pg_registry_list.
  rewrite length_take. split; [done|]. split; [apply find_id_None|].
  intros s. apply find_id_Some.
Qed.

End Registry.

Arguments pg_scenario_t : clear implicits.
