(* ===== verification/Runner.v ===== *)
(** * The fork runner and the event pipe (src/core/runner.c)

    The child side ([pg_emit], the fault handler, the run itself), the parent
    side ([pg_run_start], [pg_run_poll], [pg_run_abort], [pg_run_reap]).  The
    kernel's answers to [write], [read], [poll], [pipe], [fork] and [waitpid] are
    lists of results consumed call by call; a call with no answer left has not
    returned yet. *)

From S2P Require Import Prelude CLib Rand Event Registry.

(** ** Run context *)

(* @ src/core/runner.c:21-27 pg_runctx *)
Record pg_runctx := RunCtx {
  event_fd_w : Z;
  ctx_seed : Z;
  ctx_rng : pg_xosh_t;
  ctx_thread_tag : Z;
  ctx_start_ns : Z
}.

Definition ctx_set_rng (r : pg_xosh_t) (c : pg_runctx) : pg_runctx :=
  RunCtx (event_fd_w c) (ctx_seed c) r (ctx_thread_tag c) (ctx_start_ns c).

(* @ src/core/runner.c pg_runctx_seed *)
Definition pg_runctx_seed (ctx : option pg_runctx) : Z :=
  match ctx with Some c => ctx_seed c | None => 0 end.

(* @ src/core/runner.c pg_runctx_rand *)
Definition pg_runctx_rand (ctx : option pg_runctx) : Z * option pg_runctx :=
  match ctx with
  | Some c =>
      let '(x, r) := pg_xosh_next (ctx_rng c) in
      (x, Some (ctx_set_rng r c))
  | None => (0, None)
  end.

(** [atomic_fetch_add(&g_next_thread_tag, 1)]: the tag and the new counter. *)
(* @ src/core/runner.c pg_alloc_thread_tag *)
Definition pg_alloc_thread_tag (g_next_thread_tag : Z) : Z * Z :=
  (g_next_thread_tag, u32 (g_next_thread_tag + 1)).

(** From the [timespec] of [clock_gettime]. *)
(* @ src/core/runner.c now_ns *)
Definition now_ns (tv_sec tv_nsec : Z) : Z :=
  u64 (u64 (u64 tv_sec * 1000000000) + u64 tv_nsec).

(** ** Writing a record *)

Inductive wres := WOk (w : nat) | WEintr | WFail.

#[export] Instance wres_eq_dec : EqDecision wres.
Proof. solve_decision. Defined.

Inductive wstatus := WDone | WBroken | WBlocked.

(** Bytes accepted by the pipe, how the loop ended, unused answers. *)
(* @ src/core/runner.c:71-80 pg_emit *)
Fixpoint write_loop (ws : list wres) (p : list Z) : list Z * wstatus * list wres :=
  match p with
  | [] => ([], WDone, ws)
  | _ =>
    match ws with
    | [] => ([], WBlocked, [])
    | WEintr :: ws => write_loop ws p
    | WFail :: ws => ([], WBroken, ws)
    | WOk w :: ws =>
        let '(out, st, ws) := write_loop ws (drop w p) in (take w p ++ out, st, ws)
    end
  end.

(** The header stamp, the timestamp and the attribution. *)
(* @ src/core/runner.c:58-66 pg_emit *)
Definition pg_emit_copy (ctx : pg_runctx) (g_thread_tag now : Z) (ev : pg_event_t)
  : pg_event_t :=
  {| ev_magic := PG_EVENT_MAGIC;
     ev_version := PG_EVENT_VERSION;
     ev_pad0 := ev_pad0 ev;
     ev_kind := ev_kind ev;
     ev_thread_tag :=
       if ev_thread_tag ev =? 0
       then (if g_thread_tag =? 0 then ctx_thread_tag ctx else g_thread_tag)
       else ev_thread_tag ev;
     ev_pad1 := ev_pad1 ev;
     ev_ts_ns := if ev_ts_ns ev =? 0 then u64 (now - ctx_start_ns ctx) else ev_ts_ns ev;
     ev_num := ev_num ev;
     ev_key := ev_key ev;
     ev_text := ev_text ev |}.

(* @ src/core/runner.c pg_emit *)
Definition pg_emit (g_runctx ctx : option pg_runctx) (g_thread_tag now : Z)
    (ev : option pg_event_t) (ws : list wres) : list Z * wstatus * list wres :=
  match (match ctx with None => g_runctx | Some c => Some c end), ev with
  | Some c, Some ev =>
      if event_fd_w c <? 0 then ([], WDone, ws)
      else write_loop ws (encode (pg_emit_copy c g_thread_tag now ev))
  | _, _ => ([], WDone, ws)
  end.

(** ** The fault handler *)

Inductive signal :=
| SIGSEGV | SIGBUS | SIGABRT | SIGFPE | SIGILL | SIGTERM | SIGKILL | SIGPIPE | SIGXCPU.

#[export] Instance signal_eq_dec : EqDecision signal.
Proof. solve_decision. Defined.

(* @ src/core/runner.c:165-172 child_fault_handler *)
Definition fault_name (sig : signal) : string :=
  match sig with
  | SIGSEGV => "SIGSEGV"
  | SIGBUS => "SIGBUS"
  | SIGABRT => "SIGABRT"
  | SIGFPE => "SIGFPE"
  | SIGILL => "SIGILL"
  | _ => "signal"
  end.

(** [for (p = s; *p && i < sizeof(text) - 1; ++p) text[i++] = *p;] *)
(* @ src/core/runner.c:175-176 child_fault_handler *)
Fixpoint copy_loop (text : list Z) (i : nat) (p : list Z) : list Z * nat :=
  match p with
  | [] => (text, i)
  | c :: p => if (i <? PG_EVENT_TEXT_LEN - 1)%nat
              then copy_loop (<[i := c]> text) (S i) p else (text, i)
  end.

(* @ src/core/runner.c:159-177 child_fault_handler *)
Definition fault_event (sig : signal) : pg_event_t :=
  let ev := ev_init PG_EV_CHILD_CRASH in
  let '(text, i) := copy_loop (ev_text ev) 0 (str "child crashed: ") in
  let '(text, i) := copy_loop text i (str (fault_name sig)) in
  let text := <[i := 0]> text in
  {| ev_magic := PG_EVENT_MAGIC; ev_version := PG_EVENT_VERSION; ev_pad0 := ev_pad0 ev;
     ev_kind := ev_kind ev; ev_thread_tag := ev_thread_tag ev; ev_pad1 := ev_pad1 ev;
     ev_ts_ns := ev_ts_ns ev; ev_num := ev_num ev; ev_key := ev_key ev; ev_text := text |}.

(** One write, not retried; the answer decides how many bytes go out. *)
(* @ src/core/runner.c child_fault_handler *)
Definition child_fault_handler (g_child_event_fd : Z) (sig : signal) (w : wres) : list Z :=
  if 0 <=? g_child_event_fd then
    match w with WOk n => take n (encode (fault_event sig)) | _ => [] end
  else [].

(* @ src/core/runner.c install_child_handlers *)
Definition install_child_handlers : list signal := [SIGSEGV; SIGBUS; SIGABRT; SIGFPE; SIGILL].

(** ** The child's run *)

Inductive exit_status := Exited (code : Z) | Signaled (sig : signal).

(** A callback's outcome: it returns, dies from a signal, or the process
    exits under it (the watchdog). The context is opaque to scenarios: all a
    callback can do to it is draw from its generator. *)
Inductive cb_fin (St : Type) :=
| CbRet (rc : Z) (rng : pg_xosh_t) (st : St)
| CbSignal (sig : signal)
| CbExit (code : Z).
Arguments CbRet {St} rc rng st.
Arguments CbSignal {St} sig.
Arguments CbExit {St} code.

(* @ src/core/runner.c:241-249 pg_run_start *)
Definition cpu_limit (limit_env : option string) : Z :=
  match limit_env with
  | Some s =>
      if (String.length s =? 0)%nat then 30
      else let v := strtoull 10 (str s) in if 0 <? v then v else 30
  | None => 30
  end.

(* @ src/core/runner.c:225-231 pg_run_start *)
Definition child_ctx (fd seed start : Z) : pg_runctx :=
  RunCtx fd seed (pg_xosh_seed seed) 0 start.

(* @ src/core/runner.c:235-235 pg_run_start *)
Definition clock_seed_of (seed : Z) : Z := Z.lxor seed 0xC10CC10CC10CC10C.

(** What the child does before it calls the scenario: it closes its end of the
    pipe for reading, installs the handlers, fills the context all emitters use,
    seeds the clock and limits its processor time. *)
Record child_setup_t := ChildSetup {
  cs_closed : list Z;
  g_child_event_fd : Z;
  cs_handled : list signal;
  g_runctx : pg_runctx;
  cs_clock_seed : Z;
  cs_cpu_limit : Z
}.

(* @ src/core/runner.c:220-249 pg_run_start *)
Definition child_setup (evpipe : Z * Z) (seed now : Z) (limit_env : option string) : child_setup_t :=
  ChildSetup [evpipe.1] evpipe.2 install_child_handlers (child_ctx evpipe.2 seed now)
    (clock_seed_of seed) (cpu_limit limit_env).

Section Child.
Context {C St : Type}.

(** Calling a callback: the records it emits (as they reach the pipe) and how
    it ends. [done_now] is the clock when [pg_done] stamps its record. *)
Variable call : C -> pg_runctx -> option St -> list pg_event_t * cb_fin (option St).
Variable call_teardown : C -> pg_runctx -> option St -> list pg_event_t * cb_fin unit.
Variable done_now : Z.

(** What an abnormal end adds: the handler's record for the five signals. *)
(* @ src/core/runner.c:158-188 install_child_handlers *)
Definition signal_records (sig : signal) : list pg_event_t :=
  if bool_decide (sig ∈ install_child_handlers) then [fault_event sig] else [].

(* @ src/core/runner.c:258-260 pg_run_start *)
Definition finish (ctx : pg_runctx) (rc : Z) : list pg_event_t * exit_status :=
  ([pg_emit_copy ctx 0 done_now pg_done], Exited (if rc =? 0 then 0 else 1)).

(** [if (s->teardown) s->teardown(&ctx, state); pg_done(&ctx); _exit(...)] *)
(* @ src/core/runner.c:256-260 pg_run_start *)
Definition teardown_and_finish (s : pg_scenario_t C) (ctx : pg_runctx) (st : option St) (rc : Z)
  : list pg_event_t * exit_status :=
  match sc_teardown s with
  | None => finish ctx rc
  | Some f =>
      match call_teardown f ctx st with
      | (evs, CbRet _ r _) => let '(evs', x) := finish (ctx_set_rng r ctx) rc in (evs ++ evs', x)
      | (evs, CbSignal sig) => (evs ++ signal_records sig, Signaled sig)
      | (evs, CbExit code) => (evs, Exited code)
      end
  end.

(* @ src/core/runner.c:255-260 pg_run_start *)
Definition run_and_finish (s : pg_scenario_t C) (ctx : pg_runctx) (st : option St) (rc : Z)
  : list pg_event_t * exit_status :=
  if rc =? 0 then
    match call (sc_run s) ctx st with
    | (evs, CbRet rc r _) =>
        let '(evs', x) := teardown_and_finish s (ctx_set_rng r ctx) st rc in (evs ++ evs', x)
    | (evs, CbSignal sig) => (evs ++ signal_records sig, Signaled sig)
    | (evs, CbExit code) => (evs, Exited code)
    end
  else teardown_and_finish s ctx st rc.

(** The child branch of [pg_run_start], with the context of [child_setup]. *)
(* @ src/core/runner.c:251-261 pg_run_start *)
Definition child_main (s : pg_scenario_t C) (fd seed start : Z)
  : list pg_event_t * exit_status :=
  let ctx := child_ctx fd seed start in
  match sc_init s with
  | None => run_and_finish s ctx None 0
  | Some f =>
      match call f ctx None with
      | (evs, CbRet rc r st) =>
          let '(evs', x) := run_and_finish s (ctx_set_rng r ctx) st rc in (evs ++ evs', x)
      | (evs, CbSignal sig) => (evs ++ signal_records sig, Signaled sig)
      | (evs, CbExit code) => (evs, Exited code)
      end
  end.
End Child.

(** ** The parent side *)

(* @ include/playground/runner.h:8-13 pg_run_handle_t *)
Record pg_run_handle_t := Handle {
  child_pid : Z;
  event_fd : Z;
  ctrl_fd : Z;
  h_seed : Z
}.

(** Return code, the handle written through [out], fds closed in the parent. *)
(* @ src/core/runner.c pg_run_start *)
Definition pg_run_start {C} (s : option (pg_scenario_t C)) (seed : Z) (out_ok : bool)
    (pipe_ans : option (Z * Z)) (fork_ans : option Z)
  : Z * option pg_run_handle_t * list Z :=
  match s, out_ok with
  | Some _, true =>
      match pipe_ans with
      | None => (-1, None, [])
      | Some (rd, wr) =>
          match fork_ans with
          | None => (-1, None, [rd; wr])
          | Some pid => (0, Some (Handle pid rd (-1) seed), [wr])
          end
      end
  | _, _ => (-1, None, [])
  end.

Inductive pollres := PollReady | PollTimeout | PollErr.

(** [read] returns at most what is asked for and what the pipe holds, at least
    one byte unless the pipe is empty and closed. *)
Inductive rres := RChunk (k : nat) | REintr | RErr.

#[export] Instance rres_eq_dec : EqDecision rres.
Proof. solve_decision. Defined.

Inductive rstatus := RFull | REof | RError | RBlocked.

Record pipe := Pipe { p_data : list Z; p_closed : bool }.

(* @ src/core/runner.c:284-296 pg_run_poll *)
Fixpoint read_loop (rs : list rres) (closed : bool) (want : nat) (data : list Z)
  : list Z * rstatus * list Z * list rres :=
  match want with
  | O => ([], RFull, data, rs)
  | S _ =>
    match rs with
    | [] => ([], RBlocked, data, [])
    | REintr :: rs => read_loop rs closed want data
    | RErr :: rs => ([], RError, data, rs)
    | RChunk k :: rs =>
        match data with
        | [] => ([], if closed then REof else RBlocked, [], rs)
        | _ =>
            let got := take (want `min` (1 `max` k)) data in
            let '(more, st, rest, rs) :=
              read_loop rs closed (want - length got) (drop (length got) data) in
            (got ++ more, st, rest, rs)
        end
    end
  end.

(* @ src/core/runner.c:300-300 pg_run_poll *)
Definition header_ok (ev : pg_event_t) : bool :=
  (ev_magic ev =? PG_EVENT_MAGIC) && (ev_version ev =? PG_EVENT_VERSION).

(** A call returns, with the record it wrote to [*ev_out] if that is whole, or
    waits in [read]. *)
Inductive poll_out :=
| PollRet (code : Z) (ev : option pg_event_t) (p : pipe) (rs : list rres)
| PollBlocked.

(* @ src/core/runner.c pg_run_poll *)
Definition pg_run_poll (h : option pg_run_handle_t) (ev_ok : bool) (timeout_ms : Z)
    (pr : pollres) (p : pipe) (rs : list rres) : poll_out :=
  match h with
  | None => PollRet (-1) None p rs
  | Some h =>
      if (event_fd h <? 0) || negb ev_ok then PollRet (-1) None p rs
      else
        let go :=
          let '(buf, st, rest, rs) := read_loop rs (p_closed p) EVENT_SIZE (p_data p) in
          let p := Pipe rest (p_closed p) in
          match st with
          | REof => PollRet (if (length buf =? 0)%nat then 0 else -1) None p rs
          | RError => PollRet (-1) None p rs
          | RBlocked => PollBlocked
          | RFull =>
              let ev := decode buf in
              PollRet (if header_ok ev then 1 else -1) (Some ev) p rs
          end in
        if 0 <=? timeout_ms then
          match pr with
          | PollTimeout => PollRet (-2) None p rs
          | PollErr => PollRet (-1) None p rs
          | PollReady => go
          end
        else go
  end.

(** What a call prints to standard error: a whole record with a bad header is
    reported. *)
(* @ src/core/runner.c:300-306 pg_run_poll *)
Definition poll_stderr (o : poll_out) : string :=
  match o with
  | PollRet (-1) (Some ev) _ _ =>
      ("pg_run_poll: bad event header (magic=0x" +:+ fmt_0x 4 (ev_magic ev) +:+ " version=" +:+
       fmt_d (ev_version ev) +:+ " expected 0x" +:+ fmt_0x 4 PG_EVENT_MAGIC +:+ " v" +:+
       fmt_d PG_EVENT_VERSION +:+ ")" +:+ nl)%string
  | _ => ""%string
  end.

(** The signals sent. *)
(* @ src/core/runner.c pg_run_abort *)
Definition pg_run_abort (h : option pg_run_handle_t) : list (Z * signal) :=
  match h with
  | Some h => if child_pid h <=? 0 then [] else [(child_pid h, SIGTERM)]
  | None => []
  end.

Inductive waitres := WaitOk (status : exit_status) | WaitEintr | WaitErr.

(** Return code, [*exit_status] if written, the handle, the fds closed; [None]
    while [waitpid] has not returned. *)
(* @ src/core/runner.c:320-323 pg_run_reap *)
Fixpoint reap_wait (ws : list waitres) : option (option exit_status) :=
  match ws with
  | [] => None
  | WaitEintr :: ws => reap_wait ws
  | WaitErr :: _ => Some None
  | WaitOk st :: _ => Some (Some st)
  end.

(* @ src/core/runner.c pg_run_reap *)
Definition pg_run_reap (h : option pg_run_handle_t) (ws : list waitres)
  : option (Z * option exit_status * option pg_run_handle_t * list Z) :=
  match h with
  | None => Some (-1, None, None, [])
  | Some h =>
      let ended (st : exit_status) :=
        let fds := if 0 <=? event_fd h then [event_fd h] else [] in
        Some (0, Some st,
              Some (Handle (-1) (if 0 <=? event_fd h then -1 else event_fd h) (ctrl_fd h) (h_seed h)),
              fds) in
      if 0 <? child_pid h then
        match reap_wait ws with
        | None => None
        | Some None => Some (-1, None, Some h, [])
        | Some (Some st) => ended st
        end
      else ended (Exited 0)
  end.

(** ** Lemmas: writing *)

Lemma write_loop_prefix ws p out st ws' :
  write_loop ws p = (out, st, ws') -> exists rest, p = out ++ rest /\ (st = WDone -> rest = []).
Proof.
  revert p out st ws'. induction ws as [|w ws IH]; intros p out st ws'; destruct p as [|b p];
    cbn [write_loop].
  1,3: intros [= <- <- <-]; by exists [].
  - intros [= <- <- <-]. by eexists.
  - destruct w as [w| |].
    + destruct (write_loop ws (drop w (b :: p))) as [[o s] r] eqn:E. intros [= <- <- <-].
      destruct (IH _ _ _ _ E) as (rest & Hp & Hd). exists rest. split; [|done].
      by rewrite <- app_assoc, <- Hp, take_drop.
    + apply IH.
    + intros [= <- <- <-]. by eexists.
Qed.

Definition w_progress (w : wres) : bool := match w with WOk (S _) => true | _ => false end.

(** Enough answers that make progress, none a failure: the whole record goes out. *)
Lemma write_loop_complete ws p :
  WFail ∉ ws -> (length p <= count w_progress ws)%nat ->
  exists ws', write_loop ws p = (p, WDone, ws').
Proof.
  revert p. induction ws as [|w ws IH]; intros p Hf Hl.
  - destruct p; [by eexists|cbn in Hl; lia].
  - destruct p as [|b p]; [by eexists|]. cbn [write_loop].
    apply not_elem_of_cons in Hf as [Hw Hf].
    destruct w as [w| |]; [|by apply IH|done].
    destruct (IH (drop w (b :: p)) Hf) as [ws' E].
    { rewrite length_drop. destruct w; cbn in *; lia. }
    rewrite E. exists ws'. by rewrite take_drop.
Qed.

Lemma pg_emit_copy_wf ctx tag now ev :
  event_wf ev -> in_u32 tag -> in_u32 (ctx_thread_tag ctx) -> event_wf (pg_emit_copy ctx tag now ev).
Proof.
  intros [] Ht Hc. split; cbn; try done; unfold PG_EVENT_MAGIC, PG_EVENT_VERSION; try lia.
  - repeat case_match; done.
  - case_match; [apply u64_range|done].
Qed.

Lemma header_ok_emit ctx tag now ev : header_ok (pg_emit_copy ctx tag now ev) = true.
Proof. done. Qed.

(** ** Lemmas: the fault record *)

Lemma copy_loop_spec text i p :
  (i + length p <= PG_EVENT_TEXT_LEN - 1)%nat -> length text = PG_EVENT_TEXT_LEN ->
  copy_loop text i p = (take i text ++ p ++ drop (i + length p) text, (i + length p)%nat).
Proof.
  unfold PG_EVENT_TEXT_LEN. revert text i. induction p as [|c p IH]; intros text i Hi Ht; cbn [copy_loop length].
  - by rewrite Nat.add_0_r, app_nil_l, take_drop.
  - cbn [length] in Hi. rewrite (proj2 (Nat.ltb_lt _ _)) by (unfold PG_EVENT_TEXT_LEN; lia).
    rewrite IH; [|lia|by rewrite length_insert].
    replace (S i + length p)%nat with (i + S (length p))%nat by lia. f_equal.
    rewrite drop_insert_lt by lia.
    rewrite (take_S_r _ i c) by (apply list_lookup_insert_eq; lia).
    rewrite take_insert_ge by lia. by rewrite <- app_assoc.
Qed.

Definition fault_text (sig : signal) : list Z := str ("child crashed: " +:+ fault_name sig).

Lemma fault_event_text sig :
  ev_text (fault_event sig)
  = fault_text sig ++ replicate (PG_EVENT_TEXT_LEN - length (fault_text sig)) 0.
Proof. by destruct sig; vm_compute. Qed.

Lemma fault_event_wf sig : event_wf (fault_event sig).
Proof.
  assert (H : fault_event sig =
    ev_set_text (fault_text sig ++ replicate (PG_EVENT_TEXT_LEN - length (fault_text sig)) 0)
      (Event PG_EVENT_MAGIC PG_EVENT_VERSION 0 (kind_code PG_EV_CHILD_CRASH) 0 0 0 0
         (replicate PG_EVENT_KEY_LEN 0) (replicate PG_EVENT_TEXT_LEN 0)))
    by by destruct sig; vm_compute.
  rewrite H. apply ev_set_text_wf.
  - destruct (ev_init_wf PG_EV_CHILD_CRASH). by split.
  - by destruct sig.
  - apply Forall_app; split; [apply str_bytes|by apply Forall_replicate].
Qed.

(** ** Lemmas: reading *)

Definition r_chunk (r : rres) : bool := match r with RChunk _ => true | _ => false end.
Abbreviation reads := (count r_chunk).

Lemma read_loop_full rs closed want data :
  RErr ∉ rs -> (want <= reads rs)%nat -> (want <= length data)%nat ->
  exists rs', read_loop rs closed want data = (take want data, RFull, drop want data, rs')
         /\ (RErr ∉ rs') /\ (reads rs <= want + reads rs')%nat.
Proof.
  revert want data. induction rs as [|r rs IH]; intros want data He Hr Hd.
  - destruct want; [|cbn in Hr; lia]. exists []. cbn. by rewrite take_0, drop_0.
  - destruct want as [|want].
    { exists (r :: rs). cbn [read_loop]. rewrite take_0, drop_0. split_and!; [done..|lia]. }
    apply not_elem_of_cons in He as [Hne He].
    destruct r as [k| |]; cbn [count r_chunk] in Hr; cbn [read_loop]; [|by apply IH|done].
    destruct data as [|b data]; [cbn in Hd; lia|].
    set (n := (S want `min` (1 `max` k))%nat).
    rewrite length_take_lt by lia.
    destruct (IH (S want - n)%nat (drop n (b :: data)) He) as (rs' & -> & He' & Hc).
    { lia. } { rewrite length_drop. lia. }
    exists rs'. rewrite drop_drop, take_take_drop.
    replace (n + (S want - n))%nat with (S want) by lia.
    split_and!; [done|done|]. cbn [count r_chunk]. lia.
Qed.

(** End of file before [want] bytes: everything left is consumed. *)
Lemma read_loop_eof rs want data :
  RErr ∉ rs -> (length data < reads rs)%nat -> (length data < want)%nat ->
  exists rs', read_loop rs true want data = (data, REof, [], rs').
Proof.
  revert want data. induction rs as [|r rs IH]; intros want data He Hr Hd; [cbn in Hr; lia|].
  destruct want as [|want]; [lia|].
  apply not_elem_of_cons in He as [Hne He].
  destruct r as [k| |]; cbn [count r_chunk] in Hr; cbn [read_loop]; [|by apply IH|done].
  destruct data as [|b data]; [by eexists|].
  set (n := length (take (S want `min` (1 `max` k)) (b :: data))).
  assert (0 < n <= length (b :: data))%nat by (subst n; rewrite length_take; cbn [length]; lia).
  destruct (IH (S want - n)%nat (drop n (b :: data)) He) as (rs' & ->).
  1,2: rewrite length_drop; lia.
  exists rs'. subst n. by rewrite drop_length_take, take_drop.
Qed.

(** A usable handle, and a [poll] that reports data (or is not called). *)
Definition live_handle (h : pg_run_handle_t) : Prop := 0 <= event_fd h.
Definition poll_passes (timeout_ms : Z) (pr : pollres) : Prop :=
  0 <= timeout_ms -> pr = PollReady.

Lemma pg_run_poll_reads h timeout pr p rs :
  live_handle h -> poll_passes timeout pr ->
  pg_run_poll (Some h) true timeout pr p rs =
  let '(buf, st, rest, rs) := read_loop rs (p_closed p) EVENT_SIZE (p_data p) in
  let p := Pipe rest (p_closed p) in
  match st with
  | REof => PollRet (if (length buf =? 0)%nat then 0 else -1) None p rs
  | RError => PollRet (-1) None p rs
  | RBlocked => PollBlocked
  | RFull => PollRet (if header_ok (decode buf) then 1 else -1) (Some (decode buf)) p rs
  end.
Proof.
  unfold live_handle, poll_passes. intros Hh Hp. unfold pg_run_poll.
  rewrite (proj2 (Z.ltb_ge _ _)) by done. cbn [orb negb].
  destruct (Z.leb_spec 0 timeout); [by rewrite Hp by done|done].
Qed.

Lemma poll_block h timeout pr p rs b rest :
  live_handle h -> poll_passes timeout pr -> p_data p = b ++ rest -> length b = EVENT_SIZE ->
  RErr ∉ rs -> (EVENT_SIZE <= reads rs)%nat ->
  exists rs', (RErr ∉ rs') /\ (reads rs <= EVENT_SIZE + reads rs')%nat /\
    pg_run_poll (Some h) true timeout pr p rs =
    PollRet (if header_ok (decode b) then 1 else -1) (Some (decode b)) (Pipe rest (p_closed p)) rs'.
Proof.
  intros Hh Hp Hd Hb He Hr. rewrite pg_run_poll_reads by done. rewrite Hd.
  destruct (read_loop_full rs (p_closed p) EVENT_SIZE (b ++ rest)) as (rs' & -> & He' & Hc);
    [done|done|rewrite length_app; lia|].
  exists rs'. split; [done|]. split; [lia|].
  by rewrite <- Hb, take_app_length, drop_app_length.
Qed.

Lemma poll_record h timeout pr p rs e rest :
  live_handle h -> poll_passes timeout pr -> p_data p = encode e ++ rest ->
  event_wf e -> header_ok e = true -> RErr ∉ rs -> (EVENT_SIZE <= reads rs)%nat ->
  exists rs', (RErr ∉ rs') /\ (reads rs <= EVENT_SIZE + reads rs')%nat /\
    pg_run_poll (Some h) true timeout pr p rs = PollRet 1 (Some e) (Pipe rest (p_closed p)) rs'.
Proof.
  intros Hh Hp Hd Hw Hok He Hr.
  destruct (poll_block h timeout pr p rs (encode e) rest) as (rs' & ? & ? & ->); try done.
  - apply length_encode; apply Hw.
  - exists rs'. by rewrite decode_encode, Hok by done.
Qed.

Lemma poll_end h timeout pr p rs :
  live_handle h -> poll_passes timeout pr -> p_closed p = true ->
  (length (p_data p) < EVENT_SIZE)%nat -> RErr ∉ rs -> (length (p_data p) < reads rs)%nat ->
  exists rs', pg_run_poll (Some h) true timeout pr p rs =
    PollRet (if (length (p_data p) =? 0)%nat then 0 else -1) None (Pipe [] true) rs'.
Proof.
  intros Hh Hp Hc Hl He Hr. rewrite pg_run_poll_reads by done. rewrite Hc.
  destruct (read_loop_eof rs EVENT_SIZE (p_data p)) as (rs' & ->); [done..|]. by exists rs'.
Qed.

(** ** Lemmas: the shape of a child's record stream *)

Lemma pg_done_wf ctx now :
  in_u32 (ctx_thread_tag ctx) -> event_wf (pg_emit_copy ctx 0 now pg_done).
Proof. intros. apply pg_emit_copy_wf; [apply ev_init_wf|lia|done]. Qed.

Lemma signal_records_Forall (P : pg_event_t -> Prop) sig :
  (forall s, P (fault_event s)) -> Forall P (signal_records sig).
Proof. intros H. unfold signal_records. case_bool_decide; by repeat constructor. Qed.

Section ChildShape.
Context {C St : Type}.
Variable call : C -> pg_runctx -> option St -> list pg_event_t * cb_fin (option St).
Variable call_teardown : C -> pg_runctx -> option St -> list pg_event_t * cb_fin unit.
Variable done_now : Z.
Variable P : pg_event_t -> Prop.
Hypothesis call_P : forall f ctx st, ctx_thread_tag ctx = 0 -> Forall P (fst (call f ctx st)).
Hypothesis teardown_P :
  forall f ctx st, ctx_thread_tag ctx = 0 -> Forall P (fst (call_teardown f ctx st)).

(** How a run can end, with the records after the callbacks' own. *)
Inductive child_tail : list pg_event_t -> exit_status -> Prop :=
| tail_done ctx rc :
    ctx_thread_tag ctx = 0 ->
    child_tail [pg_emit_copy ctx 0 done_now pg_done] (Exited (if rc =? 0 then 0 else 1))
| tail_signal sig : child_tail (signal_records sig) (Signaled sig)
| tail_exit code : child_tail [] (Exited code).

Definition child_shape (r : list pg_event_t * exit_status) : Prop :=
  exists body tail, fst r = body ++ tail /\ Forall P body /\ child_tail tail (snd r).

Lemma child_shape_app evs r : Forall P evs -> child_shape r -> child_shape (evs ++ fst r, snd r).
Proof.
  intros He (body & tail & Hr & Hb & Ht). exists (evs ++ body), tail. cbn.
  split; [by rewrite Hr, app_assoc|]. split; [by apply Forall_app|done].
Qed.

Lemma child_shape_tail evs tail x :
  Forall P evs -> child_tail tail x -> child_shape (evs ++ tail, x).
Proof. intros. by exists evs, tail. Qed.

Lemma finish_shape ctx rc : ctx_thread_tag ctx = 0 -> child_shape (finish done_now ctx rc).
Proof. intros. eexists [], _. split_and!; [done|constructor|by constructor]. Qed.

Lemma teardown_shape s ctx st rc :
  ctx_thread_tag ctx = 0 -> child_shape (teardown_and_finish call_teardown done_now s ctx st rc).
Proof.
  intros Ht. unfold teardown_and_finish. destruct (sc_teardown s) as [f|]; [|by apply finish_shape].
  pose proof (teardown_P f ctx st Ht) as Hf. destruct (call_teardown f ctx st) as [evs [rc' r ?| |]].
  - pose proof (finish_shape (ctx_set_rng r ctx) rc Ht) as H. destruct (finish done_now _ rc).
    exact (child_shape_app evs _ Hf H).
  - apply child_shape_tail; [done|constructor].
  - rewrite <- (app_nil_r evs). apply child_shape_tail; [done|constructor].
Qed.

Lemma run_shape s ctx st rc :
  ctx_thread_tag ctx = 0 ->
  child_shape (run_and_finish call call_teardown done_now s ctx st rc).
Proof.
  intros Ht. unfold run_and_finish. destruct (rc =? 0); [|by apply teardown_shape].
  pose proof (call_P (sc_run s) ctx st Ht) as Hf.
  destruct (call (sc_run s) ctx st) as [evs [rc' r ?| |]].
  - pose proof (teardown_shape s (ctx_set_rng r ctx) st rc' Ht) as H.
    destruct (teardown_and_finish _ _ s _ st rc').
    exact (child_shape_app evs _ Hf H).
  - apply child_shape_tail; [done|constructor].
  - rewrite <- (app_nil_r evs). apply child_shape_tail; [done|constructor].
Qed.

Lemma child_main_shape s fd seed start :
  child_shape (child_main call call_teardown done_now s fd seed start).
Proof.
  unfold child_main. destruct (sc_init s) as [f|]; [|by apply run_shape].
  set (ctx := child_ctx fd seed start).
  pose proof (call_P f ctx None eq_refl) as Hf. destruct (call f ctx None) as [evs [rc r st| |]].
  - pose proof (run_shape s (ctx_set_rng r ctx) st rc eq_refl) as H.
    destruct (run_and_finish _ _ _ s _ st rc).
    exact (child_shape_app evs _ Hf H).
  - apply child_shape_tail; [done|constructor].
  - rewrite <- (app_nil_r evs). apply child_shape_tail; [done|constructor].
Qed.
End ChildShape.

(** The header check looks at the first three bytes only. *)
Lemma header_ok_prefix e k b :
  event_wf e -> header_ok e = true -> (3 <= k)%nat ->
  header_ok (decode (take k (encode e) ++ b)) = true.
Proof.
  intros Hw Hok Hk. rewrite <- Hok. rewrite <- (decode_encode e Hw) at 2.
  unfold header_ok. cbn [ev_magic ev_version decode].
  assert (L : length (encode e) = EVENT_SIZE) by (apply length_encode; apply Hw).
  unfold EVENT_SIZE in L.
  assert (F : forall off n, (off + n <= 3)%nat -> field off n (take k (encode e) ++ b) = field off n (encode e)).
  { intros off n Hn. unfold field. rewrite !take_drop_commute. f_equal.
    rewrite take_app_le by (rewrite length_take; lia). by rewrite take_take, Nat.min_l by lia. }
  by rewrite !F by lia.
Qed.

Lemma fault_event_header sig : header_ok (fault_event sig) = true.
Proof. by destruct sig. Qed.

Lemma cstr_fault_text sig : cstr (ev_text (fault_event sig)) = fault_text sig.
Proof. by destruct sig; vm_compute. Qed.

(** ** Properties *)

(** C7: [pg_emit] stamps and delivers: however the kernel splits and interrupts
    the writes, if none fails and 256 of them make progress the pipe receives
    exactly the 256-byte image of the stamped record; the stamp always carries
    the header the reader checks, and changes neither the kind, the number, the
    key nor the text. *)
Theorem pg_emit_delivers ctx g tag now ev ws :
  0 <= event_fd_w ctx -> event_wf ev -> in_u32 tag -> in_u32 (ctx_thread_tag ctx) ->
  WFail ∉ ws -> (EVENT_SIZE <= count w_progress ws)%nat ->
  exists ws', pg_emit g (Some ctx) tag now (Some ev) ws
              = (encode (pg_emit_copy ctx tag now ev), WDone, ws') /\
    decode (encode (pg_emit_copy ctx tag now ev)) = pg_emit_copy ctx tag now ev /\
    header_ok (pg_emit_copy ctx tag now ev) = true /\
    ev_kind (pg_emit_copy ctx tag now ev) = ev_kind ev /\
    ev_num (pg_emit_copy ctx tag now ev) = ev_num ev /\
    ev_key (pg_emit_copy ctx tag now ev) = ev_key ev /\
    ev_text (pg_emit_copy ctx tag now ev) = ev_text ev.
Proof.
  intros Hfd Hw Ht Hc Hf Hp. pose proof (pg_emit_copy_wf ctx tag now ev Hw Ht Hc) as Hwf.
  unfold pg_emit. rewrite (proj2 (Z.ltb_ge _ _)) by done.
  destruct (write_loop_complete ws (encode (pg_emit_copy ctx tag now ev)) Hf) as (ws' & ->).
  { rewrite length_encode; [done|apply Hwf..]. }
  exists ws'. by rewrite decode_encode.
Qed.

Lemma pg_emit_delivers_witness :
  exists ws', pg_emit None (Some (child_ctx 5 42 1000)) 3 2500 (Some (pg_logf "hello"))
                (WEintr :: replicate 256 (WOk 1))
              = (encode (pg_emit_copy (child_ctx 5 42 1000) 3 2500 (pg_logf "hello")), WDone, ws').
Proof.
  destruct (pg_emit_delivers (child_ctx 5 42 1000) None 3 2500 (pg_logf "hello")
    (WEintr :: replicate 256 (WOk 1))) as (ws' & H & _).
  - cbn. lia.
  - apply ev_text_wf. done.
  - lia.
  - cbn. lia.
  - apply (bool_decide_unpack _). vm_compute. exact I.
  - vm_compute. lia.
  - exists ws'. exact H.
Defined.

(** Records that leave through a failing pipe are cut, never garbled: what
    [pg_emit] wrote is always a prefix of the record's image, and the whole
    image when it reports completion. *)
Theorem pg_emit_prefix ctx g tag now ev ws out st ws' :
  0 <= event_fd_w ctx ->
  pg_emit g (Some ctx) tag now (Some ev) ws = (out, st, ws') ->
  exists rest, encode (pg_emit_copy ctx tag now ev) = out ++ rest /\ (st = WDone -> rest = []).
Proof.
  intros Hfd. unfold pg_emit. rewrite (proj2 (Z.ltb_ge _ _)) by done. apply write_loop_prefix.
Qed.

Lemma pg_emit_prefix_witness :
  exists rest, encode (pg_emit_copy (child_ctx 5 42 0) 0 1 pg_done) = take 100 (encode (pg_emit_copy (child_ctx 5 42 0) 0 1 pg_done)) ++ rest.
Proof.
  destruct (pg_emit_prefix (child_ctx 5 42 0) None 0 1 pg_done [WOk 100; WFail] _ _ _
    ltac:(cbn; lia) eq_refl) as (rest & H & _).
  exists rest. exact H.
Defined.

(** The fault handler's record is one the parent accepts: for each signal
    it has the protocol header, kind [PG_EV_CHILD_CRASH] and the text
    "child crashed: " followed by the signal's name, and decodes to itself. *)
Theorem child_fault_record sig :
  header_ok (fault_event sig) = true /\ ev_kind (fault_event sig) = kind_code PG_EV_CHILD_CRASH /\
  cstr (ev_text (fault_event sig)) = str ("child crashed: " +:+ fault_name sig) /\
  child_fault_handler 5 sig (WOk EVENT_SIZE) = encode (fault_event sig) /\
  decode (encode (fault_event sig)) = fault_event sig.
Proof.
  pose proof (fault_event_wf sig) as Hw.
  split; [apply fault_event_header|]. split; [by destruct sig|].
  split; [apply cstr_fault_text|]. split; [|by apply decode_encode].
  unfold child_fault_handler. apply take_ge. rewrite length_encode; [done|apply Hw..].
Qed.

(** C19: no resynchronisation: on a stream whose next 256 bytes are not a record
    with the protocol header, [pg_run_poll] reports -1 and has consumed exactly
    those 256 bytes, so a stream knocked off the 256-byte grid by a short write
    stays off it. *)
Theorem pg_run_poll_no_resync h p rs b rest :
  live_handle h -> p_data p = b ++ rest -> length b = EVENT_SIZE ->
  header_ok (decode b) = false -> RErr ∉ rs -> (EVENT_SIZE <= reads rs)%nat ->
  exists rs', pg_run_poll (Some h) true (-1) PollReady p rs
              = PollRet (-1) (Some (decode b)) (Pipe rest (p_closed p)) rs'.
Proof.
  intros Hh Hd Hb Hok He Hr.
  destruct (poll_block h (-1) PollReady p rs b rest) as (rs' & _ & _ & ->); try done.
  rewrite Hok. by exists rs'.
Qed.

(** What is left of a record after a reader off the grid took 156 bytes of it,
    then a whole record. *)
Definition off_grid : list Z := drop 156 (encode (fault_event SIGBUS)) ++ encode (fault_event SIGBUS).

Lemma pg_run_poll_no_resync_witness :
  exists rs', pg_run_poll (Some (Handle 7 3 (-1) 42)) true (-1) PollReady (Pipe off_grid true)
                (replicate 300 (RChunk 512))
              = PollRet (-1) (Some (decode (take 256 off_grid))) (Pipe (drop 256 off_grid) true) rs'.
Proof.
  apply (pg_run_poll_no_resync (Handle 7 3 (-1) 42) (Pipe off_grid true)
           (replicate 300 (RChunk 512)) (take 256 off_grid) (drop 256 off_grid)).
  - unfold live_handle. cbn. lia.
  - cbn [p_data]. symmetry. apply take_drop.
  - vm_compute. reflexivity.
  - vm_compute. reflexivity.
  - apply (bool_decide_unpack _). vm_compute. exact I.
  - vm_compute. lia.
Defined.

(** C20: a torn record is spliced with its successor and accepted: if a writer
    got out only [k] bytes of a record (at least the three header bytes the
    reader looks at) and another record follows, [pg_run_poll] returns 1 with an
    event made of the first [k] bytes of the one and the first [256 - k] of the
    other.  Such an event need not have an end to its text: the text ends exactly
    if a zero is among what the torn record got out of its text or among the bytes
    of the other, so when a record whose text fills its array lacks its last byte,
    both readers ([printf] in [run_headless], [snprintf] in the terminal) go on
    reading behind the event. *)
Theorem pg_run_poll_splices_torn h closed rs e1 e2 rest k :
  live_handle h -> event_wf e1 -> event_wf e2 -> header_ok e1 = true ->
  (3 <= k < EVENT_SIZE)%nat -> RErr ∉ rs -> (EVENT_SIZE <= reads rs)%nat ->
  exists rs',
    pg_run_poll (Some h) true (-1) PollReady (Pipe (take k (encode e1) ++ encode e2 ++ rest) closed) rs
    = PollRet 1 (Some (decode (take k (encode e1) ++ take (EVENT_SIZE - k) (encode e2))))
        (Pipe (drop (EVENT_SIZE - k) (encode e2) ++ rest) closed) rs' /\
    ((64 <= k)%nat ->
     text_ends (decode (take k (encode e1) ++ take (EVENT_SIZE - k) (encode e2)))
     = has_nul (take (k - 64) (ev_text e1)) || has_nul (take (EVENT_SIZE - k) (encode e2))).
Proof.
  intros Hh Hw1 Hw2 Hok Hk He Hr.
  assert (L1 : length (encode e1) = EVENT_SIZE) by (apply length_encode; apply Hw1).
  assert (L2 : length (encode e2) = EVENT_SIZE) by (apply length_encode; apply Hw2).
  destruct (poll_block h (-1) PollReady (Pipe (take k (encode e1) ++ encode e2 ++ rest) closed) rs
    (take k (encode e1) ++ take (EVENT_SIZE - k) (encode e2))
    (drop (EVENT_SIZE - k) (encode e2) ++ rest)) as (rs' & _ & _ & ->); try done.
  - cbn [p_data]. by rewrite <- app_assoc, (app_assoc (take (EVENT_SIZE - k) _)), take_drop.
  - rewrite length_app, !length_take. lia.
  - exists rs'. split; [rewrite header_ok_prefix with (e := e1); done || lia|].
    intros Hk'. by apply text_ends_splice; [| |lia].
Qed.

(** A crash record whose text is as long as it can be. *)
Definition long_text : pg_event_t := ev_set_text (replicate 191 97 ++ [0]) (fault_event SIGSEGV).

Lemma pg_run_poll_splices_torn_witness :
  exists rs',
    pg_run_poll (Some (Handle 7 3 (-1) 42)) true (-1) PollReady
      (Pipe (take 255 (encode long_text) ++ encode (fault_event SIGBUS) ++ []) true)
      (replicate 300 (RChunk 512))
    = PollRet 1 (Some (decode (take 255 (encode long_text) ++ take 1 (encode (fault_event SIGBUS)))))
        (Pipe (drop 1 (encode (fault_event SIGBUS)) ++ []) true) rs' /\
    text_ends (decode (take 255 (encode long_text) ++ take 1 (encode (fault_event SIGBUS)))) = false.
Proof.
  destruct (pg_run_poll_splices_torn (Handle 7 3 (-1) 42) true (replicate 300 (RChunk 512))
           long_text (fault_event SIGBUS) [] 255) as (rs' & E & T).
  - unfold live_handle. cbn. lia.
  - apply ev_set_text_wf; [apply fault_event_wf|done|]. apply (bool_decide_unpack _). vm_compute. exact I.
  - apply fault_event_wf.
  - reflexivity.
  - unfold EVENT_SIZE. lia.
  - apply (bool_decide_unpack _). vm_compute. exact I.
  - vm_compute. lia.
  - exists rs'. split; [exact E|]. exact (T ltac:(lia)).
Defined.

(** The child and its parent agree on the pipe: each keeps the end the other
    closes, the fault handler and the emitters write to the same descriptor, the
    two generators start from different seeds and the processor limit is positive. *)
Lemma child_setup_sound {C} (s : pg_scenario_t C) seed rd wr pid now env :
  let c := child_setup (rd, wr) seed now env in
  exists h, pg_run_start (Some s) seed true (Some (rd, wr)) (Some pid) = (0, Some h, [g_child_event_fd c]) /\
    cs_closed c = [event_fd h] /\ event_fd_w (g_runctx c) = g_child_event_fd c /\
    ctx_seed (g_runctx c) = h_seed h /\ cs_clock_seed c <> ctx_seed (g_runctx c) /\ 0 < cs_cpu_limit c.
Proof.
  eexists. split; [reflexivity|]. cbn. split_and!; try done.
  - unfold clock_seed_of. intros H. apply (f_equal (Z.lxor seed)) in H.
    by rewrite <- Z.lxor_assoc, Z.lxor_nilpotent in H.
  - unfold cpu_limit. destruct env as [e|]; [|lia]. destruct (String.length e =? 0)%nat; [lia|].
    cbv zeta. destruct (Z.ltb_spec 0 (strtoull 10 (str e))); lia.
Qed.

(** The parent leaks no descriptor: when [pg_run_start] fails after [pipe]
    it has closed both ends; when it succeeds it has closed the write end and
    [pg_run_reap], once [waitpid] answers, closes the read end, marks the handle
    dead and reports the child's status. *)
Theorem run_descriptors_closed {C} (s : pg_scenario_t C) seed rd wr fork_ans ws st :
  0 <= rd -> reap_wait ws = Some (Some st) ->
  match pg_run_start (Some s) seed true (Some (rd, wr)) fork_ans with
  | (rc, None, closed) => rc = -1 /\ closed = [rd; wr]
  | (rc, Some h, closed) =>
      rc = 0 /\ closed = [wr] /\
      (0 < child_pid h ->
       exists h', pg_run_reap (Some h) ws = Some (0, Some st, Some h', [rd]) /\
                  child_pid h' = -1 /\ event_fd h' = -1 /\ pg_run_abort (Some h') = [])
  end.
Proof.
  intros Hrd Hws. unfold pg_run_start. destruct fork_ans as [pid|]; [|done].
  split; [done|]. split; [done|]. cbn. intros Hpid.
  rewrite (proj2 (Z.ltb_lt _ _)), (proj2 (Z.leb_le _ _)), Hws by done. by eexists.
Qed.

Lemma run_descriptors_closed_witness :
  match pg_run_start (Some (Scenario "x" "x" "" "" "" None PG_CAT_MEMORY None tt None None))
          42 true (Some (5, 6)) (Some 77) with
  | (rc, None, closed) => rc = -1 /\ closed = [5; 6]
  | (rc, Some h, closed) =>
      rc = 0 /\ closed = [6] /\
      (0 < child_pid h ->
       exists h', pg_run_reap (Some h) [WaitEintr; WaitOk (Exited 0)]
                  = Some (0, Some (Exited 0), Some h', [5]) /\
                  child_pid h' = -1 /\ event_fd h' = -1 /\ pg_run_abort (Some h') = [])
  end.
Proof.
  apply (run_descriptors_closed (Scenario "x" "x" "" "" "" None PG_CAT_MEMORY None tt None None)
           42 5 6 (Some 77) [WaitEintr; WaitOk (Exited 0)] (Exited 0)); [lia|reflexivity].
Defined.
