(* ===== verification/Main.v ===== *)
(** * The command line and headless mode (src/main.c)

    Argument parsing, the scenario listing, the two renderings of an event and
    the headless pump that reads records until [PG_EV_DONE] or end of stream. *)

From Stdlib Require Import SpecFloat.
From S2P Require Import Prelude CLib Rand Event Registry Runner.

(** ** Text *)

(* @ src/main.c print_usage *)
Definition print_usage (argv0 : string) : string :=
  "usage: " +:+ argv0 +:+ " [--scenario ID] [--seed N] [--json] [--list]" +:+ nl +:+
  "  default (no flags) : launches interactive TUI (if built in)" +:+ nl +:+
  "  --scenario ID      : run one scenario headless and stream events" +:+ nl +:+
  "  --seed N           : seed the deterministic RNG (default: time(NULL))" +:+ nl +:+
  "  --json             : emit one JSON object per event (otherwise plain text)" +:+ nl +:+
  "  --list             : list registered scenarios and exit" +:+ nl.

(* @ src/main.c list_scenarios *)
Definition list_scenarios {C} (reg : list (pg_scenario_t C)) : string :=
  let '(all, n) := pg_registry_list reg in
  if (n =? 0)%nat then "(no scenarios registered)" +:+ nl
  else foldr (fun s out =>
         "  " +:+ pad_right 14 (sc_id s) +:+ "  " +:+ pad_right 32 (sc_title s) +:+
         "  [" +:+ pg_category_name (sc_category s) +:+ "]" +:+ nl +:+ out) "" all.

(** The bytes one character becomes inside a JSON string. *)
(* @ src/main.c:44-54 json_escape *)
Definition json_esc_char (c : Z) : list Z :=
  if c =? 34 then [92; 34]
  else if c =? 92 then [92; 92]
  else if c =? 10 then [92; 110]
  else if c =? 13 then [92; 114]
  else if c =? 9 then [92; 116]
  else if c <? 32 then [92; 117] ++ str (fmt_0x 4 c)
  else [c].

(* @ src/main.c json_escape *)
Definition json_escape (s : list Z) : list Z :=
  [34] ++ concat (map json_esc_char (cstr s)) ++ [34].

(* @ src/main.c:77-84 run_headless *)
Definition render_json (ev : pg_event_t) : list Z :=
  str ("{" +:+ dq +:+ "kind" +:+ dq +:+ ":") ++
  json_escape (str (pg_event_kind_name (ev_kind ev))) ++
  str ("," +:+ dq +:+ "ts_ns" +:+ dq +:+ ":" +:+ fmt_d (ev_ts_ns ev) +:+
       "," +:+ dq +:+ "thread" +:+ dq +:+ ":" +:+ fmt_d (ev_thread_tag ev) +:+
       "," +:+ dq +:+ "key" +:+ dq +:+ ":") ++
  json_escape (key_chars ev) ++
  str ("," +:+ dq +:+ "num" +:+ dq +:+ ":" +:+ fmt_d (ev_num ev) +:+
       "," +:+ dq +:+ "text" +:+ dq +:+ ":") ++
  json_escape (ev_text ev) ++
  str ("}" +:+ nl).

(** [(double)ts_ns / 1e9]. *)
Definition ts_sec (ev : pg_event_t) : spec_float :=
  d_div (d_of_Z (ev_ts_ns ev)) (d_of_Z 1000000000).

(* @ src/main.c:86-90 run_headless *)
Definition render_text (ev : pg_event_t) : list Z :=
  str (pad_left 9 (fmt_f 3 (ts_sec ev)) +:+ "  " +:+
       pad_right 8 (pg_event_kind_name (ev_kind ev)) +:+ "  t=" +:+
       pad_right 2 (fmt_d (ev_thread_tag ev)) +:+ "  " +:+
       pad_right 16 (unstr (cstr (key_chars ev))) +:+ "  num=" +:+
       pad_right 10 (fmt_d (ev_num ev)) +:+ "  ") ++ cstr (ev_text ev) ++ str nl.

(* @ src/main.c:76-91 run_headless *)
Definition render (json : bool) (ev : pg_event_t) : list Z :=
  if json then render_json ev else render_text ev.

(** ** The pump *)

(* @ src/main.c:93-93 run_headless *)
Definition is_done (ev : pg_event_t) : bool := ev_kind ev =? kind_code PG_EV_DONE.

Inductive pump_out :=
| PumpEnd (out : list Z) (saw_done : bool) (err : string)
| PumpOverread             (* printing a text without end reads past the record *)
| PumpBlocked
| PumpNoFuel.

(* @ src/main.c:75-94 run_headless *)
Fixpoint pump (fuel : nat) (json : bool) (h : pg_run_handle_t) (p : pipe) (rs : list rres)
  : pump_out :=
  match fuel with
  | O => PumpNoFuel
  | S fuel =>
      match pg_run_poll (Some h) true (-1) PollReady p rs with
      | PollBlocked => PumpBlocked
      | PollRet r (Some ev) p' rs' as o =>
          if 0 <? r then
            if negb (text_ends ev) then PumpOverread
            else if is_done ev then PumpEnd (render json ev) true EmptyString
            else match pump fuel json h p' rs' with
                 | PumpEnd out d err => PumpEnd (render json ev ++ out) d err
                 | o => o
                 end
          else PumpEnd [] false (poll_stderr o)
      | PollRet _ None _ _ => PumpEnd [] false EmptyString
      end
  end.

(** Each round consumes a whole record. *)
Definition pump_fuel (p : pipe) : nat := S (length (p_data p) / EVENT_SIZE).

(** Signal numbers as printed on Linux. *)
Definition signal_no (s : signal) : Z :=
  match s with
  | SIGSEGV => 11 | SIGBUS => 7 | SIGABRT => 6 | SIGFPE => 8 | SIGILL => 4
  | SIGTERM => 15 | SIGKILL => 9 | SIGPIPE => 13 | SIGXCPU => 24
  end.

(* @ src/main.c:99-105 run_headless *)
Definition end_message (saw_done : bool) (status : exit_status) : string :=
  if saw_done then ""
  else match status with
       | Signaled s => "child died from signal " +:+ fmt_d (signal_no s) +:+ nl
       | Exited c => "child exited " +:+ fmt_d c +:+ " before PG_EV_DONE" +:+ nl
       end.

Inductive headless_out :=
| HeadRet (stdout : list Z) (stderr : string) (rc : Z)
| HeadOverread
| HeadBlocked
| HeadNoFuel.

(** [status] starts as 0; [pg_run_reap] overwrites it unless [waitpid] fails. *)
(* @ src/main.c run_headless *)
Definition run_headless {C} (reg : list (pg_scenario_t C)) (id : option string) (seed : Z)
    (json : bool) (pipe_ans : option (Z * Z)) (fork_ans : option Z)
    (p : pipe) (rs : list rres) (ws : list waitres) : headless_out :=
  match pg_registry_find id reg with
  | None => HeadRet [] ("unknown scenario: " +:+ default "(null)" id +:+ nl) 2
  | Some s =>
      match pg_run_start (Some s) seed true pipe_ans fork_ans with
      | (_, None, _) => HeadRet [] ("failed to start scenario" +:+ nl) 1
      | (_, Some h, _) =>
          match pump (pump_fuel p) json h p rs with
          | PumpOverread => HeadOverread
          | PumpBlocked => HeadBlocked
          | PumpNoFuel => HeadNoFuel
          | PumpEnd out saw_done err =>
              match pg_run_reap (Some h) ws with
              | None => HeadBlocked
              | Some (_, st, _, _) =>
                  HeadRet out (err +:+ end_message saw_done (default (Exited 0) st)) 0
              end
          end
      end
  end.

(** ** Arguments *)

(* @ src/main.c:110-113 main *)
Record options := Options {
  o_scenario : option string;
  o_seed : Z;
  o_json : bool;
  o_list : bool
}.

Inductive parse_out :=
| ParseOk (o : options)
| ParseHelp
| ParseUnknown (arg : string).

(* @ src/main.c:115-132 main *)
Fixpoint parse_args (args : list string) (o : options) : parse_out :=
  match args with
  | [] => ParseOk o
  | a :: rest =>
      if decide (a = "--scenario") then
        match rest with
        | v :: rest => parse_args rest (Options (Some v) (o_seed o) (o_json o) (o_list o))
        | [] => ParseUnknown a
        end
      else if decide (a = "--seed") then
        match rest with
        | v :: rest => parse_args rest (Options (o_scenario o) (strtoull 0 (str v)) (o_json o) (o_list o))
        | [] => ParseUnknown a
        end
      else if decide (a = "--json") then
        parse_args rest (Options (o_scenario o) (o_seed o) true (o_list o))
      else if decide (a = "--list") then
        parse_args rest (Options (o_scenario o) (o_seed o) (o_json o) true)
      else if decide (a = "-h" \/ a = "--help") then ParseHelp
      else ParseUnknown a
  end.

(** What [main] does next: exit with output, run headless, or start the TUI. *)
Inductive action :=
| ActExit (rc : Z) (stdout stderr : string)
| ActHeadless (id : string) (seed : Z) (json : bool) (stderr : string)
| ActTui (stderr : string).

(* @ src/main.c:137-140 main *)
Definition seed_warning : string :=
  "warning: seed=0 is internally remapped to a fixed default for the" +:+ nl +:+
  "         RNG; pass a non-zero --seed for true reproducibility." +:+ nl.

(* @ src/main.c main *)
Definition main {C} (has_tui : bool) (reg : list (pg_scenario_t C)) (now : Z) (argv0 : string)
    (args : list string) : action :=
  match parse_args args (Options None (u64 now) false false) with
  | ParseHelp => ActExit 0 (print_usage argv0) ""
  | ParseUnknown a => ActExit 2 "" ("unknown arg: " +:+ a +:+ nl +:+ print_usage argv0)
  | ParseOk o =>
      if o_list o then ActExit 0 (list_scenarios reg) ""
      else
        let warn := if o_seed o =? 0 then seed_warning else "" in
        match o_scenario o with
        | Some id => ActHeadless id (o_seed o) (o_json o) warn
        | None =>
            if has_tui then ActTui warn
            else ActExit 2 "" (warn +:+
              "this binary is headless-only. pass --scenario ID, or use ./playground." +:+ nl +:+
              print_usage argv0)
        end
  end.

(** ** Lemmas: JSON strings *)

Definition json_more (b : Z) (r : option (list Z * list Z)) : option (list Z * list Z) :=
  match r with Some (t, rest) => Some (b :: t, rest) | None => None end.

(** Reference reader of the body of a JSON string, after the opening quote:
    the bytes it denotes and what follows the closing quote. *)
Fixpoint json_unesc (s : list Z) : option (list Z * list Z) :=
  match s with
  | [] => None
  | c :: s =>
      if c =? 34 then Some ([], s)
      else if c =? 92 then
        match s with
        | [] => None
        | e :: s =>
            if (e =? 34) || (e =? 92) then json_more e (json_unesc s)
            else if e =? 110 then json_more 10 (json_unesc s)
            else if e =? 114 then json_more 13 (json_unesc s)
            else if e =? 116 then json_more 9 (json_unesc s)
            else if e =? 117 then
              match s with
              | z1 :: z2 :: a :: b :: s =>
                  match digit_in 16 a, digit_in 16 b with
                  | Some x, Some y =>
                      if (z1 =? 48) && (z2 =? 48) then json_more (16 * x + y) (json_unesc s)
                      else None
                  | _, _ => None
                  end
              | _ => None
              end
            else None
        end
      else if c <? 32 then None
      else json_more c (json_unesc s)
  end.

Definition controls : list Z := Eval vm_compute in seqZ 0 32.

Lemma control_cases (P : Z -> Prop) : Forall P controls -> forall c, 0 <= c < 32 -> P c.
Proof.
  intros H c Hc. rewrite Forall_forall in H. apply H.
  change controls with (seqZ 0 32). apply elem_of_seqZ. lia.
Qed.

Lemma json_unesc_char c s :
  0 <= c -> json_unesc (json_esc_char c ++ s) = json_more c (json_unesc s).
Proof.
  intros Hc. destruct (decide (c < 32)) as [Hlt|Hge].
  - revert c Hc Hlt. enough (H : forall c, 0 <= c < 32 ->
      json_unesc (json_esc_char c ++ s) = json_more c (json_unesc s)) by auto.
    apply control_cases. unfold controls. by repeat constructor.
  - unfold json_esc_char.
    destruct (Z.eqb_spec c 34) as [->|]; [done|]. destruct (Z.eqb_spec c 92) as [->|]; [done|].
    destruct (Z.eqb_spec c 10); [lia|]. destruct (Z.eqb_spec c 13); [lia|].
    destruct (Z.eqb_spec c 9); [lia|]. destruct (Z.ltb_spec c 32); [lia|]. cbn [app json_unesc].
    by rewrite (proj2 (Z.eqb_neq c 34)), (proj2 (Z.eqb_neq c 92)), (proj2 (Z.ltb_ge c 32)).
Qed.

Lemma json_unesc_escape s rest :
  are_bytes s -> json_unesc (concat (map json_esc_char (cstr s)) ++ 34 :: rest) = Some (cstr s, rest).
Proof.
  intros Hs. apply are_bytes_cstr in Hs. induction Hs as [|c t Hc _ IH]; [done|].
  cbn [map concat]. rewrite <- app_assoc, json_unesc_char, IH by lia. done.
Qed.

(** No byte of an escaped string is a control character. *)
Lemma json_esc_char_printable c : 0 <= c -> Forall (fun b => 32 <= b) (json_esc_char c).
Proof.
  intros Hc. destruct (decide (c < 32)) as [Hlt|Hge].
  - revert c Hc Hlt. enough (H : forall c, 0 <= c < 32 ->
      Forall (fun b => 32 <= b) (json_esc_char c)) by auto.
    apply control_cases. apply (bool_decide_unpack _). by vm_compute.
  - unfold json_esc_char. repeat case_match; repeat constructor; lia.
Qed.

Lemma json_escape_printable s : are_bytes s -> Forall (fun b => 32 <= b) (json_escape s).
Proof.
  intros Hs. apply are_bytes_cstr in Hs. unfold json_escape.
  apply Forall_app; split; [by repeat constructor|].
  apply Forall_app; split; [|by repeat constructor].
  induction Hs as [|c t Hc _ IH]; cbn; [constructor|].
  apply Forall_app; split; [apply json_esc_char_printable; lia|done].
Qed.

(** ** Lemmas: the pump *)

Record sound_event (ev : pg_event_t) : Prop := {
  se_wf : event_wf ev;
  se_strings : strings_end ev;
  se_header : header_ok ev = true;
  se_not_done : is_done ev = false
}.

Lemma pump_prefix json h closed evs rest rs fuel :
  live_handle h -> Forall sound_event evs -> RErr ∉ rs ->
  (EVENT_SIZE * length evs <= reads rs)%nat ->
  exists rs', (RErr ∉ rs') /\ (reads rs <= EVENT_SIZE * length evs + reads rs')%nat /\
    pump (length evs + fuel) json h (Pipe (concat (map encode evs) ++ rest) closed) rs =
    match pump fuel json h (Pipe rest closed) rs' with
    | PumpEnd out d err => PumpEnd (concat (map (render json) evs) ++ out) d err
    | o => o
    end.
Proof.
  intros Hh Hev. revert rs. induction Hev as [|e evs [Hw [_ Htx] Hok Hnd] _ IH]; intros rs He Hr.
  - exists rs. cbn. split; [done|]. split; [lia|]. by destruct (pump _ _ _ _ _).
  - cbn [length Nat.add pump map concat] in *. rewrite <- app_assoc.
    destruct (poll_record h (-1) PollReady (Pipe (encode e ++ concat (map encode evs) ++ rest) closed)
      rs e (concat (map encode evs) ++ rest)) as (rs1 & He1 & Hr1 & ->); try done; [lia|].
    destruct (IH rs1 He1) as (rs2 & He2 & Hr2 & E); [lia|].
    exists rs2. split; [done|]. split; [lia|]. cbn. unfold text_ends. rewrite Htx. cbn. rewrite Hnd, E.
    destruct (pump fuel json h (Pipe rest closed) rs2); [|done..]. by rewrite app_assoc.
Qed.

Lemma pump_done json h closed evs d rest rs fuel :
  live_handle h -> Forall sound_event evs ->
  event_wf d -> header_ok d = true -> text_ends d = true -> is_done d = true ->
  RErr ∉ rs -> (EVENT_SIZE * S (length evs) <= reads rs)%nat -> (length evs < fuel)%nat ->
  pump fuel json h (Pipe (concat (map encode evs) ++ encode d ++ rest) closed) rs =
  PumpEnd (concat (map (render json) (evs ++ [d]))) true EmptyString.
Proof.
  intros Hh Hev Hw Hok Htx Hd He Hr Hf.
  replace fuel with (length evs + S (fuel - S (length evs)))%nat by lia.
  destruct (pump_prefix json h closed evs (encode d ++ rest) rs (S (fuel - S (length evs))))
    as (rs1 & He1 & Hr1 & ->); [done..|lia|].
  cbn [pump].
  destruct (poll_record h (-1) PollReady (Pipe (encode d ++ rest) closed) rs1 d rest)
    as (rs2 & _ & _ & ->); try done; [lia|].
  cbn. rewrite Htx. cbn. rewrite Hd. rewrite map_app, concat_app. cbn. by rewrite app_nil_r.
Qed.

Lemma pump_eof json h evs tail rs fuel :
  live_handle h -> Forall sound_event evs -> (length tail < EVENT_SIZE)%nat ->
  RErr ∉ rs -> (EVENT_SIZE * length evs + length tail < reads rs)%nat -> (length evs < fuel)%nat ->
  pump fuel json h (Pipe (concat (map encode evs) ++ tail) true) rs =
  PumpEnd (concat (map (render json) evs)) false EmptyString.
Proof.
  intros Hh Hev Ht He Hr Hf.
  replace fuel with (length evs + S (fuel - S (length evs)))%nat by lia.
  destruct (pump_prefix json h true evs tail rs (S (fuel - S (length evs))))
    as (rs1 & He1 & Hr1 & ->); [done..|lia|].
  cbn [pump].
  destruct (poll_end h (-1) PollReady (Pipe tail true) rs1) as (rs2 & ->); try done; [cbn; lia|].
  cbn. by destruct (length tail =? 0)%nat; rewrite app_nil_r.
Qed.

(** A torn record the reader splices with its successor: [printf] reads on. *)
Lemma pump_reads_on :
  pump 2 false (Handle 77 3 (-1) 42)
    (Pipe (take 255 (encode long_text) ++ encode (fault_event SIGBUS)) true) (replicate 300 (RChunk 512))
  = PumpOverread.
Proof. vm_compute. reflexivity. Qed.

(** A reader off the grid: nothing is printed but the complaint. *)
Lemma pump_off_grid :
  pump 2 false (Handle 77 3 (-1) 42) (Pipe off_grid true) (replicate 300 (RChunk 512))
  = PumpEnd [] false
      ("pg_run_poll: bad event header (magic=0x0000 version=0 expected 0xe5e7 v1)" +:+ nl)%string.
Proof. vm_compute. reflexivity. Qed.

(** ** Lemmas: the listing and the arguments *)

Lemma sound_fault sig : sound_event (fault_event sig).
Proof. split; [apply fault_event_wf|by destruct sig|apply fault_event_header|by destruct sig]. Qed.

Lemma sound_signal_records sig : Forall sound_event (signal_records sig).
Proof. apply signal_records_Forall, sound_fault. Qed.

Lemma existsb_sound evs : Forall sound_event evs -> existsb is_done evs = false.
Proof. induction 1 as [|e evs He _ IH]; cbn; [done|]. by rewrite (se_not_done _ He). Qed.

Lemma parse_args_seed v rest o :
  parse_args ("--seed"%string :: v :: rest) o
  = parse_args rest (Options (o_scenario o) (strtoull 0 (str v)) (o_json o) (o_list o)).
Proof. done. Qed.

Lemma parse_args_scenario v rest o :
  parse_args ("--scenario"%string :: v :: rest) o
  = parse_args rest (Options (Some v) (o_seed o) (o_json o) (o_list o)).
Proof. done. Qed.

Lemma parse_args_json rest o :
  parse_args ("--json"%string :: rest) o
  = parse_args rest (Options (o_scenario o) (o_seed o) true (o_list o)).
Proof. done. Qed.

Lemma parse_args_end o : parse_args [] o = ParseOk o.
Proof. done. Qed.

(** What a scenario promises to the runner and its consumers: its callbacks emit
    sound records (the runner's context has tag 0). *)
Definition records_sound {C St A} (call : C -> pg_runctx -> option St -> list pg_event_t * A) : Prop :=
  forall f ctx (st : option St), ctx_thread_tag ctx = 0 -> Forall sound_event (fst (call f ctx st)).
Existing Class records_sound.

Lemma sound_emit ctx tag now ev :
  event_wf ev -> strings_end ev -> in_u32 tag -> ctx_thread_tag ctx = 0 -> is_done ev = false ->
  sound_event (pg_emit_copy ctx tag now ev).
Proof.
  intros Hw Hs Ht Hc Hd. split; [|done|done|done]. apply pg_emit_copy_wf; [done|done|lia].
Qed.

(** Whatever the child does, the pump prints its records and nothing else. *)
Lemma pump_child {C St} (call : C -> pg_runctx -> option St -> list pg_event_t * cb_fin (option St))
    (td : C -> pg_runctx -> option St -> list pg_event_t * cb_fin unit) now (s : pg_scenario_t C) fd seed start json h junk rs fuel :
  records_sound call ->
  records_sound td ->
  live_handle h ->
  let '(evs, x) := child_main call td now s fd seed start in
  (length junk < EVENT_SIZE)%nat -> RErr ∉ rs ->
  (EVENT_SIZE * length evs + length junk < reads rs)%nat -> (length evs < fuel)%nat ->
  pump fuel json h (Pipe (concat (map encode evs) ++ junk) true) rs =
  PumpEnd (concat (map (render json) evs)) (existsb is_done evs) EmptyString.
Proof.
  intros Hc Ht Hh. pose proof (child_main_shape call td now sound_event Hc Ht s fd seed start) as Hs.
  destruct (child_main _ _ _ _ _ _ _) as [evs x]. destruct Hs as (body & tail & He & Hb & Htl).
  cbn in He, Htl. subst evs. intros Hj Hr Hn Hf. rewrite length_app in Hn, Hf.
  destruct Htl as [ctx rc Htag|sig|code].
  - cbn [length] in Hn, Hf.
    rewrite map_app, concat_app, <- app_assoc. cbn [map concat]. rewrite app_nil_r.
    rewrite (pump_done json h true body _ junk rs fuel); try done; try lia.
    + f_equal. rewrite existsb_app. cbn. by rewrite orb_true_r.
    + apply pg_done_wf. rewrite Htag. lia.
  - assert (Hev : Forall sound_event (body ++ signal_records sig))
      by (apply Forall_app; split; [done|apply sound_signal_records]).
    rewrite (pump_eof json h _ junk rs fuel), existsb_sound; try done; rewrite ?length_app; lia.
  - rewrite app_nil_r in *. cbn [length] in *.
    rewrite (pump_eof json h _ junk rs fuel), existsb_sound; try done; lia.
Qed.

Lemma length_concat_encode evs :
  Forall event_wf evs -> length (concat (map encode evs)) = (EVENT_SIZE * length evs)%nat.
Proof.
  induction 1 as [|e evs He _ IH]; cbn [map concat length]; [lia|].
  rewrite length_app, IH, length_encode by apply He. lia.
Qed.

Lemma child_records_wf {C St} (call : C -> pg_runctx -> option St -> list pg_event_t * cb_fin (option St))
    (td : C -> pg_runctx -> option St -> list pg_event_t * cb_fin unit) now (s : pg_scenario_t C) fd seed start :
  records_sound call ->
  records_sound td ->
  Forall event_wf (fst (child_main call td now s fd seed start)).
Proof.
  intros Hc Ht.
  destruct (child_main_shape call td now sound_event Hc Ht s fd seed start) as (body & tail & -> & Hb & Htl).
  apply Forall_app; split.
  - eapply Forall_impl; [exact Hb|]. intros e He. apply He.
  - destruct Htl as [ctx rc Htag|sig|code]; [|apply signal_records_Forall, fault_event_wf|constructor].
    constructor; [|constructor]. apply pg_done_wf. rewrite Htag. lia.
Qed.

(** Only the runner's own last record is a DONE, of a child that ends by itself. *)
Lemma child_done_last {C St} (call : C -> pg_runctx -> option St -> list pg_event_t * cb_fin (option St))
    (td : C -> pg_runctx -> option St -> list pg_event_t * cb_fin unit) now (s : pg_scenario_t C) fd seed start :
  records_sound call -> records_sound td ->
  let '(evs, x) := child_main call td now s fd seed start in
  forall i e, evs !! i = Some e -> is_done e = true -> S i = length evs /\ (x = Exited 0 \/ x = Exited 1).
Proof.
  intros Hc Ht. pose proof (child_main_shape call td now sound_event Hc Ht s fd seed start) as Hs.
  destruct (child_main _ _ _ _ _ _ _) as [evs x]. destruct Hs as (body & tail & He & Hb & Htl).
  cbn in He, Htl. subst evs. intros i e Hi Hd.
  assert (Hno : forall l, Forall sound_event l -> l !! i = Some e -> False).
  { intros l Hl Hx. pose proof (se_not_done _ (Forall_lookup_1 _ _ _ _ Hl Hx)). congruence. }
  destruct Htl as [ctx rc Htag|sig|code].
  - apply lookup_app_Some in Hi as [Hi|[Hl Hi]]; [by destruct (Hno body)|].
    destruct (i - length body)%nat eqn:En; [|done]. rewrite length_app. cbn [length].
    split; [lia|]. destruct (rc =? 0); auto.
  - destruct (Hno (body ++ signal_records sig)); [|done].
    apply Forall_app. split; [done|apply sound_signal_records].
  - rewrite app_nil_r in Hi. by destruct (Hno body).
Qed.

Lemma render_json_printable ev :
  event_wf ev -> exists line, render_json ev = line ++ [10] /\ Forall (fun b => 32 <= b) line.
Proof.
  intros Hw. unfold render_json.
  rewrite (str_app "}" nl). change (str nl) with [10]. rewrite !app_assoc.
  eexists. split; [reflexivity|].
  rewrite !str_app, !Forall_app. split_and!;
    try (apply json_escape_printable; first [by auto with pg | apply Hw]);
    first [apply fmt_d_printable | apply (bool_decide_unpack _); vm_compute; exact I].
Qed.

(** The whole headless run, from the child's records to the output. *)
Lemma run_headless_child {C St} (call : C -> pg_runctx -> option St -> list pg_event_t * cb_fin (option St))
    (td : C -> pg_runctx -> option St -> list pg_event_t * cb_fin unit) now (reg : list (pg_scenario_t C)) s id seed json
    rd wr pid start junk rs ws :
  records_sound call ->
  records_sound td ->
  pg_registry_find (Some id) reg = Some s -> 0 <= rd -> 0 < pid ->
  let '(evs, x) := child_main call td now s wr seed start in
  (length junk < EVENT_SIZE)%nat -> RErr ∉ rs ->
  (EVENT_SIZE * S (length evs) <= reads rs)%nat -> reap_wait ws = Some (Some x) ->
  run_headless reg (Some id) seed json (Some (rd, wr)) (Some pid)
    (Pipe (concat (map encode evs) ++ junk) true) rs ws
  = HeadRet (concat (map (render json) evs)) (end_message (existsb is_done evs) x) 0.
Proof.
  intros Hc Ht Hf Hrd Hpid. pose proof (child_records_wf call td now s wr seed start Hc Ht) as Hw.
  pose proof (pump_child call td now s wr seed start json (Handle pid rd (-1) seed) junk rs) as Hp.
  destruct (child_main call td now s wr seed start) as [evs x]. cbn [fst] in Hw. intros Hj He Hr Hx.
  unfold run_headless. rewrite Hf. cbn [pg_run_start]. unfold pump_fuel. cbn [p_data].
  rewrite Hp; try done; [|lia|].
  - unfold pg_run_reap. cbn [child_pid]. rewrite (proj2 (Z.ltb_lt _ _)), Hx by done. done.
  - rewrite length_app, length_concat_encode by done.
    assert (length evs <= (EVENT_SIZE * length evs + length junk) / EVENT_SIZE)%nat; [|lia].
    apply Nat.div_le_lower_bound; [done|lia].
Qed.

(** ** Properties *)

(** C2: end to end, a headless run reports the child faithfully: whatever
    records the scenario's callbacks emit (well formed, none of kind DONE), however
    the run ends, and however the kernel cuts up the reads, [run_headless] prints
    the rendering of every record the child wrote, in order, exactly once, and
    nothing else; bytes of a last cut-off record are not shown. It names the
    child's end on stderr exactly when no DONE record arrived, and returns 0. *)
Theorem run_headless_end_to_end {C St} (call : C -> pg_runctx -> option St -> list pg_event_t * cb_fin (option St))
    (td : C -> pg_runctx -> option St -> list pg_event_t * cb_fin unit) now (reg : list (pg_scenario_t C)) s id seed json
    rd wr pid start junk rs ws :
  records_sound call ->
  records_sound td ->
  pg_registry_find (Some id) reg = Some s -> 0 <= rd -> 0 < pid ->
  let '(evs, x) := child_main call td now s wr seed start in
  (length junk < EVENT_SIZE)%nat -> RErr ∉ rs ->
  (EVENT_SIZE * S (length evs) <= reads rs)%nat -> reap_wait ws = Some (Some x) ->
  run_headless reg (Some id) seed json (Some (rd, wr)) (Some pid)
    (Pipe (concat (map encode evs) ++ junk) true) rs ws
  = HeadRet (concat (map (render json) evs)) (end_message (existsb is_done evs) x) 0.
Proof. apply run_headless_child. Qed.

(** A scenario that logs one line and then dies from a null dereference. *)
Definition crash_call (f : nat) (ctx : pg_runctx) (st : option unit)
  : list pg_event_t * cb_fin (option unit) :=
  ([pg_emit_copy ctx 0 2000 (pg_logf "about to crash")], CbSignal SIGSEGV).
Definition no_teardown (f : nat) (ctx : pg_runctx) (st : option unit)
  : list pg_event_t * cb_fin unit := ([], CbRet 0 (ctx_rng ctx) tt).
Definition crash_scenario : pg_scenario_t nat :=
  Scenario "crash" "t" "o" "d" "e" None PG_CAT_MEMORY None 0%nat None None.

Lemma run_headless_end_to_end_witness :
  let '(evs, x) := child_main crash_call no_teardown 9000 crash_scenario 4 42 1000 in
  run_headless [crash_scenario] (Some "crash"%string) 42 true (Some (3, 4)) (Some 77)
    (Pipe (concat (map encode evs) ++ []) true) (replicate 800 (RChunk 512)) [WaitEintr; WaitOk x]
  = HeadRet (concat (map (render true) evs)) (end_message (existsb is_done evs) x) 0.
Proof.
  refine (run_headless_end_to_end crash_call no_teardown 9000 [crash_scenario] crash_scenario
    "crash" 42 true 3 4 77 1000 [] (replicate 800 (RChunk 512))
    [WaitEintr; WaitOk (Signaled SIGSEGV)] _ _ eq_refl ltac:(lia) ltac:(lia)
    ltac:(unfold EVENT_SIZE; cbn; lia) _ _ eq_refl).
  - intros f ctx st Htag. constructor; [|constructor].
    apply sound_emit; [by apply ev_text_wf|by apply ev_text_strings|lia|done|done].
  - intros f ctx st _. constructor.
  - apply (bool_decide_unpack _). vm_compute. exact I.
  - vm_compute. lia.
Defined.

(** Every event renders to one JSON line: whatever bytes the key and the
    text hold, the JSON rendering has no control character but the final newline,
    so one record is one line. *)
Theorem render_json_one_line ev :
  event_wf ev -> exists line, render_json ev = line ++ [10] /\ Forall (fun b => 32 <= b) line.
Proof. apply render_json_printable. Qed.

Lemma render_json_one_line_witness :
  exists line, render_json (pg_logf "hello") = line ++ [10] /\ Forall (fun b => 32 <= b) line.
Proof. apply (render_json_one_line (pg_logf "hello")). by apply ev_text_wf. Defined.

(** Strings survive JSON: reading back what [json_escape] wrote yields the
    C string that was escaped and leaves what follows the closing quote. *)
Theorem json_escape_roundtrip s rest :
  are_bytes s ->
  exists body, json_escape s = 34 :: body /\ json_unesc (body ++ rest) = Some (cstr s, rest).
Proof.
  intros Hs. eexists. split; [done|]. cbn [app].
  rewrite <- app_assoc. by apply json_unesc_escape.
Qed.

Lemma json_escape_roundtrip_witness :
  exists body, json_escape [97; 34; 10; 200; 1; 0; 65] = 34 :: body /\
    json_unesc (body ++ [44]) = Some ([97; 34; 10; 200; 1], [44]).
Proof.
  apply (json_escape_roundtrip [97; 34; 10; 200; 1; 0; 65] [44]).
  apply (bool_decide_unpack _). vm_compute. exact I.
Defined.

(** The command line round-trips: asked to run a scenario with any 64-bit
    seed written in decimal, the program runs that scenario with that seed (and
    warns exactly when it is 0); a flag missing its value is rejected with
    status 2 before anything runs. *)
Theorem main_seed_roundtrip {C} tui (reg : list (pg_scenario_t C)) now argv0 id n :
  in_u64 n ->
  main tui reg now argv0 ["--seed"; fmt_d n; "--json"; "--scenario"; id]
    = ActHeadless id n true (if n =? 0 then seed_warning else "") /\
  main tui reg now argv0 ["--scenario"; id; "--seed"; fmt_d n]
    = ActHeadless id n false (if n =? 0 then seed_warning else "") /\
  main tui reg now argv0 ["--scenario"; id; "--seed"]
    = ActExit 2 "" ("unknown arg: " +:+ "--seed" +:+ nl +:+ print_usage argv0).
Proof.
  intros Hn. pose proof (strtoull_fmt_d 0 n (or_introl eq_refl) Hn) as Hs.
  unfold main. split_and!; [| |done];
    repeat first [rewrite parse_args_seed | rewrite parse_args_scenario | rewrite parse_args_json];
    rewrite Hs; reflexivity.
Qed.

Lemma main_seed_roundtrip_witness :
  main true (@nil (pg_scenario_t nat)) 0 "playground_run" ["--seed"; fmt_d 42; "--json"; "--scenario"; "x"%string]
  = ActHeadless "x" 42 true "".
Proof. apply (main_seed_roundtrip true (@nil (pg_scenario_t nat)) 0 "playground_run" "x" 42). lia. Defined.
