(* ===== verification/Emitters.v ===== *)
(** * Several threads on one pipe (src/core/runner.c pg_emit)

    [pg_emit] takes no lock: every thread of the child copies its record and
    runs its own write loop on the same descriptor.  A step relation interleaves
    the writes.  Where each [write] of a record is whole (a record is smaller
    than PIPE_BUF, so POSIX makes it so on a blocking pipe) the stream is an
    interleaving of whole records; with short writes the loop mixes them. *)

From S2P Require Import Prelude Event Runner Main.

(** ** The threads *)

(** A thread: its tag, the calls of [pg_emit] it has yet to make (with the
    clock each reads) and the bytes of the current record not written yet. *)
Record emitter := Emitter {
  em_tag : Z;
  em_todo : list (Z * pg_event_t);
  em_left : list Z
}.

(** The pipe's content, as no reader has touched it, and the threads. *)
Record channel := Channel { ch_pipe : list Z; ch_threads : list emitter }.

(** One thread copies and stamps its next record, or makes one [write]; [whole]:
    no write is short. *)
(* @ src/core/runner.c:57-80 pg_emit *)
Inductive emit_step (whole : bool) (ctx : pg_runctx) : channel -> channel -> Prop :=
| EmitCopy p ts t tag now ev todo :
    ts !! t = Some (Emitter tag ((now, ev) :: todo) []) ->
    emit_step whole ctx (Channel p ts)
      (Channel p (<[t := Emitter tag todo (encode (pg_emit_copy ctx tag now ev))]> ts))
| EmitWrite p ts t tag todo left k :
    ts !! t = Some (Emitter tag todo left) ->
    (0 < k <= length left)%nat -> (whole = true -> k = length left) ->
    emit_step whole ctx (Channel p ts)
      (Channel (p ++ take k left) (<[t := Emitter tag todo (drop k left)]> ts)).

(** The write made by a step is the one the loop of [pg_emit] makes. *)
Lemma emit_write_loop left k ws :
  (0 < length left)%nat ->
  write_loop (WOk k :: ws) left =
  let '(out, st, ws) := write_loop ws (drop k left) in (take k left ++ out, st, ws).
Proof. by destruct left; cbn; [lia|]. Qed.

(** The records a thread's calls make. *)
Definition records (ctx : pg_runctx) (e : emitter) : list pg_event_t :=
  map (fun c => pg_emit_copy ctx (em_tag e) c.1 c.2) (em_todo e).

Definition idle (e : emitter) : Prop := em_left e = [].
Definition finished (e : emitter) : Prop := em_todo e = [] /\ em_left e = [].

(** A sequence of records, each with its thread; the ones of thread [t]. *)
Definition of_thread (t : nat) (tr : list (nat * pg_event_t)) : list pg_event_t :=
  map snd (filter (fun x => x.1 = t) tr).

Definition bytes_of (tr : list (nat * pg_event_t)) : list Z := concat (map (fun x => encode x.2) tr).

(** ** Lemmas *)

Lemma of_thread_snoc_same t tr r : of_thread t (tr ++ [(t, r)]) = of_thread t tr ++ [r].
Proof. unfold of_thread. rewrite filter_app, filter_cons_True, filter_nil, map_app by done. done. Qed.

Lemma of_thread_snoc_other t u tr r : u <> t -> of_thread t (tr ++ [(u, r)]) = of_thread t tr.
Proof.
  intros H. unfold of_thread. rewrite filter_app, filter_cons_False, filter_nil, app_nil_r by done. done.
Qed.

(** What thread [t] has in hand: nothing, or a record not yet written at all. *)
Inductive in_hand : list Z -> list pg_event_t -> Prop :=
| HandEmpty : in_hand [] []
| HandFull r : in_hand (encode r) [r].

Record merged (ctx : pg_runctx) (ts0 : list emitter) (ch : channel) (tr : list (nat * pg_event_t)) : Prop := {
  mg_pipe : ch_pipe ch = bytes_of tr;
  mg_length : length (ch_threads ch) = length ts0;
  mg_known : Forall (fun x => (x.1 < length ts0)%nat) tr;
  mg_threads : forall t e0 e, ts0 !! t = Some e0 -> ch_threads ch !! t = Some e ->
    em_tag e = em_tag e0 /\
    exists cur, in_hand (em_left e) cur /\ records ctx e0 = of_thread t tr ++ cur ++ records ctx e
}.

Lemma merged_start ctx ts : Forall idle ts -> merged ctx ts (Channel [] ts) [].
Proof.
  intros Hi. split; try done. intros t e0 e H0 H. cbn in H.
  rewrite H0 in H. injection H as <-. split; [done|].
  exists []. rewrite (Forall_lookup_1 _ _ _ _ Hi H0 : em_left e0 = []). split; [constructor|done].
Qed.

Lemma bytes_of_snoc tr t r : bytes_of (tr ++ [(t, r)]) = bytes_of tr ++ encode r.
Proof. unfold bytes_of. rewrite map_app, concat_app. cbn. by rewrite app_nil_r. Qed.

Lemma encode_not_nil r : encode r <> [].
Proof. unfold encode. by cbn. Qed.

Lemma encode_pos r : (0 < length (encode r))%nat.
Proof. unfold encode. rewrite length_app, length_le_bytes. lia. Qed.

Lemma merged_step ctx ts0 ch ch' tr :
  merged ctx ts0 ch tr -> emit_step true ctx ch ch' -> exists tr', merged ctx ts0 ch' tr'.
Proof.
  intros [Hp Hl Hk Ht] Hs. destruct Hs as [p ts t tag now ev todo Hx|p ts t tag todo left k Hx Hlen Hw];
    cbn [ch_pipe ch_threads] in *.
  - exists tr. split; cbn [ch_pipe ch_threads]; [done|by rewrite length_insert|done|]. intros u e0 e H0 H.
    destruct (decide (u = t)) as [->|Hne]; [|rewrite list_lookup_insert_ne in H by done; by apply Ht].
    rewrite list_lookup_insert_eq in H by (by eapply lookup_lt_Some). simplify_eq.
    destruct (Ht t e0 _ H0 Hx) as [Et (cur & Hh & Hr)]. cbn [em_tag em_left] in *. split; [done|].
    inversion Hh as [Hc|r Hc]; try by destruct (encode_not_nil r).
    subst cur. eexists. split; [constructor|]. exact Hr.
  - rewrite (Hw eq_refl) in *. rewrite firstn_all, drop_all.
    assert (Hts : (t < length ts0)%nat) by (rewrite <- Hl; by eapply lookup_lt_Some).
    destruct (lookup_lt_is_Some_2 ts0 t Hts) as [e0 H0].
    destruct (Ht t e0 _ H0 Hx) as [Et (cur & Hh & Hr)]. cbn [em_tag em_left] in *.
    inversion Hh as [Hc|r Hc]; subst left; [cbn in Hlen; lia|]. subst cur.
    exists (tr ++ [(t, r)]). split; cbn [ch_pipe ch_threads].
    + by rewrite Hp, bytes_of_snoc.
    + by rewrite length_insert.
    + apply Forall_app. by repeat constructor.
    + intros u e1 e H1 H. destruct (decide (u = t)) as [->|Hne].
      * rewrite list_lookup_insert_eq in H by (by eapply lookup_lt_Some). simplify_eq. split; [done|].
        exists []. split; [constructor|]. rewrite of_thread_snoc_same, <- app_assoc. exact Hr.
      * rewrite list_lookup_insert_ne in H by done. rewrite of_thread_snoc_other by done. by apply Ht.
Qed.

Lemma merged_reach ctx ts ch :
  Forall idle ts -> rtc (emit_step true ctx) (Channel [] ts) ch -> exists tr, merged ctx ts ch tr.
Proof.
  intros Hi Hr. pose proof (ex_intro (merged ctx ts (Channel [] ts)) [] (merged_start ctx ts Hi)) as H0.
  induction Hr as [|x y z Hxy _ IH]; [done|]. apply IH. destruct H0 as [tr H0]. by eapply merged_step.
Qed.

Lemma merged_finished ctx ts ch tr :
  merged ctx ts ch tr -> Forall finished (ch_threads ch) ->
  forall t e, ts !! t = Some e -> of_thread t tr = records ctx e.
Proof.
  intros [Hp Hl Hk Ht] Hf t e0 H0.
  destruct (lookup_lt_is_Some_2 (ch_threads ch) t) as [e He]; [rewrite Hl; by eapply lookup_lt_Some|].
  destruct (Forall_lookup_1 _ _ _ _ Hf He) as [F1 F2]. destruct (Ht t e0 e H0 He) as [_ (cur & Hh & ->)].
  rewrite F2 in Hh. inversion Hh as [Hc|r Hc]; try by destruct (encode_not_nil r).
  unfold records. by rewrite F1, !app_nil_r.
Qed.

(** A trace all of whose threads' records are sound is sound. *)
Lemma trace_Forall (P : pg_event_t -> Prop) ctx ts tr :
  Forall (fun x => (x.1 < length ts)%nat) tr ->
  (forall t e, ts !! t = Some e -> of_thread t tr = records ctx e) ->
  Forall (fun e => Forall P (records ctx e)) ts -> Forall P (map snd tr).
Proof.
  intros Hk Ht Hs. apply Forall_map, Forall_forall. intros [t r] Hin.
  rewrite Forall_forall in Hk. specialize (Hk _ Hin). cbn in *.
  destruct (lookup_lt_is_Some_2 ts t Hk) as [e He].
  pose proof (Forall_lookup_1 _ _ _ _ Hs He) as Hr. cbn in Hr. rewrite <- (Ht t e He) in Hr.
  rewrite Forall_forall in Hr. apply Hr. unfold of_thread. apply list_elem_of_fmap.
  exists (t, r). split; [done|]. by apply list_elem_of_filter.
Qed.

(** ** Properties *)

(** C5: threads do not tear each other's records: when every write of a record is
    whole, however the threads of a child interleave their calls of [pg_emit], the
    stream is an interleaving of whole records in which each thread's are in its
    own order, and the headless reader prints exactly that interleaving.  The
    write loop alone does not give this: with a short write of [k] bytes in one
    thread, another thread's record can land inside the first one. *)
Theorem concurrent_emits_interleave ctx ts ch :
  (Forall idle ts -> Forall (fun e => Forall sound_event (records ctx e)) ts ->
   rtc (emit_step true ctx) (Channel [] ts) ch -> Forall finished (ch_threads ch) ->
   exists tr : list (nat * pg_event_t),
     (forall t e, ts !! t = Some e -> of_thread t tr = records ctx e) /\
     Forall (fun x => (x.1 < length ts)%nat) tr /\
     forall json h rs, live_handle h -> RErr ∉ rs -> (length (ch_pipe ch) < reads rs)%nat ->
       pump (pump_fuel (Pipe (ch_pipe ch) true)) json h (Pipe (ch_pipe ch) true) rs
       = PumpEnd (concat (map (render json) (map snd tr))) false EmptyString) /\
  (forall tag1 tag2 now1 now2 ev1 ev2 k,
   let r1 := pg_emit_copy ctx tag1 now1 ev1 in
   let r2 := pg_emit_copy ctx tag2 now2 ev2 in
   (0 < k < length (encode r1))%nat ->
   exists ch', rtc (emit_step false ctx)
       (Channel [] [Emitter tag1 [(now1, ev1)] []; Emitter tag2 [(now2, ev2)] []]) ch' /\
     Forall finished (ch_threads ch') /\
     ch_pipe ch' = take k (encode r1) ++ encode r2 ++ drop k (encode r1)).
Proof.
  split.
  - intros Hi Hs Hr Hf. destruct (merged_reach ctx ts ch Hi Hr) as [tr Hm].
    pose proof (merged_finished ctx ts ch tr Hm Hf) as Ht. destruct Hm as [Hp _ Hk _].
    exists tr. split; [done|]. split; [done|]. intros json h rs Hh He Hn.
    assert (Hev : Forall sound_event (map snd tr)) by (by eapply trace_Forall).
    assert (Hb : ch_pipe ch = concat (map encode (map snd tr))) by (by rewrite Hp, map_map).
    assert (Hl : length (ch_pipe ch) = (EVENT_SIZE * length (map snd tr))%nat).
    { rewrite Hb. apply length_concat_encode. eapply Forall_impl; [exact Hev|]. intros e H. apply H. }
    pose proof (pump_eof json h (map snd tr) [] rs (pump_fuel (Pipe (ch_pipe ch) true)) Hh Hev) as H.
    rewrite app_nil_r, <- Hb in H. unfold pump_fuel in *. cbn [p_data] in *.
    rewrite Hl, Nat.mul_comm, Nat.div_mul in * by done.
    apply H; [unfold EVENT_SIZE; cbn; lia|done|cbn [length]; lia|lia].
  - intros tag1 tag2 now1 now2 ev1 ev2 k r1 r2 Hk. eexists. split.
    { eapply rtc_l; [eapply EmitCopy with (t := 0%nat); reflexivity|]. cbn [insert list_insert]. fold r1.
      eapply rtc_l; [eapply EmitWrite with (t := 0%nat) (k := k); [reflexivity|lia|done]|].
      cbn [insert list_insert].
      eapply rtc_l; [eapply EmitCopy with (t := 1%nat); reflexivity|]. cbn [insert list_insert]. fold r2.
      eapply rtc_l; [eapply EmitWrite with (t := 1%nat) (k := length (encode r2));
        [reflexivity|split; [apply encode_pos|done]|done]|].
      cbn [insert list_insert].
      eapply rtc_l; [eapply EmitWrite with (t := 0%nat) (k := length (drop k (encode r1)));
        [reflexivity|rewrite length_drop; lia|done]|].
      cbn [insert list_insert]. apply rtc_refl. }
    cbn [ch_threads ch_pipe]. rewrite !firstn_all, !drop_all. split; [by repeat constructor|].
    by rewrite <- app_assoc.
Qed.

(** Two writers of race_counter finishing. *)
Definition two_writers : list emitter :=
  [Emitter 0 [(2000, pg_logf "writer 1 finished")] []; Emitter 0 [(2500, pg_logf "writer 2 finished")] []].
Definition writers_ctx : pg_runctx := child_ctx 4 42 1000.

Lemma concurrent_emits_interleave_witness :
  exists ch tr, rtc (emit_step true writers_ctx) (Channel [] two_writers) ch /\
    length (of_thread 0 tr) = 1%nat /\ length (of_thread 1 tr) = 1%nat /\
    pump 3 true (Handle 7 3 (-1) 42) (Pipe (ch_pipe ch) true) (replicate 600 (RChunk 512))
    = PumpEnd (concat (map (render true) (map snd tr))) false EmptyString.
Proof.
  set (r1 := pg_emit_copy writers_ctx 0 2000 (pg_logf "writer 1 finished")).
  set (r2 := pg_emit_copy writers_ctx 0 2500 (pg_logf "writer 2 finished")).
  set (ch := Channel (encode r2 ++ encode r1) [Emitter 0 [] []; Emitter 0 [] []]).
  assert (Hr : rtc (emit_step true writers_ctx) (Channel [] two_writers) ch).
  { eapply rtc_l; [eapply EmitCopy with (t := 0%nat); reflexivity|].
    eapply rtc_l; [eapply EmitCopy with (t := 1%nat); reflexivity|].
    eapply rtc_l; [eapply EmitWrite with (t := 1%nat) (k := 256%nat); [reflexivity|vm_compute; lia|done]|].
    eapply rtc_l; [eapply EmitWrite with (t := 0%nat) (k := 256%nat); [reflexivity|vm_compute; lia|done]|].
    apply rtc_refl. }
  destruct (concurrent_emits_interleave writers_ctx two_writers ch) as [H _].
  destruct H as (tr & H1 & H2 & H3); [by repeat constructor| |exact Hr|by repeat constructor|].
  - unfold two_writers, records. cbn [map em_todo em_tag].
    repeat (apply Forall_cons_2 || apply Forall_nil_2); (apply sound_emit; [by apply ev_text_wf|by apply ev_text_strings|cbn; lia|done|done]).
  - exists ch, tr. split; [exact Hr|].
    split; [exact (f_equal length (H1 0%nat _ eq_refl))|]. split; [exact (f_equal length (H1 1%nat _ eq_refl))|].
    apply H3; [by unfold live_handle|by intros [? _]%elem_of_replicate|vm_compute; lia].
Defined.
