(* ===== verification/ChaosMem.v ===== *)
(** * The chaos arena (src/chaos/chaos_mem.c, include/playground/chaos_mem.h)

    The mmap'd region is a byte map over absolute addresses (unwritten bytes
    are zero, as the kernel provides them); touching a byte outside the region
    is [Fault].  Sizes and pointers are 64-bit words and wrap where the source
    can wrap. *)

From S2P Require Import Prelude.

(** ** Memory *)

Definition memory := gmap Z Z.

Definition byte_at (m : gmap Z Z) (p : Z) : Z := default 0 (m !! p).

Fixpoint poke (m : gmap Z Z) (p : Z) (bs : list Z) : gmap Z Z :=
  match bs with
  | [] => m
  | b :: bs => <[p := b]> (poke m (p + 1) bs)
  end.

Fixpoint peek (m : gmap Z Z) (p : Z) (n : nat) : list Z :=
  match n with
  | O => []
  | S n => byte_at m p :: peek m (p + 1) n
  end.

(* @ src/chaos/chaos_mem.c:25-30 chaos_arena *)
Record chaos_arena := Arena {
  a_base : Z;
  a_total : Z;
  a_used : Z;
  a_flags : Z;
  a_mem : gmap Z Z
}.

Definition a_set_mem (m : gmap Z Z) (a : chaos_arena) : chaos_arena :=
  Arena (a_base a) (a_total a) (a_used a) (a_flags a) m.
Definition a_set_used (u : Z) (a : chaos_arena) : chaos_arena :=
  Arena (a_base a) (a_total a) u (a_flags a) (a_mem a).

Definition in_region (a : chaos_arena) (p n : Z) : bool :=
  (a_base a <=? p) && (p + n <=? a_base a + a_total a).

Definition load (a : chaos_arena) (p : Z) (n : nat) : res (list Z) :=
  if (n =? 0)%nat || in_region a p (Z.of_nat n) then Ok (peek (a_mem a) p n) else Fault.

Definition store (a : chaos_arena) (p : Z) (bs : list Z) : res chaos_arena :=
  if (length bs =? 0)%nat || in_region a p (Z.of_nat (length bs))
  then Ok (a_set_mem (poke (a_mem a) p bs) a) else Fault.

Definition load32 (a : chaos_arena) (p : Z) : res Z := bs ← load a p 4; mret (le_val bs).
Definition store32 (a : chaos_arena) (p v : Z) : res chaos_arena := store a p (le_bytes 4 v).
Definition memset (a : chaos_arena) (p c n : Z) : res chaos_arena :=
  store a p (replicate (Z.to_nat n) c).

(** ** The code *)

(* @ src/chaos/chaos_mem.c:14-14 ARENA_MAGIC_LIVE *)
Definition ARENA_MAGIC_LIVE : Z := 0xA11A11AA.
(* @ src/chaos/chaos_mem.c:15-15 ARENA_MAGIC_FREE *)
Definition ARENA_MAGIC_FREE : Z := 0xFEEDFEED.
(* @ src/chaos/chaos_mem.c:16-16 REDZONE_SIZE *)
Definition REDZONE_SIZE : Z := 16.
(* @ src/chaos/chaos_mem.c:17-17 REDZONE_BYTE *)
Definition REDZONE_BYTE : Z := 0xCD.
(* @ src/chaos/chaos_mem.c:18-18 POISON_BYTE *)
Definition POISON_BYTE : Z := 0xDE.

(* @ include/playground/chaos_mem.h:9-9 CHAOS_ARENA_REDZONES *)
Definition CHAOS_ARENA_REDZONES : Z := 1.

(** [sizeof(block_hdr_t)]: two [uint32_t]. *)
(* @ src/chaos/chaos_mem.c:20-23 block_hdr_t *)
Definition HDR_SIZE : Z := 8.

(* @ src/chaos/chaos_mem.c:32-32 round8 *)
Definition round8 (n : Z) : Z := Z.land (u64 (n + 7)) (u64 (Z.lnot 7)).

(* @ src/chaos/chaos_mem.c block_total *)
Definition block_total (user_size : Z) : Z :=
  u64 (HDR_SIZE + REDZONE_SIZE + round8 user_size + REDZONE_SIZE).

Definition redzones (a : chaos_arena) : bool :=
  negb (Z.land (a_flags a) CHAOS_ARENA_REDZONES =? 0).

Inductive create_out := CreateNull (errno_einval : bool) | CreateOk (a : chaos_arena).

(** [calloc_ok] and [m] are the answers of [calloc] and [mmap]. *)
(* @ src/chaos/chaos_mem.c chaos_arena_create *)
Definition chaos_arena_create (sz flags : Z) (calloc_ok : bool) (m : option Z) : create_out :=
  if sz <? 4096 then CreateNull true
  else if negb calloc_ok then CreateNull false
  else match m with
       | None => CreateNull false
       | Some base => CreateOk (Arena base sz 0 flags ∅)
       end.

(** The regions unmapped: base and length. *)
(* @ src/chaos/chaos_mem.c chaos_arena_destroy *)
Definition chaos_arena_destroy (a : option chaos_arena) : list (Z * Z) :=
  match a with
  | None => []
  | Some a => if a_base a =? 0 then [] else [(a_base a, a_total a)]
  end.

(** The pointer returned ([None] is NULL) and the arena after the call. *)
(* @ src/chaos/chaos_mem.c chaos_arena_alloc *)
Definition chaos_arena_alloc (a : option chaos_arena) (n : Z)
  : res (option Z * option chaos_arena) :=
  match a with
  | None => Ok (None, None)
  | Some a =>
      let need := block_total n in
      if a_total a <? u64 (a_used a + need) then Ok (None, Some a)
      else
        let p := u64 (a_base a + a_used a) in
        a ← store32 a p ARENA_MAGIC_LIVE;
        a ← store32 a (u64 (p + 4)) (u32 n);
        let pre := u64 (p + HDR_SIZE) in
        let user := u64 (pre + REDZONE_SIZE) in
        let post := u64 (user + round8 n) in
        a ← (if redzones a then
               a ← memset a pre REDZONE_BYTE REDZONE_SIZE;
               memset a post REDZONE_BYTE REDZONE_SIZE
             else Ok a);
        Ok (Some user, Some (a_set_used (u64 (a_used a + need)) a))
  end.

(* @ src/chaos/chaos_mem.c chaos_arena_free *)
Definition chaos_arena_free (a : option chaos_arena) (p : option Z)
  : res (Z * option chaos_arena) :=
  match a, p with
  | Some a, Some u =>
      let h := u64 (u - REDZONE_SIZE - HDR_SIZE) in
      if (h <? a_base a) || (a_base a + a_total a <=? h) then Ok (-1, Some a)
      else
        magic ← load32 a h;
        if magic =? ARENA_MAGIC_FREE then Ok (-1, Some a)
        else if negb (magic =? ARENA_MAGIC_LIVE) then Ok (-1, Some a)
        else
          a ← store32 a h ARENA_MAGIC_FREE;
          size ← load32 a (u64 (h + 4));
          a ← memset a u POISON_BYTE size;
          Ok (0, Some a)
  | _, _ => Ok (-1, a)
  end.

(** [for (i = 0; i < 16; ++i) if (z[i] != 0xCD) { corrupted++; break; }] *)
(* @ src/chaos/chaos_mem.c:115-120 chaos_arena_check *)
Fixpoint zone_corrupted (a : chaos_arena) (z : Z) (n : nat) : res bool :=
  match n with
  | O => Ok false
  | S n => b ← load a z 1;
           if bool_decide (b = [REDZONE_BYTE]) then zone_corrupted a (z + 1) n else Ok true
  end.

Definition b2z (b : bool) : Z := if b then 1 else 0.

(* @ src/chaos/chaos_mem.c:102-123 chaos_arena_check *)
Fixpoint check_loop (fuel : nat) (a : chaos_arena) (off corrupted : Z) : res Z :=
  match fuel with
  | O => NoFuel
  | S fuel =>
      if off <? a_used a then
        magic ← load32 a (a_base a + off);
        if negb (magic =? ARENA_MAGIC_LIVE) && negb (magic =? ARENA_MAGIC_FREE) then Ok (-1)
        else
          size ← load32 a (a_base a + off + 4);
          let pad := round8 size in
          let blksz := u64 (HDR_SIZE + REDZONE_SIZE + pad + REDZONE_SIZE) in
          let pre := a_base a + off + HDR_SIZE in
          let post := pre + REDZONE_SIZE + pad in
          c1 ← zone_corrupted a pre 16;
          c2 ← zone_corrupted a post 16;
          check_loop fuel a (u64 (off + blksz)) (corrupted + b2z c1 + b2z c2)
      else Ok corrupted
  end.

(** A block takes at least 40 bytes, so this is enough rounds. *)
Definition check_fuel (a : chaos_arena) : nat := S (Z.to_nat (a_used a / 40 + 1)).

(* @ src/chaos/chaos_mem.c chaos_arena_check *)
Definition chaos_arena_check (a : option chaos_arena) : res Z :=
  match a with
  | None => Ok (-1)
  | Some a => if negb (redzones a) then Ok 0 else check_loop (check_fuel a) a 0 0
  end.

(** ** Lemmas: bytes *)

Lemma byte_at_poke m p bs q :
  byte_at (poke m p bs) q =
  if decide (p <= q < p + Z.of_nat (length bs)) then default 0 (bs !! Z.to_nat (q - p))
  else byte_at m q.
Proof.
  revert p. induction bs as [|b bs IH]; intros p; cbn [poke length].
  - destruct (decide _); [lia|done].
  - unfold byte_at in *. rewrite lookup_insert. destruct (decide (p = q)) as [<-|Hne].
    + destruct (decide _); [|lia]. by rewrite Z.sub_diag.
    + cbn. rewrite IH. do 2 destruct (decide _); try lia.
      replace (Z.to_nat (q - p)) with (S (Z.to_nat (q - (p + 1)))) by lia. done.
Qed.

Lemma peek_ext m m' p n :
  (forall q, p <= q < p + Z.of_nat n -> byte_at m q = byte_at m' q) -> peek m p n = peek m' p n.
Proof.
  revert p. induction n as [|n IH]; intros p H; cbn [peek]; [done|].
  rewrite H by lia. f_equal. apply IH. intros. apply H. lia.
Qed.

Lemma length_peek m p n : length (peek m p n) = n.
Proof. revert p. induction n as [|n IH]; intros p; cbn; [done|]. by rewrite IH. Qed.

Lemma peek_poke_same m p bs : peek (poke m p bs) p (length bs) = bs.
Proof.
  revert p. induction bs as [|b bs IH]; intros p; cbn [poke length peek]; [done|].
  f_equal.
  - unfold byte_at. by rewrite lookup_insert_eq.
  - transitivity (peek (poke m (p + 1) bs) (p + 1) (length bs)); [|apply IH]. apply peek_ext. intros q Hq.
    unfold byte_at. by rewrite lookup_insert_ne by lia.
Qed.

Lemma peek_poke_other m p n q bs :
  p + Z.of_nat n <= q \/ q + Z.of_nat (length bs) <= p ->
  peek (poke m q bs) p n = peek m p n.
Proof.
  intros H. apply peek_ext. intros r Hr. rewrite byte_at_poke.
  destruct (decide _); [lia|done].
Qed.

Lemma peek_poke_le m p n z : peek (poke m p (le_bytes n z)) p n = le_bytes n z.
Proof. rewrite <- (length_le_bytes n z) at 2. apply peek_poke_same. Qed.

Lemma peek_add m p n k : peek m p (n + k) = peek m p n ++ peek m (p + Z.of_nat n) k.
Proof.
  revert p. induction n as [|n IH]; intros p; cbn [peek Nat.add app].
  - f_equal. lia.
  - rewrite IH. do 3 f_equal. lia.
Qed.

Lemma poke_app m p bs cs :
  poke m p (bs ++ cs) = poke (poke m (p + Z.of_nat (length bs)) cs) p bs.
Proof.
  revert p. induction bs as [|b bs IH]; intros p; cbn [poke length app].
  - f_equal. lia.
  - rewrite IH. do 3 f_equal. lia.
Qed.

Arguments peek : simpl never.
Arguments poke : simpl never.

(** ** Lemmas: sizes *)

Lemma land_lnot7 x : in_u64 x -> Z.land x (u64 (Z.lnot 7)) = 8 * (x / 8).
Proof.
  intros Hx. rewrite Z.mul_comm. change 8 with (2 ^ 3).
  rewrite <- Z.shiftr_div_pow2, <- Z.shiftl_mul_pow2 by lia.
  apply Z.bits_inj'. intros i Hi. rewrite Z.land_spec, Z.shiftl_spec by lia.
  unfold u64. rewrite Z.testbit_mod_pow2 by lia. rewrite Z.lnot_spec by lia.
  destruct (Z.ltb_spec i 3).
  - rewrite (Z.testbit_neg_r _ (i - 3)) by lia.
    assert (Z.testbit 7 i = true) as ->.
    { assert (i = 0 \/ i = 1 \/ i = 2) as [-> | [-> | ->]] by lia; done. }
    by rewrite !andb_false_r.
  - rewrite Z.shiftr_spec by lia. replace (i - 3 + 3) with i by lia.
    assert (Z.testbit 7 i = false) as ->
      by (apply Z.bits_above_log2; [lia|change (Z.log2 7) with 2; lia]).
    destruct (Z.ltb_spec i 64); cbn; [by rewrite andb_true_r|].
    rewrite andb_false_r. symmetry. rewrite <- (u64_small x) by done. unfold u64.
    rewrite Z.testbit_mod_pow2 by lia. by rewrite (proj2 (Z.ltb_ge i 64)).
Qed.

Lemma round8_spec n : 0 <= n < 2 ^ 64 - 7 -> round8 n = 8 * ((n + 7) / 8).
Proof. intros. unfold round8. rewrite land_lnot7 by apply u64_range. by rewrite u64_small by lia. Qed.

Lemma round8_bounds n : 0 <= n < 2 ^ 64 - 7 -> n <= round8 n < n + 8.
Proof. intros. rewrite round8_spec by done. zlia. Qed.

Lemma round8_mod n : 0 <= n < 2 ^ 64 - 7 -> round8 n mod 8 = 0.
Proof. intros. rewrite round8_spec by done. zlia. Qed.

(** ** Arena layout *)

Inductive status := Live | Freed.
Record block := Block { b_size : Z; b_status : status }.

#[export] Instance status_eq_dec : EqDecision status.
Proof. solve_decision. Defined.
#[export] Instance block_eq_dec : EqDecision block.
Proof. solve_decision. Defined.

Definition magic_of (s : status) : Z :=
  match s with Live => ARENA_MAGIC_LIVE | Freed => ARENA_MAGIC_FREE end.

Definition extent (b : block) : Z := 40 + round8 (b_size b).
Definition extents (bs : list block) : Z := foldr (fun b n => extent b + n) 0 bs.

Arguments extent : simpl never.
Arguments extents : simpl never.

Definition header_bytes (b : block) : list Z :=
  le_bytes 4 (magic_of (b_status b)) ++ le_bytes 4 (b_size b).

(** The blocks [bs] lie one after the other from address [p]. *)
Fixpoint headers (m : gmap Z Z) (p : Z) (bs : list block) : Prop :=
  match bs with
  | [] => True
  | b :: bs => peek m p 8 = header_bytes b /\ in_u32 (b_size b) /\ headers m (p + extent b) bs
  end.

Definition zone : list Z := replicate 16 REDZONE_BYTE.
Definition zone_intact (m : gmap Z Z) (p : Z) : bool := bool_decide (peek m p 16 = zone).
Definition pre_zone (p : Z) : Z := p + 8.
Definition user_ptr (p : Z) : Z := p + 24.
Definition post_zone (p : Z) (b : block) : Z := p + 24 + round8 (b_size b).

(** How many redzones differ from their pattern. *)
Fixpoint zones_bad (m : gmap Z Z) (p : Z) (bs : list block) : Z :=
  match bs with
  | [] => 0
  | b :: bs => b2z (negb (zone_intact m (pre_zone p))) + b2z (negb (zone_intact m (post_zone p b)))
               + zones_bad m (p + extent b) bs
  end.

(** A region with redzones, tiled by [bs]; the redzones may be damaged.  User
    addresses are in the lower half of the address space. *)
Record arena_layout (a : chaos_arena) (bs : list block) : Prop := {
  al_base : 0 < a_base a;
  al_total : 0 < a_total a;
  al_top : a_base a + a_total a <= 2 ^ 63;
  al_zones : redzones a = true;
  al_used : a_used a = extents bs;
  al_fits : a_used a <= a_total a;
  al_headers : headers (a_mem a) (a_base a) bs
}.

(** And with every redzone intact. *)
Definition arena_wf (a : chaos_arena) (bs : list block) : Prop :=
  arena_layout a bs /\ zones_bad (a_mem a) (a_base a) bs = 0.

Lemma extent_pos b : in_u32 (b_size b) -> 40 <= extent b.
Proof. intros H. unfold extent. pose proof (round8_bounds (b_size b)). lia. Qed.

Lemma extents_cons b bs : extents (b :: bs) = extent b + extents bs.
Proof. done. Qed.

Lemma extents_nonneg m p bs : headers m p bs -> 0 <= extents bs.
Proof.
  revert p. induction bs as [|b bs IH]; intros p; cbn; [done|]. intros (_ & Hb & Hr).
  rewrite extents_cons. pose proof (extent_pos b Hb). specialize (IH _ Hr). lia.
Qed.

Lemma extents_app bs cs : extents (bs ++ cs) = extents bs + extents cs.
Proof. induction bs as [|b bs IH]; [done|]. cbn [app]. rewrite !extents_cons, IH. lia. Qed.

Lemma headers_app m p bs cs :
  headers m p (bs ++ cs) <-> headers m p bs /\ headers m (p + extents bs) cs.
Proof.
  revert p. induction bs as [|b bs IH]; intros p; cbn.
  - rewrite (Z.add_0_r p : p + extents [] = p). tauto.
  - rewrite IH, extents_cons, Z.add_assoc. tauto.
Qed.

Lemma zones_bad_app m p bs cs :
  zones_bad m p (bs ++ cs) = zones_bad m p bs + zones_bad m (p + extents bs) cs.
Proof.
  revert p. induction bs as [|b bs IH]; intros p; cbn.
  - by rewrite (Z.add_0_r p : p + extents [] = p).
  - rewrite IH, extents_cons.
    replace (p + (extent b + extents bs)) with (p + extent b + extents bs) by lia. lia.
Qed.

Lemma zones_bad_nonneg m p bs : 0 <= zones_bad m p bs.
Proof.
  revert p. induction bs as [|b bs IH]; intros p; cbn; [lia|].
  specialize (IH (p + extent b)). unfold b2z. repeat case_match; lia.
Qed.

(** The layout depends only on the bytes of the tiled range. *)
Lemma headers_ext m m' p bs :
  (forall q, p <= q < p + extents bs -> byte_at m q = byte_at m' q) ->
  headers m p bs -> headers m' p bs.
Proof.
  revert p. induction bs as [|b bs IH]; intros p Hq; cbn; [done|].
  intros (Hh & Hb & Hr). pose proof (extent_pos b Hb). pose proof (extents_nonneg _ _ _ Hr).
  rewrite extents_cons in Hq.
  split; [|split; [done|]].
  - rewrite <- Hh. apply peek_ext. intros q Hlt. symmetry. apply Hq. lia.
  - apply IH; [|done]. intros q Hlt. apply Hq. lia.
Qed.

Lemma zone_intact_ext m m' p :
  (forall q, p <= q < p + 16 -> byte_at m q = byte_at m' q) -> zone_intact m p = zone_intact m' p.
Proof. intros H. unfold zone_intact. by rewrite (peek_ext m m') by done. Qed.

Lemma zones_bad_ext m m' p bs :
  (forall q, p <= q < p + extents bs -> byte_at m q = byte_at m' q) ->
  headers m p bs -> zones_bad m p bs = zones_bad m' p bs.
Proof.
  revert p. induction bs as [|b bs IH]; intros p Hq; cbn; [done|].
  intros (Hh & Hb & Hr). pose proof (extent_pos b Hb). pose proof (extents_nonneg _ _ _ Hr).
  pose proof (round8_bounds (b_size b)).
  rewrite extents_cons in Hq. unfold extent in *.
  f_equal; [f_equal; do 2 f_equal|]; [..|apply IH; [|done]];
    try apply zone_intact_ext; intros q Hlt; apply Hq; unfold pre_zone, post_zone in *; lia.
Qed.

(** ** Lemmas: reading the layout *)

Lemma load_in a p n :
  a_base a <= p -> p + Z.of_nat n <= a_base a + a_total a -> load a p n = Ok (peek (a_mem a) p n).
Proof.
  intros. unfold load, in_region.
  rewrite (proj2 (Z.leb_le _ _)), (proj2 (Z.leb_le _ _)) by lia. by rewrite orb_true_r.
Qed.

Lemma store_in a p bs :
  a_base a <= p -> p + Z.of_nat (length bs) <= a_base a + a_total a ->
  store a p bs = Ok (a_set_mem (poke (a_mem a) p bs) a).
Proof.
  intros. unfold store, in_region.
  rewrite (proj2 (Z.leb_le _ _)), (proj2 (Z.leb_le _ _)) by lia. by rewrite orb_true_r.
Qed.

Lemma magic_u32 s : in_u32 (magic_of s).
Proof. destruct s; cbv; split; congruence. Qed.

Lemma le_val_le_bytes4 z : in_u32 z -> le_val (le_bytes 4 z) = z.
Proof. intros. rewrite le_val_le_bytes. by apply Z.mod_small. Qed.

Lemma header_split m p b :
  peek m p 8 = header_bytes b ->
  peek m p 4 = le_bytes 4 (magic_of (b_status b)) /\ peek m (p + 4) 4 = le_bytes 4 (b_size b).
Proof.
  unfold header_bytes. intros H. change 8%nat with (4 + 4)%nat in H. rewrite peek_add in H.
  apply app_inj_1 in H; [done|]. by rewrite length_peek, length_le_bytes.
Qed.

Lemma load_header a p b :
  a_base a <= p -> p + 8 <= a_base a + a_total a -> in_u32 (b_size b) ->
  peek (a_mem a) p 8 = header_bytes b ->
  load32 a p = Ok (magic_of (b_status b)) /\ load32 a (p + 4) = Ok (b_size b).
Proof.
  intros H1 H2 Hb Hh. apply header_split in Hh as [Hm Hs].
  unfold load32. rewrite !load_in by lia. cbn. rewrite Hm, Hs.
  rewrite !le_val_le_bytes4; [done|done|apply magic_u32].
Qed.

Lemma peek_one m p : peek m p 1 = [byte_at m p].
Proof. done. Qed.

Lemma peek_S m p n : peek m p (S n) = byte_at m p :: peek m (p + 1) n.
Proof. done. Qed.

Lemma zone_corrupted_spec a z n :
  a_base a <= z -> z + Z.of_nat n <= a_base a + a_total a ->
  zone_corrupted a z n = Ok (negb (bool_decide (peek (a_mem a) z n = replicate n REDZONE_BYTE))).
Proof.
  revert z. induction n as [|n IH]; intros z H1 H2; cbn [zone_corrupted]; [done|].
  rewrite load_in by lia. rewrite res_bind_ok, peek_one, peek_S. cbn [replicate].
  case_bool_decide as Hb.
  - injection Hb as ->. rewrite IH by lia. f_equal. f_equal. apply bool_decide_ext.
    split; [by intros ->|by intros [= ->]].
  - rewrite bool_decide_false by congruence. done.
Qed.

Lemma zone_corrupted_out a z n :
  a_base a + a_total a <= z -> zone_corrupted a z (S n) = Fault.
Proof.
  intros H. cbn [zone_corrupted]. unfold load, in_region.
  rewrite (proj2 (Z.leb_gt (z + Z.of_nat 1) _)) by lia. by rewrite andb_false_r.
Qed.

Lemma layout_region a done b bs :
  arena_layout a (done ++ b :: bs) ->
  let p := a_base a + extents done in
  a_base a <= p /\ p + extent b <= a_base a + a_total a /\ in_u32 (b_size b) /\
  peek (a_mem a) p 8 = header_bytes b /\ extent b + extents done <= a_used a.
Proof.
  intros [] p. subst p. apply headers_app in al_headers0 as [Hd (Hh & Hb & Hr)].
  rewrite extents_app, extents_cons in al_used0.
  pose proof (extents_nonneg _ _ _ Hd). pose proof (extents_nonneg _ _ _ Hr).
  split_and!; try lia; done.
Qed.

Lemma layout_blocks a bs : arena_layout a bs -> Z.of_nat (length bs) <= a_used a / 40.
Proof.
  intros [_ _ _ _ -> _ Hh]. revert Hh. generalize (a_base a). induction bs as [|b bs IH]; intros p Hh.
  - done.
  - destruct Hh as (_ & Hb & Hr). specialize (IH _ Hr). pose proof (extent_pos b Hb).
    rewrite extents_cons. cbn [length]. zlia.
Qed.

Lemma block_total_extent b : in_u32 (b_size b) -> block_total (b_size b) = extent b.
Proof.
  intros Hb. pose proof (round8_bounds (b_size b)). unfold block_total, extent, HDR_SIZE, REDZONE_SIZE.
  rewrite u64_small; lia.
Qed.

Lemma check_loop_spec bs : forall done fuel a c,
  arena_layout a (done ++ bs) -> (length bs < fuel)%nat ->
  check_loop fuel a (extents done) c
  = Ok (c + zones_bad (a_mem a) (a_base a + extents done) bs).
Proof.
  induction bs as [|b bs IH]; intros done fuel a c Hl Hf; destruct fuel as [|fuel]; cbn [length] in Hf;
    try lia; cbn [check_loop zones_bad].
  - rewrite app_nil_r in Hl. destruct Hl. rewrite al_used0, Z.ltb_irrefl. f_equal. lia.
  - destruct (layout_region _ _ _ _ Hl) as (H1 & H2 & Hb & Hh & Hu).
    pose proof (extent_pos b Hb). pose proof (round8_bounds (b_size b)).
    rewrite (proj2 (Z.ltb_lt _ _)) by lia.
    destruct (load_header a (a_base a + extents done) b) as [-> ->]; [lia..|done|done|].
    rewrite !res_bind_ok.
    replace (negb (magic_of (b_status b) =? ARENA_MAGIC_LIVE) && _) with false
      by by destruct (b_status b).
    rewrite !zone_corrupted_spec
      by (unfold HDR_SIZE, REDZONE_SIZE, extent in *; lia).
    rewrite !res_bind_ok.
    assert (Hn : u64 (extents done + u64 (HDR_SIZE + REDZONE_SIZE + round8 (b_size b) + REDZONE_SIZE))
            = extents (done ++ [b])).
    { fold (block_total (b_size b)). rewrite block_total_extent by done.
      rewrite extents_app, extents_cons, u64_small; [unfold extents; cbn; lia|].
      destruct Hl. apply headers_app in al_headers0 as [Hd _].
      pose proof (extents_nonneg _ _ _ Hd). lia. }
    rewrite Hn, IH; [|by rewrite <- app_assoc|lia].
    rewrite extents_app, extents_cons. change (extents []) with 0. rewrite Z.add_0_r, Z.add_assoc.
    f_equal. unfold zone_intact, pre_zone, post_zone, HDR_SIZE, REDZONE_SIZE, zone.
    replace (a_base a + extents done + 8 + 16 + round8 (b_size b))
      with (a_base a + extents done + 24 + round8 (b_size b)) by lia. lia.
Qed.

Lemma chaos_arena_check_layout a bs :
  arena_layout a bs -> chaos_arena_check (Some a) = Ok (zones_bad (a_mem a) (a_base a) bs).
Proof.
  intros Hl. unfold chaos_arena_check. rewrite (al_zones _ _ Hl). cbn [negb].
  pose proof (check_loop_spec bs [] (check_fuel a) a 0 Hl) as H.
  change (extents []) with 0 in H. rewrite Z.add_0_r in H. rewrite H; [by rewrite Z.add_0_l|].
  pose proof (layout_blocks _ _ Hl). unfold check_fuel.
  assert (0 <= a_used a / 40) by lia. lia.
Qed.

(** ** Lemmas: changing one block *)

(** Damaged redzones of the block at [p]. *)
Definition zones_of (m : gmap Z Z) (p : Z) (b : block) : Z :=
  b2z (negb (zone_intact m (pre_zone p))) + b2z (negb (zone_intact m (post_zone p b))).

Lemma zones_bad_cons m p b bs :
  zones_bad m p (b :: bs) = zones_of m p b + zones_bad m (p + extent b) bs.
Proof. done. Qed.

Lemma zones_of_range m p b : 0 <= zones_of m p b <= 2.
Proof. unfold zones_of, b2z. repeat case_match; lia. Qed.

Lemma layout_update a m' bs1 b b' bs2 :
  let p := a_base a + extents bs1 in
  arena_layout a (bs1 ++ b :: bs2) -> b_size b' = b_size b ->
  (forall q, a_base a <= q < a_base a + a_used a -> ~ (p <= q < p + extent b) ->
             byte_at (a_mem a) q = byte_at m' q) ->
  peek m' p 8 = header_bytes b' ->
  arena_layout (a_set_mem m' a) (bs1 ++ b' :: bs2) /\
  zones_bad m' (a_base a) (bs1 ++ b' :: bs2) =
  zones_bad (a_mem a) (a_base a) (bs1 ++ b :: bs2) - zones_of (a_mem a) p b + zones_of m' p b'.
Proof.
  intros p Hl Hs Hq Hh.
  destruct (layout_region _ _ _ _ Hl) as (H1 & H2 & Hb & _ & Hu). fold p in H1, H2.
  destruct Hl as [Hbase Htot Htop Hz Hused Hfit Hhd].
  assert (He : extent b' = extent b) by (unfold extent; by rewrite Hs).
  pose proof (extent_pos b Hb). rewrite extents_app, extents_cons in Hused.
  apply headers_app in Hhd as [Hh1 (_ & _ & Hh2)]. fold p in Hh2.
  pose proof (extents_nonneg _ _ _ Hh1). pose proof (extents_nonneg _ _ _ Hh2).
  assert (Q1 : forall q, a_base a <= q < a_base a + extents bs1 -> byte_at (a_mem a) q = byte_at m' q)
    by (intros; apply Hq; subst p; lia).
  assert (Q2 : forall q, p + extent b <= q < p + extent b + extents bs2 -> byte_at (a_mem a) q = byte_at m' q)
    by (intros; apply Hq; subst p; lia).
  split.
  - split; cbn; try done.
    + rewrite extents_app, extents_cons. lia.
    + apply headers_app; split; [by eapply headers_ext|]. cbn. fold p. rewrite Hs, He.
      split; [done|split; [done|]]. by eapply headers_ext.
  - rewrite !zones_bad_app, !zones_bad_cons. fold p. rewrite He.
    rewrite <- (zones_bad_ext (a_mem a) m' (a_base a) bs1) by done.
    rewrite <- (zones_bad_ext (a_mem a) m' (p + extent b) bs2) by done. lia.
Qed.

Lemma zones_of_ext m m' p b :
  (forall q, p + 8 <= q < p + 24 -> byte_at m q = byte_at m' q) ->
  (forall q, p + 24 + round8 (b_size b) <= q < p + extent b -> byte_at m q = byte_at m' q) ->
  zones_of m p b = zones_of m' p b.
Proof.
  intros H1 H2. unfold zones_of, extent in *. f_equal; do 2 f_equal; apply zone_intact_ext;
    unfold pre_zone, post_zone; intros q Hq; [apply H1|apply H2]; lia.
Qed.

(** ** Lemmas: allocation *)

Definition alloc_bytes (n : Z) : list (Z * list Z) :=
  [(0, le_bytes 4 ARENA_MAGIC_LIVE); (4, le_bytes 4 n); (8, zone); (24 + round8 n, zone)].

Definition alloc_mem (m : gmap Z Z) (p n : Z) : gmap Z Z :=
  foldl (fun m '(o, bs) => poke m (p + o) bs) m (alloc_bytes n).

Lemma alloc_mem_other m p n q :
  in_u32 n -> ~ (p <= q < p + extent (Block n Live)) -> byte_at (alloc_mem m p n) q = byte_at m q.
Proof.
  intros Hn Hq. pose proof (round8_bounds n). unfold extent in Hq. cbn [b_size] in Hq.
  unfold alloc_mem. cbn [foldl alloc_bytes].
  rewrite !byte_at_poke. unfold zone. rewrite !length_replicate, !length_le_bytes.
  repeat (destruct (decide _); [lia|]). done.
Qed.

Lemma zone_intact_poke m p : zone_intact (poke m p zone) p = true.
Proof. apply bool_decide_true. exact (peek_poke_same m p zone). Qed.

Lemma zone_intact_poke_other m p q bs :
  p + 16 <= q \/ q + Z.of_nat (length bs) <= p -> zone_intact (poke m q bs) p = zone_intact m p.
Proof. intros H. unfold zone_intact. by rewrite peek_poke_other. Qed.

Lemma length_zone : length zone = 16%nat.
Proof. done. Qed.

Lemma alloc_mem_header m p n :
  in_u32 n -> peek (alloc_mem m p n) p 8 = header_bytes (Block n Live).
Proof.
  intros Hn. pose proof (round8_bounds n). unfold alloc_mem. cbn [foldl alloc_bytes].
  rewrite !(peek_poke_other _ p 8) by (rewrite ?length_zone; lia).
  rewrite Z.add_0_r, (peek_add _ p 4 4).
  rewrite (peek_poke_other _ p 4) by (rewrite ?length_le_bytes; lia).
  change (p + Z.of_nat 4) with (p + 4). by rewrite !peek_poke_le.
Qed.

Lemma alloc_mem_zones m p n : in_u32 n -> zones_of (alloc_mem m p n) p (Block n Live) = 0.
Proof.
  intros Hn. pose proof (round8_bounds n). unfold alloc_mem. cbn [foldl alloc_bytes].
  unfold zones_of, pre_zone, post_zone. cbn [b_size].
  rewrite (Z.add_assoc p 24), zone_intact_poke.
  rewrite zone_intact_poke_other by (rewrite ?length_zone; lia). by rewrite zone_intact_poke.
Qed.

Lemma alloc_mem_block m p n :
  in_u32 n ->
  peek (alloc_mem m p n) p 8 = header_bytes (Block n Live) /\
  zones_of (alloc_mem m p n) p (Block n Live) = 0.
Proof. intros Hn. by split; [apply alloc_mem_header|apply alloc_mem_zones]. Qed.

(** Memory after a successful call; pointers do not wrap inside the region. *)
Lemma chaos_arena_alloc_eq a bs n :
  arena_layout a bs -> in_u32 n ->
  chaos_arena_alloc (Some a) n =
  if a_total a <? a_used a + extent (Block n Live) then Ok (None, Some a)
  else Ok (Some (user_ptr (a_base a + a_used a)),
           Some (a_set_used (a_used a + extent (Block n Live))
                   (a_set_mem (alloc_mem (a_mem a) (a_base a + a_used a) n) a))).
Proof.
  intros Hl Hn. pose proof (round8_bounds n). unfold chaos_arena_alloc.
  change (block_total n) with (block_total (b_size (Block n Live))).
  rewrite block_total_extent by done.
  destruct Hl as [Hbase Htot Htop Hz Hused Hfit Hhd].
  pose proof (extents_nonneg _ _ _ Hhd).
  set (e := extent (Block n Live)). assert (He : e = 40 + round8 n) by done.
  rewrite (u64_small (a_used a + e)) by lia.
  destruct (Z.ltb_spec (a_total a) (a_used a + e)) as [|Hfits]; [done|].
  unfold store32, memset, HDR_SIZE, REDZONE_SIZE. rewrite (u32_small n) by done.
  rewrite !(u64_small (a_base a + a_used a)) by lia.
  set (p := a_base a + a_used a) in *.
  rewrite !(u64_small (p + 4)), !(u64_small (p + 8)), !(u64_small (p + 8 + 16)),
    !(u64_small (p + 8 + 16 + round8 n)) by lia.
  do 2 (rewrite store_in by (rewrite ?length_le_bytes; cbn [a_set_mem a_base a_total]; lia);
        rewrite res_bind_ok; cbn [a_set_mem a_base a_total a_mem a_used a_flags]).
  replace (redzones _) with true by (rewrite <- Hz; done).
  do 2 (rewrite store_in by (rewrite ?length_replicate; cbn [a_set_mem a_base a_total]; lia);
        rewrite !res_bind_ok; cbn [a_set_mem a_base a_total a_mem a_used a_flags]).
  unfold alloc_mem, user_ptr. cbn [foldl alloc_bytes a_set_mem a_set_used a_base a_total a_mem a_used a_flags].
  rewrite Z.add_0_r, (u64_small (a_used a + e)) by lia.
  replace (p + (24 + round8 n)) with (p + 8 + 16 + round8 n) by lia.
  by replace (p + 24) with (p + 8 + 16) by lia.
Qed.

Lemma alloc_layout a bs n :
  arena_layout a bs -> in_u32 n -> a_used a + extent (Block n Live) <= a_total a ->
  let p := a_base a + a_used a in
  let a' := a_set_used (a_used a + extent (Block n Live))
              (a_set_mem (alloc_mem (a_mem a) p n) a) in
  arena_layout a' (bs ++ [Block n Live]) /\
  zones_bad (a_mem a') (a_base a') (bs ++ [Block n Live]) = zones_bad (a_mem a) (a_base a) bs.
Proof.
  intros Hl Hn Hfit p a'. destruct (alloc_mem_block (a_mem a) p n Hn) as [Hh Hz].
  destruct Hl as [Hbase Htot Htop Hzones Hused Hfits Hhd].
  assert (Q : forall q, a_base a <= q < a_base a + extents bs ->
                        byte_at (a_mem a) q = byte_at (alloc_mem (a_mem a) p n) q).
  { intros q Hq. symmetry. apply alloc_mem_other; [done|]. subst p. lia. }
  assert (Hp : a_base a + extents bs = p) by (subst p; lia).
  split.
  - split; cbn; try done.
    + rewrite extents_app, extents_cons. change (extents []) with 0. lia.
    + apply headers_app; split; [by eapply headers_ext|]. cbn. by rewrite Hp.
  - cbn [a_set_used a_set_mem a_mem a_base a'].
    rewrite zones_bad_app, zones_bad_cons, Hp, Hz. cbn [zones_bad].
    rewrite <- (zones_bad_ext (a_mem a) _ (a_base a) bs) by done. lia.
Qed.

(** ** Lemmas: free *)

Definition poison (n : Z) : list Z := replicate (Z.to_nat n) POISON_BYTE.

Definition free_mem (m : gmap Z Z) (p n : Z) : gmap Z Z :=
  poke (poke m p (le_bytes 4 ARENA_MAGIC_FREE)) (p + 24) (poison n).

Lemma free_mem_other m p b q :
  in_u32 (b_size b) -> ~ (p <= q < p + 4) -> ~ (p + 24 <= q < p + 24 + b_size b) ->
  byte_at (free_mem m p (b_size b)) q = byte_at m q.
Proof.
  intros Hb H1 H2. unfold free_mem, poison. rewrite !byte_at_poke, length_replicate, length_le_bytes.
  repeat (destruct (decide _); [lia|]). done.
Qed.

Lemma free_mem_block m p b :
  in_u32 (b_size b) -> peek m p 8 = header_bytes b ->
  peek (free_mem m p (b_size b)) p 8 = header_bytes (Block (b_size b) Freed) /\
  peek (free_mem m p (b_size b)) (p + 24) (Z.to_nat (b_size b)) = poison (b_size b).
Proof.
  intros Hb Hh. apply header_split in Hh as [_ Hs]. split.
  - unfold free_mem. rewrite (peek_poke_other _ p 8) by lia.
    rewrite (peek_add _ p 4 4). unfold header_bytes. cbn [b_size b_status].
    rewrite (peek_poke_other _ (p + Z.of_nat 4) 4) by (rewrite ?length_le_bytes; lia).
    change (p + Z.of_nat 4) with (p + 4). by rewrite peek_poke_le, Hs.
  - unfold free_mem. replace (Z.to_nat (b_size b)) with (length (poison (b_size b)))
      by apply length_replicate. apply peek_poke_same.
Qed.

Lemma chaos_arena_free_eq a bs1 b bs2 :
  arena_layout a (bs1 ++ b :: bs2) ->
  let p := a_base a + extents bs1 in
  chaos_arena_free (Some a) (Some (user_ptr p)) =
  match b_status b with
  | Live => Ok (0, Some (a_set_mem (free_mem (a_mem a) p (b_size b)) a))
  | Freed => Ok (-1, Some a)
  end.
Proof.
  intros Hl p. destruct (layout_region _ _ _ _ Hl) as (H1 & H2 & Hb & Hh & Hu). fold p in H1, H2, Hh.
  pose proof (extent_pos b Hb). pose proof (round8_bounds (b_size b)).
  destruct Hl as [Hbase Htot Htop Hz Hused Hfit Hhd].
  unfold chaos_arena_free, user_ptr, REDZONE_SIZE, HDR_SIZE.
  replace (p + 24 - 16 - 8) with p by lia. rewrite (u64_small p) by lia.
  rewrite (proj2 (Z.ltb_ge _ _)), (proj2 (Z.leb_gt _ _)) by lia. cbn [orb].
  destruct (load_header a p b) as [Hm Hs]; [lia..|done|done|]. rewrite Hm, res_bind_ok.
  destruct (b_status b); [|done]. cbn [magic_of].
  change (ARENA_MAGIC_LIVE =? ARENA_MAGIC_FREE) with false.
  change (negb (ARENA_MAGIC_LIVE =? ARENA_MAGIC_LIVE)) with false. cbv iota.
  unfold store32. rewrite store_in by (rewrite ?length_le_bytes; lia). rewrite res_bind_ok.
  rewrite (u64_small (p + 4)) by lia.
  assert (Hs' : load32 (a_set_mem (poke (a_mem a) p (le_bytes 4 ARENA_MAGIC_FREE)) a) (p + 4)
                = Ok (b_size b)).
  { rewrite <- Hs. unfold load32. rewrite !load_in by (cbn [a_set_mem a_base a_total]; lia).
    cbn [a_set_mem a_mem]. by rewrite peek_poke_other by (rewrite ?length_le_bytes; lia). }
  rewrite Hs', res_bind_ok. unfold memset.
  unfold extent in *.
  rewrite store_in by (rewrite ?length_replicate; cbn [a_set_mem a_base a_total]; lia).
  done.
Qed.

Lemma free_layout a bs1 b bs2 :
  arena_layout a (bs1 ++ b :: bs2) ->
  let p := a_base a + extents bs1 in
  let a' := a_set_mem (free_mem (a_mem a) p (b_size b)) a in
  arena_layout a' (bs1 ++ Block (b_size b) Freed :: bs2) /\
  zones_bad (a_mem a') (a_base a') (bs1 ++ Block (b_size b) Freed :: bs2)
  = zones_bad (a_mem a) (a_base a) (bs1 ++ b :: bs2).
Proof.
  intros Hl p a'. destruct (layout_region _ _ _ _ Hl) as (H1 & H2 & Hb & Hh & Hu). fold p in H1, H2, Hh.
  pose proof (round8_bounds (b_size b)).
  destruct (free_mem_block _ p b Hb Hh) as [Hf _].
  destruct (layout_update a (free_mem (a_mem a) p (b_size b)) bs1 b (Block (b_size b) Freed) bs2)
    as [HL HZ]; [done|done| |done|].
  - intros q _ Hq. fold p in Hq. unfold extent in Hq. symmetry. apply free_mem_other; [done|lia..].
  - split; [done|]. cbn [a' a_set_mem a_mem a_base]. rewrite HZ. fold p.
    rewrite <- (zones_of_ext (a_mem a) (free_mem (a_mem a) p (b_size b)) p (Block (b_size b) Freed)).
    + unfold zones_of, post_zone. cbn [b_size]. lia.
    + intros. symmetry. apply free_mem_other; [done|lia..].
    + cbn [b_size]. intros. symmetry. apply free_mem_other; [done|unfold extent in *; cbn [b_size] in *; lia..].
Qed.

(** ** Lemmas: user writes *)

Lemma peek_lookup m p n i :
  (i < n)%nat -> peek m p n !! i = Some (byte_at m (p + Z.of_nat i)).
Proof.
  revert p i. induction n as [|n IH]; intros p i Hi; [lia|]. rewrite peek_S.
  destruct i as [|i]; cbn [lookup list_lookup]; [by rewrite Z.add_0_r|].
  rewrite IH by lia. do 2 f_equal. lia.
Qed.

Lemma store_update a bs1 b bs2 w cs :
  let p := a_base a + extents bs1 in
  arena_layout a (bs1 ++ b :: bs2) ->
  p + 8 <= w -> w + Z.of_nat (length cs) <= a_base a + a_total a ->
  (w + Z.of_nat (length cs) <= p + extent b \/ bs2 = []) ->
  store a w cs = Ok (a_set_mem (poke (a_mem a) w cs) a) /\
  arena_layout (a_set_mem (poke (a_mem a) w cs) a) (bs1 ++ b :: bs2) /\
  zones_bad (poke (a_mem a) w cs) (a_base a) (bs1 ++ b :: bs2) =
  zones_bad (a_mem a) (a_base a) (bs1 ++ b :: bs2)
  - zones_of (a_mem a) p b + zones_of (poke (a_mem a) w cs) p b.
Proof.
  intros p Hl H1 H2 H3. destruct (layout_region _ _ _ _ Hl) as (Hp & Hq & Hb & Hh & Hu).
  fold p in Hp, Hq, Hh. split; [apply store_in; lia|].
  apply layout_update; [done|done| |].
  - fold p. intros q Hr Hn. rewrite byte_at_poke. destruct (decide _) as [Hd|]; [|done].
    exfalso. destruct H3 as [H3|H3]; [lia|].
    destruct Hl as [_ _ _ _ Hused _ _]. rewrite H3, extents_app, extents_cons in Hused.
    change (extents []) with 0 in Hused. lia.
  - fold p. rewrite peek_poke_other by lia. done.
Qed.

(** Up to the end of the padded size nothing is disturbed. *)
Lemma write_in_bounds a bs1 b bs2 off cs :
  let p := a_base a + extents bs1 in
  arena_layout a (bs1 ++ b :: bs2) ->
  0 <= off -> off + Z.of_nat (length cs) <= round8 (b_size b) ->
  exists a', store a (user_ptr p + off) cs = Ok a' /\
    a' = a_set_mem (poke (a_mem a) (user_ptr p + off) cs) a /\
    arena_layout a' (bs1 ++ b :: bs2) /\
    zones_bad (a_mem a') (a_base a') (bs1 ++ b :: bs2)
    = zones_bad (a_mem a) (a_base a) (bs1 ++ b :: bs2).
Proof.
  intros p Hl Ho Hc. destruct (layout_region _ _ _ _ Hl) as (Hp & Hq & Hb & Hh & Hu).
  fold p in Hp, Hq. unfold extent in Hq.
  destruct (store_update a bs1 b bs2 (user_ptr p + off) cs) as (E & Hl' & Hz);
    [done|unfold user_ptr; fold p; lia..|left; unfold user_ptr, extent; fold p; lia|].
  eexists. split; [exact E|]. split; [done|]. split; [done|].
  cbn [a_set_mem a_mem a_base]. rewrite Hz. fold p.
  rewrite <- (zones_of_ext (a_mem a) (poke (a_mem a) (user_ptr p + off) cs) p b); [lia|..];
    unfold user_ptr, extent; intros q Hqr; rewrite byte_at_poke; destruct (decide _); lia || done.
Qed.

Lemma zones_of_overrun m p b cs i c :
  in_u32 (b_size b) ->
  round8 (b_size b) <= Z.of_nat i < round8 (b_size b) + 16 -> cs !! i = Some c -> c <> REDZONE_BYTE ->
  zones_of m p b <= 0 -> zones_of (poke m (user_ptr p) cs) p b = 1.
Proof.
  intros Hb Hi Hc Hne H0. pose proof (round8_bounds (b_size b)).
  unfold zones_of, user_ptr in *. rewrite zone_intact_poke_other by (unfold pre_zone; lia).
  assert (zone_intact (poke m (p + 24) cs) (post_zone p b) = false) as ->.
  { apply bool_decide_false. intros Hz. apply Hne.
    apply (f_equal (fun l => l !! (i - Z.to_nat (round8 (b_size b)))%nat)) in Hz.
    rewrite peek_lookup in Hz by lia. unfold zone in Hz.
    rewrite lookup_replicate_2 in Hz by lia. injection Hz as Hz.
    rewrite <- Hz, byte_at_poke. unfold post_zone.
    pose proof (lookup_lt_Some _ _ _ Hc). destruct (decide _) as [|Hn]; [|lia].
    replace (Z.to_nat _) with i by lia. by rewrite Hc. }
  destruct (zone_intact m (pre_zone p)); cbn in *; [done|].
  destruct (zone_intact m (post_zone p b)); cbn in H0; lia.
Qed.

(** ** The allocator as a list of blocks *)

Inductive arena_op :=
| OpAlloc (n : Z)
| OpFree (i : nat)                         (* the i-th pointer handed out *)
| OpFreeAt (d : Z)                         (* any pointer: the region's base plus [d] *)
| OpWrite (i : nat) (off : Z) (cs : list Z)
| OpCheck.

Inductive arena_out := OutPtr (p : option Z) | OutInt (rc : Z) | OutUnit.

(** What lies at offset [e] of the region, where a block's header may begin. *)
Inductive place :=
| PlBlock (i : nat)     (* the header of the [i]-th block *)
| PlZone                (* four bytes inside a redzone *)
| PlUnused              (* beyond the last block *)
| PlData.               (* another part of a header, or the user's data *)

Definition in_zone (b : block) (e : Z) : bool :=
  bool_decide (8 <= e <= 20 \/ 24 + round8 (b_size b) <= e <= 36 + round8 (b_size b)).

Fixpoint place_of (bs : list block) (e : Z) (i : nat) : place :=
  match bs with
  | [] => PlUnused
  | b :: bs => if e =? 0 then PlBlock i
               else if e <? extent b then if in_zone b e then PlZone else PlData
               else place_of bs (e - extent b) (S i)
  end.

Definition spec_free (bs : list block) (i : nat) : arena_out * list block :=
  match bs !! i with
  | Some (Block n Live) => (OutInt 0, <[i := Block n Freed]> bs)
  | _ => (OutInt (-1), bs)
  end.

(** Specification: pointers are offsets into the region of [cap] bytes. [None]
    is a client error (a write outside the block, a size over 32 bits, a free
    that takes the user's data, parts of a header or the region's last bytes for
    a header). *)
Definition spec_step (cap : Z) (bs : list block) (o : arena_op)
  : option (arena_out * list block) :=
  match o with
  | OpAlloc n =>
      if bool_decide (in_u32 n) then
        let b := Block n Live in
        if cap <? extents bs + extent b then Some (OutPtr None, bs)
        else Some (OutPtr (Some (user_ptr (extents bs))), bs ++ [b])
      else None
  | OpFree i => Some (spec_free bs i)
  | OpFreeAt d =>
      let e := u64 (d - 24) in
      if cap <=? e then Some (OutInt (-1), bs)
      else if cap <? e + 4 then None
      else match place_of bs e 0 with
           | PlBlock i => Some (spec_free bs i)
           | PlZone | PlUnused => Some (OutInt (-1), bs)
           | PlData => None
           end
  | OpWrite i off cs =>
      match bs !! i with
      | Some b => if bool_decide (0 <= off /\ off + Z.of_nat (length cs) <= b_size b)
                  then Some (OutUnit, bs) else None
      | None => None
      end
  | OpCheck => Some (OutInt 0, bs)
  end.

(** The code, driven by a client that keeps the pointers it was given. *)
Definition code_step (s : chaos_arena * list Z) (o : arena_op)
  : res (arena_out * (chaos_arena * list Z)) :=
  let '(a, ptrs) := s in
  match o with
  | OpAlloc n =>
      '(p, a') ← chaos_arena_alloc (Some a) n;
      Ok (OutPtr p, (default a a', ptrs ++ option_list p))
  | OpFree i =>
      '(rc, a') ← chaos_arena_free (Some a) (ptrs !! i);
      Ok (OutInt rc, (default a a', ptrs))
  | OpFreeAt d =>
      let p := u64 (a_base a + d) in
      '(rc, a') ← chaos_arena_free (Some a) (if p =? 0 then None else Some p);
      Ok (OutInt rc, (default a a', ptrs))
  | OpWrite i off cs =>
      match ptrs !! i with
      | Some p => a' ← store a (p + off) cs; Ok (OutUnit, (a', ptrs))
      | None => Fault
      end
  | OpCheck =>
      rc ← chaos_arena_check (Some a); Ok (OutInt rc, (a, ptrs))
  end.

Fixpoint spec_run (cap : Z) (bs : list block) (os : list arena_op)
  : option (list arena_out * list block) :=
  match os with
  | [] => Some ([], bs)
  | o :: os => '(x, bs) ← spec_step cap bs o; '(xs, bs) ← spec_run cap bs os; Some (x :: xs, bs)
  end.

Fixpoint code_run (s : chaos_arena * list Z) (os : list arena_op)
  : res (list arena_out * (chaos_arena * list Z)) :=
  match os with
  | [] => Ok ([], s)
  | o :: os => '(x, s) ← code_step s o; '(xs, s) ← code_run s os; Ok (x :: xs, s)
  end.

Definition shift_out (base : Z) (o : arena_out) : arena_out :=
  match o with OutPtr (Some p) => OutPtr (Some (base + p)) | o => o end.

(** User offsets of the blocks, from offset [o] on. *)
Fixpoint user_offsets (o : Z) (bs : list block) : list Z :=
  match bs with
  | [] => []
  | b :: bs => user_ptr o :: user_offsets (o + extent b) bs
  end.

(** Nothing was ever written beyond the last block. *)
Definition unused_zero (a : chaos_arena) : Prop :=
  forall q, a_base a + a_used a <= q -> byte_at (a_mem a) q = 0.

(** The simulation relation. *)
Definition arena_sim (base cap : Z) (s : chaos_arena * list Z) (bs : list block) : Prop :=
  arena_wf s.1 bs /\ a_base s.1 = base /\ a_total s.1 = cap /\ s.2 = user_offsets base bs /\
  unused_zero s.1.

Lemma user_offsets_app o bs cs :
  user_offsets o (bs ++ cs) = user_offsets o bs ++ user_offsets (o + extents bs) cs.
Proof.
  revert o. induction bs as [|b bs IH]; intros o; cbn.
  - by rewrite (Z.add_0_r o : o + extents [] = o).
  - rewrite IH, extents_cons. do 3 f_equal. lia.
Qed.

Lemma length_user_offsets o bs : length (user_offsets o bs) = length bs.
Proof. revert o. induction bs as [|b bs IH]; intros o; cbn; [done|]. by rewrite IH. Qed.

Lemma user_offsets_middle o bs1 b bs2 :
  user_offsets o (bs1 ++ b :: bs2) !! length bs1 = Some (user_ptr (o + extents bs1)).
Proof.
  rewrite user_offsets_app. cbn. by rewrite lookup_app_r, length_user_offsets, Nat.sub_diag
    by by rewrite length_user_offsets.
Qed.

Lemma user_offsets_same o bs1 b b' bs2 :
  b_size b = b_size b' -> user_offsets o (bs1 ++ b :: bs2) = user_offsets o (bs1 ++ b' :: bs2).
Proof. intros Hs. rewrite !user_offsets_app. cbn. unfold extent. by rewrite Hs. Qed.

(** The word a free would take for the magic. *)
Definition magic_at (a : chaos_arena) (h : Z) : Z := le_val (peek (a_mem a) h 4).

Lemma replicate_peek m p n b :
  (forall q, p <= q < p + Z.of_nat n -> byte_at m q = b) -> peek m p n = replicate n b.
Proof.
  revert p. induction n as [|n IH]; intros p H; [done|].
  rewrite peek_S, H by lia. cbn [replicate]. f_equal. apply IH. intros. apply H. lia.
Qed.

Lemma zone_byte m p q : zone_intact m p = true -> p <= q < p + 16 -> byte_at m q = REDZONE_BYTE.
Proof.
  intros H%bool_decide_eq_true Hq. apply (f_equal (fun l => l !! Z.to_nat (q - p))) in H.
  rewrite peek_lookup in H by lia. unfold zone in H. rewrite lookup_replicate_2 in H by lia.
  injection H as H. by replace (p + Z.of_nat (Z.to_nat (q - p))) with q in H by lia.
Qed.

Lemma zone_magic m p h :
  zone_intact m p = true -> p <= h <= p + 12 -> peek m h 4 = replicate 4 REDZONE_BYTE.
Proof. intros Hz Hh. apply replicate_peek. intros q Hq. eapply zone_byte; [done|lia]. Qed.

(** What [place_of] says of the memory. *)
Lemma place_of_spec m bs : forall p e i,
  headers m p bs -> zones_bad m p bs = 0 -> 0 <= e ->
  match place_of bs e i with
  | PlBlock j => exists k b, j = (i + k)%nat /\ bs !! k = Some b /\ e = extents (take k bs)
  | PlZone => peek m (p + e) 4 = replicate 4 REDZONE_BYTE
  | PlUnused => extents bs <= e
  | PlData => True
  end.
Proof.
  induction bs as [|b bs IH]; intros p e i Hh Hz He; cbn [place_of]; [by cbn|].
  destruct Hh as (_ & Hb & Hr). rewrite zones_bad_cons in Hz.
  pose proof (extent_pos b Hb). pose proof (zones_of_range m p b).
  pose proof (zones_bad_nonneg m (p + extent b) bs).
  destruct (Z.eqb_spec e 0) as [->|].
  { exists 0%nat, b. rewrite Nat.add_0_r. done. }
  destruct (Z.ltb_spec e (extent b)).
  - unfold in_zone. case_bool_decide as Hin; [|done].
    assert (Hi : zone_intact m (pre_zone p) = true /\ zone_intact m (post_zone p b) = true).
    { assert (Hz0 : zones_of m p b = 0) by lia. unfold zones_of in Hz0.
      by destruct (zone_intact m (pre_zone p)), (zone_intact m (post_zone p b)). }
    destruct Hi as [Hz1 Hz2], Hin.
    + apply (zone_magic m _ _ Hz1). unfold pre_zone. lia.
    + apply (zone_magic m _ _ Hz2). unfold post_zone. lia.
  - specialize (IH (p + extent b) (e - extent b) (S i) Hr ltac:(lia) ltac:(lia)).
    destruct (place_of bs _ _); [|by replace (p + e) with (p + extent b + (e - extent b)) by lia| |done].
    + destruct IH as (k & c & -> & Hk & He'). exists (S k), c. cbn [lookup list_lookup take].
      rewrite extents_cons. split_and!; [lia|done|lia].
    + rewrite extents_cons. lia.
Qed.

(** A free of the [i]-th pointer. *)
Lemma free_index_sim base cap a bs i :
  arena_sim base cap (a, user_offsets base bs) bs ->
  exists rc a', chaos_arena_free (Some a) (user_offsets base bs !! i) = Ok (rc, Some a') /\
    OutInt rc = (spec_free bs i).1 /\ arena_sim base cap (a', user_offsets base bs) (spec_free bs i).2.
Proof.
  intros ([Hl Hz] & Hb & Ht & Hp & Hu). cbn [fst snd] in *. subst base cap. unfold spec_free.
  destruct (bs !! i) as [[n st]|] eqn:Ei.
  - apply list_elem_of_split_length in Ei as (bs1 & bs2 & -> & ->).
    rewrite user_offsets_middle, (chaos_arena_free_eq a bs1 _ bs2 Hl). cbn [b_status b_size].
    destruct st; [|by do 2 eexists; split_and!].
    destruct (free_layout a bs1 _ bs2 Hl) as [Hl' Hz'].
    destruct (layout_region _ _ _ _ Hl) as (_ & _ & Hbs & _ & Hx). pose proof (round8_bounds n).
    do 2 eexists. split; [done|]. split; [done|]. cbn [snd].
    rewrite insert_app_r_alt, Nat.sub_diag by done. cbn [list_insert insert].
    split; [split; [exact Hl'|exact (eq_trans Hz' Hz)]|]. do 2 (split; [done|]).
    split; [by apply user_offsets_same|]. intros q Hq. cbn in *.
    unfold extent in Hx. cbn [b_size] in *.
    rewrite (free_mem_other _ _ (Block n Live)) by (cbn [b_size]; lia || done). apply Hu. lia.
  - rewrite (lookup_ge_None_2 (user_offsets _ _)); [by do 2 eexists; split_and!|].
    rewrite length_user_offsets. by apply lookup_ge_None_1.
Qed.

(** A free of any pointer: its header is taken to lie at offset [e]. *)
Lemma chaos_arena_free_at a bs d :
  arena_layout a bs ->
  let p := u64 (a_base a + d) in let e := u64 (d - 24) in
  (a_total a <= e -> chaos_arena_free (Some a) (if p =? 0 then None else Some p) = Ok (-1, Some a)) /\
  (e < a_total a -> (if p =? 0 then None else Some p) = Some (user_ptr (a_base a + e)) /\
     (e + 4 <= a_total a ->
      magic_at a (a_base a + e) <> ARENA_MAGIC_LIVE ->
      chaos_arena_free (Some a) (Some (user_ptr (a_base a + e))) = Ok (-1, Some a))).
Proof.
  intros [Hb Ht Htop _ _ _ _] p e. subst p e. split.
  - intros He. destruct (Z.eqb_spec (u64 (a_base a + d)) 0) as [|Hp]; [done|].
    unfold chaos_arena_free, REDZONE_SIZE, HDR_SIZE.
    assert (Hh : u64 (u64 (a_base a + d) - 16 - 8) = u64 (a_base a + u64 (d - 24)))
      by (unfold u64; zlia).
    rewrite Hh. destruct (Z.ltb_spec (u64 (a_base a + u64 (d - 24))) (a_base a)); [done|].
    rewrite (proj2 (Z.leb_le _ _)); [done|]. unfold u64 in *. zlia.
  - intros He. assert (Hp : u64 (a_base a + d) = user_ptr (a_base a + u64 (d - 24)))
      by (unfold user_ptr, u64 in *; zlia).
    pose proof (u64_range (d - 24)). rewrite Hp.
    rewrite (proj2 (Z.eqb_neq _ _)) by (unfold user_ptr; lia). split; [done|]. intros He4 Hm.
    unfold chaos_arena_free, user_ptr, REDZONE_SIZE, HDR_SIZE.
    replace (a_base a + u64 (d - 24) + 24 - 16 - 8) with (a_base a + u64 (d - 24)) by lia.
    rewrite (u64_small (a_base a + _)) by lia.
    rewrite (proj2 (Z.ltb_ge _ _)), (proj2 (Z.leb_gt _ _)) by lia. cbn [orb].
    unfold load32. rewrite load_in by lia. cbn. fold (magic_at a (a_base a + u64 (d - 24))).
    destruct (magic_at a _ =? ARENA_MAGIC_FREE); [done|].
    by rewrite (proj2 (Z.eqb_neq _ _)) by done.
Qed.

Lemma user_offsets_take o bs k b :
  bs !! k = Some b -> user_offsets o bs !! k = Some (user_ptr (o + extents (take k bs))).
Proof.
  intros H. pose proof (lookup_lt_Some _ _ _ H) as Hk.
  pose proof (user_offsets_middle o (take k bs) b (drop (S k) bs)) as Hm.
  rewrite take_drop_middle, length_take_le in Hm by (lia || done). exact Hm.
Qed.

Lemma free_at_sim base cap a bs d x bs' :
  arena_sim base cap (a, user_offsets base bs) bs -> spec_step cap bs (OpFreeAt d) = Some (x, bs') ->
  exists rc a', chaos_arena_free (Some a) (if u64 (base + d) =? 0 then None else Some (u64 (base + d)))
    = Ok (rc, Some a') /\ OutInt rc = x /\ arena_sim base cap (a', user_offsets base bs) bs'.
Proof.
  intros Hsim Hs. pose proof Hsim as ([Hl Hz] & Hb & Ht & _ & Hu). cbn [fst snd] in *.
  destruct (chaos_arena_free_at a bs d Hl) as [Hout Hin]. subst base cap. cbn [spec_step] in Hs.
  destruct (Z.leb_spec (a_total a) (u64 (d - 24))).
  { injection Hs as <- <-. rewrite Hout by done. by do 2 eexists. }
  destruct (Z.ltb_spec (a_total a) (u64 (d - 24) + 4)); [done|].
  destruct Hin as [-> Hwild]; [done|]. specialize (Hwild ltac:(lia)).
  pose proof (u64_range (d - 24)).
  pose proof (place_of_spec (a_mem a) bs (a_base a) (u64 (d - 24)) 0 (al_headers _ _ Hl) Hz ltac:(lia)) as Hpl.
  destruct (place_of bs _ 0); [| | |done].
  - destruct Hpl as (k & b & -> & Hk & ->). injection Hs as Hs. cbn [Nat.add] in Hs.
    rewrite <- (user_offsets_take (a_base a) bs k b Hk).
    destruct (free_index_sim _ _ a bs k Hsim) as (rc & a' & E & Hrc & Hsim'). rewrite Hs in *.
    by exists rc, a'.
  - injection Hs as <- <-. exists (-1), a. rewrite Hwild; [done|]. unfold magic_at. by rewrite Hpl.
  - injection Hs as <- <-. exists (-1), a. rewrite Hwild; [done|]. unfold magic_at.
    rewrite (replicate_peek _ _ 4 0); [done|]. intros q Hq. apply Hu. rewrite (al_used _ _ Hl). lia.
Qed.

Lemma arena_step_sim base cap s bs o x bs' :
  arena_sim base cap s bs -> spec_step cap bs o = Some (x, bs') ->
  exists s', code_step s o = Ok (shift_out base x, s') /\ arena_sim base cap s' bs'.
Proof.
  destruct s as [a ptrs]. intros Hsim Hs. pose proof Hsim as ([Hl Hz] & Hb & Ht & Hp & Hu).
  cbn [fst snd] in *. subst ptrs.
  destruct o as [n|i|d|i off cs|]; cbn [code_step] in *.
  - subst base cap. cbn [spec_step] in Hs. case_bool_decide as Hn; [|done].
    rewrite (chaos_arena_alloc_eq a bs n Hl Hn), (al_used _ _ Hl).
    destruct (Z.ltb_spec (a_total a) (extents bs + extent (Block n Live))).
    + injection Hs as <- <-. eexists. split; [done|]. cbn. by rewrite app_nil_r.
    + injection Hs as <- <-. eexists. split.
      { cbn. unfold user_ptr. do 4 f_equal. lia. }
      rewrite <- (al_used _ _ Hl) in *.
      destruct (alloc_layout a bs n Hl Hn) as [Hl' Hz']; [lia|].
      split; [split; [exact Hl'|exact (eq_trans Hz' Hz)]|]. do 2 (split; [done|]).
      split; [cbn; by rewrite user_offsets_app, <- (al_used _ _ Hl)|].
      intros q Hq. cbn [a_base a_used a_mem a_set_used a_set_mem fst] in *.
      pose proof (extent_pos (Block n Live) Hn).
      change (byte_at (alloc_mem (a_mem a) (a_base a + a_used a) n) q = 0).
      rewrite alloc_mem_other by (lia || done). apply Hu. lia.
  - cbn [spec_step] in Hs. injection Hs as Hs.
    destruct (free_index_sim base cap a bs i Hsim) as (rc & a' & -> & Hrc & Hsim'). rewrite Hs in *.
    cbn [fst snd] in *. subst x. by eexists.
  - destruct (free_at_sim base cap a bs d x bs' Hsim Hs) as (rc & a' & E & <- & Hsim').
    rewrite Hb, E. by eexists.
  - cbn [spec_step] in Hs. subst base cap. destruct (bs !! i) as [b|] eqn:Ei; [|done].
    apply list_elem_of_split_length in Ei as (bs1 & bs2 & -> & ->).
    case_bool_decide as Ho; [|done]. injection Hs as <- <-.
    destruct (layout_region _ _ _ _ Hl) as (_ & _ & Hbs & _ & Hx).
    pose proof (round8_bounds (b_size b)).
    rewrite user_offsets_middle.
    destruct (write_in_bounds a bs1 b bs2 off cs) as (a' & -> & -> & Hl' & Hz'); [done|lia..|].
    eexists. split; [done|]. split; [split; [done|exact (eq_trans Hz' Hz)]|].
    do 3 (split; [done|]). intros q Hq. cbn in *. unfold extent in Hx.
    rewrite byte_at_poke. unfold user_ptr. destruct (decide _); [lia|]. by apply Hu.
  - injection Hs as <- <-. rewrite (chaos_arena_check_layout a bs Hl), Hz. by eexists.
Qed.

Lemma arena_run_sim base cap s bs os xs bs' :
  arena_sim base cap s bs -> spec_run cap bs os = Some (xs, bs') ->
  exists s', code_run s os = Ok (map (shift_out base) xs, s') /\ arena_sim base cap s' bs'.
Proof.
  revert s bs xs. induction os as [|o os IH]; intros s bs xs Hsim Hs; cbn [spec_run code_run] in *.
  - injection Hs as <- <-. by exists s.
  - destruct (spec_step cap bs o) as [[x bs1]|] eqn:E1; [|done]. cbn in Hs.
    destruct (spec_run cap bs1 os) as [[ys bs2]|] eqn:E2; [|done]. cbn in Hs.
    injection Hs as <- <-.
    destruct (arena_step_sim _ _ _ _ _ _ _ Hsim E1) as (s1 & E1' & Hs1).
    destruct (IH _ _ _ Hs1 E2) as (s2 & E2' & Hs2).
    exists s2. split; [|done]. by rewrite E1', res_bind_ok, E2', res_bind_ok.
Qed.

Lemma create_sim sz flags base a :
  0 < base -> base + sz <= 2 ^ 63 -> Z.land flags CHAOS_ARENA_REDZONES <> 0 ->
  chaos_arena_create sz flags true (Some base) = CreateOk a -> arena_sim base sz (a, []) [].
Proof.
  unfold chaos_arena_create. destruct (Z.ltb_spec sz 4096); [done|]. cbn. intros Hb Ht Hf [= <-].
  repeat split; cbn; try lia; try done. unfold redzones. cbn. by apply negb_true_iff, Z.eqb_neq.
Qed.

(** ** Overruns and frees on a well-formed arena *)

Lemma overrun_lemma a bs1 b bs2 cs :
  let p := user_ptr (a_base a + extents bs1) in
  arena_wf a (bs1 ++ b :: bs2) ->
  (Z.of_nat (length cs) <= round8 (b_size b) ->
   exists a', store a p cs = Ok a' /\ chaos_arena_check (Some a') = Ok 0) /\
  (forall i c, round8 (b_size b) <= Z.of_nat i < round8 (b_size b) + 16 ->
     cs !! i = Some c -> c <> REDZONE_BYTE ->
     p + Z.of_nat (length cs) <= a_base a + a_total a ->
     (Z.of_nat (length cs) <= round8 (b_size b) + 16 \/ bs2 = []) ->
     exists a', store a p cs = Ok a' /\ chaos_arena_check (Some a') = Ok 1).
Proof.
  intros p [Hl Hz]. destruct (layout_region _ _ _ _ Hl) as (_ & _ & Hb & _ & _). split.
  - intros Hc. destruct (write_in_bounds a bs1 b bs2 0 cs Hl) as (a' & E & _ & Hl' & Hz'); [lia..|].
    exists a'. rewrite Z.add_0_r in E. split; [done|].
    by rewrite (chaos_arena_check_layout _ _ Hl'), Hz', Hz.
  - intros i c Hi Hc Hne Ht Hend.
    destruct (store_update a bs1 b bs2 p cs Hl) as (E & Hl' & Hz');
      [unfold p, user_ptr; lia|done|unfold p, user_ptr, extent; destruct Hend; [left; lia|by right]|].
    eexists. split; [exact E|]. rewrite (chaos_arena_check_layout _ _ Hl'). cbn [a_set_mem a_mem a_base].
    rewrite Hz', Hz.
    pose proof (zones_bad_nonneg (a_mem a) (a_base a) bs1) as N1.
    pose proof (zones_bad_nonneg (a_mem a) (a_base a + extents bs1 + extent b) bs2) as N2.
    rewrite zones_bad_app, zones_bad_cons in Hz.
    pose proof (zones_of_range (a_mem a) (a_base a + extents bs1) b).
    unfold p. rewrite (zones_of_overrun _ _ b cs i c); try done; try lia. f_equal. lia.
Qed.

Lemma free_lemma a bs1 b bs2 :
  let p := a_base a + extents bs1 in
  arena_wf a (bs1 ++ b :: bs2) -> b_status b = Live ->
  exists a', chaos_arena_free (Some a) (Some (user_ptr p)) = Ok (0, Some a') /\
    arena_wf a' (bs1 ++ Block (b_size b) Freed :: bs2) /\
    peek (a_mem a') (user_ptr p) (Z.to_nat (b_size b)) = replicate (Z.to_nat (b_size b)) POISON_BYTE /\
    chaos_arena_free (Some a') (Some (user_ptr p)) = Ok (-1, Some a') /\ a_base a' = a_base a.
Proof.
  intros p [Hl Hz] Hlive. destruct (layout_region _ _ _ _ Hl) as (_ & _ & Hb & Hh & _). fold p in Hh.
  destruct (free_layout a bs1 b bs2 Hl) as [Hl' Hz']. fold p in Hl', Hz'.
  pose proof (chaos_arena_free_eq a bs1 b bs2 Hl) as E. fold p in E. rewrite Hlive in E.
  eexists. split; [exact E|]. split; [split; [done|by rewrite Hz']|]. split.
  - by apply free_mem_block.
  - split; [|done]. exact (chaos_arena_free_eq _ bs1 (Block (b_size b) Freed) bs2 Hl').
Qed.

(** A block allocated in a fresh arena. *)
Lemma fresh_alloc base total n :
  0 < base -> base + total <= 2 ^ 63 -> in_u32 n -> extent (Block n Live) <= total ->
  exists a, chaos_arena_alloc (Some (Arena base total 0 1 ∅)) n = Ok (Some (user_ptr base), Some a) /\
    arena_wf a [Block n Live] /\ a_base a = base /\ a_total a = total.
Proof.
  intros Hb Ht Hn He. pose proof (extent_pos (Block n Live) Hn).
  assert (Hl : arena_layout (Arena base total 0 1 ∅) []) by (split; cbn; lia || done).
  rewrite (chaos_arena_alloc_eq _ [] n Hl Hn). cbn [a_total a_used a_base].
  rewrite (proj2 (Z.ltb_ge _ _)) by lia. eexists. split.
  { apply f_equal, f_equal2; [|reflexivity]. by rewrite Z.add_0_r. }
  destruct (alloc_layout _ [] n Hl Hn) as [Hl' Hz']; [cbn [a_total a_used]; lia|].
  split_and!; [split; [exact Hl'|exact Hz']|done|done].
Qed.

(** ** Properties *)

(** C6: the allocator implements its specification: on a fresh arena with
    redzones, any sequence of allocations, frees (repeated ones, of NULL, and of
    pointers never handed out), in-bounds writes and scans makes the code return
    exactly what the list-of-blocks specification returns (fresh, disjoint,
    in-order blocks; NULL exactly when the next block does not fit; -1 for a
    double free, for NULL, for a pointer whose header would lie outside the
    region, and for one whose header would lie in a redzone or beyond the last
    block; 0 damaged redzones), never faults, and leaves the arena well formed.
    Left to the client are writes outside a block, sizes over 32 bits, and frees
    of pointers whose header would lie in a block's own data, across the fields of
    a header, or in the region's last three bytes. *)
Theorem arena_refines_blocks sz flags base a os xs bs :
  0 < base -> base + sz <= 2 ^ 63 -> Z.land flags CHAOS_ARENA_REDZONES <> 0 ->
  chaos_arena_create sz flags true (Some base) = CreateOk a ->
  spec_run sz [] os = Some (xs, bs) ->
  exists s, code_run (a, []) os = Ok (map (shift_out base) xs, s) /\
            arena_wf s.1 bs /\ s.2 = user_offsets base bs.
Proof.
  intros Hb Ht Hf Hc Hs.
  destruct (arena_run_sim base sz (a, []) [] os xs bs) as (s & E & Hwf & _ & _ & Hp & _);
    [by eapply create_sim|done|]. by exists s.
Qed.

Definition demo_ops : list arena_op :=
  [OpAlloc 32; OpWrite 0 0 (replicate 32 65); OpCheck; OpFree 0; OpFree 0; OpAlloc 5000; OpCheck;
   OpFreeAt 32; OpFreeAt 1024; OpFreeAt 8; OpFreeAt 5000; OpFreeAt (-65536)].

Lemma arena_refines_blocks_witness :
  exists s, code_run (Arena 65536 4096 0 1 ∅, []) demo_ops
    = Ok (map (shift_out 65536)
        [OutPtr (Some 24); OutUnit; OutInt 0; OutInt 0; OutInt (-1); OutPtr None; OutInt 0;
         OutInt (-1); OutInt (-1); OutInt (-1); OutInt (-1); OutInt (-1)], s) /\
    arena_wf s.1 [Block 32 Freed] /\ s.2 = user_offsets 65536 [Block 32 Freed].
Proof.
  apply (arena_refines_blocks 4096 1 65536 (Arena 65536 4096 0 1 ∅) demo_ops);
    [lia|lia|discriminate|reflexivity|vm_compute; reflexivity].
Defined.

(** [chaos_arena_check] counts: on any arena whose headers are intact,
    whatever else was written into it, the scan terminates without faulting and
    returns exactly the number of redzones that differ from their pattern. *)
Theorem check_counts_damage a bs :
  arena_layout a bs -> chaos_arena_check (Some a) = Ok (zones_bad (a_mem a) (a_base a) bs).
Proof. apply chaos_arena_check_layout. Qed.

(** An arena with one 32-byte block whose redzones were never painted. *)
Definition bare_arena : chaos_arena :=
  Arena 65536 4096 72 1 (poke ∅ 65536 (header_bytes (Block 32 Live))).

Lemma check_counts_damage_witness : chaos_arena_check (Some bare_arena) = Ok 2.
Proof.
  apply (check_counts_damage bare_arena [Block 32 Live]).
  split; [cbn; lia..|reflexivity|reflexivity|cbn; lia|].
  split; [vm_compute; reflexivity|split; [cbn; lia|exact I]].
Defined.

(** C15: buffer overruns are caught, up to the padding: on a well-formed arena a
    write that starts at a block's pointer is invisible to the scan when it ends
    inside the size rounded up to 8, even past the requested size; when it ends
    within the following redzone (or anywhere, for the newest block) and one of
    the redzone bytes it writes is not 0xCD, the scan reports exactly one damaged
    redzone. *)
Theorem overrun_detected a bs1 b bs2 cs :
  let p := user_ptr (a_base a + extents bs1) in
  arena_wf a (bs1 ++ b :: bs2) ->
  (Z.of_nat (length cs) <= round8 (b_size b) ->
   exists a', store a p cs = Ok a' /\ chaos_arena_check (Some a') = Ok 0) /\
  (forall i c, round8 (b_size b) <= Z.of_nat i < round8 (b_size b) + 16 ->
     cs !! i = Some c -> c <> REDZONE_BYTE ->
     p + Z.of_nat (length cs) <= a_base a + a_total a ->
     (Z.of_nat (length cs) <= round8 (b_size b) + 16 \/ bs2 = []) ->
     exists a', store a p cs = Ok a' /\ chaos_arena_check (Some a') = Ok 1).
Proof. apply overrun_lemma. Qed.

Definition one_block : chaos_arena :=
  Arena 65536 4096 72 1 (alloc_mem ∅ 65536 32).

Lemma one_block_wf : arena_wf one_block [Block 32 Live].
Proof.
  pose proof (alloc_layout (Arena 65536 4096 0 1 ∅) [] 32) as [Hl Hz].
  - split; try (cbn; lia); reflexivity.
  - lia.
  - cbv. congruence.
  - split; [exact Hl|exact Hz].
Defined.

Lemma overrun_detected_witness :
  exists a', store one_block (user_ptr 65536) (replicate 64 88) = Ok a' /\
             chaos_arena_check (Some a') = Ok 1.
Proof.
  destruct (overrun_detected one_block [] (Block 32 Live) [] (replicate 64 88) one_block_wf) as [_ H].
  apply (H 32%nat 88); [vm_compute; split; congruence|reflexivity|discriminate|vm_compute; discriminate|by right].
Defined.

(** Freeing poisons once: freeing the pointer of a live block returns 0 and
    every byte of the user data reads 0xDE afterwards; freeing the same pointer
    again returns -1 and changes nothing; both leave every redzone intact. *)
Theorem free_poisons_once a bs1 b bs2 :
  let p := a_base a + extents bs1 in
  arena_wf a (bs1 ++ b :: bs2) -> b_status b = Live ->
  exists a', chaos_arena_free (Some a) (Some (user_ptr p)) = Ok (0, Some a') /\
    arena_wf a' (bs1 ++ Block (b_size b) Freed :: bs2) /\
    peek (a_mem a') (user_ptr p) (Z.to_nat (b_size b)) = replicate (Z.to_nat (b_size b)) POISON_BYTE /\
    chaos_arena_free (Some a') (Some (user_ptr p)) = Ok (-1, Some a').
Proof.
  intros p Hw Hs. destruct (free_lemma a bs1 b bs2 Hw Hs) as (a' & H1 & H2 & H3 & H4 & _).
  by exists a'.
Qed.

Lemma free_poisons_once_witness :
  exists a', chaos_arena_free (Some one_block) (Some (user_ptr 65536)) = Ok (0, Some a') /\
    arena_wf a' [Block 32 Freed] /\
    peek (a_mem a') (user_ptr 65536) 32 = replicate 32 POISON_BYTE /\
    chaos_arena_free (Some a') (Some (user_ptr 65536)) = Ok (-1, Some a').
Proof. exact (free_poisons_once one_block [] (Block 32 Live) [] one_block_wf eq_refl). Defined.

(** The arena after the wrapped request: a 40-byte block whose header claims
    2^32 - 1 bytes. *)
Lemma alloc_size_max_eq sz base :
  0 < base -> 4096 <= sz -> base + sz <= 2 ^ 63 ->
  let a := Arena base sz 0 1 ∅ in
  chaos_arena_alloc (Some a) (2 ^ 64 - 1) =
  Ok (Some (user_ptr base),
      Some (a_set_used 40 (a_set_mem
        (poke (poke (poke (poke ∅ base (le_bytes 4 ARENA_MAGIC_LIVE))
           (base + 4) (le_bytes 4 (2 ^ 32 - 1))) (base + 8) zone) (base + 24) zone) a))).
Proof.
  intros Hb Hs Ht a. unfold chaos_arena_alloc.
  change (block_total (2 ^ 64 - 1)) with 40. change (u32 (2 ^ 64 - 1)) with (2 ^ 32 - 1).
  change (round8 (2 ^ 64 - 1)) with 0. unfold a. cbn [a_total a_used a_base].
  change (u64 (0 + 40)) with 40. rewrite (proj2 (Z.ltb_ge _ _)) by lia.
  unfold HDR_SIZE, REDZONE_SIZE. rewrite !Z.add_0_r, !(u64_small base) by lia.
  rewrite !(u64_small (base + _)) by lia. rewrite (u64_small (base + 8 + 16)) by lia.
  replace (base + 8 + 16) with (base + 24) by lia.
  unfold store32. rewrite store_in by (rewrite ?length_le_bytes; cbn; lia). rewrite res_bind_ok.
  rewrite store_in by (rewrite ?length_le_bytes; cbn; lia). rewrite res_bind_ok.
  change (redzones _) with true. rewrite (u64_small (base + 24)) by lia. unfold memset.
  change (replicate (Z.to_nat 16) REDZONE_BYTE) with zone. cbv iota.
  rewrite store_in by (rewrite ?length_zone; cbn; lia). rewrite res_bind_ok.
  rewrite store_in by (rewrite ?length_zone; cbn; lia). rewrite res_bind_ok. done.
Qed.

(** C28: requests near [SIZE_MAX] wrap: on a fresh arena smaller than 4 GiB,
    asking for [SIZE_MAX] bytes succeeds (the padded size wraps to 0 and the
    block takes 40 bytes), the header records 2^32 - 1, and the next scan reads
    outside the region. *)
Theorem alloc_size_max_wraps sz base :
  0 < base -> base + sz <= 2 ^ 63 -> 4096 <= sz < 2 ^ 32 ->
  exists a a', chaos_arena_create sz CHAOS_ARENA_REDZONES true (Some base) = CreateOk a /\
    chaos_arena_alloc (Some a) (2 ^ 64 - 1) = Ok (Some (user_ptr base), Some a') /\
    a_used a' = 40 /\ load32 a' (base + 4) = Ok (2 ^ 32 - 1) /\
    chaos_arena_check (Some a') = Fault.
Proof.
  intros Hb Ht Hs. exists (Arena base sz 0 1 ∅). eexists. split.
  { unfold chaos_arena_create. by rewrite (proj2 (Z.ltb_ge _ _)) by lia. }
  split; [apply alloc_size_max_eq; lia|].
  set (m := poke _ (base + 24) zone). cbn [a_used a_set_used]. split; [done|].
  set (a' := a_set_used _ _).
  assert (Hh : load32 a' base = Ok ARENA_MAGIC_LIVE /\ load32 a' (base + 4) = Ok (2 ^ 32 - 1)).
  { apply (load_header a' base (Block (2 ^ 32 - 1) Live)); [cbn; lia..|].
    subst m. cbn [a' a_set_used a_set_mem a_mem].
    rewrite !(peek_poke_other _ base 8) by (rewrite ?length_zone; lia).
    change 8%nat with (4 + 4)%nat. rewrite peek_add.
    rewrite (peek_poke_other _ base 4) by lia. change (base + Z.of_nat 4) with (base + 4).
    by rewrite !peek_poke_le. }
  destruct Hh as [Hm Hz]. split; [exact Hz|].
  unfold chaos_arena_check. change (redzones a') with true. cbn [negb].
  assert (a_base a' = base /\ a_total a' = sz) as [Eb Et] by done.
  unfold check_fuel. change (a_used a') with 40. cbn [check_loop].
  change (a_used a') with 40. change (0 <? 40) with true. rewrite Eb, !Z.add_0_r.
  rewrite Hm, res_bind_ok.
  change (negb (ARENA_MAGIC_LIVE =? ARENA_MAGIC_LIVE)) with false. cbn [andb].
  rewrite Hz, res_bind_ok. change (round8 (2 ^ 32 - 1)) with (2 ^ 32).
  unfold HDR_SIZE, REDZONE_SIZE. rewrite (zone_corrupted_spec a' (base + 8)) by (rewrite ?Eb, ?Et; lia).
  by rewrite res_bind_ok, zone_corrupted_out by (rewrite Eb, Et; lia).
Qed.

Lemma alloc_size_max_wraps_witness :
  exists a a', chaos_arena_create 8192 CHAOS_ARENA_REDZONES true (Some 65536) = CreateOk a /\
    chaos_arena_alloc (Some a) (2 ^ 64 - 1) = Ok (Some (user_ptr 65536), Some a') /\
    a_used a' = 40 /\ load32 a' (65536 + 4) = Ok (2 ^ 32 - 1) /\
    chaos_arena_check (Some a') = Fault.
Proof. apply (alloc_size_max_wraps 8192 65536); lia. Defined.
