(* ===== verification/ChaosIo.v ===== *)
(** * Chaotic files and clock (src/chaos/chaos_io.c, include/playground/chaos_io.h)

    The table of wrapped descriptors is the static array of 64 slots; a pointer
    to a slot is its index.  Each operation takes the answers of the kernel
    calls it makes as arguments, in call order.  [chaos_io_write] releases the
    lock around [write], so it is two atomic steps with the system call in
    between; the sequential function composes them and the concurrent step
    relation interleaves them.  The table is shown to implement a finite map
    of at most 64 descriptors. *)

From S2P Require Import Prelude Rand.

(** ** The slot table *)

(* @ src/chaos/chaos_io.c:15-23 io_slot_t *)
Record io_slot_t := Slot {
  sl_fd : Z;
  sl_in_use : bool;
  sl_quota : Z;
  sl_bytes_written : Z;
  sl_partial_max : Z;
  sl_fsync_delay_ns : Z;
  sl_path : list Z
}.

(* @ src/chaos/chaos_io.c:25-25 IO_SLOTS_MAX *)
Definition IO_SLOTS_MAX : nat := 64.

(** A zeroed slot. *)
(* @ src/chaos/chaos_io.c:40-40 memset *)
Definition zero_slot : io_slot_t := Slot 0 false 0 0 0 0 (replicate 256 0).

(* @ src/chaos/chaos_io.c:27-27 g_slots *)
Definition g_slots_init : list io_slot_t := replicate IO_SLOTS_MAX zero_slot.

(* @ src/chaos/chaos_io.c:32-32 find_locked *)
Definition slot_is (fd : Z) (s : io_slot_t) : Prop := sl_in_use s = true /\ sl_fd s = fd.
(* @ src/chaos/chaos_io.c:39-39 alloc_locked *)
Definition slot_free (s : io_slot_t) : Prop := sl_in_use s = false.

#[export] Instance slot_is_dec fd s : Decision (slot_is fd s).
Proof. unfold slot_is. apply _. Defined.
#[export] Instance slot_free_dec s : Decision (slot_free s).
Proof. unfold slot_free. apply _. Defined.

(* @ src/chaos/chaos_io.c find_locked *)
Definition find_locked (fd : Z) (g : list io_slot_t) : option nat := fst <$> list_find (slot_is fd) g.

(* @ src/chaos/chaos_io.c alloc_locked *)
Definition alloc_locked (fd : Z) (g : list io_slot_t) : option nat * list io_slot_t :=
  match list_find slot_free g with
  | Some (i, _) => (Some i, <[i := Slot fd true 0 0 0 0 (replicate 256 0)]> g)
  | None => (None, g)
  end.

(* @ src/chaos/chaos_io.c:65-65 chaos_io_open *)
Definition set_path (p : list Z) (s : io_slot_t) : io_slot_t :=
  Slot (sl_fd s) (sl_in_use s) (sl_quota s) (sl_bytes_written s) (sl_partial_max s)
       (sl_fsync_delay_ns s) p.
(* @ src/chaos/chaos_io.c:134-134 chaos_io_set_quota *)
Definition set_quota (q : Z) (s : io_slot_t) : io_slot_t :=
  Slot (sl_fd s) (sl_in_use s) q (sl_bytes_written s) (sl_partial_max s)
       (sl_fsync_delay_ns s) (sl_path s).
(* @ src/chaos/chaos_io.c:141-141 chaos_io_set_partial *)
Definition set_partial (m : Z) (s : io_slot_t) : io_slot_t :=
  Slot (sl_fd s) (sl_in_use s) (sl_quota s) (sl_bytes_written s) m
       (sl_fsync_delay_ns s) (sl_path s).
(* @ src/chaos/chaos_io.c:148-148 chaos_io_set_fsync_delay *)
Definition set_fsync_delay (d : Z) (s : io_slot_t) : io_slot_t :=
  Slot (sl_fd s) (sl_in_use s) (sl_quota s) (sl_bytes_written s) (sl_partial_max s)
       d (sl_path s).
(* @ src/chaos/chaos_io.c:92-92 chaos_io_write *)
Definition add_written (w : Z) (s : io_slot_t) : io_slot_t :=
  Slot (sl_fd s) (sl_in_use s) (sl_quota s) (u64 (sl_bytes_written s + w)) (sl_partial_max s)
       (sl_fsync_delay_ns s) (sl_path s).
(* @ src/chaos/chaos_io.c:126-126 chaos_io_close *)
Definition set_unused (s : io_slot_t) : io_slot_t :=
  Slot (sl_fd s) false (sl_quota s) (sl_bytes_written s) (sl_partial_max s)
       (sl_fsync_delay_ns s) (sl_path s).

(** [s = find_locked(fd); if (s) ...], the shape of every knob setter. *)
Definition on_slot (fd : Z) (f : io_slot_t -> io_slot_t) (g : list io_slot_t) : list io_slot_t :=
  match find_locked fd g with
  | Some i => alter f i g
  | None => g
  end.

(** ** Operations *)

Inductive open_out :=
| OpenOk (fd : Z)
| OpenMkstempFailed
| OpenEmfile (closed : Z).    (* errno = EMFILE, the descriptor closed *)

(** [mk]: what [mkstemp] returned and the name it made. *)
(* @ src/chaos/chaos_io.c chaos_io_open *)
Definition chaos_io_open (mk : option (Z * string)) (g : list io_slot_t)
  : open_out * list io_slot_t :=
  match mk with
  | None => (OpenMkstempFailed, g)
  | Some (fd, tmpl) =>
      match alloc_locked fd g with
      | (None, g) => (OpenEmfile fd, g)
      | (Some i, g) => (OpenOk fd, alter (set_path (snprintf 256 (str tmpl))) i g)
      end
  end.

(** The first critical section of [chaos_io_write]: [None] is ENOSPC, else the
    number of bytes that will be asked of the kernel. *)
(* @ src/chaos/chaos_io.c:71-86 chaos_io_write *)
Definition write_begin (fd n : Z) (g : list io_slot_t) : option Z :=
  match find_locked fd g with
  | None => Some n
  | Some i =>
      let s := nth i g zero_slot in
      let limit want := if (0 <? sl_partial_max s) && (sl_partial_max s <? want)
                        then sl_partial_max s else want in
      if 0 <? sl_quota s then
        if sl_quota s <=? sl_bytes_written s then None
        else
          let rem := sl_quota s - sl_bytes_written s in
          Some (limit (if rem <? n then rem else n))
      else Some (limit n)
  end.

(** The second one, after [write] returned [w]. *)
(* @ src/chaos/chaos_io.c:89-94 chaos_io_write *)
Definition write_commit (fd w : Z) (g : list io_slot_t) : list io_slot_t :=
  if 0 <? w then on_slot fd (add_written w) g else g.

Inductive write_out := WriteEnospc | WriteRet (w : Z).

(** [kernel want] is what [write(fd, buf, want)] returns. *)
(* @ src/chaos/chaos_io.c chaos_io_write *)
Definition chaos_io_write (kernel : Z -> Z) (fd n : Z) (g : list io_slot_t)
  : write_out * list io_slot_t :=
  match write_begin fd n g with
  | None => (WriteEnospc, g)
  | Some want => let w := kernel want in (WriteRet w, write_commit fd w g)
  end.

(* @ src/chaos/chaos_io.c chaos_io_read *)
Definition chaos_io_read (kernel : Z -> Z) (fd n : Z) (g : list io_slot_t) : Z :=
  let want := match find_locked fd g with
              | Some i =>
                  let s := nth i g zero_slot in
                  if (0 <? sl_partial_max s) && (sl_partial_max s <? n) then sl_partial_max s else n
              | None => n
              end in
  kernel want.

(** The [timespec] slept for, if any, and the answer of [fsync]. *)
(* @ src/chaos/chaos_io.c chaos_io_fsync *)
Definition chaos_io_fsync (kernel : Z) (fd : Z) (g : list io_slot_t) : option (Z * Z) * Z :=
  let delay := match find_locked fd g with
               | Some i => sl_fsync_delay_ns (nth i g zero_slot)
               | None => 0
               end in
  (if 0 <? delay then Some (delay / 1000000000, delay mod 1000000000) else None, kernel).

(* @ src/chaos/chaos_io.c chaos_io_close *)
Definition chaos_io_close (kernel : Z) (fd : Z) (g : list io_slot_t) : Z * list io_slot_t :=
  (kernel, on_slot fd set_unused g).

(* @ src/chaos/chaos_io.c chaos_io_set_quota *)
Definition chaos_io_set_quota (fd bytes : Z) (g : list io_slot_t) : list io_slot_t :=
  on_slot fd (set_quota bytes) g.

(* @ src/chaos/chaos_io.c chaos_io_set_partial *)
Definition chaos_io_set_partial (fd max_chunk : Z) (g : list io_slot_t) : list io_slot_t :=
  on_slot fd (set_partial max_chunk) g.

(* @ src/chaos/chaos_io.c chaos_io_set_fsync_delay *)
Definition chaos_io_set_fsync_delay (fd ns : Z) (g : list io_slot_t) : list io_slot_t :=
  on_slot fd (set_fsync_delay ns) g.

(** ** The clock *)

(* @ src/chaos/chaos_io.c:154-157 g_clock_rng *)
Record chaos_clock := Clock {
  g_clock_skew_ns : Z;
  g_clock_jitter_max_ns : Z;
  g_clock_rng : pg_xosh_t
}.

(* @ src/chaos/chaos_io.c:154-157 g_clock_rng *)
Definition clock_init : chaos_clock := Clock 0 0 (XoshState 1 2 3 4).

(* @ src/chaos/chaos_io.c chaos_clock_now_ns *)
Definition chaos_clock_now_ns (ts : Z * Z) (c : chaos_clock) : Z * chaos_clock :=
  let base := i64 (ts.1 * 1000000000 + ts.2) in
  let base := i64 (base + g_clock_skew_ns c) in
  if 0 <? g_clock_jitter_max_ns c then
    let '(x, rng) := pg_xosh_next (g_clock_rng c) in
    let j := i64 (x mod g_clock_jitter_max_ns c) in
    (u64 (i64 (base + j)), Clock (g_clock_skew_ns c) (g_clock_jitter_max_ns c) rng)
  else (u64 base, c).

(* @ src/chaos/chaos_io.c chaos_clock_skew_set *)
Definition chaos_clock_skew_set (offset : Z) (c : chaos_clock) : chaos_clock :=
  Clock offset (g_clock_jitter_max_ns c) (g_clock_rng c).

(* @ src/chaos/chaos_io.c chaos_clock_jitter_set *)
Definition chaos_clock_jitter_set (max : Z) (c : chaos_clock) : chaos_clock :=
  Clock (g_clock_skew_ns c) max (g_clock_rng c).

(* @ src/chaos/chaos_io.c chaos_clock_seed *)
Definition chaos_clock_seed (seed : Z) (c : chaos_clock) : chaos_clock :=
  Clock (g_clock_skew_ns c) (g_clock_jitter_max_ns c) (pg_xosh_seed seed).

(** ** The table as a finite map *)

Record knobs := Knobs { k_quota : Z; k_written : Z; k_partial : Z; k_fsync_delay : Z }.

Definition no_knobs : knobs := Knobs 0 0 0 0.

Definition slot_knobs (s : io_slot_t) : knobs :=
  Knobs (sl_quota s) (sl_bytes_written s) (sl_partial_max s) (sl_fsync_delay_ns s).

(** Descriptor to knobs; the first slot with a descriptor counts. *)
Definition table (g : list io_slot_t) : gmap Z knobs :=
  foldr (fun s m => if sl_in_use s then <[sl_fd s := slot_knobs s]> m else m) ∅ g.

Definition used_fds (g : list io_slot_t) : list Z := sl_fd <$> filter (fun s => sl_in_use s = true) g.

(** What every operation keeps: 64 slots, no descriptor tracked twice. *)
Record table_wf (g : list io_slot_t) : Prop := {
  tw_length : length g = IO_SLOTS_MAX;
  tw_nodup : NoDup (used_fds g)
}.

(** *** One slot at a time *)

Lemma find_locked_cons fd s g :
  find_locked fd (s :: g) = if decide (slot_is fd s) then Some O else S <$> find_locked fd g.
Proof.
  unfold find_locked. cbn. case_decide; [done|]. by destruct (list_find _ g) as [[i x]|].
Qed.

Lemma on_slot_cons fd f s g :
  on_slot fd f (s :: g) = if decide (slot_is fd s) then f s :: g else s :: on_slot fd f g.
Proof.
  unfold on_slot. rewrite find_locked_cons. case_decide; [done|]. by destruct (find_locked fd g).
Qed.

Lemma length_on_slot fd f g : length (on_slot fd f g) = length g.
Proof. unfold on_slot. destruct (find_locked fd g); [apply length_alter|done]. Qed.

Lemma table_cons s g :
  table (s :: g) = if sl_in_use s then <[sl_fd s := slot_knobs s]> (table g) else table g.
Proof. done. Qed.

Lemma slot_is_inv fd s : slot_is fd s -> sl_in_use s = true /\ sl_fd s = fd.
Proof. done. Qed.

Lemma not_slot_is fd s : ~ slot_is fd s -> sl_in_use s = true -> sl_fd s <> fd.
Proof. unfold slot_is. tauto. Qed.

(** What a thread sees of a slot after [find_locked]. *)
Lemma table_lookup fd g :
  table g !! fd = (fun i => slot_knobs (nth i g zero_slot)) <$> find_locked fd g.
Proof.
  induction g as [|s g IH]; [apply lookup_empty|]. rewrite table_cons, find_locked_cons.
  case_decide as Hs.
  - destruct Hs as [-> <-]. by rewrite lookup_insert_eq.
  - transitivity (table g !! fd).
    { destruct (sl_in_use s) eqn:E; [|done]. apply lookup_insert_ne. by apply not_slot_is. }
    rewrite IH. by destruct (find_locked fd g).
Qed.

Lemma find_locked_None fd g : find_locked fd g = None <-> table g !! fd = None.
Proof. rewrite table_lookup. by destruct (find_locked fd g). Qed.

Lemma used_fds_cons s g :
  used_fds (s :: g) = if sl_in_use s then sl_fd s :: used_fds g else used_fds g.
Proof. unfold used_fds. rewrite filter_cons. destruct (sl_in_use s) eqn:E; by case_decide. Qed.

Lemma elem_of_used fd g : fd ∈ used_fds g <-> is_Some (table g !! fd).
Proof.
  induction g as [|s g IH].
  - change (table [] !! fd) with ((∅ : gmap Z knobs) !! fd). rewrite lookup_empty.
    split; [by intros ?%elem_of_nil|by intros []].
  - rewrite used_fds_cons, table_cons. destruct (sl_in_use s); [|done].
    rewrite elem_of_cons, IH, lookup_insert_is_Some.
    destruct (decide (sl_fd s = fd)); intuition congruence.
Qed.

Arguments find_locked : simpl never.
Arguments table : simpl never.
Arguments used_fds : simpl never.
Arguments on_slot : simpl never.

(** *** Knob changes *)

Lemma table_on_slot fd f h g :
  (forall s, sl_in_use (f s) = sl_in_use s /\ sl_fd (f s) = sl_fd s) ->
  (forall s, slot_is fd s -> slot_knobs (f s) = h (slot_knobs s)) ->
  table (on_slot fd f g) = alter h fd (table g) /\ used_fds (on_slot fd f g) = used_fds g.
Proof.
  intros Hf Hh. induction g as [|s g [IHt IHu]].
  - split; [symmetry; apply alter_empty|done].
  - rewrite on_slot_cons. case_decide as Hs.
    + destruct (Hf s) as [Hu Hd]. rewrite !table_cons, !used_fds_cons, Hu, Hd, Hh by done.
      destruct Hs as [-> <-]. by rewrite alter_insert_eq.
    + rewrite !table_cons, !used_fds_cons, IHt, IHu. destruct (sl_in_use s) eqn:E; [|done].
      by rewrite alter_insert_ne by (intros Hn; by apply (not_slot_is fd s)).
Qed.

(** *** Close *)

Lemma table_close fd g :
  NoDup (used_fds g) ->
  table (on_slot fd set_unused g) = delete fd (table g) /\
  NoDup (used_fds (on_slot fd set_unused g)).
Proof.
  induction g as [|s g IH]; intros Hn; [split; [symmetry; apply delete_empty|done]|].
  rewrite on_slot_cons, used_fds_cons in *. case_decide as Hs.
  - destruct Hs as [Hu <-]. rewrite !table_cons, Hu in *. cbn [set_unused sl_in_use].
    apply NoDup_cons in Hn as [Hni Hn].
    assert (table g !! sl_fd s = None) by (apply eq_None_not_Some; by rewrite <- elem_of_used).
    by rewrite delete_insert_eq, delete_id.
  - rewrite !table_cons, used_fds_cons. destruct (sl_in_use s) eqn:E; [|by apply IH].
    apply NoDup_cons in Hn as [Hni Hn]. destruct (IH Hn) as [-> Hn'].
    rewrite delete_insert_ne by (intros Hq; by apply (not_slot_is fd s)).
    split; [done|]. apply NoDup_cons. split; [|done].
    rewrite elem_of_used in *. destruct (IH Hn) as [-> _].
    by rewrite lookup_delete_is_Some; intros [? ?].
Qed.

(** *** Allocation *)

Lemma alloc_locked_cons fd s g :
  alloc_locked fd (s :: g) =
  if decide (slot_free s) then (Some O, Slot fd true 0 0 0 0 (replicate 256 0) :: g)
  else let '(i, g') := alloc_locked fd g in (S <$> i, s :: g').
Proof.
  unfold alloc_locked. cbn [list_find]. case_decide; [done|].
  by destruct (list_find slot_free g) as [[i x]|].
Qed.

Lemma size_table g : NoDup (used_fds g) -> size (table g) = length (used_fds g).
Proof.
  induction g as [|s g IH]; intros Hn; [done|].
  rewrite table_cons, used_fds_cons in *. destruct (sl_in_use s); [|by apply IH].
  apply NoDup_cons in Hn as [Hni Hn].
  rewrite map_size_insert_None, IH; [done|done|].
  apply eq_None_not_Some. by rewrite <- elem_of_used.
Qed.

Lemma alloc_locked_spec fd g :
  table g !! fd = None -> NoDup (used_fds g) ->
  match alloc_locked fd g with
  | (Some i, g') =>
      (length (used_fds g) < length g)%nat /\ (i < length g)%nat /\ length g' = length g /\
      table g' = <[fd := no_knobs]> (table g) /\ NoDup (used_fds g') /\
      find_locked fd g' = Some i
  | (None, g') => length (used_fds g) = length g /\ g' = g
  end.
Proof.
  induction g as [|s g IH]; intros Hf Hn; [done|].
  rewrite alloc_locked_cons, table_cons, used_fds_cons in *. unfold slot_free.
  assert (Hle : (length (used_fds g) <= length g)%nat).
  { unfold used_fds. rewrite length_fmap. apply length_filter. }
  case_decide as Hs.
  - rewrite Hs in *. rewrite find_locked_cons, decide_True by done.
    rewrite table_cons, used_fds_cons. cbn.
    split_and!; try lia; try done. apply NoDup_cons. split; [|done].
    rewrite elem_of_used, Hf. by intros [].
  - destruct (sl_in_use s) eqn:E; [|done]. apply NoDup_cons in Hn as [Hni Hn].
    apply lookup_insert_None in Hf as [Hf Hne]. specialize (IH Hf Hn).
    destruct (alloc_locked fd g) as [[i|] g']; cbn; [|destruct IH; split; congruence].
    destruct IH as (H1 & H2 & H3 & H4 & H5 & H6). rewrite find_locked_cons, decide_False, H6.
    2:{ intros [_ Hq]. congruence. }
    rewrite table_cons, used_fds_cons, E, H4. rewrite insert_insert_ne by congruence.
    split_and!; try (cbn; lia); try done. apply NoDup_cons. split; [|done].
    rewrite elem_of_used, H4, lookup_insert_is_Some, <- elem_of_used. intuition congruence.
Qed.

(** ** Specification: a map of at most 64 descriptors *)

Definition k_set_written (w : Z) (k : knobs) : knobs :=
  Knobs (k_quota k) w (k_partial k) (k_fsync_delay k).

Definition k_limit (k : knobs) (n : Z) : Z := if 0 <? k_partial k then Z.min n (k_partial k) else n.

(** How much of [n] bytes may be written; [None] when the quota is used up. *)
Definition k_want (k : knobs) (n : Z) : option Z :=
  if k_quota k <=? 0 then Some (k_limit k n)
  else if k_quota k <=? k_written k then None
  else Some (k_limit k (Z.min n (k_quota k - k_written k))).

Inductive io_op :=
| IoOpen (mk : option (Z * string))
| IoWrite (kernel : Z -> Z) (fd n : Z)
| IoRead (kernel : Z -> Z) (fd n : Z)
| IoFsync (kernel : Z) (fd : Z)
| IoClose (kernel : Z) (fd : Z)
| IoSetQuota (fd bytes : Z)
| IoSetPartial (fd max_chunk : Z)
| IoSetFsyncDelay (fd ns : Z).

Inductive io_out :=
| IoOpened (o : open_out)
| IoWritten (o : write_out)
| IoInt (r : Z)
| IoSynced (slept : option (Z * Z)) (r : Z)
| IoUnit.

(** [None]: the environment broke its promise that [mkstemp] returns a
    descriptor that is not open. *)
Definition spec_io (m : gmap Z knobs) (o : io_op) : option (io_out * gmap Z knobs) :=
  match o with
  | IoOpen None => Some (IoOpened OpenMkstempFailed, m)
  | IoOpen (Some (fd, _)) =>
      if decide (is_Some (m !! fd)) then None
      else if decide (size m < IO_SLOTS_MAX)%nat then Some (IoOpened (OpenOk fd), <[fd := no_knobs]> m)
      else Some (IoOpened (OpenEmfile fd), m)
  | IoWrite kernel fd n =>
      match m !! fd with
      | None => Some (IoWritten (WriteRet (kernel n)), m)
      | Some k =>
          match k_want k n with
          | None => Some (IoWritten WriteEnospc, m)
          | Some want =>
              let w := kernel want in
              Some (IoWritten (WriteRet w),
                    if 0 <? w then <[fd := k_set_written (u64 (k_written k + w)) k]> m else m)
          end
      end
  | IoRead kernel fd n =>
      Some (IoInt (kernel (match m !! fd with Some k => k_limit k n | None => n end)), m)
  | IoFsync r fd =>
      let d := match m !! fd with Some k => k_fsync_delay k | None => 0 end in
      Some (IoSynced (if 0 <? d then Some (d / 1000000000, d mod 1000000000) else None) r, m)
  | IoClose r fd => Some (IoInt r, delete fd m)
  | IoSetQuota fd q =>
      Some (IoUnit, alter (fun k => Knobs q (k_written k) (k_partial k) (k_fsync_delay k)) fd m)
  | IoSetPartial fd p =>
      Some (IoUnit, alter (fun k => Knobs (k_quota k) (k_written k) p (k_fsync_delay k)) fd m)
  | IoSetFsyncDelay fd d =>
      Some (IoUnit, alter (fun k => Knobs (k_quota k) (k_written k) (k_partial k) d) fd m)
  end.

(** The code, one operation. *)
Definition code_io (g : list io_slot_t) (o : io_op) : io_out * list io_slot_t :=
  match o with
  | IoOpen mk => let '(r, g) := chaos_io_open mk g in (IoOpened r, g)
  | IoWrite kernel fd n => let '(r, g) := chaos_io_write kernel fd n g in (IoWritten r, g)
  | IoRead kernel fd n => (IoInt (chaos_io_read kernel fd n g), g)
  | IoFsync r fd => let '(s, r) := chaos_io_fsync r fd g in (IoSynced s r, g)
  | IoClose r fd => let '(r, g) := chaos_io_close r fd g in (IoInt r, g)
  | IoSetQuota fd q => (IoUnit, chaos_io_set_quota fd q g)
  | IoSetPartial fd p => (IoUnit, chaos_io_set_partial fd p g)
  | IoSetFsyncDelay fd d => (IoUnit, chaos_io_set_fsync_delay fd d g)
  end.

Fixpoint spec_io_run (m : gmap Z knobs) (os : list io_op) : option (list io_out * gmap Z knobs) :=
  match os with
  | [] => Some ([], m)
  | o :: os => '(x, m) ← spec_io m o; '(xs, m) ← spec_io_run m os; Some (x :: xs, m)
  end.

Fixpoint code_io_run (g : list io_slot_t) (os : list io_op) : list io_out * list io_slot_t :=
  match os with
  | [] => ([], g)
  | o :: os => let '(x, g) := code_io g o in let '(xs, g) := code_io_run g os in (x :: xs, g)
  end.

(** The table [g] implements the map [m]. *)
Definition io_sim (g : list io_slot_t) (m : gmap Z knobs) : Prop := table_wf g /\ table g = m.

Lemma io_sim_on_slot fd f h g m :
  (forall s, sl_in_use (f s) = sl_in_use s /\ sl_fd (f s) = sl_fd s) ->
  (forall s, slot_is fd s -> slot_knobs (f s) = h (slot_knobs s)) ->
  io_sim g m -> io_sim (on_slot fd f g) (alter h fd m).
Proof.
  intros Hf Hh [[Hl Hn] <-]. destruct (table_on_slot fd f h g Hf Hh) as [Ht Hu].
  split; [split; [by rewrite length_on_slot|by rewrite Hu]|exact Ht].
Qed.

Lemma limit_min p n : (if (0 <? p) && (p <? n) then p else n) = if 0 <? p then Z.min n p else n.
Proof. destruct (Z.ltb_spec 0 p), (Z.ltb_spec p n); cbn; lia. Qed.

Lemma write_begin_spec fd n g :
  write_begin fd n g = match table g !! fd with Some k => k_want k n | None => Some n end.
Proof.
  rewrite table_lookup. unfold write_begin. destruct (find_locked fd g) as [i|]; cbn; [|done].
  unfold k_want, k_limit. cbn. set (s := nth i g zero_slot). rewrite !limit_min.
  destruct (Z.ltb_spec 0 (sl_quota s)), (Z.leb_spec (sl_quota s) 0); try lia; [|done].
  destruct (sl_quota s <=? sl_bytes_written s); [done|].
  assert (E : forall r, (if r <? n then r else n) = Z.min n r)
    by (intros r; destruct (Z.ltb_spec r n); lia).
  by rewrite E.
Qed.

Lemma write_commit_sim fd w g m :
  io_sim g m ->
  io_sim (write_commit fd w g)
         (if 0 <? w then alter (fun k => k_set_written (u64 (k_written k + w)) k) fd m else m).
Proof. intros H. unfold write_commit. destruct (0 <? w); [|done]. by apply io_sim_on_slot. Qed.

Lemma alter_lookup_insert {A} (h : A -> A) (m : gmap Z A) fd k :
  m !! fd = Some k -> alter h fd m = <[fd := h k]> m.
Proof. intros H. rewrite <- (insert_id m fd k H) at 1. apply alter_insert_eq. Qed.

Lemma open_sim fd tmpl g m :
  io_sim g m -> m !! fd = None ->
  match chaos_io_open (Some (fd, tmpl)) g with
  | (OpenOk fd', g') => fd' = fd /\ (size m < IO_SLOTS_MAX)%nat /\ io_sim g' (<[fd := no_knobs]> m)
  | (r, g') => r = OpenEmfile fd /\ size m = IO_SLOTS_MAX /\ g' = g
  end.
Proof.
  intros [[Hl Hn] Ht] Hm. unfold chaos_io_open. rewrite <- Ht in Hm.
  pose proof (alloc_locked_spec fd g Hm Hn) as Ha. pose proof (size_table g Hn) as Hs.
  rewrite Ht in Hs. destruct (alloc_locked fd g) as [[i|] g1].
  - destruct Ha as (H1 & H2 & H3 & H4 & H5 & H6). rewrite Hs, <- Hl. split; [done|]. split; [done|].
    assert (E : alter (set_path (snprintf 256 (str tmpl))) i g1
                = on_slot fd (set_path (snprintf 256 (str tmpl))) g1) by (unfold on_slot; by rewrite H6).
    rewrite E, <- Ht, <- H4.
    rewrite <- (alter_id id (table g1) fd) by done.
    apply io_sim_on_slot; [done|done|]. split; [split; [congruence|done]|done].
  - destruct Ha as [Ha ->]. split; [done|]. split; [congruence|done].
Qed.

Lemma io_step_sim g m o x m' :
  io_sim g m -> spec_io m o = Some (x, m') ->
  exists g', code_io g o = (x, g') /\ io_sim g' m'.
Proof.
  intros Hsim Hs. pose proof Hsim as [[Hl Hn] Ht].
  destruct o as [mk|kernel fd n|kernel fd n|r fd|r fd|fd q|fd p|fd d]; cbn [spec_io code_io] in *.
  - destruct mk as [[fd tmpl]|]; [|injection Hs as <- <-; by exists g].
    case_decide as Hd; [done|]. apply eq_None_not_Some in Hd.
    pose proof (open_sim fd tmpl g m Hsim Hd) as Ho.
    destruct (chaos_io_open (Some (fd, tmpl)) g) as [[f| |c] g'].
    + destruct Ho as (-> & Hlt & Hg). rewrite decide_True in Hs by done. injection Hs as <- <-. by exists g'.
    + by destruct Ho.
    + destruct Ho as ([= ->] & Hlt & ->). rewrite decide_False in Hs by lia. injection Hs as <- <-. by exists g.
  - unfold chaos_io_write. rewrite write_begin_spec, Ht.
    destruct (m !! fd) as [k|] eqn:Ek.
    + destruct (k_want k n) as [want|]; injection Hs as <- <-; [|by exists g].
      eexists. split; [done|].
      rewrite <- (alter_lookup_insert (fun k => k_set_written (u64 (k_written k + kernel want)) k)
                    m fd k Ek).
      by apply write_commit_sim.
    + injection Hs as <- <-. eexists. split; [done|].
      replace (write_commit fd (kernel n) g) with g; [done|].
      unfold write_commit, on_slot. rewrite <- Ht in Ek. apply find_locked_None in Ek. rewrite Ek.
      by destruct (0 <? kernel n).
  - injection Hs as <- <-. exists g. split; [|done]. unfold chaos_io_read. do 3 f_equal.
    rewrite <- Ht, table_lookup. destruct (find_locked fd g) as [i|]; cbn; [apply limit_min|done].
  - injection Hs as <- <-. exists g. split; [|done]. unfold chaos_io_fsync.
    rewrite <- Ht, table_lookup. by destruct (find_locked fd g) as [i|].
  - injection Hs as <- <-. eexists. split; [done|]. destruct (table_close fd g Hn) as [E Hn'].
    rewrite <- Ht, <- E. split; [split; [by rewrite length_on_slot|done]|done].
  - injection Hs as <- <-. eexists. split; [done|]. by apply io_sim_on_slot.
  - injection Hs as <- <-. eexists. split; [done|]. by apply io_sim_on_slot.
  - injection Hs as <- <-. eexists. split; [done|]. by apply io_sim_on_slot.
Qed.

Lemma io_run_sim g m os xs m' :
  io_sim g m -> spec_io_run m os = Some (xs, m') ->
  exists g', code_io_run g os = (xs, g') /\ io_sim g' m'.
Proof.
  revert g m xs. induction os as [|o os IH]; intros g m xs Hsim Hs; cbn [spec_io_run code_io_run] in *.
  - injection Hs as <- <-. by exists g.
  - destruct (spec_io m o) as [[x m1]|] eqn:E1; [|done]. cbn in Hs.
    destruct (spec_io_run m1 os) as [[ys m2]|] eqn:E2; [|done]. cbn in Hs. injection Hs as <- <-.
    destruct (io_step_sim _ _ _ _ _ Hsim E1) as (g1 & -> & Hg1).
    destruct (IH _ _ _ Hg1 E2) as (g2 & -> & Hg2). by exists g2.
Qed.

Lemma init_sim : io_sim g_slots_init ∅.
Proof. split; [split; [done|]|]; vm_compute; [constructor|reflexivity]. Qed.

(** ** Concurrent writers on one descriptor

    [chaos_io_write] is three steps: the check under the lock, [write] without
    it, the charge under it again. *)

(** Where a thread is: outside; before [write], which it will offer [want]
    bytes; before the charge of the [w] bytes [write] answered. *)
(* @ src/chaos/chaos_io.c:70-96 chaos_io_write *)
Inductive writer_pc := WpIdle | WpAsked (want : Z) | WpWrote (w : Z).

Record writers := Writers {
  ws_table : list io_slot_t;
  ws_pcs : list writer_pc;
  ws_accepted : Z                 (* bytes the file took so far *)
}.

(* @ src/chaos/chaos_io.c:70-96 chaos_io_write *)
Inductive writer_step (fd : Z) : writers -> writers -> Prop :=
| StepBegin g pcs acc t n want :
    0 <= n -> pcs !! t = Some WpIdle -> write_begin fd n g = Some want ->
    writer_step fd (Writers g pcs acc) (Writers g (<[t := WpAsked want]> pcs) acc)
| StepEnospc g pcs acc t n :
    0 <= n -> pcs !! t = Some WpIdle -> write_begin fd n g = None ->
    writer_step fd (Writers g pcs acc) (Writers g pcs acc)
| StepWrite g pcs acc t want w :
    pcs !! t = Some (WpAsked want) -> -1 <= w <= want ->
    writer_step fd (Writers g pcs acc) (Writers g (<[t := WpWrote w]> pcs) (acc + Z.max 0 w))
| StepCommit g pcs acc t w :
    pcs !! t = Some (WpWrote w) ->
    writer_step fd (Writers g pcs acc) (Writers (write_commit fd w g) (<[t := WpIdle]> pcs) acc).

(** What a thread may still put on the quota; what it wrote and has not charged. *)
Definition claims (pc : writer_pc) : Z :=
  match pc with WpIdle => 0 | WpAsked want => want | WpWrote w => Z.max 0 w end.
Definition owes (pc : writer_pc) : Z := match pc with WpWrote w => Z.max 0 w | _ => 0 end.

Fixpoint total (f : writer_pc -> Z) (pcs : list writer_pc) : Z :=
  match pcs with [] => 0 | pc :: pcs => f pc + total f pcs end.

Lemma total_insert f pcs t pc pc' :
  pcs !! t = Some pc -> total f (<[t := pc']> pcs) = total f pcs - f pc + f pc'.
Proof.
  revert t. induction pcs as [|x pcs IH]; intros [|t] H; cbn in H; try done.
  - injection H as ->. cbn. lia.
  - change (<[S t := pc']> (x :: pcs)) with (x :: <[t := pc']> pcs). cbn [total]. rewrite (IH t H). lia.
Qed.

Lemma total_bounds f q pcs :
  Forall (fun pc => 0 <= f pc <= q) pcs -> 0 <= total f pcs <= Z.of_nat (length pcs) * q.
Proof.
  induction 1 as [|pc pcs Hpc _ IH]; cbn [total length]; [lia|]. rewrite Nat2Z.inj_succ, Z.mul_succ_l. lia.
Qed.

(** All threads but [t] claim at most [q] each. *)
Lemma total_others f q pcs t pc :
  0 <= q -> Forall (fun pc => 0 <= f pc <= q) pcs -> pcs !! t = Some pc ->
  f pc <= total f pcs <= (Z.of_nat (length pcs) - 1) * q + f pc.
Proof.
  intros Hq Hf. revert t. induction Hf as [|x pcs Hx Hf IH]; intros [|t] Ht; cbn in Ht; try done;
    cbn [total length]; rewrite Nat2Z.inj_succ.
  - injection Ht as ->. pose proof (total_bounds f q pcs Hf). lia.
  - specialize (IH t Ht). lia.
Qed.

(** What holds throughout when [fd] was set up with quota [q]. *)
Record writers_inv (fd q : Z) (k : nat) (s : writers) : Prop := {
  wi_table : table_wf (ws_table s);
  wi_knobs : exists kn, table (ws_table s) !! fd = Some kn /\ k_quota kn = q /\ 0 <= k_partial kn /\
               0 <= k_written kn /\ k_written kn + total owes (ws_pcs s) = ws_accepted s /\
               k_written kn + total claims (ws_pcs s) <= Z.of_nat k * q;
  wi_threads : length (ws_pcs s) = k;
  wi_each : Forall (fun pc => 0 <= claims pc <= q) (ws_pcs s)
}.

Lemma k_want_range kn n want :
  0 <= n -> 0 < k_quota kn -> 0 <= k_partial kn -> k_want kn n = Some want ->
  k_written kn < k_quota kn /\ 0 <= want <= k_quota kn - k_written kn /\ want <= n.
Proof.
  unfold k_want, k_limit. intros Hn Hq Hp.
  rewrite (proj2 (Z.leb_gt _ _)) by done.
  destruct (Z.leb_spec (k_quota kn) (k_written kn)); [done|].
  destruct (Z.ltb_spec 0 (k_partial kn)); intros [= <-]; lia.
Qed.

Lemma owes_claims pcs : Forall (fun pc => 0 <= claims pc) pcs -> 0 <= total owes pcs <= total claims pcs.
Proof. induction 1 as [|[] pcs H _ IH]; cbn in *; lia. Qed.

Lemma writer_step_inv fd q k s s' :
  0 < q -> Z.of_nat k * q < 2 ^ 64 ->
  writers_inv fd q k s -> writer_step fd s s' -> writers_inv fd q k s'.
Proof.
  intros Hq Hk [Ht (kn & Hkn & Hkq & Hkp & Hk0 & Hkw & Hs) Hl He] Hstep.
  destruct Hstep as [g pcs acc t n want Hn Hp Hb|g pcs acc t n Hn Hp Hb|g pcs acc t want w Hp Hw|g pcs acc t w Hp];
    cbn [ws_table ws_pcs ws_accepted] in *.
  - rewrite write_begin_spec, Hkn in Hb. apply k_want_range in Hb; [|lia..].
    pose proof (total_others claims q pcs t WpIdle ltac:(lia) He Hp) as Ho. cbn in Ho.
    split; cbn [ws_table ws_pcs ws_accepted]; [done| |by rewrite length_insert|].
    + exists kn. rewrite !(total_insert _ _ _ _ _ Hp). cbn. split_and!; try done; lia.
    + apply Forall_insert; [done|cbn; lia].
  - split; [done|exists kn; split_and!; done|done|done].
  - pose proof (Forall_lookup_1 _ _ _ _ He Hp) as Hr. cbn in Hr.
    split; cbn [ws_table ws_pcs ws_accepted]; [done| |by rewrite length_insert|].
    + exists kn. rewrite !(total_insert _ _ _ _ _ Hp). cbn. split_and!; try done; lia.
    + apply Forall_insert; [done|cbn; lia].
  - destruct (write_commit_sim fd w g (table g) (conj Ht eq_refl)) as [Hw1 Hw2].
    pose proof (total_others claims q pcs t _ ltac:(lia) He Hp) as Ho. cbn in Ho.
    split; cbn [ws_table ws_pcs ws_accepted]; [done| |by rewrite length_insert|].
    + rewrite Hw2. destruct (Z.ltb_spec 0 w).
      * eexists. rewrite lookup_alter_eq, Hkn, !(total_insert _ _ _ _ _ Hp). split; [done|]. cbn.
        rewrite u64_small by lia. split_and!; try done; lia.
      * exists kn. rewrite !(total_insert _ _ _ _ _ Hp). cbn. split_and!; try done; lia.
    + apply Forall_insert; [done|cbn; lia].
Qed.

(** A table where [fd] was just opened and given quota [q]. *)
Definition fresh_quota (fd q : Z) (g : list io_slot_t) : Prop :=
  table_wf g /\ table g !! fd = Some (Knobs q 0 0 0).

Lemma fresh_quota_open fd q tmpl :
  fresh_quota fd q (chaos_io_set_quota fd q (chaos_io_open (Some (fd, tmpl)) g_slots_init).2).
Proof.
  pose proof (open_sim fd tmpl _ _ init_sim (lookup_empty fd)) as H.
  destruct (chaos_io_open (Some (fd, tmpl)) g_slots_init) as [[f| |c] g]; [|by destruct H|].
  - destruct H as (_ & _ & Hg). cbn [snd]. unfold chaos_io_set_quota.
    apply (io_sim_on_slot fd (set_quota q)
      (fun k => Knobs q (k_written k) (k_partial k) (k_fsync_delay k))) in Hg as [Hg Hg']; [|done|done].
    split; [done|]. rewrite Hg', lookup_alter_eq, lookup_insert_eq. done.
  - destruct H as ([= ->] & Hs & _). by rewrite map_size_empty in Hs.
Qed.

Definition writers_start (k : nat) (g : list io_slot_t) : writers := Writers g (replicate k WpIdle) 0.

Lemma total_replicate f k pc : total f (replicate k pc) = Z.of_nat k * f pc.
Proof. induction k as [|k IH]; cbn [replicate total]; lia. Qed.

Lemma writers_start_inv fd q k g :
  0 < q -> fresh_quota fd q g -> writers_inv fd q k (writers_start k g).
Proof.
  intros Hq [Hg Hk]. split; cbn [ws_table ws_pcs ws_accepted writers_start]; [done| | |].
  - eexists. rewrite !total_replicate. split; [exact Hk|]. cbn. lia.
  - apply length_replicate.
  - apply Forall_replicate. cbn. lia.
Qed.

Lemma writers_inv_reach fd q k s s' :
  0 < q -> Z.of_nat k * q < 2 ^ 64 ->
  writers_inv fd q k s -> rtc (writer_step fd) s s' -> writers_inv fd q k s'.
Proof.
  intros Hq Hk Hi Hr. induction Hr as [|s1 s2 s3 H12 _ IH]; [done|].
  apply IH. by eapply writer_step_inv.
Qed.

(** One kind of step by every thread in turn. *)
Lemma all_step fd (P Q : writer_pc) k g (f : Z -> Z) i acc :
  (forall pcs t acc, pcs !! t = Some P ->
     writer_step fd (Writers g pcs acc) (Writers g (<[t := Q]> pcs) (f acc))) ->
  rtc (writer_step fd) (Writers g (replicate i Q ++ replicate k P) acc)
                       (Writers g (replicate (i + k) Q) (Nat.iter k f acc)).
Proof.
  intros Hs. revert i acc. induction k as [|k IH]; intros i acc; cbn [replicate].
  - rewrite app_nil_r, Nat.add_0_r. apply rtc_refl.
  - eapply rtc_l.
    + apply (Hs _ i). by rewrite lookup_app_r, length_replicate, Nat.sub_diag by by rewrite length_replicate.
    + rewrite insert_app_r_alt by by rewrite length_replicate.
      rewrite length_replicate, Nat.sub_diag. cbn [insert list_insert].
      rewrite cons_middle, app_assoc. change [Q] with (replicate 1 Q).
      rewrite <- replicate_add, Nat.add_1_r, Nat.add_succ_r, Nat.iter_succ_r. apply (IH (S i)).
Qed.

Lemma iter_add k q acc : Nat.iter k (fun a => a + q) acc = acc + Z.of_nat k * q.
Proof.
  induction k as [|k IH]; [cbn; lia|]. rewrite Nat.iter_succ, IH, Nat2Z.inj_succ, Z.mul_succ_l. lia.
Qed.

(** Everybody asks before anybody writes: each gets the whole quota; and then
    everybody writes before anybody charges. *)
Lemma all_write fd q g k :
  0 < q -> write_begin fd q g = Some q ->
  rtc (writer_step fd) (writers_start k g) (Writers g (replicate k (WpWrote q)) (Z.of_nat k * q)).
Proof.
  intros Hq Hb. transitivity (Writers g (replicate k (WpAsked q)) 0).
  - pose proof (all_step fd WpIdle (WpAsked q) k g id 0 0) as H. cbn [replicate app Nat.add] in H.
    assert (E : Nat.iter k id 0 = 0) by (clear; induction k as [|k IH]; cbn; [done|exact IH]).
    rewrite E in H. apply H. intros pcs t acc Hp. by apply (StepBegin fd g pcs acc t q q); [lia|..].
  - pose proof (all_step fd (WpAsked q) (WpWrote q) k g (fun a => a + q) 0 0) as H. cbn [replicate app Nat.add] in H.
    rewrite iter_add in H. apply H. intros pcs t acc Hp.
    pose proof (StepWrite fd g pcs acc t q q Hp ltac:(lia)) as Hs. by rewrite Z.max_r in Hs by lia.
Qed.

(** ** The clock over a run *)

Fixpoint clock_reads (ts : list (Z * Z)) (c : chaos_clock) : list Z * chaos_clock :=
  match ts with
  | [] => ([], c)
  | t :: ts => let '(x, c) := chaos_clock_now_ns t c in
               let '(xs, c) := clock_reads ts c in (x :: xs, c)
  end.

Definition real_ns (t : Z * Z) : Z := t.1 * 1000000000 + t.2.

Lemma clock_now_jitter t c :
  0 < g_clock_jitter_max_ns c ->
  0 <= real_ns t <= 2 ^ 62 -> 0 <= real_ns t + g_clock_skew_ns c ->
  real_ns t + g_clock_skew_ns c + g_clock_jitter_max_ns c <= 2 ^ 63 ->
  let '(x, rng) := pg_xosh_next (g_clock_rng c) in
  chaos_clock_now_ns t c =
  (real_ns t + g_clock_skew_ns c + x mod g_clock_jitter_max_ns c,
   Clock (g_clock_skew_ns c) (g_clock_jitter_max_ns c) rng).
Proof.
  unfold chaos_clock_now_ns, real_ns. intros Hj Ht Hs Hm.
  destruct (pg_xosh_next (g_clock_rng c)) as [x rng].
  rewrite (proj2 (Z.ltb_lt _ _)) by done.
  pose proof (Z.mod_pos_bound x (g_clock_jitter_max_ns c) Hj).
  rewrite (i64_small (_ + t.2)), (i64_small (_ + g_clock_skew_ns c)), (i64_small (x mod _)) by lia.
  by rewrite i64_small, u64_small by lia.
Qed.

Lemma clock_now_plain t c :
  g_clock_jitter_max_ns c <= 0 ->
  0 <= real_ns t <= 2 ^ 62 -> 0 <= real_ns t + g_clock_skew_ns c < 2 ^ 63 ->
  chaos_clock_now_ns t c = (real_ns t + g_clock_skew_ns c, c).
Proof.
  unfold chaos_clock_now_ns, real_ns. intros Hj Ht Hs.
  rewrite (proj2 (Z.ltb_ge _ _)) by done.
  by rewrite (i64_small (_ + t.2)), i64_small, u64_small by lia.
Qed.

Lemma clock_reads_jitter skew jmax ts rng :
  0 < jmax ->
  Forall (fun t => 0 <= real_ns t <= 2 ^ 62 /\ 0 <= real_ns t + skew /\
                   real_ns t + skew + jmax <= 2 ^ 63) ts ->
  (clock_reads ts (Clock skew jmax rng)).1
  = zip_with (fun t x => real_ns t + skew + x mod jmax) ts (xosh_draws (length ts) rng).1.
Proof.
  intros Hj. revert rng. induction ts as [|t ts IH]; intros rng Hf; [done|].
  apply Forall_cons in Hf as [Ht Hf]. cbn [clock_reads xosh_draws length].
  pose proof (clock_now_jitter t (Clock skew jmax rng)) as Hc. cbn [g_clock_rng] in Hc.
  destruct (pg_xosh_next rng) as [x rng']. cbn in Hc. rewrite Hc by tauto.
  specialize (IH rng' Hf). destruct (clock_reads ts _) as [xs c], (xosh_draws (length ts) rng') as [ys r].
  cbn in *. by rewrite IH.
Qed.

(** ** Properties *)

(** C16: the slot table implements a finite map: from the initial table, any
    sequence of open, write, read, fsync, close and knob calls returns what the
    specification on a map of at most 64 descriptors returns ([EMFILE] with the
    descriptor closed exactly when 64 are tracked, [ENOSPC] exactly when the
    quota is used up, truncation to the partial limit, the configured sleep),
    and the array keeps 64 slots and tracks no descriptor twice. *)
Theorem io_table_refines_map os xs m :
  spec_io_run ∅ os = Some (xs, m) ->
  exists g, code_io_run g_slots_init os = (xs, g) /\ table_wf g /\ table g = m.
Proof.
  intros Hs. destruct (io_run_sim g_slots_init ∅ os xs m init_sim Hs) as (g & Hg & Hw & Ht).
  by exists g.
Qed.

Definition demo_io : list io_op :=
  [IoOpen (Some (7, "/tmp/playground.abc"%string)); IoSetQuota 7 100; IoSetPartial 7 60;
   IoWrite id 7 80; IoWrite id 7 80; IoWrite id 7 80; IoClose 0 7; IoWrite id 7 80].

Lemma io_table_refines_map_witness :
  exists g, code_io_run g_slots_init demo_io
    = ([IoOpened (OpenOk 7); IoUnit; IoUnit; IoWritten (WriteRet 60); IoWritten (WriteRet 40);
        IoWritten WriteEnospc; IoInt 0; IoWritten (WriteRet 80)], g) /\
    table_wf g /\ table g = ∅.
Proof. apply (io_table_refines_map demo_io). vm_compute. reflexivity. Defined.

(** C21: the write quota and its race.  [k] threads write to a descriptor just
    opened and given the quota [q] ([k * q] below 2^64), the check, the write and the charge being separate steps.  Whatever the
    interleaving and whatever the kernel accepts, the file takes at most [k * q]
    bytes, so one thread alone never exceeds the quota.  [ENOSPC] is answered
    exactly when at least [q] bytes have been charged, that is taken by the file
    and not still waiting for their charge; so it is never answered before the
    file has taken [q] bytes, and once all writes are charged always after.  The
    bound is reached by [k] threads that all check before any of them writes, and
    for [k] of two and more the quota is then exceeded while nobody would be
    answered [ENOSPC]. *)
Theorem quota_race_tight fd q k g :
  0 < q -> Z.of_nat k * q < 2 ^ 64 -> fresh_quota fd q g ->
  (forall s, rtc (writer_step fd) (writers_start k g) s ->
     ws_accepted s <= Z.of_nat k * q /\
     (forall n, write_begin fd n (ws_table s) = None <-> q <= ws_accepted s - total owes (ws_pcs s)) /\
     0 <= total owes (ws_pcs s)) /\
  (exists s, rtc (writer_step fd) (writers_start k g) s /\ ws_accepted s = Z.of_nat k * q /\
     forall n, is_Some (write_begin fd n (ws_table s))).
Proof.
  intros Hq Hk Hg. split.
  - intros s Hr. pose proof (writers_start_inv fd q k g Hq Hg) as Hi.
    apply writers_inv_reach with (s' := s) in Hi; [|done..].
    destruct Hi as [_ (kn & Hkn & <- & _ & _ & Hw & Hs) _ He].
    assert (H0 : Forall (fun pc => 0 <= claims pc) (ws_pcs s))
      by (eapply Forall_impl; [exact He|cbn; lia]).
    pose proof (owes_claims _ H0). split_and!; [lia| |lia].
    intros n. rewrite write_begin_spec, Hkn. unfold k_want.
    rewrite (proj2 (Z.leb_gt _ _)) by done.
    destruct (Z.leb_spec (k_quota kn) (k_written kn)); split; done || lia.
  - assert (Hb : forall n, write_begin fd n g = Some (Z.min n q)).
    { intros n. rewrite write_begin_spec, (proj2 Hg). unfold k_want, k_limit. cbn.
      rewrite (proj2 (Z.leb_gt q 0)) by done. f_equal. lia. }
    eexists. split; [apply (all_write fd q g k Hq); by rewrite Hb, Z.min_id|]. split; [done|].
    intros n. cbn [ws_table]. by rewrite Hb.
Qed.

Lemma quota_race_tight_witness :
  exists s, rtc (writer_step 7) (writers_start 3 (chaos_io_set_quota 7 1024
              (chaos_io_open (Some (7, "/tmp/playground.abc"%string)) g_slots_init).2)) s /\
            ws_accepted s = 3072 /\ forall n, is_Some (write_begin 7 n (ws_table s)).
Proof.
  destruct (quota_race_tight 7 1024 3 _ ltac:(lia) ltac:(lia)
              (fresh_quota_open 7 1024 "/tmp/playground.abc")) as [_ H]. exact H.
Defined.

(** The chaotic clock: after [chaos_clock_seed], with jitter below [jmax],
    the readings at any times are the monotonic clock plus the skew plus an
    offset in [0, jmax) that is the next draw of the seeded generator modulo
    [jmax]; so the jitter depends on the seed and the number of readings only. *)
Theorem clock_jitter_bounds seed skew jmax ts c :
  0 < jmax ->
  Forall (fun t => 0 <= real_ns t <= 2 ^ 62 /\ 0 <= real_ns t + skew /\
                   real_ns t + skew + jmax <= 2 ^ 63) ts ->
  let js := map (fun x => x mod jmax) (xosh_draws (length ts) (pg_xosh_seed seed)).1 in
  (clock_reads ts (chaos_clock_jitter_set jmax (chaos_clock_skew_set skew (chaos_clock_seed seed c)))).1
  = zip_with (fun t j => real_ns t + skew + j) ts js /\
  Forall (fun j => 0 <= j < jmax) js /\ length js = length ts.
Proof.
  intros Hj Hf js. split_and!.
  - unfold chaos_clock_jitter_set, chaos_clock_skew_set, chaos_clock_seed. cbn [g_clock_skew_ns g_clock_jitter_max_ns g_clock_rng].
    rewrite clock_reads_jitter by done. unfold js. by rewrite zip_with_fmap_r.
  - apply Forall_fmap, Forall_forall. intros x _. cbn. by apply Z.mod_pos_bound.
  - unfold js. rewrite length_fmap. apply xosh_draws_live, pg_xosh_seed_live.
Qed.

Lemma clock_jitter_bounds_witness :
  let js := map (fun x => x mod 500) (xosh_draws 2 (pg_xosh_seed 42)).1 in
  (clock_reads [(5, 10); (5, 2000)]
     (chaos_clock_jitter_set 500 (chaos_clock_skew_set (-1000) (chaos_clock_seed 42 clock_init)))).1
  = zip_with (fun t j => real_ns t + -1000 + j) [(5, 10); (5, 2000)] js /\
  Forall (fun j => 0 <= j < 500) js /\ length js = 2%nat.
Proof.
  apply (clock_jitter_bounds 42 (-1000) 500 [(5, 10); (5, 2000)] clock_init); [lia|].
  repeat constructor; unfold real_ns; cbn; lia.
Defined.
