(* ===== verification/IoThreads.v ===== *)
(** * Chaotic files used by several threads (src/chaos/chaos_io.c)

    Every wrapper releases the table's lock before its system call, so between
    the two other threads run.  Each operation as its atomic parts (a critical
    section or a system call), in every interleaving, with the descriptors that
    are open and what their files hold. *)

From S2P Require Import Prelude Rand ChaosIo.

(** ** The threads *)

(** Where a thread is: outside; after [mkstemp], before it takes a slot; without
    a slot, before it closes the descriptor; between the lock and [write]; between
    [write] and the lock; between the lock and [read] or [fsync]; between the lock
    and [close]. *)
Inductive io_pc :=
| IpIdle
| IpOpening (fd : Z)
| IpNoSlot (fd : Z)
| IpWriting (fd want : Z)
| IpWrote (fd w : Z)
| IpUsing (fd : Z)
| IpClosing (fd : Z).

(** The table, the open descriptors with the bytes in their files, the threads. *)
Record io_threads := IoThreads {
  it_table : list io_slot_t;
  it_files : gmap Z Z;
  it_pcs : list io_pc
}.

Inductive io_choice :=
| IcMkstemp (t : nat) (fd : Z)
| IcSlot (t : nat) (tmpl : string)
| IcNoSlot (t : nat)
| IcWriteBegin (t : nat) (fd n : Z)
| IcWrite (t : nat) (w : Z)
| IcCommit (t : nat)
| IcLook (t : nat) (fd : Z)
| IcLooked (t : nat)
| IcCloseBegin (t : nat) (fd : Z)
| IcClose (t : nat)
| IcKnob (f : io_op).

Definition at_pc (t : nat) (pc : io_pc) (g : list io_slot_t) (files : gmap Z Z) (s : io_threads) : io_threads :=
  IoThreads g files (<[t := pc]> (it_pcs s)).

(** [mkstemp] returns a descriptor that is not open; [write] takes at most what
    it is offered, fails on a closed descriptor, and a file stays below 2^63. *)
(* @ src/chaos/chaos_io.c:49-68 chaos_io_open *)
Definition open_part (c : io_choice) (s : io_threads) : option io_threads :=
  let g := it_table s in
  match c with
  | IcMkstemp t fd =>
      match it_pcs s !! t, it_files s !! fd with
      | Some IpIdle, None => Some (at_pc t (IpOpening fd) g (<[fd := 0]> (it_files s)) s)
      | _, _ => None
      end
  | IcSlot t tmpl =>
      match it_pcs s !! t with
      | Some (IpOpening fd) =>
          match chaos_io_open (Some (fd, tmpl)) g with
          | (OpenOk _, g) => Some (at_pc t IpIdle g (it_files s) s)
          | (_, g) => Some (at_pc t (IpNoSlot fd) g (it_files s) s)
          end
      | _ => None
      end
  | IcNoSlot t =>
      match it_pcs s !! t with
      | Some (IpNoSlot fd) => Some (at_pc t IpIdle g (delete fd (it_files s)) s)
      | _ => None
      end
  | _ => None
  end.

(* @ src/chaos/chaos_io.c:70-96 chaos_io_write *)
Definition write_part (c : io_choice) (s : io_threads) : option io_threads :=
  let g := it_table s in
  match c with
  | IcWriteBegin t fd n =>
      match it_pcs s !! t, write_begin fd n g with
      | Some IpIdle, Some want => Some (at_pc t (IpWriting fd want) g (it_files s) s)
      | Some IpIdle, None => Some s
      | _, _ => None
      end
  | IcWrite t w =>
      match it_pcs s !! t with
      | Some (IpWriting fd want) =>
          match it_files s !! fd with
          | Some n =>
              if bool_decide (-1 <= w <= want /\ n + w < 2 ^ 63)
              then Some (at_pc t (IpWrote fd w) g (<[fd := n + Z.max 0 w]> (it_files s)) s) else None
          | None => if w =? -1 then Some (at_pc t (IpWrote fd w) g (it_files s) s) else None
          end
      | _ => None
      end
  | IcCommit t =>
      match it_pcs s !! t with
      | Some (IpWrote fd w) => Some (at_pc t IpIdle (write_commit fd w g) (it_files s) s)
      | _ => None
      end
  | _ => None
  end.

(** [chaos_io_read] and [chaos_io_fsync]: neither the table nor a file's length
    changes. *)
(* @ src/chaos/chaos_io.c:98-121 chaos_io_read *)
Definition look_part (c : io_choice) (s : io_threads) : option io_threads :=
  match c with
  | IcLook t fd =>
      match it_pcs s !! t with
      | Some IpIdle => Some (at_pc t (IpUsing fd) (it_table s) (it_files s) s)
      | _ => None
      end
  | IcLooked t =>
      match it_pcs s !! t with
      | Some (IpUsing fd) => Some (at_pc t IpIdle (it_table s) (it_files s) s)
      | _ => None
      end
  | _ => None
  end.

(* @ src/chaos/chaos_io.c:123-129 chaos_io_close *)
Definition close_part (c : io_choice) (s : io_threads) : option io_threads :=
  let g := it_table s in
  match c with
  | IcCloseBegin t fd =>
      match it_pcs s !! t with
      | Some IpIdle => Some (at_pc t (IpClosing fd) (on_slot fd set_unused g) (it_files s) s)
      | _ => None
      end
  | IcClose t =>
      match it_pcs s !! t with
      | Some (IpClosing fd) => Some (at_pc t IpIdle g (delete fd (it_files s)) s)
      | _ => None
      end
  | _ => None
  end.

(** The setters are one critical section. *)
(* @ src/chaos/chaos_io.c:131-150 chaos_io_set_quota *)
Definition knob_part (c : io_choice) (s : io_threads) : option io_threads :=
  match c with
  | IcKnob (IoSetQuota fd q) => Some (IoThreads (chaos_io_set_quota fd q (it_table s)) (it_files s) (it_pcs s))
  | IcKnob (IoSetPartial fd p) => Some (IoThreads (chaos_io_set_partial fd p (it_table s)) (it_files s) (it_pcs s))
  | IcKnob (IoSetFsyncDelay fd d) =>
      Some (IoThreads (chaos_io_set_fsync_delay fd d (it_table s)) (it_files s) (it_pcs s))
  | _ => None
  end.

Definition io_do (c : io_choice) (s : io_threads) : option io_threads :=
  match c with
  | IcMkstemp _ _ | IcSlot _ _ | IcNoSlot _ => open_part c s
  | IcWriteBegin _ _ _ | IcWrite _ _ | IcCommit _ => write_part c s
  | IcLook _ _ | IcLooked _ => look_part c s
  | IcCloseBegin _ _ | IcClose _ => close_part c s
  | IcKnob _ => knob_part c s
  end.

Fixpoint io_do_all (cs : list io_choice) (s : io_threads) : option io_threads :=
  match cs with
  | [] => Some s
  | c :: cs => match io_do c s with Some s => io_do_all cs s | None => None end
  end.

(** [k] threads, nothing open. *)
Definition io_start (k : nat) : io_threads := IoThreads g_slots_init ∅ (replicate k IpIdle).

(** *** What the threads are doing with descriptors *)

(** A descriptor that has no slot and that this thread alone knows. *)
Definition pc_owns (pc : io_pc) : option Z :=
  match pc with IpOpening fd | IpNoSlot fd | IpClosing fd => Some fd | _ => None end.
(** A descriptor somebody opened that is in use. *)
Definition pc_uses (pc : io_pc) : option Z :=
  match pc with IpWriting fd _ | IpWrote fd _ | IpUsing fd => Some fd | _ => None end.

(** Bytes written to [fd] and not charged yet. *)
Definition pc_pending (fd : Z) (pc : io_pc) : Z :=
  match pc with IpWrote fd' w => if decide (fd' = fd) then Z.max 0 w else 0 | _ => 0 end.
Fixpoint pending (fd : Z) (pcs : list io_pc) : Z :=
  match pcs with [] => 0 | pc :: pcs => pc_pending fd pc + pending fd pcs end.

(** Callers that keep to their descriptors: they use one only between the
    [chaos_io_open] that returned it and the [chaos_io_close] of it, and it is
    closed once, when nobody is using it. *)
Definition orderly (c : io_choice) (s : io_threads) : Prop :=
  match c with
  | IcWriteBegin _ fd _ | IcLook _ fd => is_Some (table (it_table s) !! fd)
  | IcCloseBegin _ fd => is_Some (table (it_table s) !! fd) /\ fd ∉ omap pc_uses (it_pcs s)
  | _ => True
  end.

#[export] Instance orderly_dec c s : Decision (orderly c s).
Proof. destruct c; apply _. Defined.

Fixpoint orderly_do_all (cs : list io_choice) (s : io_threads) : option io_threads :=
  match cs with
  | [] => Some s
  | c :: cs =>
      if decide (orderly c s) then match io_do c s with Some s => orderly_do_all cs s | None => None end else None
  end.

Definition io_step (s s' : io_threads) : Prop := exists c, io_do c s = Some s'.
Definition orderly_step (s s' : io_threads) : Prop := exists c, orderly c s /\ io_do c s = Some s'.

(** ** The invariant of orderly callers *)

(** The open descriptors are those with a slot and those a thread is opening or
    closing, each of them once; whoever uses one finds it open; and a slot has
    been charged for what its file holds, but for the writes not yet charged. *)
Record io_inv (g : list io_slot_t) (files : gmap Z Z) (pcs : list io_pc) : Prop := {
  ii_wf : table_wf g;
  ii_once : NoDup (omap pc_owns pcs);
  ii_apart : forall fd, fd ∈ omap pc_owns pcs -> table g !! fd = None;
  ii_open : forall fd, is_Some (files !! fd) <-> is_Some (table g !! fd) \/ fd ∈ omap pc_owns pcs;
  ii_users : forall fd, fd ∈ omap pc_uses pcs -> is_Some (table g !! fd);
  ii_books : forall fd k, table g !! fd = Some k ->
    0 <= k_written k /\ files !! fd = Some (k_written k + pending fd pcs);
  ii_small : forall fd n, files !! fd = Some n -> n < 2 ^ 63;
  ii_fresh : forall fd, IpOpening fd ∈ pcs -> files !! fd = Some 0
}.

Lemma pending_nonneg fd pcs : 0 <= pending fd pcs.
Proof. induction pcs as [|pc pcs IH]; cbn; [lia|]. destruct pc; cbn; try lia. case_decide; lia. Qed.

#[export] Instance pending_perm fd : Proper ((≡ₚ) ==> (=)) (pending fd).
Proof. induction 1; cbn; lia. Qed.

(** The order of the threads does not matter. *)
Lemma io_inv_perm g files pcs pcs' : pcs ≡ₚ pcs' -> io_inv g files pcs -> io_inv g files pcs'.
Proof.
  intros Hp [H1 H2 H3 H4 H5 H6 H7 H8].
  assert (Ho : omap pc_owns pcs ≡ₚ omap pc_owns pcs') by (by rewrite Hp).
  assert (Hu : omap pc_uses pcs ≡ₚ omap pc_uses pcs') by (by rewrite Hp).
  split; try done.
  - by rewrite <- Ho.
  - intros fd. rewrite <- Ho. apply H3.
  - intros fd. rewrite <- Ho. apply H4.
  - intros fd. rewrite <- Hu. apply H5.
  - intros fd k Hk. rewrite <- Hp. by apply H6.
  - intros fd. rewrite <- Hp. apply H8.
Qed.

Lemma pcs_split (pcs : list io_pc) t pc :
  pcs !! t = Some pc -> exists rest, pcs ≡ₚ pc :: rest /\ forall pc', <[t := pc']> pcs ≡ₚ pc' :: rest.
Proof.
  intros Ht. exists (take t pcs ++ drop (S t) pcs). pose proof (lookup_lt_Some _ _ _ Ht) as Hl.
  split; [|intros pc'].
  - rewrite <- (take_drop_middle pcs t pc Ht) at 1. by rewrite Permutation_middle.
  - rewrite insert_take_drop by done. by rewrite Permutation_middle.
Qed.

(** Unfolds what the first thread does with descriptors. *)
Ltac io_head := cbn [omap list_omap pc_owns pc_uses pending pc_pending] in *.

(** One thread moves on. *)
Lemma io_inv_move g files pcs g' files' t pc pc' :
  pcs !! t = Some pc ->
  (forall rest, io_inv g files (pc :: rest) -> io_inv g' files' (pc' :: rest)) ->
  io_inv g files pcs -> io_inv g' files' (<[t := pc']> pcs).
Proof.
  intros Ht H Hi. destruct (pcs_split pcs t pc Ht) as (rest & Hp & Hp').
  eapply io_inv_perm; [symmetry; apply Hp'|]. apply H. by eapply io_inv_perm.
Qed.

(** Neither moves that touch no descriptor nor the setters matter. *)
Lemma io_inv_quiet g files rest pc pc' :
  pc_owns pc = None -> pc_owns pc' = None -> pc_uses pc' = None -> (forall fd, pc_pending fd pc = pc_pending fd pc') ->
  io_inv g files (pc :: rest) -> io_inv g files (pc' :: rest).
Proof.
  intros Ho Ho' Hu' Hp [H1 H2 H3 H4 H5 H6 H7 H8]. io_head. rewrite Ho in *.
  split; io_head; rewrite ?Ho', ?Hu'; try done.
  - intros fd Hfd. apply H5. destruct (pc_uses pc); [by right|done].
  - intros fd k Hk. rewrite <- Hp. by apply H6.
  - intros fd [<-|Hf]%elem_of_cons; [done|]. apply H8. by right.
Qed.

Lemma io_inv_use g files rest pc pc' fd :
  pc_owns pc = None -> pc_owns pc' = None -> pc_uses pc' = Some fd -> (forall fd', pc_pending fd' pc = pc_pending fd' pc') ->
  is_Some (table g !! fd) ->
  io_inv g files (pc :: rest) -> io_inv g files (pc' :: rest).
Proof.
  intros Ho Ho' Hu' Hp Hfd [H1 H2 H3 H4 H5 H6 H7 H8]. io_head. rewrite Ho in *.
  split; io_head; rewrite ?Ho', ?Hu'; try done.
  - intros f [->|Hf]%elem_of_cons; [done|]. apply H5. destruct (pc_uses pc); [by right|done].
  - intros f k Hk. rewrite <- Hp. by apply H6.
  - intros f [<-|Hf]%elem_of_cons; [done|]. apply H8. by right.
Qed.

Lemma io_inv_mkstemp g files rest fd :
  files !! fd = None -> io_inv g files (IpIdle :: rest) -> io_inv g (<[fd := 0]> files) (IpOpening fd :: rest).
Proof.
  intros Hfd [H1 H2 H3 H4 H5 H6 H7 H8]. io_head.
  assert (Hn : ~ (is_Some (table g !! fd) \/ fd ∈ omap pc_owns rest)).
  { rewrite <- H4, Hfd. by intros []. }
  split; io_head; try done.
  - apply NoDup_cons. split; [tauto|done].
  - intros f [->|Hf]%elem_of_cons; [|by apply H3]. destruct (table g !! fd) eqn:E; [|done].
    exfalso. apply Hn. left. by eexists.
  - intros f. rewrite elem_of_cons. destruct (decide (f = fd)) as [->|Hne].
    + rewrite lookup_insert_eq. split; [by right; left|by eexists].
    + rewrite lookup_insert_ne, H4 by congruence. tauto.
  - intros f k Hk. destruct (decide (f = fd)) as [->|]; [exfalso; apply Hn; left; by eexists|].
    rewrite lookup_insert_ne by congruence. by apply H6.
  - intros f n. destruct (decide (f = fd)) as [->|]; [rewrite lookup_insert_eq; intros [= <-]; lia|].
    rewrite lookup_insert_ne by congruence. apply H7.
  - intros f [[= ->]|Hf]%elem_of_cons; [apply lookup_insert_eq|].
    specialize (H8 f ltac:(by right)). rewrite lookup_insert_ne; [done|congruence].
Qed.

Lemma pending_unused fd pcs : fd ∉ omap pc_uses pcs -> pending fd pcs = 0.
Proof.
  induction pcs as [|pc pcs IH]; intros Hn; [done|]. cbn [pending omap list_omap] in *.
  destruct pc; cbn [pc_uses pc_pending] in *; try (by rewrite IH); apply not_elem_of_cons in Hn as [Hne Hn];
    rewrite IH by done; try done. by rewrite decide_False.
Qed.

Lemma opening_owned fd (pcs : list io_pc) : IpOpening fd ∈ pcs -> fd ∈ omap pc_owns pcs.
Proof. intros H. apply list_elem_of_omap. by exists (IpOpening fd). Qed.

Lemma io_inv_slot g g' files rest fd tmpl :
  chaos_io_open (Some (fd, tmpl)) g = (OpenOk fd, g') ->
  io_inv g files (IpOpening fd :: rest) -> io_inv g' files (IpIdle :: rest).
Proof.
  intros Ho [H1 H2 H3 H4 H5 H6 H7 H8]. io_head.
  assert (Hfd : table g !! fd = None) by (apply H3; by left).
  pose proof (open_sim fd tmpl g (table g) (conj H1 eq_refl) Hfd) as Hs. rewrite Ho in Hs.
  destruct Hs as (_ & _ & Hw & Ht). apply NoDup_cons in H2 as [Hni H2].
  split; io_head; try done; try (intros f; rewrite Ht).
  - intros Hf. rewrite lookup_insert_ne by congruence. apply H3. by right.
  - rewrite H4, elem_of_cons, lookup_insert_is_Some. destruct (decide (fd = f)) as [->|]; [tauto|].
    intuition congruence.
  - intros Hf. rewrite lookup_insert_is_Some'. right. by apply H5.
  - intros k. destruct (decide (fd = f)) as [->|]; [rewrite lookup_insert_eq; intros [= <-]|].
    + split; [cbn; lia|]. rewrite (H8 f) by (by left). rewrite pending_unused; [done|].
      intros Hu. apply H5 in Hu as [? Hu]. congruence.
    + rewrite lookup_insert_ne by congruence. apply H6.
  - intros f [[=]|Hf]%elem_of_cons. apply H8. by right.
Qed.

(** A descriptor nobody else knows goes away. *)
Lemma io_inv_drop g files rest pc fd :
  pc_owns pc = Some fd -> io_inv g files (pc :: rest) -> io_inv g (delete fd files) (IpIdle :: rest).
Proof.
  intros Ho [H1 H2 H3 H4 H5 H6 H7 H8]. io_head. rewrite Ho in *.
  assert (Hfd : table g !! fd = None) by (apply H3; by left). apply NoDup_cons in H2 as [Hni H2].
  split; io_head; try done.
  - intros f Hf. apply H3. by right.
  - intros f. destruct (decide (f = fd)) as [->|].
    + rewrite lookup_delete_eq, Hfd. split; [by intros []|]. by intros [[]|].
    + rewrite lookup_delete_ne, H4, elem_of_cons by congruence. intuition congruence.
  - intros f Hf. apply H5. destruct pc; done.
  - intros f k Hk. rewrite lookup_delete_ne by congruence. apply H6 in Hk. by destruct pc.
  - intros f n Hn. apply lookup_delete_Some in Hn as [_ Hn]. by eapply H7.
  - intros f [[=]|Hf]%elem_of_cons. specialize (H8 f ltac:(by right)). rewrite lookup_delete_ne; [done|].
    intros ->. by apply Hni, opening_owned.
Qed.

Lemma io_inv_no_slot g files rest fd : io_inv g files (IpOpening fd :: rest) -> io_inv g files (IpNoSlot fd :: rest).
Proof.
  intros [H1 H2 H3 H4 H5 H6 H7 H8]. split; io_head; try done.
  intros f [[=]|Hf]%elem_of_cons. apply H8. by right.
Qed.

Lemma io_inv_write g files rest fd want w n :
  files !! fd = Some n -> n + w < 2 ^ 63 ->
  io_inv g files (IpWriting fd want :: rest) ->
  io_inv g (<[fd := n + Z.max 0 w]> files) (IpWrote fd w :: rest).
Proof.
  intros Hn Hw [H1 H2 H3 H4 H5 H6 H7 H8]. io_head.
  assert (Hfd : is_Some (table g !! fd)) by (apply H5; by left). pose proof (H7 fd n Hn).
  split; io_head; try done.
  - intros f. rewrite lookup_insert_is_Some'. split; [|rewrite <- H4; tauto]. intros [<-|Hf]; [by left|by apply H4].
  - intros f k Hk. destruct (H6 f k Hk) as [H0 Hf]. split; [done|]. case_decide as Hd.
    + subst f. rewrite lookup_insert_eq. rewrite Hn in Hf. injection Hf as ->. f_equal. lia.
    + rewrite lookup_insert_ne, Hf by done. f_equal.
  - intros f m. destruct (decide (fd = f)) as [->|Hne].
    + rewrite lookup_insert_eq. intros [= <-]. lia.
    + rewrite lookup_insert_ne by done. apply H7.
  - intros f [[=]|Hf]%elem_of_cons. rewrite lookup_insert_ne; [apply H8; by right|].
    intros ->. destruct Hfd as [k Hk]. rewrite (H3 f) in Hk; [done|]. by apply opening_owned.
Qed.

(** Tables that track the same descriptors, charged alike. *)
Lemma io_inv_table g g' files pcs (h : Z -> knobs -> knobs) fd :
  table_wf g' -> table g' = alter (h fd) fd (table g) ->
  (forall k, table g !! fd = Some k -> k_written (h fd k) = k_written k) ->
  io_inv g files pcs -> io_inv g' files pcs.
Proof.
  intros Hw Ht Hh [H1 H2 H3 H4 H5 H6 H7 H8].
  assert (Hs : forall f, is_Some (table g' !! f) <-> is_Some (table g !! f)).
  { intros f. rewrite Ht. apply lookup_alter_is_Some. }
  split; try done.
  - intros f Hf. apply eq_None_not_Some. rewrite Hs, (H3 f Hf). by intros [].
  - intros f. by rewrite Hs.
  - intros f Hf. rewrite Hs. by apply H5.
  - intros f k. rewrite Ht. destruct (decide (fd = f)) as [->|Hne].
    + rewrite lookup_alter_eq. intros (k0 & Hk0 & ->)%fmap_Some. rewrite Hh by done. by apply H6.
    + rewrite lookup_alter_ne by done. apply H6.
Qed.

Lemma io_inv_commit g files rest fd w :
  io_inv g files (IpWrote fd w :: rest) -> io_inv (write_commit fd w g) files (IpIdle :: rest).
Proof.
  intros Hi. pose proof Hi as [H1 H2 H3 H4 H5 H6 H7 H8]. io_head.
  destruct (write_commit_sim fd w g (table g) (conj H1 eq_refl)) as [Hw Ht].
  destruct (H5 fd ltac:(by left)) as [k Hk]. destruct (H6 fd k Hk) as [H0 Hf]. rewrite decide_True in Hf by done.
  destruct (Z.ltb_spec 0 w) as [Hpos|Hneg].
  - split; io_head; try done.
    + intros f Hfo. rewrite Ht. apply eq_None_not_Some. rewrite lookup_alter_is_Some, (H3 f Hfo). by intros [].
    + intros f. by rewrite Ht, lookup_alter_is_Some, H4.
    + intros f Hfu. rewrite Ht, lookup_alter_is_Some. apply H5. by right.
    + intros f k'. rewrite Ht. destruct (decide (fd = f)) as [<-|Hne].
      * rewrite lookup_alter_eq, Hk. intros [= <-]. cbn [k_written k_set_written].
        pose proof (H7 fd _ Hf). pose proof (pending_nonneg fd rest).
        rewrite u64_small by lia. split; [lia|]. rewrite Hf. f_equal. lia.
      * rewrite lookup_alter_ne by done. intros Hk'. destruct (H6 f k' Hk') as [? Hf'].
        by rewrite decide_False in Hf' by done.
    + intros f [[=]|Hfo]%elem_of_cons. apply H8. by right.
  - unfold write_commit. rewrite (proj2 (Z.ltb_ge 0 w)) by done.
    apply (io_inv_quiet g files rest (IpWrote fd w)); try done.
    intros f. cbn. case_decide; [lia|done].
Qed.

Lemma io_inv_close g files rest fd :
  is_Some (table g !! fd) -> fd ∉ omap pc_uses rest ->
  io_inv g files (IpIdle :: rest) -> io_inv (on_slot fd set_unused g) files (IpClosing fd :: rest).
Proof.
  intros Hfd Hnu [H1 H2 H3 H4 H5 H6 H7 H8]. io_head. pose proof H1 as [Hl Hn].
  destruct (table_close fd g Hn) as [Ht Hn'].
  split; io_head; try done.
  - split; [by rewrite length_on_slot|done].
  - apply NoDup_cons. split; [|done]. intros Ho. rewrite (H3 fd Ho) in Hfd. by destruct Hfd.
  - intros f [->|Hf]%elem_of_cons; rewrite Ht; [apply lookup_delete_eq|].
    apply eq_None_not_Some. rewrite lookup_delete_is_Some, (H3 f Hf). by intros [_ []].
  - intros f. rewrite Ht, lookup_delete_is_Some, H4, elem_of_cons.
    destruct (decide (f = fd)) as [->|Hne]; [tauto|intuition congruence].
  - intros f Hf. rewrite Ht, lookup_delete_is_Some. split; [congruence|by apply H5].
  - intros f k Hk. rewrite Ht in Hk. apply lookup_delete_Some in Hk as [_ Hk]. by apply H6.
  - intros f [[=]|Hf]%elem_of_cons. apply H8. by right.
Qed.

Lemma io_inv_start k : io_inv g_slots_init ∅ (replicate k IpIdle).
Proof.
  assert (Ho : omap pc_owns (replicate k IpIdle) = []) by (by induction k).
  assert (Hu : omap pc_uses (replicate k IpIdle) = []) by (by clear Ho; induction k).
  destruct init_sim as [Hw Ht]. split; rewrite ?Ho, ?Hu, ?Ht; try done.
  - constructor.
  - intros f. rewrite !lookup_empty. split; [by intros []|]. intros [[? H]|H%elem_of_nil]; done.
  - by intros f ?%elem_of_nil.
  - by intros f H%elem_of_replicate_inv.
Qed.

Lemma io_inv_knob f s s' :
  knob_part (IcKnob f) s = Some s' -> io_inv (it_table s) (it_files s) (it_pcs s) ->
  io_inv (it_table s') (it_files s') (it_pcs s').
Proof.
  intros Hk Hi. pose proof (ii_wf _ _ _ Hi) as Hw.
  destruct f; try done; injection Hk as <-; cbn [it_table it_files it_pcs].
  - destruct (io_sim_on_slot fd (set_quota bytes) (fun k => Knobs bytes (k_written k) (k_partial k) (k_fsync_delay k))
      (it_table s) _ ltac:(done) ltac:(done) (conj Hw eq_refl)) as [Hw' Ht].
    by apply (io_inv_table _ _ _ _ _ fd Hw' Ht).
  - destruct (io_sim_on_slot fd (set_partial max_chunk) (fun k => Knobs (k_quota k) (k_written k) max_chunk (k_fsync_delay k))
      (it_table s) _ ltac:(done) ltac:(done) (conj Hw eq_refl)) as [Hw' Ht].
    by apply (io_inv_table _ _ _ _ _ fd Hw' Ht).
  - destruct (io_sim_on_slot fd (set_fsync_delay ns) (fun k => Knobs (k_quota k) (k_written k) (k_partial k) ns)
      (it_table s) _ ltac:(done) ltac:(done) (conj Hw eq_refl)) as [Hw' Ht].
    by apply (io_inv_table _ _ _ _ _ fd Hw' Ht).
Qed.

Lemma orderly_step_inv s s' :
  orderly_step s s' -> io_inv (it_table s) (it_files s) (it_pcs s) -> io_inv (it_table s') (it_files s') (it_pcs s').
Proof.
  intros (c & Hc & Hd) Hi. destruct c as [t fd|t tmpl|t|t fd n|t w|t|t fd|t|t fd|t|f]; cbn [io_do] in Hd;
    [..|by eapply io_inv_knob]; cbn [open_part write_part look_part close_part orderly] in *;
    destruct (it_pcs s !! t) as [pc|] eqn:Ht; try done; destruct pc; try done.
  - destruct (it_files s !! fd) eqn:Hf; [done|]. injection Hd as <-.
    eapply io_inv_move; [exact Ht| |exact Hi]. intros rest. by apply io_inv_mkstemp.
  - assert (Hfd : table (it_table s) !! fd = None).
    { apply (ii_apart _ _ _ Hi), opening_owned. by eapply list_elem_of_lookup_2. }
    pose proof (open_sim fd tmpl _ _ (conj (ii_wf _ _ _ Hi) eq_refl) Hfd) as Ho.
    destruct (chaos_io_open (Some (fd, tmpl)) (it_table s)) as [[fd'| |fd'] g'] eqn:E.
    + destruct Ho as (-> & _). injection Hd as <-. eapply io_inv_move; [exact Ht| |exact Hi].
      intros rest. by apply (io_inv_slot _ _ _ _ _ tmpl).
    + by destruct Ho.
    + destruct Ho as (_ & _ & ->). injection Hd as <-. eapply io_inv_move; [exact Ht| |exact Hi].
      intros rest. apply io_inv_no_slot.
  - injection Hd as <-. eapply io_inv_move; [exact Ht| |exact Hi]. intros rest. by apply io_inv_drop.
  - destruct (write_begin fd n (it_table s)) as [want|]; injection Hd as <-; [|done].
    eapply io_inv_move; [exact Ht| |exact Hi]. intros rest. by apply (io_inv_use _ _ _ _ _ fd).
  - destruct (it_files s !! fd) as [n|] eqn:Hf.
    + case_bool_decide as Hw; [|done]. injection Hd as <-. eapply io_inv_move; [exact Ht| |exact Hi].
      intros rest. apply (io_inv_write _ _ _ _ want); [done|lia].
    + exfalso. destruct (proj2 (ii_open _ _ _ Hi fd)) as [? Hs]; [left|congruence].
      apply (ii_users _ _ _ Hi), list_elem_of_omap. eexists. split; [by eapply list_elem_of_lookup_2|done].
  - injection Hd as <-. eapply io_inv_move; [exact Ht| |exact Hi]. intros rest. apply io_inv_commit.
  - injection Hd as <-. eapply io_inv_move; [exact Ht| |exact Hi]. intros rest. by apply (io_inv_use _ _ _ _ _ fd).
  - injection Hd as <-. eapply io_inv_move; [exact Ht| |exact Hi]. intros rest. by apply io_inv_quiet.
  - injection Hd as <-. destruct Hc as [Htr Hnu]. destruct (pcs_split _ _ _ Ht) as (rest & Hp & Hp').
    eapply io_inv_perm; [symmetry; apply Hp'|]. apply io_inv_close; [done| |by eapply io_inv_perm].
    intros Hin. apply Hnu. rewrite Hp. exact Hin.
  - injection Hd as <-. eapply io_inv_move; [exact Ht| |exact Hi]. intros rest. by apply io_inv_drop.
Qed.

Lemma orderly_reach k s :
  rtc orderly_step (io_start k) s -> io_inv (it_table s) (it_files s) (it_pcs s).
Proof.
  intros Hr. assert (Hi : io_inv (it_table (io_start k)) (it_files (io_start k)) (it_pcs (io_start k))) by apply io_inv_start.
  revert Hi. induction Hr as [|s1 s2 s3 H12 _ IH]; [done|]. intros Hi. apply IH. by eapply orderly_step_inv.
Qed.

Lemma io_do_all_steps cs s s' : io_do_all cs s = Some s' -> rtc io_step s s'.
Proof.
  revert s. induction cs as [|c cs IH]; intros s H; cbn [io_do_all] in H; [by injection H as <-|].
  destruct (io_do c s) as [s1|] eqn:E; [|done]. eapply rtc_l; [by exists c|by apply IH].
Qed.

Lemma orderly_do_all_steps cs s s' : orderly_do_all cs s = Some s' -> rtc orderly_step s s'.
Proof.
  revert s. induction cs as [|c cs IH]; intros s H; cbn [orderly_do_all] in H; [by injection H as <-|].
  case_decide as Hc; [|done]. destruct (io_do c s) as [s1|] eqn:E; [|done]. eapply rtc_l; [by exists c|by apply IH].
Qed.

Lemma pending_idle fd pcs : Forall (eq IpIdle) pcs -> pending fd pcs = 0.
Proof. induction 1 as [|pc pcs <- _ IH]; [done|]. cbn. by rewrite IH. Qed.

Lemma idle_owns pcs : Forall (eq IpIdle) pcs -> omap pc_owns pcs = [].
Proof. induction 1 as [|pc pcs <- _ IH]; [done|]. exact IH. Qed.

(** Two threads close one descriptor; between them the kernel gives it out again. *)
Definition closed_twice : list io_choice :=
  [IcMkstemp 0 5; IcSlot 0 "/tmp/playground.aaaaaa"; IcCloseBegin 1 5; IcCloseBegin 2 5; IcClose 1;
   IcMkstemp 0 5; IcSlot 0 "/tmp/playground.bbbbbb"; IcClose 2;
   IcMkstemp 0 5; IcSlot 0 "/tmp/playground.cccccc"].

(** A descriptor is closed and given out again while a write to it is under way. *)
Definition closed_under_write : list io_choice :=
  [IcMkstemp 0 5; IcSlot 0 "/tmp/playground.aaaaaa"; IcWriteBegin 1 5 100; IcCloseBegin 0 5; IcClose 0;
   IcMkstemp 0 5; IcSlot 0 "/tmp/playground.bbbbbb"; IcKnob (IoSetQuota 5 10); IcWrite 1 100; IcCommit 1].

(** ** Properties *)

(** C17: the wrapped files under threads: however the critical sections and system
    calls of any number of threads interleave, if every descriptor is used only
    between the [chaos_io_open] that returned it and one [chaos_io_close] that
    nobody overlaps, the table tracks no descriptor twice, each is charged with
    exactly what its file holds (counting writes still to be charged), and
    whenever all threads are outside, the open descriptors are those of the
    table and the charges are the files' lengths.  The condition is needed: two
    threads closing one descriptor can leave it tracked twice, and a write that a
    close overlaps can put 100 bytes into a new file with a quota of 10. *)
Theorem io_table_threads :
  (forall k s, rtc orderly_step (io_start k) s ->
     table_wf (it_table s) /\
     (forall fd kn, table (it_table s) !! fd = Some kn ->
        it_files s !! fd = Some (k_written kn + pending fd (it_pcs s))) /\
     (Forall (eq IpIdle) (it_pcs s) -> k_written <$> table (it_table s) = it_files s)) /\
  (exists s, rtc io_step (io_start 3) s /\ used_fds (it_table s) = [5; 5]) /\
  (exists s, rtc io_step (io_start 2) s /\ table (it_table s) !! 5 = Some (Knobs 10 100 0 0) /\
             it_files s !! 5 = Some 100).
Proof.
  split; [|split].
  - intros k s Hr. destruct (orderly_reach k s Hr) as [H1 H2 H3 H4 H5 H6 H7 H8].
    split; [done|]. split; [intros fd kn Hk; by apply H6|]. intros Hidle. apply map_eq. intros fd.
    rewrite lookup_fmap. destruct (table (it_table s) !! fd) as [kn|] eqn:Hk; cbn.
    + apply H6 in Hk as [_ ->]. by rewrite pending_idle, Z.add_0_r.
    + symmetry. apply eq_None_not_Some. rewrite H4, Hk, idle_owns by done. by intros [[]|?%elem_of_nil].
  - eexists. split; [apply (io_do_all_steps closed_twice); vm_compute; reflexivity|]. by vm_compute.
  - eexists. split; [apply (io_do_all_steps closed_under_write); vm_compute; reflexivity|]. by vm_compute.
Qed.

(** Two threads write to one file, then it is closed. *)
Definition shared_file : list io_choice :=
  [IcMkstemp 0 5; IcSlot 0 "/tmp/playground.aaaaaa"; IcWriteBegin 0 5 64; IcWriteBegin 1 5 64; IcWrite 1 64;
   IcWrite 0 60; IcCommit 0; IcCommit 1].

Lemma io_table_threads_witness :
  exists s, rtc orderly_step (io_start 2) s /\ it_files s = {[5 := 124]} /\
            k_written <$> table (it_table s) = it_files s.
Proof.
  destruct (orderly_do_all shared_file (io_start 2)) as [s|] eqn:E; [|by vm_compute in E].
  pose proof (orderly_do_all_steps _ _ _ E) as Hr. exists s.
  assert (Hs : it_files s = {[5 := 124]} /\ it_pcs s = [IpIdle; IpIdle]) by (vm_compute in E; by injection E as <-).
  split; [done|]. split; [apply Hs|].
  apply (proj1 io_table_threads 2%nat s Hr). rewrite (proj2 Hs). by repeat constructor.
Defined.
