(* ===== verification/ChaosNet.v ===== *)
(** * Chaotic sockets (src/chaos/chaos_net.c, include/playground/chaos_net.h)

    Two stream socket pairs with a forwarder thread per direction between them.
    A forwarder is a function of what its reads returned (with the knobs in
    force at each read) and of what its writes will accept; its result is the
    sequence of things it did. *)

From Stdlib Require Import SpecFloat.
From S2P Require Import Prelude CLib Rand.

(** ** Data *)

(* @ include/playground/chaos_net.h:5-12 chaos_net_knobs_t *)
Record chaos_net_knobs_t := NetKnobs {
  loss_prob : spec_float;
  delay_min_ns : Z;
  delay_max_ns : Z;
  max_chunk_bytes : Z
}.

Definition d_zero : spec_float := S754_zero false.
Definition d_one : spec_float := d_of_Z 1.

(** [(chaos_net_knobs_t){0}]. *)
(* @ src/chaos/chaos_net.c:116-116 chaos_net_knobs_t *)
Definition zero_knobs : chaos_net_knobs_t := NetKnobs d_zero 0 0 0.

(** What a forwarder does, in order. *)
Inductive net_act :=
| NDrop (bs : list Z)
| NSleep (sec nsec : Z)
| NSend (bs : list Z)
| NShutdown (fd : Z).

(** ** The forwarder *)

(* @ src/chaos/chaos_net.c rand_unit *)
Definition rand_unit (r : pg_xosh_t) : spec_float * pg_xosh_t :=
  let '(x, r) := pg_xosh_next r in
  let v := Z.shiftr x 11 in
  (d_div (d_of_Z v) (d_of_Z (Z.shiftl 1 53)), r).

(* @ src/chaos/chaos_net.c apply_delay *)
Definition apply_delay (rng : pg_xosh_t) (min_ns max_ns : Z) : list net_act * pg_xosh_t :=
  let span := if min_ns <? max_ns then max_ns - min_ns else 0 in
  let '(r, rng) := if span =? 0 then (0, rng)
                   else let '(x, rng) := pg_xosh_next rng in (x mod span, rng) in
  let d := u64 (min_ns + r) in
  (if d =? 0 then [] else [NSleep (d / 1000000000) (d mod 1000000000)], rng).

(** How a chunk loop ends: the buffer is done, a write failed ([goto out]), or
    the thread is still inside [write]. *)
Inductive fwd_end := FwdNext | FwdOut | FwdBlocked | FwdNoFuel.

(** [ws]: what each [write] returns; it never exceeds what was offered. *)
(* @ src/chaos/chaos_net.c:75-95 forward_fn *)
Fixpoint forward_chunks (fuel : nat) (k : chaos_net_knobs_t) (chunk_max : Z) (rng : pg_xosh_t)
    (buf : list Z) (ws : list Z) : list net_act * pg_xosh_t * list Z * fwd_end :=
  match fuel with
  | O => ([], rng, ws, FwdNoFuel)
  | S fuel =>
      match buf with
      | [] => ([], rng, ws, FwdNext)
      | _ =>
          let n := Z.of_nat (length buf) in
          let this := Z.to_nat (if chunk_max <? n then chunk_max else n) in
          let lossy := SFltb d_zero (loss_prob k) in
          let '(u, rng) := if lossy then rand_unit rng else (d_one, rng) in
          if lossy && SFltb u (loss_prob k) then
            let '(acts, rng, ws, e) := forward_chunks fuel k chunk_max rng (drop this buf) ws in
            (NDrop (take this buf) :: acts, rng, ws, e)
          else
            let '(slept, rng) := if 0 <? delay_max_ns k
                                 then apply_delay rng (delay_min_ns k) (delay_max_ns k)
                                 else ([], rng) in
            match ws with
            | [] => (slept, rng, [], FwdBlocked)
            | w :: ws =>
                if w <=? 0 then (slept, rng, ws, FwdOut)
                else
                  let m := Nat.min (Z.to_nat w) this in
                  let '(acts, rng, ws, e) := forward_chunks fuel k chunk_max rng (drop m buf) ws in
                  (slept ++ NSend (take m buf) :: acts, rng, ws, e)
            end
      end
  end.

(** [chunk_max] for a read of [n] bytes. *)
(* @ src/chaos/chaos_net.c:71-73 forward_fn *)
Definition chunk_limit (k : chaos_net_knobs_t) (n : nat) : Z :=
  if 0 <? max_chunk_bytes k then max_chunk_bytes k else Z.of_nat n.

(** [ins]: the successful reads, each with the snapshot of the knobs taken after
    it; then a read returns 0 or fails. *)
(* @ src/chaos/chaos_net.c forward_fn *)
Fixpoint forward_fn (dst_fd : Z) (rng : pg_xosh_t) (ins : list (list Z * chaos_net_knobs_t))
    (ws : list Z) : list net_act * pg_xosh_t * fwd_end :=
  match ins with
  | [] => ([NShutdown dst_fd], rng, FwdNext)
  | (buf, k) :: ins =>
      let '(acts, rng, ws, e) :=
        forward_chunks (S (length buf)) k (chunk_limit k (length buf)) rng buf ws in
      match e with
      | FwdNext => let '(more, rng, e) := forward_fn dst_fd rng ins ws in (acts ++ more, rng, e)
      | FwdOut => (acts ++ [NShutdown dst_fd], rng, FwdOut)
      | FwdBlocked | FwdNoFuel => (acts, rng, e)
      end
  end.

(** ** The pair *)

(* @ src/chaos/chaos_net.c:18-23 forward_arg_t *)
Record forward_arg_t := FwdArg { fa_src_fd : Z; fa_dst_fd : Z; fa_rng : pg_xosh_t }.

(* @ src/chaos/chaos_net.c:25-35 pair_internal *)
Record pair_internal_t := PairInternal {
  proxy_a : Z;
  proxy_b : Z;
  pi_knobs : chaos_net_knobs_t;
  fa_a_to_b : forward_arg_t;
  fa_b_to_a : forward_arg_t
}.

(* @ include/playground/chaos_net.h:14-18 chaos_pair_t *)
Record chaos_pair_t := Pair { fd_a : Z; fd_b : Z; _internal : option pair_internal_t }.

(** The answers of the calls [chaos_net_pair] makes, in order. *)
Record pair_env := PairEnv {
  pe_sp1 : option (Z * Z);
  pe_sp2 : option (Z * Z);
  pe_calloc : bool;
  pe_thread1 : bool;
  pe_thread2 : bool
}.

(** Return code, what was stored in [*out], the descriptors closed on the way.
    When a thread cannot be created, [*out] already holds the closed pair. *)
(* @ src/chaos/chaos_net.c chaos_net_pair *)
Definition chaos_net_pair (k : option chaos_net_knobs_t) (seed : Z) (e : pair_env)
  : Z * option chaos_pair_t * list Z :=
  match pe_sp1 e with
  | None => (-1, None, [])
  | Some (sp10, sp11) =>
      match pe_sp2 e with
      | None => (-1, None, [sp10; sp11])
      | Some (sp20, sp21) =>
          if negb (pe_calloc e) then (-1, None, [sp10; sp11; sp20; sp21])
          else
            let P := PairInternal sp11 sp20 (default zero_knobs k)
                       (FwdArg sp11 sp20 (pg_xosh_seed (Z.lxor seed 0xA1A1A1A1A1A1A1A1)))
                       (FwdArg sp20 sp11 (pg_xosh_seed (Z.lxor seed 0xB2B2B2B2B2B2B2B2))) in
            let out := Some (Pair sp10 sp21 (Some P)) in
            if negb (pe_thread1 e) then (-1, out, [sp10; sp11; sp20; sp21])
            else if negb (pe_thread2 e) then (-1, out, [sp10; sp11; sp20; sp21])
            else (0, out, [])
      end
  end.

(* @ src/chaos/chaos_net.c chaos_net_set_knobs *)
Definition chaos_net_set_knobs (p : option chaos_pair_t) (k : option chaos_net_knobs_t)
  : option chaos_pair_t :=
  match p, k with
  | Some p, Some k =>
      match _internal p with
      | None => Some p
      | Some P => Some (Pair (fd_a p) (fd_b p)
                    (Some (PairInternal (proxy_a P) (proxy_b P) k (fa_a_to_b P) (fa_b_to_a P))))
      end
  | _, _ => p
  end.

(** The pair afterwards and the descriptors closed. *)
(* @ src/chaos/chaos_net.c chaos_net_close *)
Definition chaos_net_close (p : option chaos_pair_t) : option chaos_pair_t * list Z :=
  match p with
  | None => (None, [])
  | Some p =>
      match _internal p with
      | None => (Some p, [])
      | Some P =>
          let '(a, c1) := if 0 <=? fd_a p then (-1, [fd_a p]) else (fd_a p, []) in
          let '(b, c2) := if 0 <=? fd_b p then (-1, [fd_b p]) else (fd_b p, []) in
          let c3 := if 0 <=? proxy_a P then [proxy_a P] else [] in
          let c4 := if 0 <=? proxy_b P then [proxy_b P] else [] in
          (Some (Pair a b None), c1 ++ c2 ++ c3 ++ c4)
      end
  end.

(** ** Lemmas: the pieces a forwarder handles *)

(** The bytes dropped or sent, in order. *)
Fixpoint pieces (acts : list net_act) : list Z :=
  match acts with
  | [] => []
  | NDrop bs :: acts | NSend bs :: acts => bs ++ pieces acts
  | _ :: acts => pieces acts
  end.

(** The bytes that reach the other side. *)
Fixpoint delivered (acts : list net_act) : list Z :=
  match acts with
  | [] => []
  | NSend bs :: acts => bs ++ delivered acts
  | _ :: acts => delivered acts
  end.

Definition is_drop (a : net_act) : bool := match a with NDrop _ => true | _ => false end.

(** No piece is larger than the limit, and no piece is empty. *)
Definition piece_ok (limit : Z) (a : net_act) : Prop :=
  match a with
  | NDrop bs | NSend bs => 0 < Z.of_nat (length bs) <= limit
  | NSleep s ns => 0 <= ns < 1000000000 /\ 0 <= s
  | NShutdown _ => True
  end.

Lemma pieces_app a b : pieces (a ++ b) = pieces a ++ pieces b.
Proof. induction a as [|[] a IH]; cbn; rewrite ?IH, ?app_assoc; done. Qed.

Lemma delivered_app a b : delivered (a ++ b) = delivered a ++ delivered b.
Proof. induction a as [|[] a IH]; cbn; rewrite ?IH, ?app_assoc; done. Qed.

Lemma delivered_pieces a : delivered a `sublist_of` pieces a.
Proof.
  induction a as [|[] a IH]; cbn; [constructor|by apply sublist_inserts_l|done| |done].
  by apply sublist_app.
Qed.

Lemma delivered_no_drop a : Forall (fun x => is_drop x = false) a -> delivered a = pieces a.
Proof. induction 1 as [|[] a H _ IH]; cbn; [done|done|done|by rewrite IH|done]. Qed.

Lemma apply_delay_shape rng lo hi :
  Forall (fun x => is_drop x = false) (apply_delay rng lo hi).1 /\
  pieces (apply_delay rng lo hi).1 = [] /\
  Forall (piece_ok 1) (apply_delay rng lo hi).1.
Proof.
  unfold apply_delay. destruct (if _ =? 0 then _ else _) as [r rng']. cbn [fst].
  pose proof (u64_range (lo + r)). destruct (u64 (lo + r) =? 0); cbn.
  - split_and!; constructor.
  - split_and!; [by repeat constructor|done|]. repeat constructor; cbn; zlia.
Qed.

Lemma piece_ok_mono l l' a : l <= l' -> piece_ok l a -> piece_ok l' a.
Proof. destruct a; cbn; lia. Qed.

(** The length of the next piece. *)
Lemma this_bounds cm (buf : list Z) :
  0 < cm -> buf <> [] ->
  let this := Z.to_nat (if cm <? Z.of_nat (length buf) then cm else Z.of_nat (length buf)) in
  (0 < this <= length buf)%nat /\ Z.of_nat this <= cm.
Proof. intros Hc Hb. destruct buf; [done|]. cbn. destruct (Z.ltb_spec cm (Z.of_nat (S (length buf)))); lia. Qed.

(** The bytes of the sleeps before a piece. *)
Lemma delay_shape (k : chaos_net_knobs_t) rng slept rng' :
  (if 0 <? delay_max_ns k then apply_delay rng (delay_min_ns k) (delay_max_ns k) else ([], rng))
  = (slept, rng') ->
  Forall (fun x => is_drop x = false) slept /\ pieces slept = [] /\ Forall (piece_ok 1) slept.
Proof.
  destruct (0 <? delay_max_ns k); [|intros [= <- <-]; split_and!; constructor].
  pose proof (apply_delay_shape rng (delay_min_ns k) (delay_max_ns k)) as H.
  intros E. by rewrite E in H.
Qed.

Lemma forward_chunks_spec fuel k cm rng buf ws acts rng' ws' e :
  (length buf < fuel)%nat -> 0 < cm ->
  forward_chunks fuel k cm rng buf ws = (acts, rng', ws', e) ->
  e <> FwdNoFuel /\
  (exists rest, buf = pieces acts ++ rest /\ (e = FwdNext <-> rest = [])) /\
  Forall (piece_ok cm) acts /\
  (SFltb d_zero (loss_prob k) = false -> Forall (fun x => is_drop x = false) acts).
Proof.
  intros Hf Hc. revert rng buf ws acts Hf. induction fuel as [|fuel IH]; intros rng buf ws acts Hf; [lia|].
  cbn [forward_chunks]. destruct buf as [|b buf'].
  { intros [= <- <- <- <-]. split_and!; [done|by exists []|constructor|constructor]. }
  set (buf := b :: buf') in *. pose proof (this_bounds cm buf Hc ltac:(done)) as [Ht Hm].
  set (this := Z.to_nat _) in *. cbv zeta.
  destruct (if SFltb d_zero (loss_prob k) then rand_unit rng else (d_one, rng)) as [u rng1].
  destruct (SFltb d_zero (loss_prob k) && SFltb u (loss_prob k)) eqn:El.
  - destruct (forward_chunks fuel k cm rng1 (drop this buf) ws) as [[[acts1 rng2] ws2] e2] eqn:E.
    intros [= <- <- <- <-]. apply IH in E as (He & (rest & Hr & Hn) & Hp & Hd);
      [|rewrite length_drop; lia].
    split_and!; [done| | |].
    + exists rest. split; [|done]. cbn [pieces]. by rewrite <- app_assoc, <- Hr, take_drop.
    + constructor; [|done]. cbn. rewrite length_take_lt by lia. lia.
    + intros Hz. by rewrite Hz in El.
  - destruct (if 0 <? delay_max_ns k then _ else _) as [slept rng2] eqn:Es.
    apply delay_shape in Es as (Hs1 & Hs2 & Hs3).
    assert (Hs3' : Forall (piece_ok cm) slept).
    { eapply Forall_impl; [exact Hs3|]. intros. by apply (piece_ok_mono 1); [lia|]. }
    destruct ws as [|w ws].
    { intros [= <- <- <- <-]. split_and!; [done|exists buf; by rewrite Hs2|done|done]. }
    destruct (Z.leb_spec w 0).
    { intros [= <- <- <- <-]. split_and!; [done|exists buf; by rewrite Hs2|done|done]. }
    set (m := Nat.min (Z.to_nat w) this).
    destruct (forward_chunks fuel k cm rng2 (drop m buf) ws) as [[[acts1 rng3] ws3] e3] eqn:E.
    intros [= <- <- <- <-]. apply IH in E as (He & (rest & Hr & Hn) & Hp & Hd);
      [|rewrite length_drop; lia].
    split_and!; [done| | |].
    + exists rest. split; [|done]. rewrite pieces_app, Hs2. cbn [pieces app].
      by rewrite <- app_assoc, <- Hr, take_drop.
    + apply Forall_app. split; [done|]. constructor; [|done]. cbn. rewrite length_take_lt by lia. lia.
    + intros Hz. apply Forall_app. split; [done|]. constructor; [done|auto].
Qed.

Lemma chunk_limit_pos k (buf : list Z) : buf <> [] -> 0 < chunk_limit k (length buf).
Proof. destruct buf; [done|]. unfold chunk_limit. cbn [length]. destruct (Z.ltb_spec 0 (max_chunk_bytes k)); lia. Qed.

(** The largest piece the inputs allow. *)
Definition limit_of (ins : list (list Z * chaos_net_knobs_t)) : Z :=
  foldr (fun '(buf, k) m => Z.max (chunk_limit k (length buf)) m) 0 ins.

Lemma piece_mono_Forall l l' acts : l <= l' -> Forall (piece_ok l) acts -> Forall (piece_ok l') acts.
Proof. intros Hl H. eapply Forall_impl; [exact H|]. intros a. by apply piece_ok_mono. Qed.

Lemma forward_fn_spec fd rng ins ws acts rng' e :
  Forall (fun i => i.1 <> []) ins ->
  forward_fn fd rng ins ws = (acts, rng', e) ->
  e <> FwdNoFuel /\
  (exists rest, concat (map fst ins) = pieces acts ++ rest /\ (e = FwdNext -> rest = [])) /\
  Forall (piece_ok (limit_of ins)) acts /\
  (e <> FwdBlocked -> last acts = Some (NShutdown fd)) /\
  (Forall (fun i => SFltb d_zero (loss_prob i.2) = false) ins -> Forall (fun x => is_drop x = false) acts).
Proof.
  revert rng ws acts rng' e. induction ins as [|[buf k] ins IH]; intros rng ws acts rng' e Hne; cbn [forward_fn].
  { intros [= <- <- <-]. split_and!; [done|by exists []|by repeat constructor|done|by repeat constructor]. }
  apply Forall_cons in Hne as [Hb Hne]. cbn [fst] in Hb.
  destruct (forward_chunks _ k _ rng buf ws) as [[[acts1 rng1] ws1] e1] eqn:E1.
  apply forward_chunks_spec in E1 as (He1 & (rest1 & Hr1 & Hn1) & Hp1 & Hd1);
    [|lia|by apply chunk_limit_pos].
  cbn [map concat fst]. change (limit_of ((buf, k) :: ins)) with (Z.max (chunk_limit k (length buf)) (limit_of ins)).
  destruct e1; try done.
  - destruct (forward_fn fd rng1 ins ws1) as [[more rng2] e2] eqn:E2. intros [= <- <- <-].
    apply IH in E2 as (He2 & (rest2 & Hr2 & Hn2) & Hp2 & Hl2 & Hd2); [|done].
    rewrite (proj1 Hn1 eq_refl), app_nil_r in Hr1. split_and!; [done| | | |].
    + exists rest2. split; [|done]. by rewrite pieces_app, Hr2, Hr1, app_assoc.
    + apply Forall_app. split; [apply (piece_mono_Forall (chunk_limit k (length buf)))|
        apply (piece_mono_Forall (limit_of ins))]; try done; lia.
    + intros H. rewrite last_app. by rewrite Hl2.
    + intros [H1 H2]%Forall_cons. apply Forall_app. auto.
  - intros [= <- <- <-]. split_and!; [done| | | |].
    + exists (rest1 ++ concat (map fst ins)). split; [|done]. rewrite pieces_app. cbn. rewrite app_nil_r, app_assoc. by rewrite Hr1.
    + apply Forall_app. split; [|by repeat constructor].
      apply (piece_mono_Forall (chunk_limit k (length buf))); [lia|done].
    + intros _. by rewrite last_app.
    + intros [H1 H2]%Forall_cons. apply Forall_app. split; [auto|by repeat constructor].
  - intros [= <- <- <-]. split_and!; [done| | |done|].
    + exists (rest1 ++ concat (map fst ins)). split; [|done]. rewrite app_assoc. by rewrite Hr1.
    + apply (piece_mono_Forall (chunk_limit k (length buf))); [lia|done].
    + intros [H1 H2]%Forall_cons. auto.
Qed.

(** *** Read by read, write by write *)

(** The pieces sent, in order. *)
Fixpoint sent_pieces (acts : list net_act) : list (list Z) :=
  match acts with [] => [] | NSend bs :: acts => bs :: sent_pieces acts | _ :: acts => sent_pieces acts end.

Lemma sent_pieces_app a b : sent_pieces (a ++ b) = sent_pieces a ++ sent_pieces b.
Proof. induction a as [|[] a IH]; cbn; rewrite ?IH; done. Qed.

(** A write that took a piece. *)
Definition takes (bs : list Z) (w : Z) : Prop := 0 < w /\ Z.of_nat (length bs) <= w.

(** The results of the writes after those that took something: the loop runs out of
    input, meets a write that failed, or is inside one. *)
Definition stopped (e : fwd_end) (tail : list Z) : Prop :=
  match e with
  | FwdNext => True
  | FwdOut => exists w rest, tail = w :: rest /\ w <= 0
  | FwdBlocked => tail = []
  | FwdNoFuel => False
  end.

(** What is done for one read: no piece exceeds the limit of its knobs, and
    nothing is dropped when they lose nothing. *)
Definition seg_ok (i : list Z * chaos_net_knobs_t) (seg : list net_act) : Prop :=
  Forall (piece_ok (chunk_limit i.2 (length i.1))) seg /\
  (SFltb d_zero (loss_prob i.2) = false -> Forall (fun x => is_drop x = false) seg).

(** The segments of the reads: all of them whole, or the last one cut short. *)
Inductive segments : list (list Z * chaos_net_knobs_t) -> list (list net_act) -> bool -> Prop :=
| SegDone : segments [] [] true
| SegWhole i ins seg segs whole :
    seg_ok i seg -> pieces seg = i.1 -> segments ins segs whole -> segments (i :: ins) (seg :: segs) whole
| SegCut i ins seg rest :
    seg_ok i seg -> i.1 = pieces seg ++ rest -> rest <> [] -> segments (i :: ins) [seg] false.

Definition ends_whole (e : fwd_end) : bool := match e with FwdNext => true | _ => false end.
Definition closing_acts (fd : Z) (e : fwd_end) : list net_act :=
  match e with FwdBlocked | FwdNoFuel => [] | _ => [NShutdown fd] end.

Lemma sent_pieces_quiet acts : pieces acts = [] -> Forall (piece_ok 1) acts -> sent_pieces acts = [].
Proof.
  induction acts as [|[bs|? ?|bs|] acts IH]; cbn; intros Hp Hf; apply Forall_cons in Hf || idtac; try done;
    destruct Hf as [Hb Hf]; try by apply IH.
  all: apply app_nil in Hp as [-> Hp]; cbn in Hb; lia.
Qed.

Lemma forward_chunks_writes fuel k cm rng buf ws acts rng' ws' e :
  (length buf < fuel)%nat -> 0 < cm ->
  forward_chunks fuel k cm rng buf ws = (acts, rng', ws', e) ->
  exists taken tail, ws = taken ++ tail /\ Forall2 takes (sent_pieces acts) taken /\ stopped e tail /\
    (e = FwdNext -> tail = ws').
Proof.
  intros Hf Hc. revert rng buf ws acts Hf. induction fuel as [|fuel IH]; intros rng buf ws acts Hf; [lia|].
  cbn [forward_chunks]. destruct buf as [|b buf'].
  { intros [= <- <- <- <-]. exists [], ws. by split_and!. }
  set (buf := b :: buf') in *. pose proof (this_bounds cm buf Hc ltac:(done)) as [Ht Hm].
  set (this := Z.to_nat _) in *. cbv zeta.
  destruct (if SFltb d_zero (loss_prob k) then rand_unit rng else (d_one, rng)) as [u rng1].
  destruct (SFltb d_zero (loss_prob k) && SFltb u (loss_prob k)).
  - destruct (forward_chunks fuel k cm rng1 (drop this buf) ws) as [[[acts1 rng2] ws2] e2] eqn:E.
    intros [= <- <- <- <-]. by apply IH in E; [|rewrite length_drop; lia].
  - destruct (if 0 <? delay_max_ns k then _ else _) as [slept rng2] eqn:Es.
    apply delay_shape in Es as (_ & Hs2 & Hs3). pose proof (sent_pieces_quiet _ Hs2 Hs3) as Hs.
    destruct ws as [|w ws].
    { intros [= <- <- <- <-]. exists [], []. by rewrite Hs. }
    destruct (Z.leb_spec w 0).
    { intros [= <- <- <- <-]. exists [], (w :: ws). rewrite Hs. split_and!; [done..|by exists w, ws|done]. }
    set (m := Nat.min (Z.to_nat w) this).
    destruct (forward_chunks fuel k cm rng2 (drop m buf) ws) as [[[acts1 rng3] ws3] e3] eqn:E.
    intros [= <- <- <- <-]. apply IH in E as (taken & tail & -> & Hf2 & Hst & Hn); [|rewrite length_drop; lia].
    exists (w :: taken), tail. rewrite sent_pieces_app, Hs. split_and!; [done| |done|done].
    constructor; [|done]. split; [done|]. rewrite length_take. lia.
Qed.

Lemma forward_fn_segments fd rng ins ws acts rng' e :
  Forall (fun i => i.1 <> []) ins ->
  forward_fn fd rng ins ws = (acts, rng', e) ->
  (exists segs, acts = concat segs ++ closing_acts fd e /\ segments ins segs (ends_whole e)) /\
  (exists taken tail, ws = taken ++ tail /\ Forall2 takes (sent_pieces acts) taken /\ stopped e tail).
Proof.
  revert rng ws acts rng' e. induction ins as [|[buf k] ins IH]; intros rng ws acts rng' e Hne; cbn [forward_fn].
  { intros [= <- <- <-]. split; [exists []; split; [done|constructor]|]. by exists [], ws. }
  apply Forall_cons in Hne as [Hb Hne]. cbn [fst] in Hb.
  destruct (forward_chunks _ k _ rng buf ws) as [[[acts1 rng1] ws1] e1] eqn:E1.
  pose proof E1 as Hw. apply forward_chunks_writes in Hw as (taken & tail & -> & Hf & Hst & Htl);
    [|lia|by apply chunk_limit_pos].
  apply forward_chunks_spec in E1 as (He1 & (rest1 & Hr1 & Hn1) & Hp1 & Hd1);
    [|lia|by apply chunk_limit_pos].
  assert (Hseg : seg_ok (buf, k) acts1) by by split.
  assert (Hcut : e1 <> FwdNext -> segments ((buf, k) :: ins) [acts1] false).
  { intros Hx. apply (SegCut (buf, k) ins acts1 rest1); [done|done|]. intros ->. by apply Hx, Hn1. }
  destruct e1; try done.
  - destruct (forward_fn fd rng1 ins ws1) as [[more rng2] e2] eqn:E2. intros [= <- <- <-].
    rewrite (Htl eq_refl) in *. apply IH in E2 as [(segs & -> & Hs) (taken2 & tail2 & -> & Hf2 & Hst2)]; [|done].
    rewrite (proj1 Hn1 eq_refl), app_nil_r in Hr1. split.
    + exists (acts1 :: segs). cbn. rewrite app_assoc. split; [done|]. by constructor.
    + exists (taken ++ taken2), tail2. rewrite app_assoc, sent_pieces_app. split_and!; [done| |done].
      by apply Forall2_app.
  - intros [= <- <- <-]. split; [exists [acts1]; cbn; rewrite app_nil_r; auto|].
    exists taken, tail. by rewrite sent_pieces_app, app_nil_r.
  - intros [= <- <- <-]. split; [exists [acts1]; cbn; rewrite !app_nil_r; auto|]. by exists taken, tail.
Qed.

(** Writes that all succeed, enough of them: the buffer goes through. *)
Lemma forward_chunks_done fuel k cm rng buf ws :
  (length buf < fuel)%nat -> 0 < cm -> Forall (fun w => 0 < w) ws -> (length buf <= length ws)%nat ->
  exists acts rng' ws', forward_chunks fuel k cm rng buf ws = (acts, rng', ws', FwdNext) /\
    Forall (fun w => 0 < w) ws' /\ (length ws <= length ws' + length buf)%nat.
Proof.
  intros Hf Hc. revert rng buf ws Hf. induction fuel as [|fuel IH]; intros rng buf ws Hf Hw Hl; [lia|].
  cbn [forward_chunks]. destruct buf as [|b buf']; [by eexists _, _, _; split_and!; [done|done|lia]|].
  set (buf := b :: buf') in *. pose proof (this_bounds cm buf Hc ltac:(done)) as [Ht Hm].
  set (this := Z.to_nat _) in *. cbv zeta.
  destruct (if SFltb d_zero (loss_prob k) then rand_unit rng else (d_one, rng)) as [u rng1].
  destruct (SFltb d_zero (loss_prob k) && SFltb u (loss_prob k)).
  - destruct (IH rng1 (drop this buf) ws) as (acts & rng' & ws' & -> & Hw' & Hl');
      [rewrite length_drop; lia|done|rewrite length_drop; lia|].
    eexists _, _, _. split; [done|]. split; [done|]. rewrite length_drop in Hl'. lia.
  - destruct (if 0 <? delay_max_ns k then _ else _) as [slept rng2].
    destruct ws as [|w ws]; [cbn in Hl; lia|]. apply Forall_cons in Hw as [Hw0 Hw].
    rewrite (proj2 (Z.leb_gt w 0)) by done. set (m := Nat.min (Z.to_nat w) this).
    assert (1 <= m <= length buf)%nat by lia. change (length (w :: ws)) with (S (length ws)) in *.
    destruct (IH rng2 (drop m buf) ws) as (acts & rng' & ws' & -> & Hw' & Hl');
      [rewrite length_drop; lia|done|rewrite length_drop; lia|].
    eexists _, _, _. split; [done|]. split; [done|]. rewrite length_drop in Hl'. lia.
Qed.

Lemma forward_fn_done fd rng ins ws :
  Forall (fun i => i.1 <> []) ins -> Forall (fun w => 0 < w) ws ->
  (length (concat (map fst ins)) <= length ws)%nat ->
  exists acts rng', forward_fn fd rng ins ws = (acts, rng', FwdNext).
Proof.
  revert rng ws. induction ins as [|[buf k] ins IH]; intros rng ws Hne Hw Hl; cbn [forward_fn].
  { by eexists _, _. }
  apply Forall_cons in Hne as [Hb Hne]. cbn [fst map concat] in *. rewrite length_app in Hl.
  destruct (forward_chunks_done (S (length buf)) k (chunk_limit k (length buf)) rng buf ws)
    as (acts & rng' & ws' & -> & Hw' & Hl'); [lia|by apply chunk_limit_pos|done|lia|].
  destruct (IH rng' ws') as (more & rng2 & ->); [done|done|lia|]. by eexists _, _.
Qed.

(** ** [rand_unit] is in [0, 1) *)

Lemma digits2_bounds p :
  2 ^ (Zpos (digits2_pos p) - 1) <= Zpos p < 2 ^ Zpos (digits2_pos p).
Proof.
  induction p as [p IH|p IH|]; cbn [digits2_pos]; [| |done].
  all: rewrite Pos2Z.inj_succ, Z.pow_succ_r by lia.
  all: replace (Z.succ (Zpos (digits2_pos p)) - 1) with (Z.succ (Zpos (digits2_pos p) - 1)) by lia.
  all: rewrite Z.pow_succ_r by lia; lia.
Qed.

Lemma digits2_shift p n : digits2_pos (Pos.iter xO p n) = (digits2_pos p + n)%positive.
Proof.
  induction n as [|n IH] using Pos.peano_ind; [by rewrite Pos.add_1_r|].
  rewrite Pos.iter_succ. cbn [digits2_pos]. rewrite IH. lia.
Qed.

Lemma iter_xO_mul p n : Zpos (Pos.iter xO p n) = Zpos p * 2 ^ Zpos n.
Proof.
  induction n as [|n IH] using Pos.peano_ind; [by rewrite Z.mul_comm|].
  rewrite Pos.iter_succ, Pos2Z.inj_succ, Z.pow_succ_r by lia.
  change (Zpos (xO (Pos.iter xO p n))) with (2 * Zpos (Pos.iter xO p n)). rewrite IH. lia.
Qed.

(** Rounding a 53-bit mantissa with a small exponent changes nothing. *)
Lemma round_53 m e :
  Zpos (digits2_pos m) = 53 -> - 1000 <= e <= 0 ->
  binary_round_aux 53 1024 false (Zpos m) e loc_Exact = S754_finite false m e.
Proof.
  intros Hd He. unfold binary_round_aux, shr_fexp, fexp, emin. cbn [Zdigits2]. rewrite Hd.
  replace (Z.max (53 + e - 53) (3 - 1024 - 53) - e) with 0 by lia.
  cbn [shr shr_record_of_loc shr_m loc_of_shr_record round_nearest_even Zdigits2]. rewrite Hd.
  replace (Z.max (53 + e - 53) (3 - 1024 - 53) - e) with 0 by lia.
  cbn [shr shr_m]. rewrite (proj2 (Z.leb_le e (1024 - 53))) by lia. done.
Qed.

Lemma round_54 m e :
  Zpos (digits2_pos m) = 53 -> - 1000 <= e <= 0 ->
  binary_round_aux 53 1024 false (Zpos (xO m)) e loc_Exact = S754_finite false m (e + 1).
Proof.
  intros Hd He. unfold binary_round_aux, shr_fexp, fexp, emin. cbn [Zdigits2 digits2_pos].
  rewrite Pos2Z.inj_succ, Hd.
  replace (Z.max (Z.succ 53 + e - 53) (3 - 1024 - 53) - e) with 1 by lia.
  cbn [shr shr_record_of_loc SpecFloat.iter_pos shr_1 orb shr_m loc_of_shr_record round_nearest_even Zdigits2].
  rewrite Hd. replace (Z.max (53 + (e + 1) - 53) (3 - 1024 - 53) - (e + 1)) with 0 by lia.
  cbn [shr shr_m]. rewrite (proj2 (Z.leb_le (e + 1) (1024 - 53))) by lia. done.
Qed.

(** The mantissa of a positive integer below 2^53, shifted to 53 bits. *)
Lemma d_of_Z_small p :
  Zpos p < 2 ^ 53 ->
  exists m e, d_of_Z (Zpos p) = S754_finite false m e /\ Zpos (digits2_pos m) = 53 /\ - 52 <= e <= 0.
Proof.
  intros Hp. pose proof (digits2_bounds p) as Hd.
  assert (Hd53 : Zpos (digits2_pos p) <= 53).
  { destruct (Z.le_gt_cases (Zpos (digits2_pos p)) 53) as [|Hgt]; [done|].
    pose proof (Z.pow_le_mono_r 2 53 (Zpos (digits2_pos p) - 1)). lia. }
  unfold d_of_Z, binary_normalize, binary_round, shl_align, fexp, emin. rewrite Z.add_0_r, Z.sub_0_r.
  replace (Z.max (Zpos (digits2_pos p) - 53) (3 - 1024 - 53)) with (Zpos (digits2_pos p) - 53) by lia.
  destruct (Zpos (digits2_pos p) - 53) as [|q|q] eqn:E; [|lia|].
  - exists p, 0. rewrite round_53 by lia. split_and!; [done|lia..].
  - exists (Pos.iter xO p q), (Zneg q).
    assert (Zpos (digits2_pos (Pos.iter xO p q)) = 53) by (rewrite digits2_shift; lia).
    rewrite round_53 by lia. split_and!; [done|lia..].
Qed.

Lemma d_2_53 : d_of_Z (Z.shiftl 1 53) = S754_finite false 4503599627370496 1.
Proof. reflexivity. Qed.

Lemma d_div_2_53 m e :
  Zpos (digits2_pos m) = 53 -> - 52 <= e <= 0 ->
  d_div (S754_finite false m e) (S754_finite false 4503599627370496 1) = S754_finite false m (e - 53).
Proof.
  intros Hd He. unfold d_div, SFdiv, SFdiv_core_binary.
  change (Zdigits2 4503599627370496) with 53. cbn [Zdigits2]. rewrite Hd. unfold fexp, emin.
  replace (Z.min (Z.max (53 + e - (53 + 1) - 53) (3 - 1024 - 53)) (e - 1)) with (e - 54) by lia.
  replace (e - 1 - (e - 54)) with 53 by lia. cbv iota.
  assert (Hs : Z.shiftl (Zpos m) 53 = Zpos (xO m) * 4503599627370496).
  { rewrite Z.shiftl_mul_pow2 by lia. change (Zpos (xO m)) with (2 * Zpos m). lia. }
  pose proof (Z_div_mod (Z.shiftl (Zpos m) 53) 4503599627370496 ltac:(lia)) as Hq.
  destruct (Z.div_eucl _ _) as [q r]. rewrite Hs in Hq. destruct Hq as [Hq Hr].
  assert (q = Zpos (xO m) /\ r = 0) as [-> ->] by lia.
  change (new_location 4503599627370496 0) with loc_Exact. cbn [xorb].
  rewrite round_54 by lia. f_equal. lia.
Qed.

(** The first component is [v / 2^53], exactly, below 1. *)
Lemma rand_unit_lt_1 r : xosh_wf r -> SFltb (rand_unit r).1 d_one = true.
Proof.
  intros Hr. unfold rand_unit. pose proof (pg_xosh_next_u64 r) as Hx.
  destruct (pg_xosh_next r) as [x r']. cbn [fst] in *. rewrite d_2_53.
  assert (Hv : 0 <= Z.shiftr x 11 < 2 ^ 53) by (rewrite Z.shiftr_div_pow2 by lia; zlia).
  destruct (Z.shiftr x 11) as [|p|p]; [reflexivity| |lia].
  destruct (d_of_Z_small p ltac:(lia)) as (m & e & -> & Hd & He).
  rewrite d_div_2_53 by done. change d_one with (S754_finite false 4503599627370496 (-52)).
  unfold SFltb, SFcompare. by rewrite (proj2 (Z.compare_lt_iff (e - 53) (-52))) by lia.
Qed.

Lemma rand_unit_wf r : xosh_wf r -> xosh_wf (rand_unit r).2.
Proof.
  intros Hr. unfold rand_unit. apply pg_xosh_next_wf in Hr. by destruct (pg_xosh_next r).
Qed.

Lemma forward_chunks_lost fuel k cm rng buf ws :
  (length buf < fuel)%nat -> 0 < cm -> loss_prob k = d_one -> xosh_wf rng ->
  exists acts rng', forward_chunks fuel k cm rng buf ws = (acts, rng', ws, FwdNext) /\
    xosh_wf rng' /\ Forall (fun a => is_drop a = true) acts.
Proof.
  intros Hf Hc Hk. revert rng buf Hf. induction fuel as [|fuel IH]; intros rng buf Hf Hr; [lia|].
  cbn [forward_chunks]. destruct buf as [|b buf']; [by eexists _, _|].
  set (buf := b :: buf') in *. pose proof (this_bounds cm buf Hc ltac:(done)) as [Ht Hm].
  set (this := Z.to_nat _) in *. cbv zeta. rewrite Hk. change (SFltb d_zero d_one) with true. cbv iota.
  pose proof (rand_unit_lt_1 rng Hr) as Hu. pose proof (rand_unit_wf rng Hr) as Hw.
  destruct (rand_unit rng) as [u rng1]. cbn [fst snd] in *. rewrite Hu. cbn [andb].
  destruct (IH rng1 (drop this buf)) as (acts & rng' & -> & Hw' & Hd); [rewrite length_drop; lia|done|].
  eexists _, _. split; [done|]. split; [done|]. by constructor.
Qed.

Lemma delivered_drops acts : Forall (fun a => is_drop a = true) acts -> delivered acts = [].
Proof. induction 1 as [|[] a H _ IH]; cbn; done. Qed.

Lemma forward_fn_lost fd rng ins ws :
  Forall (fun i => i.1 <> [] /\ loss_prob i.2 = d_one) ins -> xosh_wf rng ->
  exists acts rng', forward_fn fd rng ins ws = (acts, rng', FwdNext) /\ delivered acts = [].
Proof.
  revert rng. induction ins as [|[buf k] ins IH]; intros rng Hf Hr; cbn [forward_fn]; [by eexists _, _|].
  apply Forall_cons in Hf as [[Hb Hk] Hf]. cbn [fst snd] in *.
  destruct (forward_chunks_lost (S (length buf)) k (chunk_limit k (length buf)) rng buf ws)
    as (acts & rng1 & -> & Hr1 & Hd); [lia|by apply chunk_limit_pos|done|done|].
  destruct (IH rng1 Hf Hr1) as (more & rng2 & -> & Hm).
  eexists _, _. split; [done|]. by rewrite delivered_app, delivered_drops, Hm.
Qed.

(** ** Properties *)

(** C18: a forwarder keeps the stream in order: for any reads, knobs changing
    between reads, generator state and write results, what it does is one segment
    per read: the pieces it drops and sends in a segment are, in order, exactly
    the bytes of that read, none larger than the chunk limit of the knobs taken at
    that read, none dropped when these lose nothing.  Only the last segment may
    stop short, and then exactly because the write that follows the accepted ones
    answered zero or an error, or has not returned; each piece sent is one that
    its write accepted.  So what is dropped and sent is a prefix of what was read,
    all of it when the loop ends at the end of its input, and the bytes delivered
    are a subsequence.  Every sleep is a valid [timespec]; the loop always
    terminates, and it ends by shutting down the far side unless it is inside a
    write.  Without loss, and with every write accepting something, the far side
    receives exactly the input. *)
Theorem forwarder_stream fd rng ins ws :
  Forall (fun i => i.1 <> []) ins ->
  let '(acts, _, e) := forward_fn fd rng ins ws in
  (exists segs, acts = concat segs ++ closing_acts fd e /\ segments ins segs (ends_whole e)) /\
  (exists taken tail, ws = taken ++ tail /\ Forall2 takes (sent_pieces acts) taken /\ stopped e tail) /\
  e <> FwdNoFuel /\
  pieces acts `prefix_of` concat (map fst ins) /\
  (e = FwdNext -> pieces acts = concat (map fst ins)) /\
  delivered acts `sublist_of` pieces acts /\
  Forall (piece_ok (limit_of ins)) acts /\
  (e <> FwdBlocked -> last acts = Some (NShutdown fd)) /\
  (Forall (fun i => SFltb d_zero (loss_prob i.2) = false) ins ->
   Forall (fun w => 0 < w) ws -> (length (concat (map fst ins)) <= length ws)%nat ->
   delivered acts = concat (map fst ins)).
Proof.
  intros Hne. destruct (forward_fn fd rng ins ws) as [[acts rng'] e] eqn:E.
  pose proof (forward_fn_spec fd rng ins ws acts rng' e Hne E) as (He & (rest & Hr & Hn) & Hp & Hl & Hd).
  destruct (forward_fn_segments fd rng ins ws acts rng' e Hne E) as [Hsegs Hws].
  split_and!; [done|done|done|by exists rest| |apply delivered_pieces|done|done|].
  { intros He'. by rewrite Hr, (Hn He'), app_nil_r. }
  intros Hz Hw Hlen. destruct (forward_fn_done fd rng ins ws Hne Hw Hlen) as (a & r & E').
  rewrite E' in E. injection E as -> -> <-.
  rewrite delivered_no_drop by auto. by rewrite Hr, Hn, app_nil_r.
Qed.

Lemma forwarder_stream_witness :
  let '(acts, _, e) := forward_fn 9 (pg_xosh_seed 42)
     [([1; 2; 3; 4; 5], NetKnobs d_zero 0 0 2); ([6; 7], zero_knobs)] (replicate 10 4) in
  e <> FwdNoFuel /\ delivered acts = [1; 2; 3; 4; 5; 6; 7].
Proof.
  pose proof (forwarder_stream 9 (pg_xosh_seed 42)
    [([1; 2; 3; 4; 5], NetKnobs d_zero 0 0 2); ([6; 7], zero_knobs)] (replicate 10 4)) as H.
  destruct (forward_fn _ _ _ _) as [[acts r] e].
  destruct H as (_ & _ & He & _ & _ & _ & _ & _ & Hd); [by repeat constructor|]. split; [exact He|].
  apply Hd; [by repeat constructor|by repeat constructor|cbn; lia].
Defined.

(** A full partition delivers nothing: with a loss probability of 1.0 in
    force at every read, whatever the seed, the delays and the fragment size,
    every chunk is dropped, no write is attempted, and the forwarder still
    drains its input and ends normally.  (The unit draw is the top 53 bits
    divided by 2^53, which the double arithmetic keeps strictly below 1.0.) *)
Theorem full_loss_delivers_nothing fd seed n ins ws :
  Forall (fun i => i.1 <> [] /\ loss_prob i.2 = d_one) ins ->
  exists acts rng', forward_fn fd (xosh_draws n (pg_xosh_seed seed)).2 ins ws = (acts, rng', FwdNext) /\
    delivered acts = [].
Proof. intros Hf. apply forward_fn_lost; [done|]. apply xosh_draws_live, pg_xosh_seed_live. Qed.

Lemma full_loss_delivers_nothing_witness :
  exists acts rng', forward_fn 9 (xosh_draws 0 (pg_xosh_seed 42)).2
      [([1; 2; 3], NetKnobs d_one 0 0 8)] [8] = (acts, rng', FwdNext) /\ delivered acts = [].
Proof. apply full_loss_delivers_nothing. by repeat constructor. Defined.

(** The descriptors [chaos_net_pair] obtained. *)
Definition opened (e : pair_env) : list Z :=
  match pe_sp1 e with
  | None => []
  | Some (a, b) => [a; b] ++ match pe_sp2 e with Some (c, d) => [c; d] | None => [] end
  end.

(** Pairs leak nothing: for every combination of failures, when
    [chaos_net_pair] fails it has closed exactly the descriptors it obtained;
    when it succeeds it has closed none, the two forwarders connect the user
    sides crosswise, and [chaos_net_close] closes each of the four exactly once,
    a second call none. *)
Theorem net_pair_no_leak k seed e :
  Forall (fun fd => 0 <= fd) (opened e) ->
  match chaos_net_pair k seed e with
  | (rc, out, closed) =>
      (rc = -1 -> closed = opened e) /\
      (rc <> -1 -> rc = 0 /\ closed = [] /\
         exists p P, out = Some p /\ _internal p = Some P /\
           opened e = [fd_a p; proxy_a P; proxy_b P; fd_b p] /\
           fa_src_fd (fa_a_to_b P) = proxy_a P /\ fa_dst_fd (fa_a_to_b P) = proxy_b P /\
           fa_src_fd (fa_b_to_a P) = proxy_b P /\ fa_dst_fd (fa_b_to_a P) = proxy_a P /\
           exists q, (chaos_net_close (Some p)).1 = Some q /\
                     (chaos_net_close (Some p)).2 ≡ₚ opened e /\ (chaos_net_close (Some q)).2 = [])
  end.
Proof.
  unfold opened, chaos_net_pair. destruct (pe_sp1 e) as [[a b]|]; [|done].
  destruct (pe_sp2 e) as [[c d]|]; [|done].
  intros [Ha [Hb [Hc [Hd _]%Forall_cons]%Forall_cons]%Forall_cons]%Forall_cons.
  destruct (pe_calloc e); [|done]. destruct (pe_thread1 e); [|done]. destruct (pe_thread2 e); [|done].
  split; [done|]. intros _. split_and!; [done|done|]. eexists _, _. cbn [app].
  split_and!; [done..|]. cbn [chaos_net_close _internal fd_a fd_b proxy_a proxy_b].
  rewrite !(proj2 (Z.leb_le _ _)) by done. eexists. cbn [fst snd app].
  split_and!; [done| |done]. solve_Permutation.
Qed.

Lemma net_pair_no_leak_witness :
  (let '(rc, _, closed) := chaos_net_pair None 42 (PairEnv (Some (3, 4)) (Some (5, 6)) true true false) in
   rc = -1 /\ closed = [3; 4; 5; 6]).
Proof.
  pose proof (net_pair_no_leak None 42 (PairEnv (Some (3, 4)) (Some (5, 6)) true true false)) as H.
  destruct (chaos_net_pair _ _ _) as [[rc out] closed] eqn:E. destruct H as [H _]; [by repeat constructor|].
  cbn in E. assert (rc = -1) by congruence. split; [done|]. by apply H.
Defined.
