(* ===== verification/NetClose.v ===== *)
(** * Closing a pair (src/chaos/chaos_net.c)

    [chaos_net_close] against the two forwarders and the threads that may still
    be reading the user sides, one system call a step, in every interleaving:
    how much data is where is counted in bytes, what the bytes are does not
    matter. *)

From S2P Require Import Prelude.

#[local] Open Scope nat_scope.

(** ** The parties *)

(** A forwarder: before its [read], in its chunk loop, before the [shutdown],
    returned. *)
(* @ src/chaos/chaos_net.c:54-101 forward_fn *)
Inductive fwd_pc := FpRead | FpWrite | FpOut | FpOver.

#[export] Instance fwd_pc_eq_dec : EqDecision fwd_pc.
Proof. solve_decision. Defined.

(** One direction: bytes the user has written and the forwarder has not read,
    bytes it has read and not passed on, where it is, bytes waiting for the user
    at the other end. *)
Record direction := Dir { dr_in : nat; dr_hold : nat; dr_pc : fwd_pc; dr_out : nat }.

(** A user side: whether its descriptor is open, and whether a thread sits in a
    [read] of it (which keeps the socket alive when the descriptor is closed, and
    is not woken by that). *)
Record user_side := Side { us_open : bool; us_reader : bool }.

(** Where [chaos_net_close] is: before each [close], before each [pthread_join],
    before it closes the proxies and frees the pair. *)
(* @ src/chaos/chaos_net.c:163-177 chaos_net_close *)
Inductive close_pc := CkA | CkB | CkJoinAB | CkJoinBA | CkFree | CkDone.

Record closing := Closing {
  cg_ab : direction;
  cg_ba : direction;
  cg_a : user_side;
  cg_b : user_side;
  cg_pc : close_pc;
  cg_killed : bool         (* the process has died from SIGPIPE *)
}.

(** The direction that leaves side A ([true]) or B, and the sides. *)
Definition dir_from (d : bool) (s : closing) : direction := if d then cg_ab s else cg_ba s.
Definition side_of (d : bool) (s : closing) : user_side := if d then cg_a s else cg_b s.

Definition set_dir (d : bool) (x : direction) (s : closing) : closing :=
  if d then Closing x (cg_ba s) (cg_a s) (cg_b s) (cg_pc s) (cg_killed s)
  else Closing (cg_ab s) x (cg_a s) (cg_b s) (cg_pc s) (cg_killed s).
Definition set_side (d : bool) (x : user_side) (s : closing) : closing :=
  if d then Closing (cg_ab s) (cg_ba s) x (cg_b s) (cg_pc s) (cg_killed s)
  else Closing (cg_ab s) (cg_ba s) (cg_a s) x (cg_pc s) (cg_killed s).
Definition set_pc (p : close_pc) (s : closing) : closing :=
  Closing (cg_ab s) (cg_ba s) (cg_a s) (cg_b s) p (cg_killed s).
Definition set_killed (s : closing) : closing :=
  Closing (cg_ab s) (cg_ba s) (cg_a s) (cg_b s) (cg_pc s) true.

(** The socket of a side is released. *)
Definition gone (u : user_side) : bool := negb (us_open u) && negb (us_reader u).

Inductive close_choice :=
| CcRead (d : bool) (n : nat)      (* the forwarder reads [n] bytes *)
| CcEof (d : bool)                 (* or nothing *)
| CcDrop (d : bool) (n : nat)      (* loses a chunk *)
| CcWrite (d : bool) (n : nat)     (* has [n] bytes accepted *)
| CcRefused (d : bool)             (* writes to a released socket *)
| CcShutdown (d : bool)
| CcWake (d : bool)                (* the reader of side [d] gets something *)
| CcClose.

(** [ignored]: whether SIGPIPE is; [cap]: the bytes a socket buffers. *)
Section Close.
Variables (ignored : bool) (cap : nat).

(** After [n] bytes of the buffer are dealt with. *)
Definition dir_after (x : direction) (n sent : nat) : direction :=
  Dir (dr_in x) (dr_hold x - n) (if dr_hold x - n =? 0 then FpRead else FpWrite) (dr_out x + sent).

(* @ src/chaos/chaos_net.c:61-100 forward_fn *)
Definition forward_do (d : bool) (c : close_choice) (s : closing) : option closing :=
  let x := dir_from d s in
  match dr_pc x, c with
  | FpRead, CcRead _ n =>
      if (1 <=? n) && (n <=? dr_in x) then Some (set_dir d (Dir (dr_in x - n) n FpWrite (dr_out x)) s) else None
  | FpRead, CcEof _ =>
      if (dr_in x =? 0) && gone (side_of d s) then Some (set_dir d (Dir 0 (dr_hold x) FpOut (dr_out x)) s) else None
  | FpWrite, CcDrop _ n =>
      if (1 <=? n) && (n <=? dr_hold x) then Some (set_dir d (dir_after x n 0) s) else None
  | FpWrite, CcWrite _ n =>
      if (1 <=? n) && (n <=? dr_hold x) && (dr_out x + n <=? cap) && negb (gone (side_of (negb d) s))
      then Some (set_dir d (dir_after x n n) s) else None
  | FpWrite, CcRefused _ =>
      if gone (side_of (negb d) s) then
        Some (if ignored then set_dir d (Dir (dr_in x) (dr_hold x) FpOut (dr_out x)) s else set_killed s)
      else None
  | FpOut, CcShutdown _ => Some (set_dir d (Dir (dr_in x) (dr_hold x) FpOver (dr_out x)) s)
  | _, _ => None
  end.

(** A thread in [read] of side [d]: it takes what is there and reads again if the
    descriptor is still open, and ends at the end of the stream. *)
(* @ src/scenarios/compound/flaky_environment.c:30-33 drain_fn *)
Definition wake_do (d : bool) (s : closing) : option closing :=
  let u := side_of d s in let x := dir_from (negb d) s in
  if us_reader u then
    if 0 <? dr_out x then
      Some (set_side d (Side (us_open u) (us_open u)) (set_dir (negb d) (Dir (dr_in x) (dr_hold x) (dr_pc x) 0) s))
    else match dr_pc x with FpOver => Some (set_side d (Side (us_open u) false) s) | _ => None end
  else None.

(* @ src/chaos/chaos_net.c chaos_net_close *)
Definition closer_do (s : closing) : option closing :=
  match cg_pc s with
  | CkA => Some (set_pc CkB (set_side true (Side false (us_reader (cg_a s))) s))
  | CkB => Some (set_pc CkJoinAB (set_side false (Side false (us_reader (cg_b s))) s))
  | CkJoinAB => match dr_pc (cg_ab s) with FpOver => Some (set_pc CkJoinBA s) | _ => None end
  | CkJoinBA => match dr_pc (cg_ba s) with FpOver => Some (set_pc CkFree s) | _ => None end
  | CkFree => Some (set_pc CkDone s)
  | CkDone => None
  end.

Definition close_do (c : close_choice) (s : closing) : option closing :=
  if cg_killed s then None
  else match c with
  | CcClose => closer_do s
  | CcWake d => wake_do d s
  | CcRead d _ | CcEof d | CcDrop d _ | CcWrite d _ | CcRefused d | CcShutdown d => forward_do d c s
  end.

Definition close_step (s s' : closing) : Prop := exists c, close_do c s = Some s'.

Fixpoint close_steps (cs : list close_choice) (s : closing) : option closing :=
  match cs with [] => Some s | c :: cs => s ← close_do c s; close_steps cs s end.

(** *** Every step is progress *)

Definition pc_weight (p : fwd_pc) : nat := match p with FpRead | FpWrite => 2 | FpOut => 1 | FpOver => 0 end.
Definition dir_weight (x : direction) : nat := 4 * dr_in x + 2 * dr_hold x + dr_out x + pc_weight (dr_pc x).
Definition side_weight (u : user_side) : nat := if us_reader u then 1 else 0.
Definition close_weight (p : close_pc) : nat :=
  match p with CkA => 5 | CkB => 4 | CkJoinAB => 3 | CkJoinBA => 2 | CkFree => 1 | CkDone => 0 end.

(** What is left to do. *)
Definition close_measure (s : closing) : nat :=
  dir_weight (cg_ab s) + dir_weight (cg_ba s) + side_weight (cg_a s) + side_weight (cg_b s) + close_weight (cg_pc s) +
  (if cg_killed s then 0 else 1).

(** A forwarder out of its chunk loop holds nothing; the descriptors are closed
    before the joins, which wait for the forwarders. *)
Record close_inv (s : closing) : Prop := {
  cv_hold : forall d, dr_pc (dir_from d s) = FpRead -> dr_hold (dir_from d s) = 0;
  cv_write : forall d, dr_pc (dir_from d s) = FpWrite -> 0 < dr_hold (dir_from d s);
  cv_closed : match cg_pc s with
              | CkA => True
              | CkB => us_open (cg_a s) = false
              | _ => us_open (cg_a s) = false /\ us_open (cg_b s) = false
              end;
  cv_joined : match cg_pc s with
              | CkJoinBA => dr_pc (cg_ab s) = FpOver
              | CkFree | CkDone => dr_pc (cg_ab s) = FpOver /\ dr_pc (cg_ba s) = FpOver
              | _ => True
              end
}.

(** ** Lemmas *)

Lemma dir_set_dir d d' x s : dir_from d (set_dir d' x s) = if Bool.eqb d d' then x else dir_from d s.
Proof. by destruct d, d', s. Qed.
Lemma dir_set_side d d' u s : dir_from d (set_side d' u s) = dir_from d s.
Proof. by destruct d, d', s. Qed.
Lemma side_set_dir d d' x s : side_of d (set_dir d' x s) = side_of d s.
Proof. by destruct d, d', s. Qed.
Lemma side_set_side d d' u s : side_of d (set_side d' u s) = if Bool.eqb d d' then u else side_of d s.
Proof. by destruct d, d', s. Qed.
Lemma pc_set_dir d x s : cg_pc (set_dir d x s) = cg_pc s.
Proof. by destruct d. Qed.
Lemma pc_set_side d x s : cg_pc (set_side d x s) = cg_pc s.
Proof. by destruct d. Qed.

(** The measure, one direction apart. *)
Lemma measure_set_dir d x s :
  close_measure (set_dir d x s) + dir_weight (dir_from d s) = close_measure s + dir_weight x.
Proof. unfold close_measure. destruct d; cbn; lia. Qed.
Lemma measure_set_side d u s :
  close_measure (set_side d u s) + side_weight (side_of d s) = close_measure s + side_weight u.
Proof. unfold close_measure. destruct d; cbn; lia. Qed.

Lemma measure_set_pc p s : close_measure (set_pc p s) + close_weight (cg_pc s) = close_measure s + close_weight p.
Proof. unfold close_measure. cbn. lia. Qed.

(** What a forwarder's step does to its direction. *)
Lemma forward_do_cases d c s s' :
  forward_do d c s = Some s' ->
  (s' = set_killed s /\ dr_pc (dir_from d s) = FpWrite /\ ignored = false /\ gone (side_of (negb d) s) = true) \/
  exists x', s' = set_dir d x' s /\
    (dr_pc (dir_from d s) = FpRead -> dr_hold (dir_from d s) = 0 -> dir_weight x' < dir_weight (dir_from d s)) /\
    (dr_pc (dir_from d s) <> FpRead -> dir_weight x' < dir_weight (dir_from d s)) /\
    (dr_pc (dir_from d s) <> FpOver) /\
    (dr_pc x' = FpRead -> dr_hold x' = 0) /\ (dr_pc x' = FpWrite -> 0 < dr_hold x').
Proof.
  unfold forward_do. destruct (dir_from d s) as [i h [] o] eqn:E; cbn [dr_in dr_hold dr_pc dr_out];
    destruct c; try done; intros H.
  - destruct (Nat.leb_spec 1 n), (Nat.leb_spec n i); try done. injection H as <-. right. eexists. split; [done|].
    unfold dir_weight. cbn. split_and!; intros; first [congruence|lia].
  - destruct (Nat.eqb_spec i 0); [|done]. destruct (gone _); [|done]. injection H as <-. right.
    eexists. split; [done|]. unfold dir_weight. cbn. split_and!; intros; first [congruence|lia].
  - destruct (Nat.leb_spec 1 n), (Nat.leb_spec n h); try done. injection H as <-. right. eexists. split; [done|].
    unfold dir_after, dir_weight. cbn. destruct (Nat.eqb_spec (h - n) 0); cbn; split_and!; intros; first [congruence|lia].
  - destruct (Nat.leb_spec 1 n), (Nat.leb_spec n h); try done. cbn in H. destruct (_ && _); [|done].
    injection H as <-. right. eexists. split; [done|]. unfold dir_after, dir_weight. cbn.
    destruct (Nat.eqb_spec (h - n) 0); cbn; split_and!; intros; first [congruence|lia].
  - destruct (gone _) eqn:Eg; [|done]. injection H as <-. destruct ignored eqn:Ei; [right|by left].
    eexists. split; [done|]. unfold dir_weight. cbn. split_and!; intros; first [congruence|lia].
  - injection H as <-. right. eexists. split; [done|]. unfold dir_weight. cbn. split_and!; intros; first [congruence|lia].
Qed.

Lemma wake_do_cases d s s' :
  wake_do d s = Some s' ->
  exists u' x', s' = set_side d u' (set_dir (negb d) x' s) /\ us_open u' = us_open (side_of d s) /\
    dr_pc x' = dr_pc (dir_from (negb d) s) /\ dr_hold x' = dr_hold (dir_from (negb d) s) /\
    us_reader (side_of d s) = true /\
    dir_weight x' + side_weight u' < dir_weight (dir_from (negb d) s) + side_weight (side_of d s).
Proof.
  unfold wake_do. destruct (us_reader (side_of d s)) eqn:Er; [|done].
  destruct (Nat.ltb_spec 0 (dr_out (dir_from (negb d) s))).
  - intros [= <-]. eexists _, _. split; [done|]. split_and!; [done..|].
    unfold dir_weight, side_weight. cbn. rewrite Er. destruct (us_open (side_of d s)); lia.
  - destruct (dr_pc (dir_from (negb d) s)) eqn:Ep; try done. intros [= <-].
    exists (Side (us_open (side_of d s)) false), (dir_from (negb d) s). split; [by destruct d, s|].
    split_and!; [done..|]. unfold side_weight. cbn. rewrite Er. lia.
Qed.

Lemma close_do_measure c s s' : close_inv s -> close_do c s = Some s' -> close_measure s' < close_measure s.
Proof.
  intros Hi. unfold close_do. destruct (cg_killed s) eqn:Ek; [done|].
  assert (Hf : forall d, forward_do d c s = Some s' -> close_measure s' < close_measure s).
  { intros d [(-> & _)|(x' & -> & Hr & Hw & _)]%forward_do_cases.
    - unfold close_measure. cbn. rewrite Ek. lia.
    - pose proof (measure_set_dir d x' s). pose proof (cv_hold _ Hi d).
      assert (dir_weight x' < dir_weight (dir_from d s)); [|lia].
      destruct (dr_pc (dir_from d s)) eqn:Ep; [apply Hr; auto|apply Hw; done..]. }
  destruct c; try apply Hf.
  - intros (u' & x' & -> & _ & _ & _ & _ & H)%wake_do_cases.
    pose proof (measure_set_side d u' (set_dir (negb d) x' s)) as H1. rewrite side_set_dir in H1.
    pose proof (measure_set_dir (negb d) x' s). lia.
  - unfold closer_do. destruct (cg_pc s) eqn:Ep; try done.
    + intros [= <-]. unfold close_measure. cbn. rewrite Ep. unfold side_weight. cbn. lia.
    + intros [= <-]. unfold close_measure. cbn. rewrite Ep. unfold side_weight. cbn. lia.
    + destruct (dr_pc (cg_ab s)); try done. intros [= <-]. pose proof (measure_set_pc CkJoinBA s).
      rewrite Ep in *. cbn in *. lia.
    + destruct (dr_pc (cg_ba s)); try done. intros [= <-]. pose proof (measure_set_pc CkFree s).
      rewrite Ep in *. cbn in *. lia.
    + intros [= <-]. pose proof (measure_set_pc CkDone s). rewrite Ep in *. cbn in *. lia.
Qed.

Lemma close_do_inv c s s' : close_inv s -> close_do c s = Some s' -> close_inv s'.
Proof.
  intros [Hh Hw Hc Hj]. unfold close_do. destruct (cg_killed s) eqn:Ek; [done|].
  assert (Hf : forall d, forward_do d c s = Some s' -> close_inv s').
  { intros d [(-> & _)|(x' & -> & _ & _ & Ho & Hx1 & Hx2)]%forward_do_cases; [by split|].
    split; rewrite ?pc_set_dir.
    - intros d'. rewrite dir_set_dir. destruct (Bool.eqb d' d); auto.
    - intros d'. rewrite dir_set_dir. destruct (Bool.eqb d' d); auto.
    - change (cg_a (set_dir d x' s)) with (side_of true (set_dir d x' s)).
      change (cg_b (set_dir d x' s)) with (side_of false (set_dir d x' s)). rewrite !side_set_dir. exact Hc.
    - destruct d; cbn in *; destruct (cg_pc s); try done; intuition congruence. }
  destruct c; try apply Hf.
  - intros (u' & x' & -> & Hu & Hp & Hd & _)%wake_do_cases. split; rewrite ?pc_set_side, ?pc_set_dir.
    + intros d'. rewrite dir_set_side, dir_set_dir. destruct (Bool.eqb_spec d' (negb d)); [subst d'; rewrite Hp, Hd|]; auto.
    + intros d'. rewrite dir_set_side, dir_set_dir. destruct (Bool.eqb_spec d' (negb d)); [subst d'; rewrite Hp, Hd|]; auto.
    + destruct d, s as [ab ba a b p k]; cbn in *; destruct p; intuition congruence.
    + destruct d, s as [ab ba a b p k]; cbn in *; destruct p; intuition congruence.
  - unfold closer_do. destruct s as [ab ba a b p k]; cbn in *.
    destruct p; try done; [| |destruct (dr_pc ab) eqn:Ep|destruct (dr_pc ba) eqn:Ep|]; try done; intros [= <-];
      split; try exact Hh; try exact Hw; cbn; auto.
Qed.

(** Nobody starts to read. *)
Lemma close_do_readers c s s' d :
  close_do c s = Some s' -> us_reader (side_of d s) = false -> us_reader (side_of d s') = false.
Proof.
  unfold close_do. destruct (cg_killed s); [done|]. intros H Hr.
  assert (Hf : forall d', forward_do d' c s = Some s' -> us_reader (side_of d s') = false).
  { intros d' [(-> & _)|(x' & -> & _)]%forward_do_cases; [by destruct d|by rewrite side_set_dir]. }
  destruct c; try by eapply Hf.
  - apply wake_do_cases in H as (u' & x' & -> & _ & _ & _ & Hd & _). rewrite side_set_side, side_set_dir.
    destruct (Bool.eqb_spec d d0) as [->|]; [congruence|done].
  - unfold closer_do in H. destruct d, s as [ab ba a b p k]; cbn in *;
      destruct p; repeat case_match; simplify_eq; done.
Qed.

Definition one_reader (s : closing) : Prop := us_reader (cg_a s) && us_reader (cg_b s) = false.

Lemma one_reader_step s s' : one_reader s -> close_step s s' -> one_reader s'.
Proof.
  unfold one_reader. rewrite !andb_false_iff. intros [H|H] [c Hc]; [left|right].
  - exact (close_do_readers c s s' true Hc H).
  - exact (close_do_readers c s s' false Hc H).
Qed.

(** *** No deadlock *)

Hypothesis cap_pos : 1 <= cap.

Lemma wake_moves d s :
  cg_killed s = false -> us_reader (side_of d s) = true ->
  0 < dr_out (dir_from (negb d) s) \/ dr_pc (dir_from (negb d) s) = FpOver -> exists s', close_step s s'.
Proof.
  intros Hk Hr H. assert (Hw : exists s', wake_do d s = Some s').
  { unfold wake_do. rewrite Hr. destruct (Nat.ltb_spec 0 (dr_out (dir_from (negb d) s))); [by eexists|].
    destruct H as [H| ->]; [lia|by eexists]. }
  destruct Hw as [s' Hw]. exists s', (CcWake d). unfold close_do. by rewrite Hk.
Qed.

(** With the descriptors closed and nobody reading its source, a forwarder moves,
    or somebody reads its destination. *)
Lemma dir_moves d s :
  close_inv s -> cg_killed s = false -> us_open (cg_a s) = false -> us_open (cg_b s) = false ->
  us_reader (side_of d s) = false -> dr_pc (dir_from d s) <> FpOver -> exists s', close_step s s'.
Proof.
  intros Hi Hk Ha Hb Hr Hp.
  assert (Ho : forall e, us_open (side_of e s) = false) by (by intros []).
  assert (Hg : gone (side_of d s) = true) by (unfold gone; by rewrite Ho, Hr).
  assert (Hm : forall c, match c with CcClose | CcWake _ => False | _ => True end ->
             is_Some (forward_do d c s) ->
             match c with CcRead e _ | CcEof e | CcDrop e _ | CcWrite e _ | CcRefused e | CcShutdown e => e = d
                        | _ => True end -> exists s', close_step s s').
  { intros c Hc [s' Hs] He. exists s', c. unfold close_do. rewrite Hk. destruct c; try done; by rewrite He. }
  pose proof (cv_write _ Hi d) as Hw. destruct (dr_pc (dir_from d s)) eqn:Ep; try done.
  - destruct (dr_in (dir_from d s)) as [|n] eqn:En.
    + apply (Hm (CcEof d)); [done| |done]. unfold forward_do. rewrite Ep, En, Hg. by eexists.
    + apply (Hm (CcRead d (S n))); [done| |done]. unfold forward_do.
      rewrite Ep, En, (proj2 (Nat.leb_le (S n) (S n))) by lia. by eexists.
  - specialize (Hw eq_refl). destruct (gone (side_of (negb d) s)) eqn:Hg'.
    + apply (Hm (CcRefused d)); [done| |done]. unfold forward_do. rewrite Ep, Hg'. by eexists.
    + destruct (decide (dr_out (dir_from d s) + 1 <= cap)) as [Hc|Hc].
      * apply (Hm (CcWrite d 1)); [done| |done]. unfold forward_do.
        rewrite Ep, Hg', (proj2 (Nat.leb_le 1 (dr_hold (dir_from d s)))), (proj2 (Nat.leb_le _ cap)) by lia. by eexists.
      * apply (wake_moves (negb d)); [done| |rewrite negb_involutive; left; lia].
        unfold gone in Hg'. rewrite Ho in Hg'. by destruct (us_reader (side_of (negb d) s)).
  - apply (Hm (CcShutdown d)); [done| |done]. unfold forward_do. rewrite Ep. by eexists.
Qed.

Lemma closer_moves s s' : cg_killed s = false -> closer_do s = Some s' -> exists s', close_step s s'.
Proof. intros Hk H. exists s', CcClose. unfold close_do. by rewrite Hk. Qed.

Lemma close_progress s :
  close_inv s -> one_reader s -> cg_killed s = false -> cg_pc s <> CkDone -> exists s', close_step s s'.
Proof.
  intros Hi Hr Hk Hd. pose proof (cv_closed _ Hi) as Hc. pose proof (cv_joined _ Hi) as Hj.
  destruct (cg_pc s) eqn:Ep; try done.
  1,2,5: eapply closer_moves; [done|unfold closer_do; by rewrite Ep].
  - destruct Hc as [Ha Hb]. destruct (decide (dr_pc (cg_ab s) = FpOver)) as [E|E].
    { eapply closer_moves; [done|]. unfold closer_do. by rewrite Ep, E. }
    destruct (us_reader (cg_a s)) eqn:Er; [|by apply (dir_moves true)].
    destruct (decide (dr_pc (cg_ba s) = FpOver)) as [E'|E'].
    + apply (wake_moves true); [done|done|by right].
    + apply (dir_moves false); try done. unfold one_reader in Hr. by rewrite Er in Hr.
  - destruct Hc as [Ha Hb]. destruct (decide (dr_pc (cg_ba s) = FpOver)) as [E|E].
    { eapply closer_moves; [done|]. unfold closer_do. by rewrite Ep, E. }
    destruct (us_reader (cg_b s)) eqn:Er; [|by apply (dir_moves false)].
    apply (wake_moves false); [done|done|by right].
Qed.

(** *** SIGPIPE *)

(** Nothing is on its way in either direction. *)
Definition quiescent (s : closing) : Prop :=
  forall d, dr_in (dir_from d s) = 0 /\ dr_pc (dir_from d s) <> FpWrite.

Lemma quiescent_step s s' : quiescent s -> cg_killed s = false -> close_step s s' -> quiescent s' /\ cg_killed s' = false.
Proof.
  intros Hq Hk [c Hc]. unfold close_do in Hc. rewrite Hk in Hc.
  assert (Hf : forall d, forward_do d c s = Some s' -> quiescent s' /\ cg_killed s' = false).
  { intros d H. destruct (Hq d) as [Hin Hpc]. unfold forward_do in H.
    destruct (dir_from d s) as [i h [] o] eqn:E; cbn in *; subst; destruct c; try done.
    - by destruct n as [|[|n]].
    - destruct (gone _); [|done]. injection H as <-. split; [|by destruct d].
      intros d'. rewrite dir_set_dir. destruct (Bool.eqb d' d); [by split|apply Hq].
    - injection H as <-. split; [|by destruct d].
      intros d'. rewrite dir_set_dir. destruct (Bool.eqb d' d); [by split|apply Hq]. }
  destruct c; try by eapply Hf.
  - unfold wake_do in Hc. destruct (us_reader _); [|done]. destruct (0 <? _).
    + injection Hc as <-. split; [|by destruct d]. intros d'. rewrite dir_set_side, dir_set_dir.
      destruct (Bool.eqb_spec d' (negb d)); [subst d'; apply Hq|apply Hq].
    + destruct (dr_pc (dir_from (negb d) s)); try done. injection Hc as <-. split; [|by destruct d].
      intros d'. rewrite dir_set_side. apply Hq.
  - unfold closer_do in Hc. destruct s as [ab ba a b p k]; cbn in *; subst k.
    destruct p; repeat case_match; simplify_eq; (split; [|done]); intros d; apply (Hq d).
Qed.

Lemma close_reach_inv s s' : close_inv s -> rtc close_step s s' -> close_inv s'.
Proof. intros Hi H. induction H as [|s s1 s2 [c Hc] _ IH]; [done|]. apply IH. by eapply close_do_inv. Qed.

Lemma one_reader_reach s s' : one_reader s -> rtc close_step s s' -> one_reader s'.
Proof. intros Hi H. induction H; [done|]. eauto using one_reader_step. Qed.

Lemma quiescent_reach s s' :
  quiescent s -> cg_killed s = false -> rtc close_step s s' -> cg_killed s' = false.
Proof.
  intros Hq Hk H. induction H as [|s s1 s2 Hs _ IH]; [done|].
  destruct (quiescent_step _ _ Hq Hk Hs). auto.
Qed.

Lemma ignored_step s s' : ignored = true -> cg_killed s = false -> close_step s s' -> cg_killed s' = false.
Proof.
  intros Hg Hk [c Hc]. unfold close_do in Hc. rewrite Hk in Hc.
  assert (Hf : forall d, forward_do d c s = Some s' -> cg_killed s' = false).
  { intros d [(-> & _ & H & _)|(x' & -> & _)]%forward_do_cases; [congruence|by destruct d]. }
  destruct c; try by eapply Hf.
  - apply wake_do_cases in Hc as (u' & x' & -> & _). by destruct d.
  - unfold closer_do in Hc. destruct s as [ab ba a b p k]; cbn in *; destruct p; repeat case_match; by simplify_eq.
Qed.

Lemma close_steps_reach cs s s' : close_steps cs s = Some s' -> rtc close_step s s'.
Proof.
  revert s. induction cs as [|c cs IH]; intros s H; cbn in H; [injection H as ->; apply rtc_refl|].
  destruct (close_do c s) as [s1|] eqn:E; [|done]. eapply rtc_l; [by exists c|by apply IH].
Qed.

(** The caller enters [chaos_net_close]. *)
Definition at_call (s : closing) : Prop :=
  cg_pc s = CkA /\ cg_killed s = false /\
  (forall d, dr_pc (dir_from d s) = FpRead -> dr_hold (dir_from d s) = 0) /\
  (forall d, dr_pc (dir_from d s) = FpWrite -> 0 < dr_hold (dir_from d s)).

Lemma at_call_inv s : at_call s -> close_inv s.
Proof. intros (Hp & Hk & Hr & Hw). split; rewrite ?Hp; done. Qed.

(** Data on its way from [d], and nobody in a [read]. *)
Definition in_flight (d : bool) (s : closing) : Prop :=
  dr_pc (dir_from d s) = FpWrite \/ (dr_pc (dir_from d s) = FpRead /\ 0 < dr_in (dir_from d s)).

Definition kill_run (d : bool) (s : closing) : list close_choice :=
  [CcClose; CcClose] ++
  match dr_pc (dir_from d s) with FpRead => [CcRead d (dr_in (dir_from d s))] | _ => [] end ++ [CcRefused d].

Lemma kill_run_kills d s :
  ignored = false -> at_call s -> us_reader (cg_a s) = false -> us_reader (cg_b s) = false -> in_flight d s ->
  exists s', close_steps (kill_run d s) s = Some s' /\ cg_killed s' = true.
Proof.
  intros Hg (Hp & Hk & _) Ha Hb Hf.
  destruct s as [[ia ha pa qa] [ib hb pb qb] [oa ra] [ob rb] p k]. cbn in Hp, Hk, Ha, Hb. subst p k ra rb.
  unfold kill_run, in_flight in *.
  destruct d; cbn in Hf; destruct Hf as [->|[-> Hn]]; cbn;
    unfold close_do, forward_do; cbn; rewrite ?Hg; try (by eexists).
  - destruct ia as [|n]; [lia|]. cbn. rewrite Nat.leb_refl. cbn. rewrite ?Hg. by eexists.
  - destruct ib as [|n]; [lia|]. cbn. rewrite Nat.leb_refl. cbn. rewrite ?Hg. by eexists.
Qed.

(** A forwarder waiting for its first byte, its reader for what it passes on. *)
Definition idle_dir : direction := Dir 0 0 FpRead 0.

(** Nothing in transit, a reader on each side, the close at or before its first
    join. *)
Definition both_waiting (s : closing) : Prop :=
  cg_ab s = idle_dir /\ cg_ba s = idle_dir /\ us_reader (cg_a s) = true /\ us_reader (cg_b s) = true /\
  cg_killed s = false /\ (cg_pc s = CkA \/ cg_pc s = CkB \/ cg_pc s = CkJoinAB).

(** Only the two closes can still happen. *)
Lemma both_waiting_step s s' :
  both_waiting s -> close_step s s' -> both_waiting s' /\ cg_pc s <> CkJoinAB.
Proof.
  intros (Hab & Hba & Ha & Hb & Hk & Hp) [c Hc].
  destruct s as [ab ba [oa ra] [ob rb] p k]. cbn in *. subst.
  assert (Hg : forall o, gone (Side o true) = false) by (intros o; apply andb_false_r).
  unfold close_do, forward_do, wake_do in Hc. cbn in Hc.
  destruct c as [[] n|[]|[] n|[] n|[]|[]|[]|]; cbn in Hc; rewrite ?Hg in Hc; try done; try by destruct n as [|[|n]].
  destruct Hp as [-> | [-> | ->]]; cbn in Hc; try done; injection Hc as <-;
    (split; [split_and!; cbn; auto|done]).
Qed.

Lemma both_waiting_reach s s' : both_waiting s -> rtc close_step s s' -> both_waiting s'.
Proof. intros Hi H. induction H as [|s s1 s2 H1 _ IH]; [done|]. apply IH. by eapply both_waiting_step. Qed.

(** ** Properties *)

(** C13: [chaos_net_close] ends.  Whatever is still in transit or in a forwarder's
    buffer when it is called, and however the two forwarders, the loss and the
    buffering interleave with its closes and joins: if at most one of the sides
    still has a thread blocked in a [read], then no run takes more steps than
    there is left to do, and until it has returned (or SIGPIPE has killed the
    process) somebody can always take one; so both forwarders reach the end of
    their streams and both joins return, and the shared state is freed only
    after both forwarders have. *)
Theorem net_close_ends s :
  at_call s -> one_reader s ->
  (forall n s', nsteps close_step n s s' -> n <= close_measure s) /\
  (forall s', rtc close_step s s' -> cg_killed s' = false -> cg_pc s' <> CkDone -> exists s'', close_step s' s'') /\
  (forall s', rtc close_step s s' -> cg_pc s' = CkFree \/ cg_pc s' = CkDone ->
     dr_pc (cg_ab s') = FpOver /\ dr_pc (cg_ba s') = FpOver).
Proof.
  intros Hs Hr. pose proof (at_call_inv _ Hs) as Hi. split_and!.
  - clear Hs Hr. intros n s' H. induction H as [s|n s s1 s2 [c Hc] _ IH]; [lia|].
    pose proof (close_do_measure _ _ _ Hi Hc). specialize (IH (close_do_inv _ _ _ Hi Hc)). lia.
  - intros s' H Hk Hd. apply close_progress; [by eapply close_reach_inv|by eapply one_reader_reach|done|done].
  - intros s' H Hp. pose proof (cv_joined _ (close_reach_inv _ _ Hi H)) as Hj. by destruct Hp as [Hp|Hp]; rewrite Hp in Hj.
Qed.

(** C14: what [chaos_net_close] leaves to its caller.  When nothing is in transit,
    or SIGPIPE is ignored, no run kills the process.  When something is in
    transit in either direction, SIGPIPE is not ignored and no thread sits in a
    [read], some run kills it: both user descriptors are closed before the
    forwarders have ended, so a forwarder writes to a released socket.  And when
    both directions are idle (nothing in transit, both forwarders waiting for
    input, nothing waiting to be read) and a thread is blocked in a [read] on each
    side, then no run gets past the first join: every run of the close reaches
    at most that join, where nobody can move any more, and the join is reached.
    Each side's socket is kept alive by the [read] that waits for the other
    side's forwarder to end. *)
Theorem net_close_hazards s :
  at_call s ->
  (ignored = true \/ quiescent s -> forall s', rtc close_step s s' -> cg_killed s' = false) /\
  (forall d, ignored = false -> us_reader (cg_a s) = false -> us_reader (cg_b s) = false -> in_flight d s ->
     exists s', rtc close_step s s' /\ cg_killed s' = true) /\
  (cg_ab s = idle_dir -> cg_ba s = idle_dir -> us_reader (cg_a s) = true -> us_reader (cg_b s) = true ->
     (forall s', rtc close_step s s' ->
        cg_pc s' = CkA \/ cg_pc s' = CkB \/ (cg_pc s' = CkJoinAB /\ forall s'', ~ close_step s' s'')) /\
     (exists s', rtc close_step s s' /\ cg_pc s' = CkJoinAB)).
Proof.
  intros Hs. pose proof Hs as (Hp & Hk & _). split_and!.
  - intros [Hg|Hq] s' H; [|by eapply quiescent_reach].
    clear Hs Hp. induction H as [|s s1 s2 H1 _ IH]; [done|]. apply IH. by eapply ignored_step.
  - intros d Hg Ha Hb Hf. destruct (kill_run_kills d s Hg Hs Ha Hb Hf) as (s' & E & H).
    exists s'. split; [|done]. by eapply close_steps_reach.
  - intros Eab Eba Ha Hb. split.
    + intros s' H. assert (Hw : both_waiting s') by (eapply both_waiting_reach; [|done]; by split_and!; auto).
      pose proof Hw as (_ & _ & _ & _ & _ & [Hp' | [Hp' | Hp']]); [by left|by right; left|right; right].
      split; [done|]. intros s'' Hc. by destruct (both_waiting_step _ _ Hw Hc).
    + destruct s as [ab ba [oa ra] [ob rb] p k]. cbn in *. subst.
      eexists. split; [by apply (close_steps_reach [CcClose; CcClose])|done].
Qed.

End Close.

(** Sixteen bytes from A not yet forwarded, three of B's in the chunk loop, a
    drain thread on side B. *)
Definition busy_close : closing :=
  Closing (Dir 16 0 FpRead 5) (Dir 0 3 FpWrite 0) (Side true false) (Side true true) CkA false.

Lemma net_close_ends_witness :
  (forall n s', nsteps (close_step true 4096) n busy_close s' -> n <= 86) /\
  (exists s', close_step true 4096 busy_close s').
Proof.
  destruct (net_close_ends true 4096 ltac:(lia) busy_close) as (H1 & H2 & _).
  - split_and!; [done|done|by intros []|intros []; cbn; intros; lia || done].
  - reflexivity.
  - split; [exact H1|]. apply H2; [apply rtc_refl|done|done].
Defined.

Lemma net_close_hazards_witness :
  (let s := Closing (Dir 16 0 FpRead 0) idle_dir (Side true false) (Side true false) CkA false in
   exists s', rtc (close_step false 4096) s s' /\ cg_killed s' = true) /\
  (let s := Closing idle_dir idle_dir (Side true true) (Side true true) CkA false in
   forall s', rtc (close_step true 4096) s s' -> cg_pc s' <> CkDone).
Proof.
  split; intros s.
  2:{ intros s' H. destruct (net_close_hazards true 4096 ltac:(lia) s) as (_ & _ & H3).
      { split_and!; [done|done|by intros []|by intros []]. }
      destruct (proj1 (H3 eq_refl eq_refl eq_refl eq_refl) s' H) as [-> | [-> | [-> _]]]; discriminate. }
  apply (proj1 (proj2 (net_close_hazards false 4096 ltac:(lia) s
    ltac:(split_and!; [done|done|by intros []|by intros []]))) true); try done. right. cbn. split; [done|lia].
Defined.
