(* ===== verification/ChaosThread.v ===== *)
(** * Tagged threads (src/chaos/chaos_thread.c, include/playground/chaos_thread.h)

    A thread handle is its record; the allocator's and [pthread]'s answers are
    arguments.  The process-wide tag counter is threaded explicitly. *)

From S2P Require Import Prelude Rand Event Runner.

(** ** Handles *)

(** [pt] is the [pthread_t]. *)
(* @ src/chaos/chaos_thread.c:18-23 chaos_thread *)
Record chaos_thread_t := Thread {
  th_pt : Z;
  th_tag_name : list Z;
  th_tag_id : Z;
  th_stop_flag : Z
}.

(** What [calloc], [malloc] and [pthread_create] answer to one spawn. *)
Record spawn_env := SpawnEnv { se_calloc : bool; se_malloc : bool; se_create : option Z }.

(** What the new thread runs: its tag, then the caller's function. *)
(* @ src/chaos/chaos_thread.c:25-29 wrap_arg_t *)
Record wrap_arg_t (F A : Type) := WrapArg { wa_user_fn : F; wa_user_arg : A; wa_tag_id : Z }.
Arguments WrapArg {F A} _ _ _.
Arguments wa_user_fn {F A} _.
Arguments wa_user_arg {F A} _.
Arguments wa_tag_id {F A} _.

(** The thread-local tag it sets and the call it makes. *)
(* @ src/chaos/chaos_thread.c thread_wrap *)
Definition thread_wrap {F A} (w : wrap_arg_t F A) : Z * (F * A) :=
  (wa_tag_id w, (wa_user_fn w, wa_user_arg w)).

(** The handle, what the thread was given, the tag counter. *)
(* @ src/chaos/chaos_thread.c chaos_thread_spawn *)
Definition chaos_thread_spawn {F A} (fn : option F) (arg : A) (tag : option string) (e : spawn_env)
    (g_next_thread_tag : Z) : option (chaos_thread_t * wrap_arg_t F A) * Z :=
  match fn with
  | None => (None, g_next_thread_tag)
  | Some fn =>
      if negb (se_calloc e) then (None, g_next_thread_tag)
      else
        let tag_name := snprintf 32 (str (default EmptyString tag)) in
        let '(tag_id, counter) := pg_alloc_thread_tag g_next_thread_tag in
        if negb (se_malloc e) then (None, counter)
        else match se_create e with
             | None => (None, counter)
             | Some pt => (Some (Thread pt tag_name tag_id 0, WrapArg fn arg tag_id), counter)
             end
  end.

(** [rc]: what [pthread_join] answers. *)
(* @ src/chaos/chaos_thread.c chaos_thread_join *)
Definition chaos_thread_join (t : option chaos_thread_t) (rc : Z) : Z :=
  match t with
  | None => -1
  | Some _ => if rc =? 0 then 0 else -1
  end.

(** [rc]: what [pthread_cancel] answers. *)
(* @ src/chaos/chaos_thread.c chaos_thread_cancel *)
Definition chaos_thread_cancel (t : option chaos_thread_t) (rc : Z) : Z * option chaos_thread_t :=
  match t with
  | None => (-1, None)
  | Some t =>
      (if rc =? 0 then 0 else -1, Some (Thread (th_pt t) (th_tag_name t) (th_tag_id t) 1))
  end.

(* @ src/chaos/chaos_thread.c chaos_thread_should_stop *)
Definition chaos_thread_should_stop (t : option chaos_thread_t) : Z :=
  match t with None => 0 | Some t => th_stop_flag t end.

(** ** Sleeps *)

(** [{ .tv_sec = ns / 1000000000, .tv_nsec = ns % 1000000000 }]. *)
(* @ src/chaos/chaos_thread.c:117-120 chaos_thread_inject_delay *)
Definition timespec_of (ns : Z) : Z * Z := (ns / 1000000000, ns mod 1000000000).

(** The target is the handle as it is when the argument is read. *)
(* @ src/chaos/chaos_thread.c:81-84 cancel_arg_t *)
Record cancel_arg_t := CancelArg { ca_target : chaos_thread_t; ca_after_ns : Z }.

(** The timer thread: sleep, then cancel the target; [rc] is what
    [pthread_cancel] answers. *)
(* @ src/chaos/chaos_thread.c cancel_after_fn *)
Definition cancel_after_fn (ca : cancel_arg_t) (rc : Z) : (Z * Z) * option chaos_thread_t :=
  (timespec_of (ca_after_ns ca), (chaos_thread_cancel (Some (ca_target ca)) rc).2).

(** The return code and, if a timer thread started, its argument. *)
(* @ src/chaos/chaos_thread.c chaos_thread_cancel_at_ns *)
Definition chaos_thread_cancel_at_ns (t : option chaos_thread_t) (after_ns : Z) (malloc_ok create_ok : bool)
  : Z * option cancel_arg_t :=
  match t with
  | None => (-1, None)
  | Some t => if negb malloc_ok then (-1, None)
              else if negb create_ok then (-1, None)
              else (0, Some (CancelArg t after_ns))
  end.

(** The time slept and the context afterwards; the generator advances whether
    or not the range is empty. *)
(* @ src/chaos/chaos_thread.c chaos_thread_inject_delay *)
Definition chaos_thread_inject_delay (ctx : option pg_runctx) (min_ns max_ns : Z)
  : (Z * Z) * option pg_runctx :=
  let span := if min_ns <? max_ns then max_ns - min_ns else 0 in
  let '(r, ctx) := pg_runctx_rand ctx in
  let delay := u64 (min_ns + (if span =? 0 then 0 else r mod span)) in
  (timespec_of delay, ctx).

(** ** Watchdog *)

(* @ src/chaos/chaos_thread.c:124-127 wd_arg_t *)
Record wd_arg_t := WdArg { wd_timeout_ns : Z; wd_what : list Z }.

(** The sleep, the event emitted through the process context, the exit status. *)
(* @ src/chaos/chaos_thread.c watchdog_fn *)
Definition watchdog_fn (wd : wd_arg_t) : (Z * Z) * pg_event_t * Z :=
  let msg := snprintf 128 (str "watchdog: " ++ cstr (wd_what wd)) in
  (timespec_of (wd_timeout_ns wd), pg_watchdog (Some (unstr (cstr msg))), 2).

(** The argument of the thread started, if any. *)
(* @ src/chaos/chaos_thread.c chaos_thread_watchdog *)
Definition chaos_thread_watchdog (timeout_ns : Z) (what : option string) (malloc_ok create_ok : bool)
  : option wd_arg_t :=
  if malloc_ok then
    let wd := WdArg timeout_ns (snprintf 64 (str (default "timeout"%string what))) in
    if create_ok then Some wd else None
  else None.

(** ** A program's spawns *)

(** The handles a sequence of spawns returned and the counter after it. *)
Fixpoint spawn_all {F A} (specs : list (F * A * option string * spawn_env)) (c : Z)
  : list (chaos_thread_t * wrap_arg_t F A) * Z :=
  match specs with
  | [] => ([], c)
  | (f, a, tag, e) :: specs =>
      let '(t, c) := chaos_thread_spawn (Some f) a tag e c in
      let '(ts, c) := spawn_all specs c in
      (option_list t ++ ts, c)
  end.

(** ** Lemmas *)

Lemma spawn_cases {F A} (f : F) (a : A) tag e c :
  1 <= c < 2 ^ 32 - 1 ->
  match chaos_thread_spawn (Some f) a tag e c with
  | (None, c') => c <= c' <= c + 1
  | (Some (t, w), c') => c' = c + 1 /\ th_tag_id t = c /\ wa_tag_id w = c /\ th_stop_flag t = 0
  end.
Proof.
  intros Hc. unfold chaos_thread_spawn, pg_alloc_thread_tag.
  destruct (se_calloc e); cbn [negb]; [|lia].
  destruct (se_malloc e); cbn [negb]; [|rewrite u32_small; lia].
  destruct (se_create e); cbn; rewrite u32_small; lia.
Qed.

Lemma spawn_all_tags {F A} (specs : list (F * A * option string * spawn_env)) c :
  1 <= c -> c + Z.of_nat (length specs) < 2 ^ 32 ->
  c <= (spawn_all specs c).2 <= c + Z.of_nat (length specs) /\
  Forall (fun tw => c <= th_tag_id tw.1 < (spawn_all specs c).2 /\
                    (thread_wrap tw.2).1 = th_tag_id tw.1) (spawn_all specs c).1 /\
  NoDup ((fun tw => th_tag_id tw.1) <$> (spawn_all specs c).1).
Proof.
  revert c. induction specs as [|[[[f a] tag] e] specs IH]; intros c H1 H2; cbn [spawn_all].
  { cbn. split_and!; [lia|lia|constructor|constructor]. }
  cbn [length] in H2. pose proof (spawn_cases f a tag e c ltac:(lia)) as Hs.
  destruct (chaos_thread_spawn (Some f) a tag e c) as [[[t w]|] c'].
  - destruct Hs as (-> & Ht & Hw & _). specialize (IH (c + 1) ltac:(lia) ltac:(lia)).
    destruct (spawn_all specs (c + 1)) as [ts c2]. cbn [fst snd] in *.
    change (option_list (Some (t, w)) ++ ts) with ((t, w) :: ts).
    destruct IH as (Hb & Hf & Hn). split; [cbn [length]; lia|]. split.
    + constructor; [cbn; lia|]. eapply Forall_impl; [exact Hf|]. cbn. intros x Hx. lia.
    + rewrite fmap_cons. apply NoDup_cons. split; [|done]. rewrite list_elem_of_fmap. cbn [fst]. intros (x & Hx & Hin).
      apply (proj1 (Forall_forall _ _) Hf) in Hin. lia.
  - specialize (IH c' ltac:(lia) ltac:(lia)).
    destruct (spawn_all specs c') as [ts c2]. cbn [fst snd length] in *. change (option_list None ++ ts) with ts.
    destruct IH as (Hb & Hf & Hn). split; [lia|]. split; [|done].
    eapply Forall_impl; [exact Hf|]. cbn. intros x Hx. lia.
Qed.

Lemma timespec_valid ns : 0 <= ns -> 0 <= (timespec_of ns).1 /\ 0 <= (timespec_of ns).2 < 1000000000 /\
  (timespec_of ns).1 * 1000000000 + (timespec_of ns).2 = ns.
Proof. unfold timespec_of. cbn. zlia. Qed.

(** ** Properties *)

(** C37: events name their thread: for any sequence of at most 2^32 - 2 spawns
    of a fresh process, in which any may fail, the handles returned carry
    pairwise distinct, non-zero tags; the new thread sets its handle's tag; and
    an event it emits without a tag of its own is stamped with that tag. *)
Theorem spawned_tags_unique {F A} (specs : list (F * A * option string * spawn_env)) ctx now ev :
  Z.of_nat (length specs) < 2 ^ 32 - 1 -> ev_thread_tag ev = 0 ->
  let ts := (spawn_all specs 1).1 in
  NoDup ((fun tw => th_tag_id tw.1) <$> ts) /\
  Forall (fun tw => th_tag_id tw.1 <> 0 /\ (thread_wrap tw.2).1 = th_tag_id tw.1 /\
    ev_thread_tag (pg_emit_copy ctx (thread_wrap tw.2).1 now ev) = th_tag_id tw.1) ts.
Proof.
  intros Hl Hev ts. destruct (spawn_all_tags specs 1) as (_ & Hf & Hn); [lia|lia|].
  split; [done|]. eapply Forall_impl; [exact Hf|]. cbn. intros [t w] [Hr Hw]. cbn [fst snd] in *.
  split_and!; [lia|done|]. rewrite Hw, Hev. cbn. rewrite (proj2 (Z.eqb_neq (th_tag_id t) 0)) by lia. done.
Qed.

Lemma spawned_tags_unique_witness :
  let specs := [(tt, 1, Some "a"%string, SpawnEnv true true (Some 100)); (tt, 2, None, SpawnEnv true true None);
                (tt, 3, None, SpawnEnv true true (Some 102))] in
  (fun tw => th_tag_id tw.1) <$> (spawn_all specs 1).1 = [1; 3] /\ NoDup ((fun tw => th_tag_id tw.1) <$> (spawn_all specs 1).1).
Proof.
  split; [reflexivity|].
  apply (spawned_tags_unique
    [(tt, 1, Some "a"%string, SpawnEnv true true (Some 100)); (tt, 2, None, SpawnEnv true true None);
     (tt, 3, None, SpawnEnv true true (Some 102))] (child_ctx 5 42 0) 7 pg_done); [cbn; lia|reflexivity].
Defined.

(** Injected delays: the sleep is a valid [timespec] whose length is in
    [min_ns, max_ns) when that range is not empty and exactly [min_ns]
    otherwise; it is the next draw of the scenario's generator, which moves on
    by exactly one step in either case. *)
Theorem inject_delay_range ctx min_ns max_ns :
  0 <= min_ns -> max_ns < 2 ^ 64 -> min_ns < 2 ^ 64 ->
  let '((sec, nsec), ctx') := chaos_thread_inject_delay (Some ctx) min_ns max_ns in
  0 <= nsec < 1000000000 /\
  sec * 1000000000 + nsec
    = min_ns + (if min_ns <? max_ns then (pg_xosh_next (ctx_rng ctx)).1 mod (max_ns - min_ns) else 0) /\
  (min_ns < max_ns -> min_ns <= sec * 1000000000 + nsec < max_ns) /\
  (max_ns <= min_ns -> sec * 1000000000 + nsec = min_ns) /\
  ctx' = Some (ctx_set_rng (pg_xosh_next (ctx_rng ctx)).2 ctx).
Proof.
  intros H0 H1 H2. unfold chaos_thread_inject_delay, pg_runctx_rand.
  destruct (pg_xosh_next (ctx_rng ctx)) as [x rng]. cbn [fst snd].
  set (d := u64 _). assert (Hd : d = min_ns + (if min_ns <? max_ns then x mod (max_ns - min_ns) else 0)
     /\ (min_ns < max_ns -> d < max_ns) /\ (max_ns <= min_ns -> d = min_ns)).
  { unfold d. destruct (Z.ltb_spec min_ns max_ns).
    - rewrite (proj2 (Z.eqb_neq _ 0)) by lia. pose proof (Z.mod_pos_bound x (max_ns - min_ns)).
      rewrite u64_small by lia. lia.
    - cbn. rewrite u64_small by lia. lia. }
  destruct Hd as (Hd & Hlt & Heq).
  assert (0 <= d) by apply u64_range. pose proof (timespec_valid d H) as (_ & Hn & Hs).
  destruct (timespec_of d) as [sec nsec]. cbn [fst snd] in *.
  assert (min_ns <= d) by (rewrite Hd; destruct (Z.ltb_spec min_ns max_ns); [pose proof (Z.mod_pos_bound x (max_ns - min_ns))|]; lia).
  split_and!; lia || done || (intros; lia).
Qed.

Lemma inject_delay_range_witness :
  let '((sec, nsec), _) := chaos_thread_inject_delay (Some (child_ctx 5 42 0)) 1500000000 1500000100 in
  1500000000 <= sec * 1000000000 + nsec < 1500000100.
Proof.
  pose proof (inject_delay_range (child_ctx 5 42 0) 1500000000 1500000100 ltac:(lia) ltac:(lia) ltac:(lia)) as H.
  destruct (chaos_thread_inject_delay _ _ _) as [[sec nsec] c]. apply H. lia.
Defined.
