(* ===== verification/ThreadLife.v ===== *)
(** * The lifetime of a thread handle (src/chaos/chaos_thread.c)

    The three threads that share a [chaos_thread_t] once
    [chaos_thread_cancel_at_ns] has armed its timer: the target, the detached
    timer thread and the thread that joins and frees the handle, one shared
    access a step, in every interleaving. *)

From S2P Require Import Prelude ChaosThread.

(** ** The threads *)

(** [cancel_after_fn]: in its [nanosleep] until [wake] at least, before the store
    to the flag, before it reads [pt] for [pthread_cancel], before [free(ca)]. *)
(* @ src/chaos/chaos_thread.c cancel_after_fn *)
Inductive timer_pc := TmSleep (wake : Z) | TmFlag | TmCancel | TmFree | TmDone.

(** [chaos_thread_join], called no earlier than [from]: in [pthread_join], before
    [free(t)], back. *)
(* @ src/chaos/chaos_thread.c chaos_thread_join *)
Inductive join_pc := JnBefore (from : Z) | JnWait | JnFree | JnDone.

(** How the target's function can end: by returning when it likes, by polling
    [chaos_thread_should_stop], by being cancelled at a cancellation point. *)
Record target_kind := Kind { kd_returns : bool; kd_polls : bool; kd_cancellable : bool }.

(** The copier of thread_cancel_midwrite loops for ever between [usleep]s. *)
Definition copier_kind : target_kind := Kind false false true.

(** Real time; the handle, [None] once freed; whether [pthread_cancel] has been
    sent and whether the target has ended; and whether some thread has used the
    freed handle or a thread id that was joined. *)
Record life := Life {
  lf_now : Z;
  lf_handle : option chaos_thread_t;
  lf_cancelled : bool;
  lf_over : bool;
  lf_timer : timer_pc;
  lf_join : join_pc;
  lf_fault : bool
}.

(** The timer just armed for [after] at time 0, the join not before [from]. *)
Definition life_start (t : chaos_thread_t) (after from : Z) : life :=
  Life 0 (Some t) false false (TmSleep after) (JnBefore from) false.

Inductive life_choice :=
| LcTime (dt : Z)
| LcTimer
| LcReturn
| LcPoll
| LcCancelled
| LcJoin.

Definition set_fault (s : life) : life :=
  Life (lf_now s) (lf_handle s) (lf_cancelled s) (lf_over s) (lf_timer s) (lf_join s) true.
Definition set_over (s : life) : life :=
  Life (lf_now s) (lf_handle s) (lf_cancelled s) true (lf_timer s) (lf_join s) (lf_fault s).
Definition set_timer (p : timer_pc) (s : life) : life :=
  Life (lf_now s) (lf_handle s) (lf_cancelled s) (lf_over s) p (lf_join s) (lf_fault s).
Definition set_join (h : option chaos_thread_t) (p : join_pc) (s : life) : life :=
  Life (lf_now s) h (lf_cancelled s) (lf_over s) (lf_timer s) p (lf_fault s).

(** The timer thread's next access.  [pthread_cancel] needs a thread that has
    not been joined. *)
(* @ src/chaos/chaos_thread.c:68-74 chaos_thread_cancel *)
Definition timer_step (s : life) : option life :=
  match lf_timer s with
  | TmSleep wake => if wake <=? lf_now s then Some (set_timer TmFlag s) else None
  | TmFlag =>
      match lf_handle s with
      | Some t => Some (Life (lf_now s) (chaos_thread_cancel (Some t) 0).2 (lf_cancelled s) (lf_over s) TmCancel
                             (lf_join s) (lf_fault s))
      | None => Some (set_fault s)
      end
  | TmCancel =>
      match lf_handle s, lf_join s with
      | Some _, (JnBefore _ | JnWait) =>
          Some (Life (lf_now s) (lf_handle s) true (lf_over s) TmFree (lf_join s) (lf_fault s))
      | _, _ => Some (set_fault s)
      end
  | TmFree => Some (set_timer TmDone s)
  | TmDone => None
  end.

(* @ src/chaos/chaos_thread.c:61-66 chaos_thread_join *)
Definition join_step (s : life) : option life :=
  match lf_join s with
  | JnBefore from => if from <=? lf_now s then Some (set_join (lf_handle s) JnWait s) else None
  | JnWait => if lf_over s then Some (set_join (lf_handle s) JnFree s) else None
  | JnFree => Some (set_join None JnDone s)
  | JnDone => None
  end.

(** The target, until it is over. *)
Definition target_step (K : target_kind) (c : life_choice) (s : life) : option life :=
  if lf_over s then None
  else match c with
  | LcReturn => if kd_returns K then Some (set_over s) else None
  | LcPoll => if kd_polls K then
                match lf_handle s with
                | Some t => Some (if chaos_thread_should_stop (Some t) =? 0 then s else set_over s)
                | None => Some (set_fault s)
                end
              else None
  | LcCancelled => if kd_cancellable K && lf_cancelled s then Some (set_over s) else None
  | _ => None
  end.

(** After a fault nothing is promised any more. *)
Definition life_do (K : target_kind) (c : life_choice) (s : life) : option life :=
  if lf_fault s then None
  else match c with
  | LcTime dt => if 0 <=? dt then
                   Some (Life (lf_now s + dt) (lf_handle s) (lf_cancelled s) (lf_over s) (lf_timer s) (lf_join s)
                              (lf_fault s))
                 else None
  | LcTimer => timer_step s
  | LcJoin => join_step s
  | _ => target_step K c s
  end.

Definition life_step (K : target_kind) (s s' : life) : Prop := exists c, life_do K c s = Some s'.

Fixpoint life_steps (K : target_kind) (cs : list life_choice) (s : life) : option life :=
  match cs with [] => Some s | c :: cs => s ← life_do K c s; life_steps K cs s end.

(** Everything is over: joined, freed, the timer thread gone. *)
Definition life_end (s : life) : Prop :=
  lf_fault s = false /\ lf_handle s = None /\ lf_timer s = TmDone /\ lf_join s = JnDone.

(** ** Lemmas *)

Lemma life_steps_reach K cs s s' : life_steps K cs s = Some s' -> rtc (life_step K) s s'.
Proof.
  revert s. induction cs as [|c cs IH]; intros s H; cbn in H; [injection H as ->; apply rtc_refl|].
  destruct (life_do K c s) as [s1|] eqn:E; [|done]. eapply rtc_l; [by exists c|by apply IH].
Qed.

(** As long as the target ends by cancellation only: it is over only once the
    timer has finished with the handle, and the joiner frees only after that. *)
Record life_inv (s : life) : Prop := {
  li_fault : lf_fault s = false;
  li_over : lf_over s = true -> lf_cancelled s = true;
  li_cancelled : lf_cancelled s = true <-> lf_timer s = TmFree \/ lf_timer s = TmDone;
  li_joined : lf_join s = JnFree \/ lf_join s = JnDone -> lf_over s = true;
  li_handle : lf_handle s = None <-> lf_join s = JnDone
}.

Lemma life_start_inv t after from : life_inv (life_start t after from).
Proof. split; cbn; intuition congruence. Qed.

Ltac life_tac := split; cbn in *; intuition congruence.

Lemma life_step_inv K s s' :
  kd_returns K = false -> kd_polls K = false -> life_inv s -> life_step K s s' -> life_inv s'.
Proof.
  intros Hr Hp Hi [c Hc]. unfold life_do in Hc. rewrite (li_fault _ Hi) in Hc.
  destruct Hi as [Hf Ho Hca Hj Hh]. destruct s as [now h ca ov tm jn ft]. cbn in *. subst ft.
  destruct c; cbn in Hc.
  - destruct (0 <=? dt); [|done]. injection Hc as <-. life_tac.
  - unfold timer_step in Hc. cbn in Hc. destruct tm.
    + destruct (wake <=? now); [|done]. injection Hc as <-. life_tac.
    + destruct h as [t|]; injection Hc as <-; life_tac.
    + destruct h as [t|], jn; injection Hc as <-; life_tac.
    + injection Hc as <-. life_tac.
    + done.
  - unfold target_step in Hc. cbn in Hc. rewrite Hr in Hc. by destruct ov.
  - unfold target_step in Hc. cbn in Hc. rewrite Hp in Hc. by destruct ov.
  - unfold target_step in Hc. cbn in Hc. destruct ov; [done|]. destruct (kd_cancellable K), ca; try done.
    injection Hc as <-. life_tac.
  - unfold join_step in Hc. cbn in Hc. destruct jn.
    + destruct (from <=? now); [|done]. injection Hc as <-. life_tac.
    + destruct ov; [|done]. injection Hc as <-. life_tac.
    + injection Hc as <-. life_tac.
    + done.
Qed.

Lemma life_reach_inv K s s' :
  kd_returns K = false -> kd_polls K = false -> life_inv s -> rtc (life_step K) s s' -> life_inv s'.
Proof. intros Hr Hp Hi H. induction H; [done|]. eauto using life_step_inv. Qed.

(** *** Progress *)

(** The steps still to take. *)
Definition life_rank (s : life) : nat :=
  match lf_timer s with
  | TmSleep wake => if wake <=? lf_now s then 4 else 5
  | TmFlag => 3 | TmCancel => 2 | TmFree => 1 | TmDone => 0
  end +
  (if lf_over s then 0 else 1) +
  match lf_join s with
  | JnBefore from => if from <=? lf_now s then 3 else 4
  | JnWait => 2 | JnFree => 1 | JnDone => 0
  end.

(** Which step that is. *)
Definition life_next (s : life) : life_choice :=
  match lf_timer s with
  | TmSleep wake => if wake <=? lf_now s then LcTimer else LcTime (wake - lf_now s)
  | TmDone =>
      if negb (lf_over s) then LcCancelled
      else match lf_join s with
           | JnBefore from => if from <=? lf_now s then LcJoin else LcTime (from - lf_now s)
           | _ => LcJoin
           end
  | _ => LcTimer
  end.

Ltac rank_tac :=
  repeat match goal with
  | |- context [?a <=? ?b] => destruct (Z.leb_spec a b)
  end; try lia.

Lemma life_progress K s :
  kd_cancellable K = true -> life_inv s -> ~ life_end s ->
  exists s', life_do K (life_next s) s = Some s' /\ (life_rank s' < life_rank s)%nat.
Proof.
  intros Hk [Hf Ho Hca Hj Hh] Hend. destruct s as [now h ca ov tm jn ft]. cbn in *. subst ft.
  unfold life_do, life_next, life_rank, life_end in *. cbn in *.
  destruct tm as [wake| | | |].
  - destruct (Z.leb_spec wake now); cbn.
    + unfold timer_step. cbn. rewrite (proj2 (Z.leb_le wake now)) by done. eexists. split; [done|]. cbn. lia.
    + rewrite (proj2 (Z.leb_le 0 (wake - now))) by lia. eexists. split; [done|]. cbn. destruct jn; rank_tac.
  - destruct h as [t|]; [|exfalso; intuition congruence]. eexists. split; [done|]. cbn. lia.
  - destruct h as [t|]; [|exfalso; intuition congruence].
    destruct jn; [| |exfalso; intuition congruence..]; eexists; (split; [done|]); cbn; lia.
  - eexists. split; [done|]. cbn. lia.
  - destruct ov; cbn.
    + unfold join_step. cbn. destruct jn as [from| | |]; cbn.
      * destruct (Z.leb_spec from now).
        -- eexists. split; [done|]. cbn. lia.
        -- rewrite (proj2 (Z.leb_le 0 (from - now))) by lia. eexists. split; [done|]. cbn. rank_tac.
      * eexists. split; [done|]. cbn. lia.
      * eexists. split; [done|]. cbn. lia.
      * exfalso. apply Hend. intuition.
    + unfold target_step. cbn. rewrite Hk. assert (ca = true) as -> by (apply Hca; auto).
      eexists. split; [done|]. cbn. lia.
Qed.

#[export] Instance timer_pc_eq_dec : EqDecision timer_pc.
Proof. solve_decision. Defined.
#[export] Instance join_pc_eq_dec : EqDecision join_pc.
Proof. solve_decision. Defined.

Lemma life_end_dec s : life_end s \/ ~ life_end s.
Proof.
  unfold life_end. destruct (decide (lf_timer s = TmDone)), (decide (lf_join s = JnDone)), (lf_fault s), (lf_handle s);
    intuition congruence.
Qed.

Lemma life_completes K n s :
  kd_returns K = false -> kd_polls K = false -> kd_cancellable K = true -> life_inv s -> (life_rank s <= n)%nat ->
  exists s', rtc (life_step K) s s' /\ life_end s'.
Proof.
  intros Hr Hp Hk. revert s. induction n as [|n IH]; intros s Hi Hn; destruct (life_end_dec s) as [He|He].
  1,3: exists s; split; [apply rtc_refl|done].
  - destruct (life_progress K s Hk Hi He) as (s' & _ & H). lia.
  - destruct (life_progress K s Hk Hi He) as (s1 & E & H). assert (Hs : life_step K s s1) by (by exists (life_next s)).
    destruct (IH s1) as (s2 & H2 & H2'); [by eapply life_step_inv|lia|].
    exists s2. split; [by eapply rtc_l|done].
Qed.

(** *** The runs that use the handle too late *)

(** The target returns, is joined once [from] and [after] have passed, and the
    timer wakes late. *)
Definition late_return (after from : Z) : list life_choice :=
  [LcReturn; LcTime (Z.max 0 (Z.max after from)); LcJoin; LcJoin; LcJoin; LcTimer; LcTimer].

(** The target sees the flag and is joined between the timer's store to the flag
    and its read of [pt]. *)
Definition late_cancel (after from : Z) : list life_choice :=
  [LcTime (Z.max 0 (Z.max after from)); LcTimer; LcTimer; LcPoll; LcJoin; LcJoin; LcJoin; LcTimer].

Lemma late_faults K t after from :
  kd_returns K || kd_polls K = true ->
  exists s, life_steps K (if kd_returns K then late_return after from else late_cancel after from)
              (life_start t after from) = Some s /\ lf_fault s = true.
Proof.
  set (m := Z.max 0 (Z.max after from)).
  assert (H0 : (0 <=? m) = true) by (apply Z.leb_le; lia).
  assert (H1 : (after <=? m) = true) by (apply Z.leb_le; lia).
  assert (H2 : (from <=? m) = true) by (apply Z.leb_le; lia).
  unfold late_return, late_cancel. fold m. clearbody m.
  destruct K as [[] [] c]; cbn [kd_returns kd_polls orb]; intros Hk; try done; eexists.
  all: cbn [life_steps life_do life_start lf_fault target_step lf_over kd_returns kd_polls mbind option_bind
            set_over lf_now lf_handle lf_cancelled lf_timer lf_join join_step timer_step set_join set_timer].
  all: repeat (rewrite ?H0, ?H1, ?H2, ?Z.add_0_l;
            cbn [life_steps life_do life_start lf_fault target_step lf_over kd_returns kd_polls mbind option_bind
            set_over lf_now lf_handle lf_cancelled lf_timer lf_join join_step timer_step set_join set_timer
            chaos_thread_should_stop chaos_thread_cancel snd th_stop_flag Z.eqb]); done.
Qed.

(** ** Properties *)

(** C10: when a cancel timer is safe.  In the interleavings of the target, the
    timer of [chaos_thread_cancel_at_ns] and [chaos_thread_join], whatever the
    delay and however long the caller waits before it joins, some run uses the
    handle after it was freed exactly when the target can end before the timer
    has finished with it: by returning, or by polling [chaos_thread_should_stop],
    which sees the flag that [chaos_thread_cancel] stores before it reads [pt].
    Waiting until the delay has elapsed does not help.  When the target ends by
    cancellation only, as the copier does, no run goes wrong and from every
    reachable state all three threads can get to their ends, the handle freed
    once. *)
Theorem cancel_timer_lifetime K t after from :
  ((exists s, rtc (life_step K) (life_start t after from) s /\ lf_fault s = true) <-> kd_returns K || kd_polls K = true) /\
  (kd_returns K || kd_polls K = false -> kd_cancellable K = true ->
   forall s, rtc (life_step K) (life_start t after from) s ->
     exists s', rtc (life_step K) s s' /\ life_end s').
Proof.
  split.
  - split.
    + intros (s & Hs & Hf). destruct (kd_returns K || kd_polls K) eqn:E; [done|].
      apply orb_false_iff in E as [Er Ep].
      pose proof (li_fault _ (life_reach_inv K _ s Er Ep (life_start_inv t after from) Hs)). congruence.
    + intros H. destruct (late_faults K t after from H) as (s & E & Hf). exists s. split; [|done].
      by eapply life_steps_reach.
  - intros [Er Ep]%orb_false_iff Hc s Hs.
    apply (life_completes K (life_rank s)); try done. by eapply life_reach_inv, Hs; try apply life_start_inv.
Qed.

Lemma cancel_timer_lifetime_witness :
  let t := Thread 9 [] 1 0 in
  (exists s', rtc (life_step copier_kind) (life_start t 1000000 0) s' /\ life_end s') /\
  exists s, rtc (life_step (Kind false true true)) (life_start t 1000000 2000000) s /\ lf_fault s = true.
Proof.
  intros t. split.
  - apply (proj2 (cancel_timer_lifetime copier_kind t 1000000 0) eq_refl eq_refl). apply rtc_refl.
  - apply (proj1 (cancel_timer_lifetime (Kind false true true) t 1000000 2000000)). reflexivity.
Defined.
