(* ===== verification/Prog.v ===== *)
(** * Scenario programs

    The language the scenario models are written in: a program over a world
    [W] (tables, memory, the kernel's answers) emits records through the
    runner's API and returns, dies from a signal, exits the process, or waits
    for ever.  Records are kept as the emit helpers build them, with the
    emitting thread's tag; [as_callback] stamps them as [pg_emit] does and
    makes the program a callback of the runner. *)

From S2P Require Import Prelude Rand Event Runner.

Inductive fin (A : Type) : Type :=
| FRet (a : A)
| FSignal (sig : signal)
| FExit (code : Z)
| FHang.
Arguments FRet {A} a.
Arguments FSignal {A} sig.
Arguments FExit {A} code.
Arguments FHang {A}.

Definition prog (W A : Type) : Type := W -> list (Z * pg_event_t) * fin A * W.

(** What a world records of the resources a program obtained: when it holds none
    of them any more. *)
Class World (W : Type) := released : W -> Prop.

#[export] Instance unit_world : World unit := fun _ => True.

Section Prog.
Context {W : Type}.

Definition ret {A} (a : A) : prog W A := fun w => ([], FRet a, w).

Definition bind {A B} (p : prog W A) (f : A -> prog W B) : prog W B := fun w =>
  match p w with
  | (evs, FRet a, w) => let '(evs', r, w) := f a w in (evs ++ evs', r, w)
  | (evs, FSignal sig, w) => (evs, FSignal sig, w)
  | (evs, FExit code, w) => (evs, FExit code, w)
  | (evs, FHang, w) => (evs, FHang, w)
  end.

(** A record emitted by a thread with tag [tag] (0 for the main thread). *)
Definition emit_as (tag : Z) (ev : pg_event_t) : prog W unit := fun w => ([(tag, ev)], FRet tt, w).
Definition emit (ev : pg_event_t) : prog W unit := emit_as 0 ev.

(** [_exit(code)] in some thread; waiting for ever. *)
Definition exits {A} (code : Z) : prog W A := fun w => ([], FExit code, w).
Definition hangs {A} : prog W A := fun w => ([], FHang, w).

(** Records that other threads get to the pipe before the next step. *)
Definition emit_all (evs : list (Z * pg_event_t)) : prog W unit := fun w => (evs, FRet tt, w).

(** Access to the world. *)
Definition act {A} (f : W -> A * W) : prog W A := fun w => let '(a, w) := f w in ([], FRet a, w).
Definition update (f : W -> W) : prog W unit := fun w => ([], FRet tt, f w).

(** A memory access outside every object is a segmentation fault. *)
Definition access {A} (f : W -> res (A * W)) : prog W A := fun w =>
  match f w with
  | Ok (a, w) => ([], FRet a, w)
  | Fault => ([], FSignal SIGSEGV, w)
  | NoFuel => ([], FHang, w)
  end.

(** [for (i = from; i < from + n; ++i) a = body(i, a)]. *)
Fixpoint for_from {A} (from : Z) (n : nat) (body : Z -> A -> prog W A) (a : A) : prog W A :=
  match n with
  | O => ret a
  | S n => bind (body from a) (for_from (from + 1) n body)
  end.

(** A loop of at most [n] rounds: the body says whether to go on ([inl]) or to
    leave ([inr]); [FHang] if it never leaves. *)
Fixpoint loop {A B} (n : nat) (body : A -> prog W (A + B)) (a : A) : prog W B :=
  match n with
  | O => fun w => ([], FHang, w)
  | S n => bind (body a) (fun r => match r with inl a => loop n body a | inr b => ret b end)
  end.

(** The same with the bound in binary; an early exit costs only its rounds. *)
Fixpoint rounds {A B} (p : positive) (body : A -> prog W (A + B)) (a : A) : prog W (A + B) :=
  let again (q : positive) (r : A + B) : prog W (A + B) :=
    match r with inl a => rounds q body a | inr b => ret (inr b) end in
  match p with
  | xH => body a
  | xO q => bind (rounds q body a) (again q)
  | xI q => bind (body a) (fun r => bind (again q r) (again q))
  end.

Definition loop_upto {A B} (p : positive) (body : A -> prog W (A + B)) (a : A) : prog W B :=
  bind (rounds p body a) (fun r => match r with inl _ => fun w => ([], FHang, w) | inr b => ret b end).

End Prog.

#[export] Instance prog_ret W : MRet (prog W) := fun A a => ret a.
#[export] Instance prog_bind W : MBind (prog W) := fun A B f p => bind p f.

(** *** The binary loop is a loop *)

Section Rounds.
Context {W A B : Type}.

Fixpoint niter (n : nat) (body : A -> prog W (A + B)) (a : A) : prog W (A + B) :=
  match n with
  | O => ret (inl a)
  | S n => bind (body a) (fun r => match r with inl a => niter n body a | inr b => ret (inr b) end)
  end.

Definition resume (n : nat) (body : A -> prog W (A + B)) (r : A + B) : prog W (A + B) :=
  match r with inl a => niter n body a | inr b => ret (inr b) end.

Lemma bind_ext {X Y} (p : prog W X) (f g : X -> prog W Y) w :
  (forall x w, f x w = g x w) -> bind p f w = bind p g w.
Proof. intros H. unfold bind. destruct (p w) as [[evs []] w']; try done. by rewrite H. Qed.

Lemma bind_ext_l {X Y} (p q : prog W X) (f : X -> prog W Y) w :
  p w = q w -> bind p f w = bind q f w.
Proof. intros H. unfold bind. by rewrite H. Qed.

Lemma bind_assoc {X Y Z'} (p : prog W X) (f : X -> prog W Y) (g : Y -> prog W Z') w :
  bind (bind p f) g w = bind p (fun x => bind (f x) g) w.
Proof.
  unfold bind. destruct (p w) as [[evs []] w1]; try done.
  destruct (f a w1) as [[evs2 []] w2]; try done.
  destruct (g a0 w2) as [[evs3 r3] w3]. by rewrite app_assoc.
Qed.

Lemma bind_ret_l {X Y} (x : X) (f : X -> prog W Y) w : bind (ret x) f w = f x w.
Proof. unfold bind, ret. by destruct (f x w) as [[? ?] ?]. Qed.

Lemma niter_add n m body a w : niter (n + m) body a w = bind (niter n body a) (resume m body) w.
Proof.
  revert a w. induction n as [|n IH]; intros a w; cbn [niter Nat.add]; [by rewrite bind_ret_l|].
  rewrite bind_assoc. apply bind_ext. intros [a'|b] w'; [apply IH|]. by rewrite bind_ret_l.
Qed.

Lemma rounds_niter p body (a : A) w : rounds p body a w = niter (Pos.to_nat p) body a w.
Proof.
  revert a w. induction p as [p IH|p IH|]; intros a w.
  - rewrite Pos2Nat.inj_xI. replace (S (2 * Pos.to_nat p)) with (S (Pos.to_nat p + Pos.to_nat p)) by lia.
    cbn [rounds niter]. apply bind_ext. intros [a'|b] w'.
    + rewrite niter_add. transitivity (bind (niter (Pos.to_nat p) body a')
        (fun r => match r with inl a => rounds p body a | inr b => ret (inr b) end) w').
      { apply bind_ext_l, IH. }
      apply bind_ext. intros [a2|b2] w2; [apply IH|done].
    + by rewrite bind_ret_l.
  - rewrite Pos2Nat.inj_xO. replace (2 * Pos.to_nat p)%nat with (Pos.to_nat p + Pos.to_nat p)%nat by lia.
    cbn [rounds]. rewrite niter_add.
    transitivity (bind (niter (Pos.to_nat p) body a)
        (fun r => match r with inl a => rounds p body a | inr b => ret (inr b) end) w).
    { apply bind_ext_l, IH. }
    apply bind_ext. intros [a2|b2] w2; [apply IH|done].
  - cbn [rounds]. change (Pos.to_nat 1) with 1%nat. cbn [niter].
    unfold bind. destruct (body a w) as [[evs [[a'|b]| | |]] w']; cbn; by rewrite ?app_nil_r.
Qed.

Lemma niter_exit k n body a w evs b w' :
  niter k body a w = (evs, FRet (inr b), w') -> (k <= n)%nat ->
  niter n body a w = (evs, FRet (inr b), w').
Proof.
  intros H Hk. replace n with (k + (n - k))%nat by lia. rewrite niter_add. unfold bind. rewrite H.
  cbn. by rewrite app_nil_r.
Qed.

(** A loop that leaves within its bound returns what it left with. *)
Lemma loop_upto_exit p k body a w evs b w' :
  niter k body a w = (evs, FRet (inr b), w') -> (k <= Pos.to_nat p)%nat ->
  loop_upto p body a w = (evs, FRet b, w').
Proof.
  intros H Hk. unfold loop_upto, bind. rewrite rounds_niter, (niter_exit k _ _ _ _ _ _ _ H Hk).
  cbn. by rewrite app_nil_r.
Qed.

End Rounds.

(** [for] loops compose. *)
Lemma for_from_add {W A} from n m (body : Z -> A -> prog W A) a w :
  for_from from (n + m) body a w
  = bind (for_from from n body a) (for_from (from + Z.of_nat n) m body) w.
Proof.
  revert from a w. induction n as [|n IH]; intros from a w.
  - cbn [for_from Nat.add]. by rewrite bind_ret_l, Z.add_0_r.
  - cbn [for_from Nat.add]. rewrite bind_assoc. apply bind_ext. intros a' w'. rewrite IH.
    apply bind_ext. intros x w2. by replace (from + 1 + Z.of_nat n) with (from + Z.of_nat (S n)) by lia.
Qed.

(** A silent loop keeps what its body keeps. *)
Lemma for_from_inv {W A} (P : Z -> A -> W -> Prop) (body : Z -> A -> prog W A) n from a w :
  P from a w ->
  (forall i a w, from <= i < from + Z.of_nat n -> P i a w ->
     exists a' w', body i a w = ([], FRet a', w') /\ P (i + 1) a' w') ->
  exists a' w', for_from from n body a w = ([], FRet a', w') /\ P (from + Z.of_nat n) a' w'.
Proof.
  revert from a w. induction n as [|n IH]; intros from a w H0 Hs.
  - exists a, w. rewrite Z.add_0_r. done.
  - destruct (Hs from a w ltac:(lia) H0) as (a1 & w1 & E1 & H1).
    destruct (IH (from + 1) a1 w1 H1) as (a2 & w2 & E2 & H2).
    { intros i b v Hi. apply Hs. lia. }
    exists a2, w2. replace (from + Z.of_nat (S n)) with (from + 1 + Z.of_nat n) by lia. split; [|done].
    cbn [for_from]. unfold bind. by rewrite E1, E2.
Qed.

(** ** As a callback of the runner *)

(** [now i] is the clock when the [i]-th record is stamped. *)
Definition stamp (ctx : pg_runctx) (now : nat -> Z) (evs : list (Z * pg_event_t)) : list pg_event_t :=
  imap (fun i '(tag, ev) => pg_emit_copy ctx tag (now i) ev) evs.

(** A program that waits for ever ends when something kills it; the callback
    reports the signal the model is given for that. *)
Definition as_callback {W St} (killed_by : signal) (now : nat -> Z) (p : prog W Z) (w : W)
    (ctx : pg_runctx) (st : St) : list pg_event_t * cb_fin St :=
  let '(evs, r, _) := p w in
  (stamp ctx now evs,
   match r with
   | FRet rc => CbRet rc (ctx_rng ctx) st
   | FSignal sig => CbSignal sig
   | FExit code => CbExit code
   | FHang => CbSignal killed_by
   end).

(** ** Running a program step by step *)

Section Run.
Context {W : Type}.

Lemma run_emit_as {B} tag ev (q : unit -> prog W B) w L r w' :
  q tt w = (L, r, w') -> (emit_as tag ev ≫= q) w = ((tag, ev) :: L, r, w').
Proof. intros H. unfold mbind, prog_bind, bind, emit_as. by rewrite H. Qed.

Lemma run_emit {B} ev (q : unit -> prog W B) w L r w' :
  q tt w = (L, r, w') -> (emit ev ≫= q) w = ((0, ev) :: L, r, w').
Proof. apply run_emit_as. Qed.

Lemma run_emit_all {B} evs (q : unit -> prog W B) w L r w' :
  q tt w = (L, r, w') -> (emit_all evs ≫= q) w = (evs ++ L, r, w').
Proof. intros H. unfold mbind, prog_bind, bind, emit_all. by rewrite H. Qed.

Lemma run_silent {A B} (p : prog W A) (f : A -> prog W B) w a w1 R :
  p w = ([], FRet a, w1) -> f a w1 = R -> (p ≫= f) w = R.
Proof.
  intros Hp Hf. unfold mbind, prog_bind, bind. rewrite Hp, Hf. by destruct R as [[? ?] ?].
Qed.

Lemma run_bind {A B} (p : prog W A) (f : A -> prog W B) w evs a w1 L r w2 :
  p w = (evs, FRet a, w1) -> f a w1 = (L, r, w2) -> (p ≫= f) w = (evs ++ L, r, w2).
Proof. intros Hp Hf. unfold mbind, prog_bind, bind. by rewrite Hp, Hf. Qed.

Lemma run_assoc {A B C} (p : prog W A) (f : A -> prog W B) (g : B -> prog W C) w :
  ((p ≫= f) ≫= g) w = (p ≫= fun a => f a ≫= g) w.
Proof.
  unfold mbind, prog_bind, bind. destruct (p w) as [[evs []] w1]; try done.
  destruct (f a w1) as [[evs2 []] w2]; try done.
  destruct (g a0 w2) as [[evs3 r3] w3]. by rewrite app_assoc.
Qed.

Lemma run_crash {A B} (p : prog W A) (f : A -> prog W B) w sig w1 :
  p w = ([], FSignal sig, w1) -> (p ≫= f) w = ([], FSignal sig, w1).
Proof. intros Hp. unfold mbind, prog_bind, bind. by rewrite Hp. Qed.

End Run.

(** Executes the emissions at the head of the program. *)
Ltac prog_run := repeat first [rewrite run_assoc | apply run_emit | apply run_emit_as].

(** ** What a program may emit and return

    [emits I p Q]: from a world where [I] holds, [p] emits only records the
    runner can trust; if it returns, the value satisfies [Q] and [I] holds again.
    It is to these programs what a postcondition with an invariant is to loops:
    the rules below follow the combinators. *)

(** What the emit helpers guarantee: a well-formed record whose strings end, an
    unset or valid tag, not a DONE record. *)
Definition raw_sound (e : Z * pg_event_t) : Prop :=
  in_u32 e.1 /\ event_wf e.2 /\ strings_end e.2 /\ ev_kind e.2 <> kind_code PG_EV_DONE.

Definition emits {W A} (I : W -> Prop) (p : prog W A) (Q : A -> Prop) : Prop :=
  forall w, I w -> Forall raw_sound (p w).1.1 /\
    match (p w).1.2 with FRet a => Q a /\ I (p w).2 | _ => True end.

(** No assumption on the world. *)
Abbreviation anywhere := (fun _ => True) (only parsing).

Lemma kind_not_done k : k <> PG_EV_DONE -> kind_code k <> kind_code PG_EV_DONE.
Proof. intros H E. apply H. by apply kind_code_inj. Qed.

Section Emits.
Context {W : Type} (I : W -> Prop).

Lemma emits_ret {A} (a : A) (Q : A -> Prop) : Q a -> emits I (ret a) Q.
Proof. intros H w Hw. by split. Qed.

Lemma emits_bind {A B} (p : prog W A) (f : A -> prog W B) (P : A -> Prop) Q :
  emits I p P -> (forall a, P a -> emits I (f a) Q) -> emits I (bind p f) Q.
Proof.
  intros Hp Hf w Hw. specialize (Hp w Hw). unfold bind.
  destruct (p w) as [[evs [a|sig|c|]] w1]; try exact Hp. destruct Hp as [He [Ha H1]].
  specialize (Hf a Ha w1 H1). destruct (f a w1) as [[evs' r] w2]. destruct Hf as [He' Hr].
  split; [by apply Forall_app|exact Hr].
Qed.

Lemma emits_weaken {A} (p : prog W A) (P Q : A -> Prop) :
  emits I p P -> (forall a, P a -> Q a) -> emits I p Q.
Proof.
  intros Hp H w Hw. destruct (Hp w Hw) as [He Hr]. split; [done|].
  destruct (p w).1.2; try done. destruct Hr. auto.
Qed.

Lemma emits_silent {A} (p : prog W A) (Q : A -> Prop) :
  (forall w, I w -> exists r w', p w = ([], r, w') /\ match r with FRet a => Q a /\ I w' | _ => True end) ->
  emits I p Q.
Proof. intros H w Hw. destruct (H w Hw) as (r & w' & -> & Hr). split; [constructor|exact Hr]. Qed.

Lemma emits_act {A} (f : W -> A * W) (Q : A -> Prop) :
  (forall w, I w -> Q (f w).1 /\ I (f w).2) -> emits I (act f) Q.
Proof. intros H w Hw. specialize (H w Hw). unfold act. by destruct (f w). Qed.

Lemma emits_update (f : W -> W) (Q : unit -> Prop) : (forall w, I w -> I (f w)) -> Q tt -> emits I (update f) Q.
Proof. intros H HQ w Hw. split; [constructor|]. split; [done|]. by apply H. Qed.

Lemma emits_hangs {A} (Q : A -> Prop) : emits I hangs Q.
Proof. intros w Hw. by split. Qed.

Lemma emits_exits {A} code (Q : A -> Prop) : emits I (exits code) Q.
Proof. intros w Hw. by split. Qed.

Lemma emits_emit_as tag ev (Q : unit -> Prop) : raw_sound (tag, ev) -> Q tt -> emits I (emit_as tag ev) Q.
Proof. intros H HQ w Hw. split; [by constructor|done]. Qed.

Lemma emits_emit_all evs (Q : unit -> Prop) : Forall raw_sound evs -> Q tt -> emits I (emit_all evs) Q.
Proof. intros H HQ w Hw. by split. Qed.

(** Loops: an invariant on the loop variable. *)
Lemma emits_for_from {A} from n (body : Z -> A -> prog W A) a (P : Z -> A -> Prop) :
  P from a ->
  (forall i a, from <= i < from + Z.of_nat n -> P i a -> emits I (body i a) (P (i + 1))) ->
  emits I (for_from from n body a) (P (from + Z.of_nat n)).
Proof.
  revert from a. induction n as [|n IH]; intros from a H0 Hs; cbn [for_from].
  - apply emits_ret. by rewrite Z.add_0_r.
  - apply (emits_bind _ _ (P (from + 1))); [apply Hs; [lia|done]|]. intros b Hb.
    replace (from + Z.of_nat (S n)) with (from + 1 + Z.of_nat n) by lia.
    apply IH; [done|]. intros i c Hi. apply Hs. lia.
Qed.

Definition either {A B} (P : A -> Prop) (Q : B -> Prop) (r : A + B) : Prop :=
  match r with inl a => P a | inr b => Q b end.

Lemma emits_niter {A B} n (body : A -> prog W (A + B)) a (P : A -> Prop) (Q : B -> Prop) :
  P a -> (forall a, P a -> emits I (body a) (either P Q)) -> emits I (niter n body a) (either P Q).
Proof.
  intros H0 Hs. revert a H0. induction n as [|n IH]; intros a H0; cbn [niter]; [by apply emits_ret|].
  apply (emits_bind _ _ (either P Q)); [by apply Hs|]. intros [b|b] Hb; [by apply IH|by apply emits_ret].
Qed.

Lemma emits_loop {A B} n (body : A -> prog W (A + B)) a (P : A -> Prop) (Q : B -> Prop) :
  P a -> (forall a, P a -> emits I (body a) (either P Q)) -> emits I (loop n body a) Q.
Proof.
  intros H0 Hs. revert a H0. induction n as [|n IH]; intros a H0; cbn [loop]; [apply emits_hangs|].
  apply (emits_bind _ _ (either P Q)); [by apply Hs|]. intros [b|b] Hb; [by apply IH|by apply emits_ret].
Qed.

Lemma emits_loop_upto {A B} n (body : A -> prog W (A + B)) a (P : A -> Prop) (Q : B -> Prop) :
  P a -> (forall a, P a -> emits I (body a) (either P Q)) -> emits I (loop_upto n body a) Q.
Proof.
  intros H0 Hs. apply (emits_bind _ _ (either P Q)).
  - intros w Hw. rewrite rounds_niter. by apply emits_niter.
  - intros [b|b] Hb; [apply emits_hangs|by apply emits_ret].
Qed.

(** *** The emit helpers *)

Lemma text_sound tag k s : in_u32 tag -> k <> PG_EV_DONE ->
  raw_sound (tag, ev_set_text (snprintf PG_EVENT_TEXT_LEN (str s)) (ev_init k)).
Proof.
  intros. split; [done|]. split; [by apply ev_text_wf|]. split; [by apply ev_text_strings|by apply kind_not_done].
Qed.

Lemma kv_sound tag k key v : in_u32 tag -> k <> PG_EV_DONE -> in_i64 v -> raw_sound (tag, emit_kv k key v).
Proof.
  intros. split; [done|]. split; [by apply emit_kv_wf|]. split; [apply emit_kv_strings|by apply kind_not_done].
Qed.

Lemma emits_logf s : emits I (emit (pg_logf s)) anywhere.
Proof. by apply emits_emit_as; [apply text_sound|]. Qed.
Lemma emits_phase s : emits I (emit (pg_phase s)) anywhere.
Proof. by apply emits_emit_as; [apply text_sound|]. Qed.
Lemma emits_sut_fault s : emits I (emit (pg_sut_fault s)) anywhere.
Proof. by apply emits_emit_as; [apply text_sound|]. Qed.
Lemma emits_watchdog s : emits I (emit (pg_watchdog s)) anywhere.
Proof. by apply emits_emit_as; [apply text_sound|]. Qed.
Lemma emits_count k v : in_i64 v -> emits I (emit (pg_count k v)) anywhere.
Proof. intros. by apply emits_emit_as; [apply kv_sound|]. Qed.
Lemma emits_gauge k v : in_i64 v -> emits I (emit (pg_gauge k v)) anywhere.
Proof. intros. by apply emits_emit_as; [apply kv_sound|]. Qed.
Lemma emits_expect k v : in_i64 v -> emits I (emit (pg_expect k v)) anywhere.
Proof. intros. by apply emits_emit_as; [apply kv_sound|]. Qed.
Lemma emits_actual k v : in_i64 v -> emits I (emit (pg_actual k v)) anywhere.
Proof. intros. by apply emits_emit_as; [apply kv_sound|]. Qed.

End Emits.

Create HintDb emits.

#[export] Hint Resolve emits_logf emits_phase emits_sut_fault emits_watchdog : emits.
#[export] Hint Resolve emits_count emits_gauge emits_expect emits_actual : emits.
#[export] Hint Resolve emits_hangs emits_exits : emits.
#[export] Hint Extern 1 (in_i64 _) => lia : emits.

(** Goes over the emissions at the head of a program. *)
Ltac emits_step :=
  match goal with
  | |- emits _ (mbind _ (emit _)) _ =>
      apply (emits_bind _ _ _ anywhere); [solve [auto with emits]|intros _ _]
  | |- emits _ (mret _) _ => apply emits_ret; try done
  | |- emits _ hangs _ => apply emits_hangs
  | |- emits _ (exits _) _ => apply emits_exits
  | |- emits _ (let _ := _ in _) _ => cbv zeta
  end.
Ltac emits_steps := repeat emits_step.

(** The main thread's and the tagged threads' records, stamped, satisfy what the
    runner's consumers need. *)
Lemma Forall_imap {A B} (P : A -> Prop) (Q : B -> Prop) (f : nat -> A -> B) l :
  (forall i x, P x -> Q (f i x)) -> Forall P l -> Forall Q (imap f l).
Proof.
  intros H Hl. revert f H. induction Hl as [|x l Hx _ IH]; intros f H; cbn; constructor; auto.
  apply IH. intros. by apply H.
Qed.
