(* ===== verification/Catalogue.v ===== *)
(** * The scenario descriptors (src/scenarios/)

    The nineteen [pg_scenario_t] records, field by field, and the registry the
    linked program starts with: one constructor per file, run in the order the
    build lists the files (sorted paths). *)

From S2P Require Import Prelude Event Registry.

(** The scenario callbacks, by descriptor. *)
Inductive scenario_fn :=
| Run_cascading_failure
| Run_flaky_environment
| Run_split_brain
| Run_thundering_herd
| Run_deadlock_classic
| Run_race_counter
| Run_thread_cancel_midwrite
| Run_arena_corrupt
| Run_crash_null_deref
| Run_double_free
| Run_uaf_callback
| Run_connection_reset
| Run_packet_loss
| Run_partial_read
| Run_clock_jump
| Run_disk_full
| Run_jittery_timer
| Run_partial_write
| Run_slow_fsync
| Explain_race_counter.

#[export] Instance scenario_fn_eq_dec : EqDecision scenario_fn.
Proof. solve_decision. Defined.

Definition dquote : string := String (Ascii.ascii_of_N 34) EmptyString.

#[local] Open Scope string_scope.

(* @ src/scenarios/compound/cascading_failure.c:113-143 scen *)
Definition scen_cascading_failure : pg_scenario_t scenario_fn :=
  Scenario "cascading_failure"
    "Cascade: loss + slow fsync"
    "20% net loss, 50ms fsyncs, concurrent receiver"
    ("A lossy network feeds a receiver that persists each chunk via slow fsync. Individually each primitive is tolerable; compounded they tank throughput.")
    ("bytes_persisted < bytes_sent (some lost), wall-time >> single-primitive case")
    (Some ("Why compounding failures are worse than they look:

Individually, each chaos source is routine:
  - 20% packet loss → TCP retransmits invisibly.
  - 50ms fsync      → ~20 ops/sec per thread.
  - 1 receiver thread → naive serial processing.

Combined they compound:
  - Lost chunks lengthen the tail (retries not modeled here;
    in prod they'd arrive out of order too).
  - Every fsync serializes the receiver; when the sender
    sprints, the queue grows and tail latency follows.
  - If the sender had a timeout, it would start firing.

Fixes:
  - Batch writes between fsyncs (group commit).
  - Separate thread pools per stage with explicit queues.
  - Apply backpressure BEFORE the timeout tier.
  - Test the compound scenario; individual-component SLOs
    never predict compound-failure behavior."))
    PG_CAT_COMPOUND None Run_cascading_failure None None.

(* @ src/scenarios/compound/flaky_environment.c:120-144 scen *)
Definition scen_flaky_environment : pg_scenario_t scenario_fn :=
  Scenario "flaky_environment"
    "Flaky env: jitter everywhere"
    "100ms heartbeat under net + fsync + clock noise"
    ("Measures how much a 100ms cadence slips when every layer adds a little variance. Individually each layer is tolerable; combined they blow the budget.")
    ("max_tick_ms >> target (100); mean close to target")
    (Some ("Why 'it worked in dev' fails in prod: every single layer adds
variance. Network jitter. Disk tail latency. Scheduler preempts.
NTP adjusts the clock. Each layer is ~2-15 ms in isolation; each
is forgivable. Compounded across a single iteration, the nominal
100 ms budget is regularly violated.

Naive heartbeat timeouts (e.g. 'declare peer dead if no beat for
200 ms') fire false positives under load.

Fixes:
  - Timeout = 3-5× the nominal interval, not 2×.
  - Use CLOCK_MONOTONIC for elapsed math (never REALTIME).
  - Measure p99 in prod, not just p50.
  - Inject synthetic jitter in tests so the chaos is familiar."))
    PG_CAT_COMPOUND None Run_flaky_environment None None.

(* @ src/scenarios/compound/split_brain.c:143-168 scen *)
Definition scen_split_brain : pg_scenario_t scenario_fn :=
  Scenario "split_brain"
    "Split-brain: partition then heal"
    "2 replicas, 100% loss half the run, then 0%"
    ("Two replica threads each maintain a local counter. A mid-run partition (via chaos_net_set_knobs) causes divergent state; healing doesn't reconcile.")
    ("replicas disagree on the counter even after the network recovers")
    (Some ("Why partitions are dangerous: during a partition, each side
thinks it's the authoritative source. Both accept writes. When
the partition heals, they have divergent state. There is no
automatic way to merge — the data itself doesn't tell you which
write 'should' have won.

Fixes:
  - Use consensus (Raft, Paxos) for any state that MUST stay
    consistent across replicas.
  - Or: accept eventual consistency with explicit conflict
    resolution (CRDTs, vector clocks, last-write-wins with
    a reliable clock).
  - Or: sacrifice availability during partitions (the CP side
    of CAP — refuse writes on the minority side).
  - NEVER: silently merge and hope."))
    PG_CAT_COMPOUND None Run_split_brain None None.

(* @ src/scenarios/compound/thundering_herd.c:127-149 scen *)
Definition scen_thundering_herd : pg_scenario_t scenario_fn :=
  Scenario "thundering_herd"
    "Thundering herd: lock + fsync"
    "8 threads race for a mutex holding slow IO"
    ("Many workers wake simultaneously and queue through one mutex whose critical section is a slow fsync. Total wall time ≈ N×iters×fsync.")
    ("avg wait grows with N; wall time ≈ fully serialized")
    (Some ("Why concurrent code runs serially: N threads all want the same
lock. They acquire serially; while one holds it, N-1 wait. Total
time = N × (critical section time). If the critical section
includes slow IO, latency explodes linearly with concurrency.
CPU usage looks low while the app is throughput-bound.

Fixes:
  - Shrink the critical section: do slow work OUTSIDE the lock.
  - Shard the lock: many mutexes, hash requests across them.
  - Lock-free data structures where contention is high.
  - Connection/resource pooling — don't lock on the hot path.
  - Backpressure: reject excess load rather than queue it."))
    PG_CAT_COMPOUND None Run_thundering_herd None None.

(* @ src/scenarios/concurrency/deadlock_classic.c:62-82 scen *)
Definition scen_deadlock_classic : pg_scenario_t scenario_fn :=
  Scenario "deadlock_classic"
    "Deadlock: opposite lock order"
    "two threads, two mutexes, AB vs BA"
    ("Two threads acquire two mutexes in opposite orders; each waits forever for the other. Watchdog cuts the hang.")
    ("watchdog fires; PG_EV_FAULT emitted; process exits 2")
    (Some ("Why this hangs: T1 holds A and waits for B. T2 holds B and waits
for A. Each thread is waiting for what the other holds. Neither
ever releases. The watchdog cuts the hang.

Fixes:
  - Always acquire locks in a fixed global order. If every thread
    acquires A before B, no cycle is possible.
  - pthread_mutex_trylock + backoff. If you can't get B, release
    A and retry.
  - Use a single mutex (eliminate the locking dance entirely).
  - lockdep-style runtime ordering checks in dev builds."))
    PG_CAT_CONCURRENCY None Run_deadlock_classic None None.

(* @ src/scenarios/concurrency/race_counter.c:69-92 scen *)
Definition scen_race_counter : pg_scenario_t scenario_fn :=
  Scenario "race_counter"
    "Race: lost increments"
    "8 threads ++counter without locks"
    ("A canonical data race: threads read-modify-write a shared counter without synchronization.")
    ("counter = 8000; actual usually less")
    (Some ("Why this fails: `*counter = *counter + 1` is three operations: read,
increment, write. Two threads can both read the same value, both
increment to the same result, and both write back the same incremented
value -- the second write silently overwrites the first.

Fixes:
  - pthread_mutex_lock around the update.
  - atomic_fetch_add(&counter, 1) (C11 stdatomic.h).
  - Single-writer architecture: one thread owns the value.

TSan (clang -fsanitize=thread) reports the race exactly. Try:
  cmake -B build-tsan -DCMAKE_BUILD_TYPE=Tsan && cmake --build build-tsan
  ./build-tsan/playground_run --scenario race_counter"))
    PG_CAT_CONCURRENCY None Run_race_counter None (Some Explain_race_counter).

(* @ src/scenarios/concurrency/thread_cancel_midwrite.c:62-82 scen *)
Definition scen_thread_cancel_midwrite : pg_scenario_t scenario_fn :=
  Scenario "thread_cancel_midwrite"
    "Cancel mid-write: torn struct"
    "pthread_cancel a thread copying a struct"
    ("A thread copies an 8-field struct field-by-field. We cancel it 1ms in. Reader sees a half-written struct.")
    ("fewer than 8 fields populated; readers see torn state")
    (Some ("Why this is dangerous: pthread_cancel can interrupt a thread at any
cancellation point (read, write, sleep, mutex_timedlock, ...). If the
thread was mid-update of a struct, fields are half-written. Other
threads see torn state with no warning.

Fixes:
  - Disable cancellation around critical sections:
      pthread_setcancelstate(PTHREAD_CANCEL_DISABLE, &old)
  - Use pthread_cleanup_push to register rollback handlers.
  - Avoid pthread_cancel; use a graceful shutdown flag the thread
    polls between operations instead."))
    PG_CAT_CONCURRENCY None Run_thread_cancel_midwrite None None.

(* @ src/scenarios/memory/arena_corrupt.c:36-55 scen *)
Definition scen_arena_corrupt : pg_scenario_t scenario_fn :=
  Scenario "arena_corrupt"
    "OOB write: redzone caught"
    "write 64B into a 32B alloc; redzone catches it"
    ("A classic buffer overflow inside the chaos arena. Redzones detect it; in production this would silently trash adjacent memory.")
    ("redzones_corrupt = 1; PG_EV_FAULT emitted")
    (Some ("Why this is silent without instrumentation: the OOB bytes land in
whatever's allocated next — another struct, another buffer. That
code reads corrupted data later. Crashes happen far from the bug.

Fixes:
  - Use AddressSanitizer (-fsanitize=address) in dev/CI; it adds
    real-time redzones around every malloc.
  - Use bounded APIs (snprintf, strlcpy, memcpy_s) instead of
    strcpy/sprintf.
  - Validate size BEFORE writing."))
    PG_CAT_MEMORY None Run_arena_corrupt None None.

(* @ src/scenarios/memory/crash_null_deref.c:18-37 scen *)
Definition scen_crash_null_deref : pg_scenario_t scenario_fn :=
  Scenario "crash_null_deref"
    "Crash: NULL deref (containment proof)"
    "writes to *NULL — should not take down the TUI"
    ("Deliberately segfaults to prove the fork-per-scenario isolation works.")
    ("PG_EV_FAULT(SIGSEGV); child exits via signal; parent unaffected")
    (Some ("This scenario exists to PROVE the runner contains crashes. The
child segfaults; the runner's signal handler emits a fault event
then re-raises. The default handler kills the child. The parent
TUI keeps running and reaps the abnormal exit.

Real NULL derefs in C come from:
  - forgetting to check return values (malloc, fopen, getenv)
  - stale pointers after a struct was reallocated (realloc moves)
  - off-by-one in an array of pointers
  - aliased pointers where one path frees and another reads"))
    PG_CAT_MEMORY None Run_crash_null_deref None None.

(* @ src/scenarios/memory/double_free.c:37-57 scen *)
Definition scen_double_free : pg_scenario_t scenario_fn :=
  Scenario "double_free"
    "Double-free detected"
    "free(p); free(p) — arena catches it"
    ("Frees the same pointer twice; the arena's per-block magic catches the second free.")
    ("second free returns -1; PG_EV_FAULT emitted")
    (Some ("Why this corrupts: most production allocators don't check magic on
free. The second free corrupts the freelist; the next alloc may
return a pointer that someone else still uses. Crashes happen
later, far from the cause -- the worst kind of bug to debug.

Fixes:
  - Set the pointer to NULL after free. free(NULL) is a no-op, so
    a second 'free' is harmless.
  - Use a smart-pointer / unique-ownership pattern (each object has
    one owner who frees it).
  - AddressSanitizer catches double-free in dev/CI."))
    PG_CAT_MEMORY None Run_double_free None None.

(* @ src/scenarios/memory/uaf_callback.c:45-67 scen *)
Definition scen_uaf_callback : pg_scenario_t scenario_fn :=
  Scenario "uaf_callback"
    "UAF: dangling closure"
    "alloc, free, then read — see poison bytes"
    ("Allocates a struct, frees it, then reads the dangling pointer. Arena poisons freed memory to make UAF visible.")
    ("post-free read returns 0xDEDE garbage instead of 0xCAFE")
    (Some ("Why this is dangerous: a freed pointer still holds an address that
looks valid. Reads return whatever bytes happen to be there now --
often poison (here 0xDE) or, in production, data from a later
allocation that got the same memory. The bug is invisible until
something downstream uses the corrupted value.

Fixes:
  - Set the pointer to NULL right after free. Subsequent uses crash
    loudly instead of returning garbage.
  - Use refcounting / shared ownership for objects with multiple
    holders.
  - AddressSanitizer (ASan) catches UAF reliably in dev/CI:
      cmake -B build-asan -DCMAKE_BUILD_TYPE=Asan"))
    PG_CAT_MEMORY None Run_uaf_callback None None.

(* @ src/scenarios/network/connection_reset.c:95-114 scen *)
Definition scen_connection_reset : pg_scenario_t scenario_fn :=
  Scenario "connection_reset"
    "Peer disappears mid-stream"
    "peer closes after 30ms; we keep writing"
    ("Demonstrates write returning EPIPE when the peer closes the connection mid-stream.")
    ("first writes succeed; later writes return -1 with EPIPE")
    (Some ("Why this happens: TCP/UNIX peers vanish at any time — process crash,
network partition, idle timeout. write() returns EPIPE; read() returns
0 (EOF) potentially mid-message.

Fixes:
  - signal(SIGPIPE, SIG_IGN) so write returns -1 instead of killing
    the process.
  - Always check return values; treat EOF mid-message as an error,
    not a successful read.
  - Use heartbeats / keepalives to detect dead peers proactively."))
    PG_CAT_NETWORK None Run_connection_reset None None.

(* @ src/scenarios/network/packet_loss.c:58-78 scen *)
Definition scen_packet_loss : pg_scenario_t scenario_fn :=
  Scenario "packet_loss"
    "Network: 30% packet loss"
    "100 msgs of 16B, proxy drops chunks"
    ("Sends 100 messages through a chaos proxy that drops 30% of chunks. Demonstrates byte-level loss in a stream.")
    ("received < sent; ~30% of bytes vanish")
    (Some ("Why TCP doesn't show this: the kernel retransmits dropped segments
invisibly. You never see the loss as an application. With UDP, the
loss is your reality -- you must build retries, sequence numbers,
and timeouts on top of it.

Fixes / context:
  - Use TCP unless you have a reason not to.
  - Build a reliability layer (sequence + ack + retry) on UDP.
  - QUIC packages all of that for you (HTTP/3 runs on it).
  - For real-time work where retransmits are too slow (audio,
    games), accept loss and design around it (FEC, interpolation)."))
    PG_CAT_NETWORK None Run_packet_loss None None.

(* @ src/scenarios/network/partial_read.c:55-76 scen *)
Definition scen_partial_read : pg_scenario_t scenario_fn :=
  Scenario "partial_read"
    "Network: short reads"
    "writer sends 4KB; reader gets it 17B at a time"
    ("Demonstrates how a single write() arrives as many short reads — the bug that breaks naive socket code.")
    ("expected: 1 read call; actual: hundreds")
    (Some ("Why this happens: TCP/UNIX streams have NO message boundaries. A
single write() of 4KB can arrive as 100 reads of varying sizes.
The kernel coalesces and splits as it sees fit. Code that assumes
one read() = one message silently truncates data, or worse, treats
the next message's bytes as a continuation.

Fixes:
  - ALWAYS loop on read() until you have the full expected length.
  - Use a length-prefix framing protocol (write 4-byte length
    followed by N bytes of payload).
  - Or use SOCK_SEQPACKET / message-oriented sockets.
  - Higher-level libraries (gRPC, HTTP) handle framing for you."))
    PG_CAT_NETWORK None Run_partial_read None None.

(* @ src/scenarios/timeio/clock_jump.c:44-65 scen *)
Definition scen_clock_jump : pg_scenario_t scenario_fn :=
  Scenario "clock_jump"
    "Clock jumps backward"
    "skew the clock -30s; watch timeout math break"
    ("Mid-loop, the clock jumps backward 30s. The naive `now - start > timeout` check becomes false forever.")
    ("loop runs past intended deadline (safety net stops it)")
    (Some ("Why CLOCK_REALTIME is dangerous for elapsed-time math: NTP, leap
seconds, and admin changes can jump it backward at any moment.
Code that does `now - start > timeout` either becomes false forever
(loops infinitely) or fires immediately (false positive).

Fix: use CLOCK_MONOTONIC for elapsed-time math. It only goes
forward, never jumps. Save CLOCK_REALTIME for displayable wall-
clock times you show to humans.

On macOS: clock_gettime(CLOCK_MONOTONIC, &ts).
On Linux: clock_gettime(CLOCK_MONOTONIC_RAW) is even better
(immune to NTP slewing)."))
    PG_CAT_TIMEIO None Run_clock_jump None None.

(* @ src/scenarios/timeio/disk_full.c:50-70 scen *)
Definition scen_disk_full : pg_scenario_t scenario_fn :=
  Scenario "disk_full"
    "Disk full: ENOSPC"
    "write past quota; observe ENOSPC handling"
    ("A wrapped fd reports ENOSPC after 1KiB has been written. Demonstrates silent data loss when write() returns are ignored.")
    ("first 16 writes succeed (1024B), rest return -1/ENOSPC")
    (Some ("Why this loses data: write() returning -1 with ENOSPC means YOUR
DATA DIDN'T MAKE IT. Code that ignores write()'s return value
silently drops bytes and reports success. Logs, transactions,
user data -- all gone, no warning.

Fixes:
  - Always check write()'s return value. -1 means failure.
  - Loop on partial writes (write may return < n even on success).
  - On ENOSPC, fail loudly. Don't continue as if nothing happened.
  - For critical data: monitor free space proactively, alert before
    you hit zero."))
    PG_CAT_TIMEIO None Run_disk_full None None.

(* @ src/scenarios/timeio/jittery_timer.c:48-68 scen *)
Definition scen_jittery_timer : pg_scenario_t scenario_fn :=
  Scenario "jittery_timer"
    "Sleep isn't precise"
    "ask for 1ms; measure what you actually get"
    ("Calls nanosleep(1ms) repeatedly and records the actual elapsed time. Min/mean/max are usually wildly different.")
    ("max delay 5-100x the requested value, depending on system load")
    (Some ("Why sleeps aren't precise: nanosleep / usleep guarantee that you
sleep AT LEAST the requested time, plus scheduler latency. Under
load, the actual delay can be many times the request.

Fixes:
  - Don't sleep for precise timing; compute an absolute deadline
    (clock_gettime + offset) and compare against now in a loop.
  - For real-time work, use clock_nanosleep with TIMER_ABSTIME, or
    busy-wait the last few microseconds.
  - Accept jitter as a fact of life; design protocols that tolerate
    it (timeouts that are a multiple of the expected interval)."))
    PG_CAT_TIMEIO None Run_jittery_timer None None.

(* @ src/scenarios/timeio/partial_write.c:47-68 scen *)
Definition scen_partial_write : pg_scenario_t scenario_fn :=
  Scenario "partial_write"
    "Short writes lose data"
    "write(2048) returns 137; lazy code drops 1911B"
    ("Compares naive vs looping write(). The naive call silently loses bytes; the loop succeeds.")
    ("naive: 137 of 2048; looped: 2048 of 2048")
    (Some ("Why write() returns less than asked: signal interruption, kernel
buffer pressure, slow disks. POSIX guarantees write returns >= 1
or -1, NOT that it writes the full request.

ALWAYS loop on partial writes:
  while (n > 0) {
      ssize_t w = write(fd, buf, n);
      if (w < 0) { if (errno == EINTR) continue; return -1; }
      buf += w; n -= w;
  }

Same goes for send(2) and read(2)/recv(2)."))
    PG_CAT_TIMEIO None Run_partial_write None None.

(* @ src/scenarios/timeio/slow_fsync.c:37-58 scen *)
Definition scen_slow_fsync : pg_scenario_t scenario_fn :=
  Scenario "slow_fsync"
    "Slow fsync: UI freeze"
    "fsync takes 1.5s; observe what blocks"
    ("A wrapped fd makes fsync(2) block for a configurable duration. Demonstrates UI freeze patterns.")
    ("fsync_ms ~= 1500; observable wall-clock delay")
    (Some ("Why this matters: fsync waits for actual disk persistence. On a
busy disk this is seconds. On a slow disk under load, it can be
tens of seconds. Calling fsync on the UI thread freezes the app.
Calling it inside a hot loop tanks throughput.

Fixes:
  - Move fsync to a background thread; don't block the UI on it.
  - Batch writes between fsyncs (group commit pattern).
  - Use O_DSYNC if you only need data persistence, not metadata.
  - Use fdatasync() instead of fsync() to skip metadata sync.
  - For some workloads (logs, caches), fsync is overkill -- the
    cost of losing the last few seconds of data is acceptable."))
    PG_CAT_TIMEIO None Run_slow_fsync None None.

Definition scenarios : list (pg_scenario_t scenario_fn) :=
  [scen_cascading_failure;
   scen_flaky_environment;
   scen_split_brain;
   scen_thundering_herd;
   scen_deadlock_classic;
   scen_race_counter;
   scen_thread_cancel_midwrite;
   scen_arena_corrupt;
   scen_crash_null_deref;
   scen_double_free;
   scen_uaf_callback;
   scen_connection_reset;
   scen_packet_loss;
   scen_partial_read;
   scen_clock_jump;
   scen_disk_full;
   scen_jittery_timer;
   scen_partial_write;
   scen_slow_fsync].

(** The registry after every constructor has run. *)
Definition g_reg : list (pg_scenario_t scenario_fn) := PG_SCENARIO_REGISTER scenarios.
