(* ===== verification/ScenMemory.v ===== *)
(** * The memory scenarios (src/scenarios/memory/)

    The world of these programs is the arena they created; [m] is where [mmap]
    put the 64 KiB region and [calloc_ok] whether the descriptor could be
    allocated.  Stores and loads of the scenario itself go through the region
    and fault outside it or through NULL. *)

From S2P Require Import Prelude CLib Event Runner ChaosMem Prog Catalogue.

(* @ src/scenarios/memory/arena_corrupt.c:10-10 ac_run *)
Definition arena_bytes : Z := 64 * 1024.

(** Nothing mapped. *)
#[export] Instance arena_world : World (option chaos_arena) := fun a => a = None.

(** ** The calls the scenarios make *)

Definition arena_alloc (n : Z) : prog (option chaos_arena) (option Z) :=
  access (fun a => chaos_arena_alloc a n).
Definition arena_free (p : option Z) : prog (option chaos_arena) Z :=
  access (fun a => chaos_arena_free a p).
Definition arena_check : prog (option chaos_arena) Z :=
  access (fun a => c ← chaos_arena_check a; mret (c, a)).

(** The region is unmapped: no access works any more. *)
Definition arena_destroy : prog (option chaos_arena) unit := update (fun _ => None).

(** [memcpy(p + off, bs, length bs)] and its inverse. *)
Definition mem_write (p : option Z) (off : Z) (bs : list Z) : prog (option chaos_arena) unit :=
  access (fun a => match a, p with
                   | Some a, Some p => a ← store a (p + off) bs; mret (tt, Some a)
                   | _, _ => Fault
                   end).
Definition mem_read (p : option Z) (off : Z) (n : nat) : prog (option chaos_arena) (list Z) :=
  access (fun a => match a, p with
                   | Some a', Some p => bs ← load a' (p + off) n; mret (bs, a)
                   | _, _ => Fault
                   end).
Definition mem_write32 (p : option Z) (off v : Z) := mem_write p off (le_bytes 4 (u32 v)).
Definition mem_read32 (p : option Z) (off : Z) : prog (option chaos_arena) Z :=
  bs ← mem_read p off 4; mret (i32 (le_val bs)).

(** [a = chaos_arena_create(...); if (!a) { ...; return 1; }], then [body]. *)
Definition with_arena (calloc_ok : bool) (m : option Z) (body : prog (option chaos_arena) Z)
  : prog (option chaos_arena) Z :=
  match chaos_arena_create arena_bytes CHAOS_ARENA_REDZONES calloc_ok m with
  | CreateNull _ => emit (pg_sut_fault (Some "arena create failed"%string));; mret 1
  | CreateOk a => update (fun _ => Some a);; body
  end.

Open Scope string_scope.

(** ** arena_corrupt *)

(* @ src/scenarios/memory/arena_corrupt.c ac_run *)
Definition ac_run (calloc_ok : bool) (m : option Z) : prog (option chaos_arena) Z :=
  with_arena calloc_ok m (
    emit (pg_phase (Some "alloc 32 bytes (with 16B redzones front & back)"));;
    p ← arena_alloc 32;
    emit (pg_phase (Some "write 64 bytes — that's 32 bytes off the end"));;
    mem_write p 0 (replicate 64 88);;
    emit (pg_phase (Some "scan arena for redzone corruption"));;
    corrupted ← arena_check;
    emit (pg_expect (Some "redzones_corrupt") 1);;
    emit (pg_actual (Some "redzones_corrupt") corrupted);;
    (if (0 <? corrupted)%Z then
       emit (pg_sut_fault (Some "out-of-bounds write detected by redzone scan"));;
       emit (pg_logf "without redzones, this write would silently corrupt the next allocation.");;
       emit (pg_logf "the bug would manifest as a crash or wrong value far from the cause.")
     else emit (pg_logf "(unexpected) redzones still intact"));;
    arena_destroy;;
    mret 0).

(** ** double_free *)

(** [%p] of a pointer. *)
Definition fmt_ptr (p : option Z) : string := match p with Some p => fmt_p p | None => "(nil)" end.

(* @ src/scenarios/memory/double_free.c df_run *)
Definition df_run (calloc_ok : bool) (m : option Z) : prog (option chaos_arena) Z :=
  with_arena calloc_ok m (
    emit (pg_phase (Some "alloc 128 bytes"));;
    p ← arena_alloc 128;
    emit (pg_logf ("alloc returned " +:+ fmt_ptr p));;
    emit (pg_phase (Some "first free (legitimate)"));;
    r1 ← arena_free p;
    emit (pg_logf ("first free: rc=" +:+ fmt_d r1 +:+ "  (0 = ok)"));;
    emit (pg_phase (Some "second free of the SAME pointer"));;
    r2 ← arena_free p;
    emit (pg_logf ("second free: rc=" +:+ fmt_d r2 +:+ "  (-1 = arena detected double-free)"));;
    emit (pg_expect (Some "double_free_caught") 1);;
    emit (pg_actual (Some "double_free_caught") (if (r2 =? -1)%Z then 1 else 0));;
    (if (r2 =? -1)%Z then
       emit (pg_sut_fault (Some "double-free detected"));;
       emit (pg_logf "with libc malloc this would corrupt the freelist; the next");;
       emit (pg_logf "alloc could return a pointer someone else still uses.")
     else mret tt);;
    arena_destroy;;
    mret 0).

(** ** uaf_callback

    [closure_t] is 40 bytes: [secret] at 0, [refcount] at 4, [name] at 8. *)

(* @ src/scenarios/memory/uaf_callback.c:9-13 closure_t *)
Definition sizeof_closure_t : Z := 40.

(* @ src/scenarios/memory/uaf_callback.c uc_run *)
Definition uc_run (calloc_ok : bool) (m : option Z) : prog (option chaos_arena) Z :=
  with_arena calloc_ok m (
    emit (pg_phase (Some "alloc closure"));;
    c ← arena_alloc sizeof_closure_t;
    mem_write32 c 0 0xCAFE;;
    mem_write32 c 4 1;;
    mem_write c 8 (str "callback-state" ++ [0]);;
    secret ← mem_read32 c 0;
    refcount ← mem_read32 c 4;
    name ← mem_read c 8 32;
    emit (pg_logf ("before free: secret=0x" +:+ fmt_0x 4 (u32 secret) +:+ " refcount=" +:+
                   fmt_d refcount +:+ " name=" +:+ dquote +:+ unstr (cstr name) +:+ dquote));;
    emit (pg_expect (Some "secret") 0xCAFE);;
    emit (pg_phase (Some "free closure (other code still holds the pointer)"));;
    arena_free c;;
    emit (pg_phase (Some "use after free -- read the dangling pointer"));;
    secret ← mem_read32 c 0;
    refcount ← mem_read32 c 4;
    name ← mem_read c 8 32;
    emit (pg_logf ("after free:  secret=0x" +:+ fmt_0x 4 (Z.land (u32 secret) 0xFFFF) +:+
                   " refcount=" +:+ fmt_d refcount +:+ " name=" +:+ dquote +:+
                   unstr (take 16 (cstr name)) +:+ dquote));;
    secret ← mem_read32 c 0;
    emit (pg_actual (Some "secret") (Z.land (u32 secret) 0xFFFF));;
    emit (pg_logf "the value silently changed; if `name` were the only valid string in a logger,");;
    emit (pg_logf "you'd be writing 0xDE garbage to disk and never know.");;
    arena_destroy;;
    mret 0).

(** ** crash_null_deref *)

(* @ src/scenarios/memory/crash_null_deref.c cn_run *)
Definition cn_run : prog (option chaos_arena) Z :=
  emit (pg_phase (Some "about to dereference NULL"));;
  emit (pg_logf "the runner's signal handler should catch SIGSEGV,");;
  emit (pg_logf ("emit PG_EV_FAULT(" +:+ dquote +:+ "child crashed: SIGSEGV" +:+ dquote +:+ "), and re-raise."));;
  emit (pg_logf "the parent TUI must survive.");;
  mem_write32 None 0 0xDEAD;;
  emit (pg_logf "(unreachable)");;
  mret 0.

(** ** Lemmas *)

Lemma sub_peek m p off n N :
  (off + n <= N)%nat -> peek m (p + Z.of_nat off) n = take n (drop off (peek m p N)).
Proof.
  intros H. apply list_eq_same_length with (n := n);
    [by rewrite length_take_lt by (rewrite length_drop, length_peek; lia)|apply length_peek|].
  intros i x y Hi. rewrite peek_lookup by lia.
  rewrite lookup_take_lt, lookup_drop, peek_lookup by lia.
  intros [= <-] [= <-]. f_equal. lia.
Qed.

Lemma with_arena_run base body R :
  0 < base -> body (Some (Arena base arena_bytes 0 1 ∅)) = R ->
  with_arena true (Some base) body None = R.
Proof. intros Hb Hr. unfold with_arena. cbn. by eapply run_silent. Qed.

Lemma alloc_step base n :
  0 < base -> base + arena_bytes <= 2 ^ 63 -> in_u32 n -> extent (Block n Live) <= arena_bytes ->
  exists a, arena_alloc n (Some (Arena base arena_bytes 0 1 ∅)) = ([], FRet (Some (user_ptr base)), Some a) /\
    arena_wf a [Block n Live] /\ a_base a = base /\ a_total a = arena_bytes.
Proof.
  intros Hb Ht Hn He. destruct (fresh_alloc base arena_bytes n Hb Ht Hn He) as (a & E & H).
  exists a. unfold arena_alloc, access. by rewrite E.
Qed.

(** What the scenarios report, for a region mapped at [base]. *)

Definition ac_report : list pg_event_t :=
  [pg_phase (Some "alloc 32 bytes (with 16B redzones front & back)");
   pg_phase (Some "write 64 bytes — that's 32 bytes off the end");
   pg_phase (Some "scan arena for redzone corruption");
   pg_expect (Some "redzones_corrupt") 1;
   pg_actual (Some "redzones_corrupt") 1;
   pg_sut_fault (Some "out-of-bounds write detected by redzone scan");
   pg_logf "without redzones, this write would silently corrupt the next allocation.";
   pg_logf "the bug would manifest as a crash or wrong value far from the cause."].

Lemma ac_run_lemma base :
  0 < base -> base + arena_bytes <= 2 ^ 63 ->
  ac_run true (Some base) None =
  (map (pair 0) ac_report, FRet 0, None).
Proof.
  intros Hb Ht. apply with_arena_run; [done|]. unfold ac_report. cbn [map]. apply run_emit.
  destruct (alloc_step base 32 Hb Ht) as (a & E & Hwf & Hab & Hat); [lia|vm_compute; discriminate|].
  eapply run_silent; [exact E|]. apply run_emit.
  destruct (overrun_lemma a [] (Block 32 Live) [] (replicate 64 88) Hwf) as [_ H].
  destruct (H 32%nat 88) as (a' & Es & Ec).
  { vm_compute. split; congruence. }
  { reflexivity. }
  { discriminate. }
  { rewrite Hab, Hat. change (extents []) with 0. unfold user_ptr, arena_bytes. cbn [length replicate]. lia. }
  { by right. }
  eapply run_silent.
  { unfold mem_write, access. rewrite Hab in Es. change (extents []) with 0 in Es.
    rewrite Z.add_0_r in Es. rewrite Z.add_0_r, Es. reflexivity. }
  apply run_emit. eapply run_silent; [unfold arena_check, access; by rewrite Ec|].
  prog_run. reflexivity.
Qed.

Definition df_report (base : Z) : list pg_event_t :=
  [pg_phase (Some "alloc 128 bytes");
   pg_logf ("alloc returned " +:+ fmt_p (base + 24));
   pg_phase (Some "first free (legitimate)");
   pg_logf "first free: rc=0  (0 = ok)";
   pg_phase (Some "second free of the SAME pointer");
   pg_logf "second free: rc=-1  (-1 = arena detected double-free)";
   pg_expect (Some "double_free_caught") 1;
   pg_actual (Some "double_free_caught") 1;
   pg_sut_fault (Some "double-free detected");
   pg_logf "with libc malloc this would corrupt the freelist; the next";
   pg_logf "alloc could return a pointer someone else still uses."].

Lemma double_free_run_lemma base :
  0 < base -> base + arena_bytes <= 2 ^ 63 ->
  df_run true (Some base) None =
  (map (pair 0) (df_report base), FRet 0, None).
Proof.
  intros Hb Ht. apply with_arena_run; [done|]. unfold df_report. cbn [map]. apply run_emit.
  destruct (alloc_step base 128 Hb Ht) as (a & E & Hwf & Hab & Hat); [lia|vm_compute; discriminate|].
  eapply run_silent; [exact E|]. apply run_emit. apply run_emit.
  destruct (free_lemma a [] (Block 128 Live) [] Hwf eq_refl) as (a' & E1 & _ & _ & E2 & _).
  rewrite Hab in E1, E2. change (extents []) with 0 in E1, E2. rewrite Z.add_0_r in E1, E2.
  eapply run_silent; [unfold arena_free, access; by rewrite E1|]. apply run_emit. apply run_emit.
  eapply run_silent; [unfold arena_free, access; by rewrite E2|].
  prog_run. reflexivity.
Qed.

(** Accesses inside the only block of an arena. *)
Lemma mem_write_step a n off bs :
  arena_wf a [Block n Live] -> 0 <= off -> off + Z.of_nat (length bs) <= n -> in_u32 n ->
  exists a', mem_write (Some (user_ptr (a_base a))) off bs (Some a) = ([], FRet tt, Some a') /\
    a_mem a' = poke (a_mem a) (user_ptr (a_base a) + off) bs /\ a_base a' = a_base a /\
    arena_wf a' [Block n Live].
Proof.
  intros [Hl Hz] Ho Hn Hi. pose proof (round8_bounds n ltac:(lia)).
  destruct (write_in_bounds a [] (Block n Live) [] off bs Hl Ho) as (a' & E & E' & Hl' & Hz'); [cbn; lia|].
  change (extents []) with 0 in E, E'. rewrite Z.add_0_r in E, E'.
  exists a'. unfold mem_write, access. rewrite E. split; [done|]. subst a'.
  split_and!; [done|done|]. split; [exact Hl'|exact (eq_trans Hz' Hz)].
Qed.

Lemma mem_read_step a n st off k :
  arena_wf a [Block n st] -> 0 <= off -> off + Z.of_nat k <= n -> in_u32 n ->
  mem_read (Some (user_ptr (a_base a))) off k (Some a)
  = ([], FRet (peek (a_mem a) (user_ptr (a_base a) + off) k), Some a).
Proof.
  intros [Hl Hz] Ho Hn Hi. pose proof (round8_bounds n ltac:(lia)).
  destruct (layout_region a [] _ [] Hl) as (Hp & Hq & _). change (extents []) with 0 in *.
  unfold extent in Hq. cbn [b_size] in Hq.
  unfold mem_read, access. rewrite load_in by (unfold user_ptr; lia). done.
Qed.

Lemma mem_read32_step a n st off :
  arena_wf a [Block n st] -> 0 <= off -> off + 4 <= n -> in_u32 n ->
  mem_read32 (Some (user_ptr (a_base a))) off (Some a)
  = ([], FRet (i32 (le_val (peek (a_mem a) (user_ptr (a_base a) + off) 4))), Some a).
Proof.
  intros Hw Ho Hn Hi. unfold mem_read32. eapply run_silent; [|reflexivity].
  eapply mem_read_step; [exact Hw|done|lia|done].
Qed.

(** Part of a poisoned block. *)
Lemma peek_poisoned m u N off k :
  peek m u N = replicate N POISON_BYTE -> (off + k <= N)%nat ->
  peek m (u + Z.of_nat off) k = replicate k POISON_BYTE.
Proof.
  intros H Hk. rewrite (sub_peek m u off k N) by done. rewrite H, drop_replicate, take_replicate.
  f_equal. lia.
Qed.

Definition uc_report : list pg_event_t :=
  [pg_phase (Some "alloc closure");
   pg_logf ("before free: secret=0xcafe refcount=1 name=" +:+ dquote +:+ "callback-state" +:+ dquote);
   pg_expect (Some "secret") 0xCAFE;
   pg_phase (Some "free closure (other code still holds the pointer)");
   pg_phase (Some "use after free -- read the dangling pointer");
   pg_logf ("after free:  secret=0xdede refcount=-555819298 name=" +:+ dquote +:+
            unstr (replicate 16 POISON_BYTE) +:+ dquote);
   pg_actual (Some "secret") 0xDEDE;
   pg_logf "the value silently changed; if `name` were the only valid string in a logger,";
   pg_logf "you'd be writing 0xDE garbage to disk and never know."].

Lemma uc_run_lemma base :
  0 < base -> base + arena_bytes <= 2 ^ 63 ->
  uc_run true (Some base) None =
  (map (pair 0) uc_report, FRet 0, None).
Proof.
  intros Hb Ht. apply with_arena_run; [done|]. unfold uc_report. cbn [map]. apply run_emit.
  destruct (alloc_step base 40 Hb Ht) as (a & E & Hwf & Hab & _); [lia|vm_compute; discriminate|].
  eapply run_silent; [exact E|]. subst base.
  destruct (mem_write_step a 40 0 (le_bytes 4 (u32 0xCAFE)) Hwf) as (a1 & E1 & M1 & B1 & W1);
    [lia|rewrite ?length_le_bytes; cbn; lia|lia|].
  destruct (mem_write_step a1 40 4 (le_bytes 4 (u32 1)) W1) as (a2 & E2 & M2 & B2 & W2);
    [lia|rewrite ?length_le_bytes; cbn; lia|lia|].
  destruct (mem_write_step a2 40 8 (str "callback-state" ++ [0]) W2) as (a3 & E3 & M3 & B3 & W3);
    [lia|rewrite ?length_le_bytes; cbn; lia|lia|].
  rewrite B1 in E2, M2. rewrite B2, B1 in E3, M3. assert (B : a_base a3 = a_base a) by congruence.
  eapply run_silent; [exact E1|]. eapply run_silent; [exact E2|]. eapply run_silent; [exact E3|].
  rewrite <- B. set (u := user_ptr (a_base a3)).
  assert (Rs : peek (a_mem a3) (u + 0) 4 = le_bytes 4 (u32 0xCAFE)).
  { subst u. rewrite B, M3, M2, M1, Z.add_0_r.
    rewrite !(peek_poke_other _ _ 4) by (cbn; lia). apply peek_poke_le. }
  assert (Rr : peek (a_mem a3) (u + 4) 4 = le_bytes 4 (u32 1)).
  { subst u. rewrite B, M3, M2. rewrite (peek_poke_other _ _ 4) by (cbn; lia). apply peek_poke_le. }
  assert (Rn : cstr (peek (a_mem a3) (u + 8) 32) = str "callback-state").
  { subst u. rewrite B, M3. change 32%nat with (15 + 17)%nat. rewrite peek_add.
    rewrite (peek_poke_same _ _ (str "callback-state" ++ [0]) : peek _ _ 15 = _). reflexivity. }
  eapply run_silent; [apply (mem_read32_step a3 40 Live 0 W3); lia|]. fold u. rewrite Rs.
  eapply run_silent; [apply (mem_read32_step a3 40 Live 4 W3); lia|]. fold u. rewrite Rr.
  eapply run_silent; [apply (mem_read_step a3 40 Live 8 32 W3); lia|]. fold u. rewrite Rn.
  apply run_emit. apply run_emit. apply run_emit.
  destruct (free_lemma a3 [] (Block 40 Live) [] W3 eq_refl) as (a4 & E4 & W4 & P4 & _ & B4).
  change (extents []) with 0 in *. rewrite Z.add_0_r in E4, P4. fold u in E4, P4.
  change (Z.to_nat (b_size (Block 40 Live))) with 40%nat in P4.
  eapply run_silent; [unfold arena_free, access; by rewrite E4|]. apply run_emit.
  assert (Hu : u = user_ptr (a_base a4)) by (unfold u; by rewrite B4). rewrite Hu.
  assert (Rd : forall off k, 0 <= off -> off + Z.of_nat k <= 40 ->
    peek (a_mem a4) (user_ptr (a_base a4) + off) k = replicate k POISON_BYTE).
  { intros off k Ho Hk. rewrite <- Hu, <- (Z2Nat.id off) by done.
    apply (peek_poisoned _ _ 40); [done|lia]. }
  eapply run_silent; [apply (mem_read32_step a4 40 Freed 0 W4); lia|]. rewrite (Rd 0 4%nat) by lia.
  eapply run_silent; [apply (mem_read32_step a4 40 Freed 4 W4); lia|]. rewrite (Rd 4 4%nat) by lia.
  eapply run_silent; [apply (mem_read_step a4 40 Freed 8 32 W4); lia|]. rewrite (Rd 8 32%nat) by lia.
  apply run_emit.
  eapply run_silent; [apply (mem_read32_step a4 40 Freed 0 W4); lia|]. rewrite (Rd 0 4%nat) by lia.
  apply run_emit. prog_run. reflexivity.
Qed.

Definition cn_report : list pg_event_t :=
  [pg_phase (Some "about to dereference NULL");
   pg_logf "the runner's signal handler should catch SIGSEGV,";
   pg_logf ("emit PG_EV_FAULT(" +:+ dquote +:+ "child crashed: SIGSEGV" +:+ dquote +:+ "), and re-raise.");
   pg_logf "the parent TUI must survive."].

Lemma cn_run_lemma a : cn_run a = (map (pair 0) cn_report, FSignal SIGSEGV, a).
Proof. destruct a; reflexivity. Qed.

(** ** Properties *)

(** The memory scenarios show what they announce, wherever the region is
    mapped: [arena_corrupt] reports exactly one damaged redzone, [double_free]
    gets 0 then -1, [uaf_callback] reads 0xDEDE where it stored 0xCAFE (and the
    reference count -555819298, the name sixteen 0xDE bytes), each with the
    listed records and return code 0; [crash_null_deref] dies from SIGSEGV after
    its four records, never reaching the fifth; and when the region cannot be
    mapped the first three report it and return 1. *)
Theorem memory_scenarios_report base :
  0 < base -> base + arena_bytes <= 2 ^ 63 ->
  ac_run true (Some base) None = (map (pair 0) ac_report, FRet 0, None) /\
  df_run true (Some base) None = (map (pair 0) (df_report base), FRet 0, None) /\
  uc_run true (Some base) None = (map (pair 0) uc_report, FRet 0, None) /\
  cn_run None = (map (pair 0) cn_report, FSignal SIGSEGV, None) /\
  Forall (fun run => run true None None = ([(0, pg_sut_fault (Some "arena create failed"))], FRet 1, None))
    [ac_run; df_run; uc_run].
Proof.
  intros Hb Ht. split_and!; [by apply ac_run_lemma|by apply double_free_run_lemma|by apply uc_run_lemma|
    apply cn_run_lemma|by repeat constructor].
Qed.

Lemma memory_scenarios_report_witness :
  ac_run true (Some 65536) None = (map (pair 0) ac_report, FRet 0, None) /\
  df_run true (Some 65536) None = (map (pair 0) (df_report 65536), FRet 0, None).
Proof.
  destruct (memory_scenarios_report 65536) as (H1 & H2 & _); [lia|unfold arena_bytes; lia|].
  split; [exact H1|exact H2].
Defined.
