(* ===== verification/ScenTimeio.v ===== *)
(** * The time and I/O scenarios (src/scenarios/timeio/)

    The world holds the descriptor table, the chaotic clock and how many system
    calls have been made; the kernel's answers are functions of that number. *)

From S2P Require Import Prelude CLib Rand Event Runner ChaosIo Prog.

Record io_world := IoWorld {
  w_slots : list io_slot_t;
  w_clock : chaos_clock;
  w_calls : nat
}.

Definition io_world_init (seed : Z) : io_world :=
  IoWorld g_slots_init (chaos_clock_seed (clock_seed_of seed) clock_init) 0.

(** No descriptor tracked. *)
#[export] Instance io_world_world : World io_world := fun w => table (w_slots w) = ∅.

Definition ENOSPC : Z := 28.

Section Timeio.

(** The answers of the [i]-th system call: [mkstemp], [write] of so many bytes
    and its [errno] when it fails, [clock_gettime], [fsync] and [close]. *)
Variable k_mkstemp : nat -> option (Z * string).
Variable k_write : nat -> Z -> Z.
Variable k_errno : nat -> Z.
Variable k_time : nat -> Z * Z.
Variable k_ret : nat -> Z.

(** ** The calls the scenarios make *)

Definition io_open : prog io_world Z := act (fun w =>
  let '(o, g) := chaos_io_open (k_mkstemp (w_calls w)) (w_slots w) in
  (match o with OpenOk fd => fd | _ => -1 end, IoWorld g (w_clock w) (S (w_calls w)))).

(** The return value and [errno]. *)
Definition io_write (fd n : Z) : prog io_world (Z * Z) := act (fun w =>
  match chaos_io_write (k_write (w_calls w)) fd n (w_slots w) with
  | (WriteEnospc, g) => ((-1, ENOSPC), IoWorld g (w_clock w) (w_calls w))
  | (WriteRet r, g) => ((r, k_errno (w_calls w)), IoWorld g (w_clock w) (S (w_calls w)))
  end).

Definition io_fsync (fd : Z) : prog io_world (option (Z * Z) * Z) := act (fun w =>
  (chaos_io_fsync (k_ret (w_calls w)) fd (w_slots w), IoWorld (w_slots w) (w_clock w) (S (w_calls w)))).

Definition io_close (fd : Z) : prog io_world Z := act (fun w =>
  let '(r, g) := chaos_io_close (k_ret (w_calls w)) fd (w_slots w) in
  (r, IoWorld g (w_clock w) (S (w_calls w)))).

Definition io_table (f : list io_slot_t -> list io_slot_t) : prog io_world unit :=
  update (fun w => IoWorld (f (w_slots w)) (w_clock w) (w_calls w)).

Definition clock_now : prog io_world Z := act (fun w =>
  let '(t, c) := chaos_clock_now_ns (k_time (w_calls w)) (w_clock w) in
  (t, IoWorld (w_slots w) c (S (w_calls w)))).

Definition clock_set (f : chaos_clock -> chaos_clock) : prog io_world unit :=
  update (fun w => IoWorld (w_slots w) (f (w_clock w)) (w_calls w)).

Open Scope string_scope.

(** ** disk_full *)

(** The loop's [total], [enospc_count] and [first_enospc_i]. *)
(* @ src/scenarios/timeio/disk_full.c:26-38 df_run *)
Definition df_body (fd : Z) (i : Z) (s : Z * Z * Z) : prog io_world (Z * Z * Z) :=
  let '(total, enospc_count, first_enospc_i) := s in
  '(w, errno) ← io_write fd 64;
  if (w <? 0)%Z then
    if (errno =? ENOSPC)%Z then
      mret (total, enospc_count + 1, if (first_enospc_i <? 0)%Z then i else first_enospc_i)%Z
    else
      emit (pg_logf ("iter " +:+ fmt_d i +:+ ": write() failed errno=" +:+ fmt_d errno));;
      mret s
  else mret (total + w, enospc_count, first_enospc_i)%Z.

(* @ src/scenarios/timeio/disk_full.c df_run *)
Definition df_run : prog io_world Z :=
  fd ← io_open;
  if (fd <? 0)%Z then emit (pg_sut_fault (Some "chaos_io_open failed"));; mret 1
  else
    io_table (chaos_io_set_quota fd 1024);;
    emit (pg_phase (Some "writing 64 chunks of 64 bytes; quota is 1024 bytes"));;
    emit (pg_expect (Some "bytes_written_ok") 1024);;
    '(total, enospc_count, first_enospc_i) ← for_from 0 64 (df_body fd) (0, 0, -1)%Z;
    emit (pg_actual (Some "bytes_written_ok") total);;
    emit (pg_count (Some "enospc_errors") enospc_count);;
    emit (pg_logf ("first ENOSPC at iteration " +:+ fmt_d first_enospc_i +:+ "; " +:+
                   fmt_d enospc_count +:+ " total ENOSPC errors"));;
    emit (pg_logf "code that ignores the return value of write() silently loses data here.");;
    io_close fd;;
    mret 0.

(** ** partial_write *)

(** [while (remaining > 0)] over [remaining], [calls] and [total]. *)
(* @ src/scenarios/timeio/partial_write.c:30-37 pw_run *)
Definition pw_body (fd : Z) (s : Z * Z * Z) : prog io_world (Z * Z * Z + Z * Z) :=
  let '(remaining, calls, total) := s in
  if (remaining <=? 0)%Z then mret (inr (calls, total))
  else
    '(w, _) ← io_write fd remaining;
    if (w <=? 0)%Z then mret (inr (calls, total))
    else mret (inl (remaining - w, calls + 1, total + w)%Z).

(* @ src/scenarios/timeio/partial_write.c pw_run *)
Definition pw_run : prog io_world Z :=
  fd ← io_open;
  if (fd <? 0)%Z then emit (pg_sut_fault (Some "chaos_io_open failed"));; mret 1
  else
    io_table (chaos_io_set_partial fd 137);;
    emit (pg_phase (Some "naive call: write(fd, buf, 2048) -- expect 2048 back"));;
    emit (pg_expect (Some "naive_returned") 2048);;
    '(naive, _) ← io_write fd 2048;
    emit (pg_actual (Some "naive_returned") naive);;
    emit (pg_logf ("naive write returned " +:+ fmt_d naive +:+ " of 2048 bytes -- the other 1911 are LOST"));;
    emit (pg_phase (Some "correct call: loop on partial writes"));;
    '(calls, total) ← loop 2049 (pw_body fd) (2048, 0, 0)%Z;
    emit (pg_expect (Some "looped_total") 2048);;
    emit (pg_actual (Some "looped_total") total);;
    emit (pg_count (Some "loop_iterations") calls);;
    emit (pg_logf ("loop wrote " +:+ fmt_d total +:+ " bytes in " +:+ fmt_d calls +:+ " calls"));;
    io_close fd;;
    mret 0.

(** ** clock_jump *)

(** One round of the [while]: the condition, then the body, over [iters] and
    [bumped]. *)
(* @ src/scenarios/timeio/clock_jump.c:17-25 cj_run *)
Definition cj_body (start : Z) (s : Z * bool) : prog io_world (Z * bool + Z) :=
  let '(iters, bumped) := s in
  now ← clock_now;
  if negb (u64 (now - start) <? 100 * 1000000)%Z then mret (inr iters)
  else
    let iters := (iters + 1)%Z in
    bumped ← (if (iters =? 1000)%Z && negb bumped then
                emit (pg_logf "  ...someone bumps the clock backward 30s mid-loop");;
                clock_set (chaos_clock_skew_set (-30 * 1000000000));;
                mret true
              else mret bumped);
    if (100000000 <? iters)%Z then mret (inr iters) else mret (inl (iters, bumped)).

(* @ src/scenarios/timeio/clock_jump.c cj_run *)
Definition cj_run : prog io_world Z :=
  emit (pg_phase (Some "naive timeout: while (now - start < 100ms)"));;
  emit (pg_logf "we'll start the loop, then have someone jump the clock backward 30s.");;
  emit (pg_expect (Some "loop_terminated") 1);;
  start ← clock_now;
  iters ← loop_upto 100000002 (cj_body start) (0%Z, false);
  let terminated := (if iters <=? 100000000 then 1 else 0)%Z in
  emit (pg_actual (Some "loop_terminated") terminated);;
  emit (pg_count (Some "iterations") iters);;
  (if (terminated =? 0)%Z then
     emit (pg_sut_fault (Some "loop did NOT terminate -- skew broke the timeout math"));;
     emit (pg_logf "the timeout used `now - start`. After the skew, now < start,");;
     emit (pg_logf "so the elapsed time is negative and the loop runs forever.")
   else
     emit (pg_logf ("loop terminated after " +:+ fmt_d iters +:+ " iterations (safety net engaged)")));;
  clock_set (chaos_clock_skew_set 0);;
  mret 0.

(** ** slow_fsync *)

(* @ src/scenarios/timeio/slow_fsync.c sf_run *)
Definition sf_run : prog io_world Z :=
  fd ← io_open;
  if (fd <? 0)%Z then emit (pg_sut_fault (Some "chaos_io_open failed"));; mret 1
  else
    io_table (chaos_io_set_fsync_delay fd (1500 * 1000000));;
    emit (pg_phase (Some "writing 1 KiB"));;
    io_write fd 1024;;
    emit (pg_phase (Some "calling fsync (configured to take 1500 ms)"));;
    emit (pg_expect (Some "fsync_ms") 1500);;
    t0 ← clock_now;
    io_fsync fd;;
    t1 ← clock_now;
    let dt := u64 (t1 - t0) in
    let ms := (dt / 1000000)%Z in
    emit (pg_actual (Some "fsync_ms") ms);;
    emit (pg_logf ("fsync returned after " +:+ fmt_d ms +:+ " ms"));;
    emit (pg_logf ("if this were on the UI thread, the app would freeze for " +:+ fmt_d ms +:+ " ms."));;
    emit (pg_logf "real-world fsync latency on a busy disk routinely hits seconds.");;
    io_close fd;;
    mret 0.

(** ** jittery_timer *)

(** Its own signed [now_ns]. *)
(* @ src/scenarios/timeio/jittery_timer.c now_ns *)
Definition jt_now_ns : prog io_world Z := act (fun w =>
  let t := k_time (w_calls w) in
  (i64 (t.1 * 1000000000 + t.2)%Z, IoWorld (w_slots w) (w_clock w) (S (w_calls w)))).

(* @ src/scenarios/timeio/jittery_timer.c:24-32 jt_run *)
Definition jt_body (i : Z) (s : Z * Z * Z) : prog io_world (Z * Z * Z) :=
  let '(total_ns, min_ns, max_ns) := s in
  t0 ← jt_now_ns;
  t1 ← jt_now_ns;
  let dt := i64 (t1 - t0) in
  mret (i64 (total_ns + dt), if (dt <? min_ns)%Z then dt else min_ns,
        if (max_ns <? dt)%Z then dt else max_ns).

(* @ src/scenarios/timeio/jittery_timer.c jt_run *)
Definition jt_run : prog io_world Z :=
  emit (pg_phase (Some "calling nanosleep(1 ms) 50 times; measuring actual delay"));;
  emit (pg_expect (Some "target_us") 1000);;
  '(total_ns, min_ns, max_ns) ← for_from 0 50 jt_body (0, Z.shiftl 1 62, 0)%Z;
  let mean_us := Z.quot (Z.quot total_ns 50) 1000 in
  let min_us := Z.quot min_ns 1000 in
  let max_us := Z.quot max_ns 1000 in
  emit (pg_actual (Some "mean_us") mean_us);;
  emit (pg_gauge (Some "min_us") min_us);;
  emit (pg_gauge (Some "max_us") max_us);;
  emit (pg_logf ("asked for 1000 us; got mean=" +:+ fmt_d mean_us +:+ " us  min=" +:+
                 fmt_d min_us +:+ " us  max=" +:+ fmt_d max_us +:+ " us"));;
  emit (pg_logf ("if your code assumes nanosleep(1ms) takes ~1ms, you'll be wrong by " +:+
                 fmt_d (Z.quot max_us 1000) +:+ "x in the worst case."));;
  mret 0.

(** ** Lemmas: one wrapped write *)

(** [fd] is tracked with knobs [k]. *)
Definition tracks (fd : Z) (k : knobs) (w : io_world) : Prop :=
  table_wf (w_slots w) /\ table (w_slots w) !! fd = Some k.

Lemma io_write_step fd n k w want :
  tracks fd k w -> k_want k n = Some want ->
  let r := k_write (w_calls w) want in
  exists w', io_write fd n w = ([], FRet (r, k_errno (w_calls w)), w') /\
    tracks fd (if (0 <? r)%Z then k_set_written (u64 (k_written k + r)) k else k) w' /\
    w_clock w' = w_clock w /\ w_calls w' = S (w_calls w).
Proof.
  intros [Ht Hk] Hw r. unfold io_write, act, chaos_io_write.
  rewrite write_begin_spec, Hk, Hw. fold r.
  destruct (write_commit_sim fd r (w_slots w) _ (conj Ht eq_refl)) as [H1 H2].
  eexists. split; [reflexivity|]. split; [|done]. split; [exact H1|]. cbn [w_slots].
  rewrite H2. destruct (0 <? r)%Z; [|done]. by rewrite lookup_alter_eq, Hk.
Qed.

Lemma io_write_enospc fd n k w :
  tracks fd k w -> k_want k n = None ->
  io_write fd n w = ([], FRet (-1, ENOSPC), w).
Proof.
  intros [Ht Hk] Hw. unfold io_write, act, chaos_io_write.
  rewrite write_begin_spec, Hk, Hw. by destruct w.
Qed.

(** Opening the first descriptor and setting one knob. *)
Lemma io_open_init fd name seed f h :
  k_mkstemp 0 = Some (fd, name) ->
  (forall s, sl_in_use (f s) = sl_in_use s /\ sl_fd (f s) = sl_fd s) ->
  (forall s, slot_is fd s -> slot_knobs (f s) = h (slot_knobs s)) ->
  exists w w', io_open (io_world_init seed) = ([], FRet fd, w) /\
    io_table (on_slot fd f) w = ([], FRet tt, w') /\
    tracks fd (h no_knobs) w' /\ w_clock w' = w_clock (io_world_init seed) /\ w_calls w' = 1%nat.
Proof.
  intros Hm Hf Hh. unfold io_open, act. cbn [io_world_init w_calls w_slots]. rewrite Hm.
  pose proof (open_sim fd name _ _ init_sim (lookup_empty fd)) as H.
  destruct (chaos_io_open (Some (fd, name)) g_slots_init) as [[f'| |c] g]; [|by destruct H|].
  - destruct H as (-> & _ & Hg). apply (io_sim_on_slot fd f h) in Hg as [Hg Hg']; [|done|done].
    eexists _, _. split; [reflexivity|]. split; [reflexivity|]. split; [|done].
    split; [exact Hg|]. cbn [w_slots]. by rewrite Hg', lookup_alter_eq, lookup_insert_eq.
  - destruct H as ([= ->] & Hs & _). by rewrite map_size_empty in Hs.
Qed.

(** ** Lemmas: partial_write *)

(** Every write accepts something. *)
Definition accepting : Prop := forall i n, (0 < n)%Z -> (1 <= k_write i n <= n)%Z.
(** A regular file with room: every write accepts everything. *)
Definition roomy : Prop := forall i n, (0 < n)%Z -> k_write i n = n.

Lemma roomy_accepting : roomy -> accepting.
Proof. intros H i n Hn. rewrite H by done. lia. Qed.

Lemma k_want_partial b n : (0 < n)%Z -> k_want (Knobs 0 b 137 0) n = Some (Z.min n 137).
Proof. done. Qed.

Lemma pw_loop fd fuel r c t b w :
  accepting -> tracks fd (Knobs 0 b 137 0) w -> (0 <= r)%Z -> (Z.to_nat r < fuel)%nat ->
  exists c' b' w', loop fuel (pw_body fd) (r, c, t) w = ([], FRet (c', t + r)%Z, w') /\
    tracks fd (Knobs 0 b' 137 0) w' /\
    (c + (r + 136) / 137 <= c' <= c + r)%Z /\ (roomy -> c' = c + (r + 136) / 137)%Z.
Proof.
  intros Ha. revert r c t b w. induction fuel as [|fuel IH]; intros r c t b w Ht Hr Hf; [lia|].
  cbn [loop]. unfold bind at 1, pw_body at 1. destruct (Z.leb_spec r 0).
  - assert (r = 0%Z) as -> by lia. exists c, b, w.
    rewrite Z.add_0_r. change ((0 + 136) / 137)%Z with 0%Z. rewrite !Z.add_0_r. split_and!; [done|done|lia|lia|done].
  - destruct (io_write_step fd r _ w _ Ht (k_want_partial b r H)) as (w1 & E & Ht1 & _).
    set (x := k_write (w_calls w) (Z.min r 137)) in *.
    assert (Hx : (1 <= x <= Z.min r 137)%Z) by (apply Ha; lia).
    rewrite (run_silent _ _ _ _ _ ([], FRet (inl (r - x, c + 1, t + x)%Z), w1) E).
    2:{ by rewrite (proj2 (Z.leb_gt x 0)) by lia. }
    rewrite (proj2 (Z.ltb_lt 0 x)) in Ht1 by lia.
    destruct (IH (r - x)%Z (c + 1)%Z (t + x)%Z _ w1 Ht1) as (c' & b' & w' & E' & Ht' & Hc & Hrm); [lia|lia|].
    replace (t + x + (r - x))%Z with (t + r)%Z in E' by lia.
    exists c', b', w'. cbn. rewrite E'. split; [done|]. split; [done|].
    split; [zlia|]. intros R. rewrite (Hrm R). assert (x = Z.min r 137) as -> by (apply R; lia). zlia.
Qed.

Definition pw_report (naive calls : Z) : list pg_event_t :=
  [pg_phase (Some "naive call: write(fd, buf, 2048) -- expect 2048 back");
   pg_expect (Some "naive_returned") 2048;
   pg_actual (Some "naive_returned") naive;
   pg_logf ("naive write returned " +:+ fmt_d naive +:+ " of 2048 bytes -- the other 1911 are LOST");
   pg_phase (Some "correct call: loop on partial writes");
   pg_expect (Some "looped_total") 2048;
   pg_actual (Some "looped_total") 2048;
   pg_count (Some "loop_iterations") calls;
   pg_logf ("loop wrote 2048 bytes in " +:+ fmt_d calls +:+ " calls")].

Lemma pw_run_lemma fd name seed :
  k_mkstemp 0 = Some (fd, name) -> (0 <= fd)%Z -> accepting ->
  exists naive calls w', pw_run (io_world_init seed) = (map (pair 0%Z) (pw_report naive calls), FRet 0%Z, w') /\
    (1 <= naive <= 137)%Z /\ (15 <= calls <= 2048)%Z /\ (roomy -> naive = 137 /\ calls = 15)%Z.
Proof.
  intros Hm Hfd Ha.
  destruct (io_open_init fd name seed (set_partial 137)
    (fun k => Knobs (k_quota k) (k_written k) 137 (k_fsync_delay k)) Hm) as (w0 & w1 & E0 & E1 & Ht & _);
    [done|done|].
  destruct (io_write_step fd 2048 _ w1 137 Ht eq_refl) as (w2 & E2 & Ht2 & _).
  set (naive := k_write (w_calls w1) 137) in *.
  assert (Hn : (1 <= naive <= 137)%Z) by (apply Ha; lia).
  rewrite (proj2 (Z.ltb_lt 0 naive)) in Ht2 by lia.
  destruct (pw_loop fd 2049 2048 0 0 _ w2 Ha Ht2) as (calls & b & w3 & E3 & _ & Hc & Hr); [lia|lia|].
  exists naive, calls. eexists. split.
  - unfold pw_run, pw_report. cbn [map]. eapply run_silent; [exact E0|].
    rewrite (proj2 (Z.ltb_ge fd 0)) by done.
    eapply run_silent; [exact E1|]. apply run_emit. apply run_emit.
    eapply run_silent; [exact E2|]. cbv beta iota. fold naive. prog_run.
    eapply run_silent; [exact E3|]. cbv beta iota. prog_run. reflexivity.
  - split; [done|]. split; [zlia|]. intros R. split; [apply R; lia|]. rewrite (Hr R). reflexivity.
Qed.

(** ** Lemmas: disk_full *)

(** The kernel returns at most what was asked, and does not itself answer
    [ENOSPC]. *)
Definition honest : Prop :=
  forall i n, (0 < n)%Z -> (-1 <= k_write i n <= n)%Z /\ k_errno i <> ENOSPC.

Lemma k_want_quota t n : (0 < n)%Z -> (t <= 1024)%Z ->
  k_want (Knobs 1024 t 0 0) n = if (1024 <=? t)%Z then None else Some (Z.min n (1024 - t)).
Proof. done. Qed.

Lemma df_step fd i t c f w :
  honest -> tracks fd (Knobs 1024 t 0 0) w -> (0 <= t <= 1024)%Z ->
  exists logs t' c' f' w', df_body fd i (t, c, f) w = (map (pair 0%Z) logs, FRet (t', c', f'), w') /\
    tracks fd (Knobs 1024 t' 0 0) w' /\ (t <= t' <= 1024)%Z.
Proof.
  intros Hh Ht Hr. unfold df_body.
  destruct (Z.leb_spec 1024 t).
  - exists [], t, (c + 1)%Z, (if (f <? 0)%Z then i else f), w. split; [|split; [done|lia]].
    eapply run_silent; [apply (io_write_enospc fd 64 (Knobs 1024 t 0 0)); [done|]|reflexivity].
    rewrite k_want_quota by lia. by rewrite (proj2 (Z.leb_le 1024 t)).
  - destruct (io_write_step fd 64 _ w (Z.min 64 (1024 - t)) Ht) as (w1 & E & Ht1 & _).
    { rewrite k_want_quota by lia. by rewrite (proj2 (Z.leb_gt 1024 t)). }
    destruct (Hh (w_calls w) (Z.min 64 (1024 - t))) as [Hx He]; [lia|].
    set (x := k_write (w_calls w) (Z.min 64 (1024 - t))) in *.
    destruct (Z.ltb_spec x 0).
    + rewrite (proj2 (Z.ltb_ge 0 x)) in Ht1 by lia.
      exists [pg_logf ("iter " +:+ fmt_d i +:+ ": write() failed errno=" +:+ fmt_d (k_errno (w_calls w)))],
        t, c, f, w1. split; [|split; [done|lia]].
      eapply run_silent; [exact E|]. cbv beta iota. rewrite (proj2 (Z.ltb_lt x 0)) by done.
      rewrite (proj2 (Z.eqb_neq _ _)) by done. by apply run_emit.
    + exists [], (t + x)%Z, c, f, w1. split.
      { eapply run_silent; [exact E|]. cbv beta iota. by rewrite (proj2 (Z.ltb_ge x 0)). }
      split; [|lia]. destruct (Z.ltb_spec 0 x).
      * unfold k_set_written in Ht1. cbn in Ht1. by rewrite u64_small in Ht1 by lia.
      * assert (x = 0%Z) as -> by lia. by rewrite Z.add_0_r.
Qed.

Lemma df_loop fd n i t c f w :
  honest -> tracks fd (Knobs 1024 t 0 0) w -> (0 <= t <= 1024)%Z ->
  exists logs t' c' f' w', for_from i n (df_body fd) (t, c, f) w = (map (pair 0%Z) logs, FRet (t', c', f'), w') /\
    tracks fd (Knobs 1024 t' 0 0) w' /\ (t <= t' <= 1024)%Z.
Proof.
  intros Hh. revert i t c f w. induction n as [|n IH]; intros i t c f w Ht Hr.
  - exists [], t, c, f, w. split; [done|]. split; [done|lia].
  - destruct (df_step fd i t c f w Hh Ht Hr) as (l1 & t1 & c1 & f1 & w1 & E1 & Ht1 & Hr1).
    destruct (IH (i + 1)%Z t1 c1 f1 w1 Ht1) as (l2 & t2 & c2 & f2 & w2 & E2 & Ht2 & Hr2); [lia|].
    exists (l1 ++ l2)%list, t2, c2, f2, w2. split; [|split; [done|lia]].
    cbn [for_from]. rewrite map_app. by apply (run_bind _ _ _ _ _ _ _ _ _ E1).
Qed.

(** With room on the disk: 64 bytes per round up to the quota, then [ENOSPC]. *)
Lemma df_fill fd n i t c f w :
  roomy -> tracks fd (Knobs 1024 t 0 0) w -> (0 <= t)%Z -> (t + 64 * Z.of_nat n <= 1024)%Z ->
  exists w', for_from i n (df_body fd) (t, c, f) w = ([], FRet (t + 64 * Z.of_nat n, c, f)%Z, w') /\
    tracks fd (Knobs 1024 (t + 64 * Z.of_nat n) 0 0) w'.
Proof.
  intros R. revert i t w. induction n as [|n IH]; intros i t w Ht H0 Hn.
  - exists w. rewrite Z.mul_0_r, Z.add_0_r. by split.
  - destruct (io_write_step fd 64 _ w 64 Ht) as (w1 & E & Ht1 & _).
    { rewrite k_want_quota, (proj2 (Z.leb_gt 1024 t)) by lia. f_equal. lia. }
    rewrite R in E, Ht1 by done. cbn in Ht1. unfold k_set_written in Ht1. cbn in Ht1.
    rewrite u64_small in Ht1 by lia.
    destruct (IH (i + 1)%Z (t + 64)%Z w1 Ht1) as (w2 & E2 & Ht2); [lia|lia|].
    replace (t + 64 + 64 * Z.of_nat n)%Z with (t + 64 * Z.of_nat (S n))%Z in * by lia.
    exists w2. split; [|done]. cbn [for_from]. eapply run_silent; [|exact E2].
    unfold df_body. by eapply run_silent; [exact E|].
Qed.

Lemma df_full fd n i c f w :
  tracks fd (Knobs 1024 1024 0 0) w -> (0 <= i)%Z ->
  for_from i n (df_body fd) (1024, c, f)%Z w
  = ([], FRet (1024, c + Z.of_nat n, if (f <? 0)%Z && (0 <? n)%nat then i else f)%Z, w).
Proof.
  revert i c f. induction n as [|n IH]; intros i c f Ht Hi.
  - cbn. by rewrite Z.add_0_r, andb_false_r.
  - cbn [for_from]. eapply run_silent.
    { unfold df_body. eapply run_silent; [by apply (io_write_enospc fd 64 (Knobs 1024 1024 0 0))|reflexivity]. }
    cbv beta. rewrite IH by (done || lia). replace (c + 1 + Z.of_nat n)%Z with (c + Z.of_nat (S n))%Z by lia.
    change (0 <? S n)%nat with true. rewrite andb_true_r.
    destruct (Z.ltb_spec f 0); cbn [andb]; [by rewrite (proj2 (Z.ltb_ge i 0)) by done|].
    by rewrite (proj2 (Z.ltb_ge f 0)).
Qed.

Definition df_report (logs : list pg_event_t) (total enospc first : Z) : list pg_event_t :=
  ([pg_phase (Some "writing 64 chunks of 64 bytes; quota is 1024 bytes");
   pg_expect (Some "bytes_written_ok") 1024] ++ logs ++
  [pg_actual (Some "bytes_written_ok") total;
   pg_count (Some "enospc_errors") enospc;
   pg_logf ("first ENOSPC at iteration " +:+ fmt_d first +:+ "; " +:+ fmt_d enospc +:+ " total ENOSPC errors");
   pg_logf "code that ignores the return value of write() silently loses data here."])%list.

Lemma df_run_lemma fd name seed :
  k_mkstemp 0 = Some (fd, name) -> (0 <= fd)%Z -> honest ->
  exists logs total enospc first w',
    df_run (io_world_init seed) = (map (pair 0%Z) (df_report logs total enospc first), FRet 0%Z, w') /\
    (0 <= total <= 1024)%Z.
Proof.
  intros Hm Hfd Hh.
  destruct (io_open_init fd name seed (set_quota 1024)
    (fun k => Knobs 1024 (k_written k) (k_partial k) (k_fsync_delay k)) Hm) as (w0 & w1 & E0 & E1 & Ht & _);
    [done|done|].
  destruct (df_loop fd 64 0 0 0 (-1) w1 Hh Ht) as (logs & t & c & f & w2 & E2 & Ht2 & Hr); [lia|].
  exists logs, t, c, f. eexists. split; [|lia].
  unfold df_run, df_report. rewrite !map_app. eapply run_silent; [exact E0|].
  rewrite (proj2 (Z.ltb_ge fd 0)) by done.
  eapply run_silent; [exact E1|]. cbn [map app]. apply run_emit. apply run_emit.
  eapply run_bind; [exact E2|]. cbv beta iota. prog_run. reflexivity.
Qed.

Lemma df_run_roomy fd name seed :
  k_mkstemp 0 = Some (fd, name) -> (0 <= fd)%Z -> roomy ->
  exists w', df_run (io_world_init seed) = (map (pair 0%Z) (df_report [] 1024 48 16), FRet 0%Z, w').
Proof.
  intros Hm Hfd R.
  destruct (io_open_init fd name seed (set_quota 1024)
    (fun k => Knobs 1024 (k_written k) (k_partial k) (k_fsync_delay k)) Hm) as (w0 & w1 & E0 & E1 & Ht & _);
    [done|done|].
  destruct (df_fill fd 16 0 0 0 (-1) w1 R Ht) as (w2 & E2 & Ht2); [lia|lia|].
  pose proof (df_full fd 48 16 0 (-1) w2 Ht2 ltac:(lia)) as E3.
  eexists. unfold df_run, df_report. eapply run_silent; [exact E0|].
  rewrite (proj2 (Z.ltb_ge fd 0)) by done.
  eapply run_silent; [exact E1|]. cbn [map app]. apply run_emit. apply run_emit.
  eapply run_silent.
  { change 64%nat with (16 + 48)%nat. rewrite for_from_add. by eapply run_silent; [exact E2|]. }
  cbv beta iota. prog_run. reflexivity.
Qed.

(** ** Lemmas: clock_jump *)

Definition real (i : nat) : Z := real_ns (k_time i).

(** A monotonic clock read at least every 29.9 seconds. *)
Definition steady : Prop :=
  forall i, (real i <= real (S i) < real i + 29900000000)%Z.

Lemma clock_now_step g skew rng j :
  clock_now (IoWorld g (Clock skew 0 rng) j)
  = ([], FRet (u64 (real j + skew)), IoWorld g (Clock skew 0 rng) (S j)).
Proof.
  unfold clock_now, act, chaos_clock_now_ns. cbn [w_calls w_clock w_slots g_clock_jitter_max_ns g_clock_skew_ns].
  change (0 <? 0)%Z with false. cbv iota. rewrite u64_i64. unfold real, real_ns.
  do 3 f_equal. unfold u64, i64. zlia.
Qed.

Lemma elapsed_wrap a b : u64 (u64 a - u64 b) = u64 (a - b).
Proof. unfold u64. zlia. Qed.

Lemma steady_mono i j : steady -> (i <= j)%nat -> (real i <= real j)%Z.
Proof. intros Hs Hij. induction Hij as [|j _ IH]; [lia|]. specialize (Hs j). lia. Qed.

Definition cj_bump : list (Z * pg_event_t) :=
  [(0%Z, pg_logf "  ...someone bumps the clock backward 30s mid-loop")].

(** After the jump the unsigned difference is huge: the loop is left at once. *)
Lemma cj_after_jump g rng :
  steady -> (real 1000 - real 0 < 100000000)%Z ->
  cj_body (u64 (real 0)) (1000%Z, true) (IoWorld g (Clock (-30 * 1000000000) 0 rng) 1001)
  = ([], FRet (inr 1000%Z), IoWorld g (Clock (-30 * 1000000000) 0 rng) 1002).
Proof.
  intros Hs H. unfold cj_body. eapply run_silent; [apply clock_now_step|].
  rewrite elapsed_wrap. pose proof (Hs 1000%nat). pose proof (steady_mono 0 1000 Hs ltac:(lia)).
  rewrite (proj2 (Z.ltb_ge _ _)); [done|]. unfold u64. zlia.
Qed.

(** The round that reads at call [m + 1], before the jump. *)
Lemma cj_round m g rng :
  steady -> (m <= 999)%nat ->
  cj_body (u64 (real 0)) (Z.of_nat m, false) (IoWorld g (Clock 0 0 rng) (S m)) =
  if (real (S m) - real 0 <? 100000000)%Z then
    if (m =? 999)%nat then (cj_bump, FRet (inl (1000%Z, true)), IoWorld g (Clock (-30 * 1000000000) 0 rng) 1001)
    else ([], FRet (inl (Z.of_nat (S m), false)), IoWorld g (Clock 0 0 rng) (S (S m)))
  else ([], FRet (inr (Z.of_nat m)), IoWorld g (Clock 0 0 rng) (S (S m))).
Proof.
  intros Hs Hm. unfold cj_body. eapply run_silent; [apply clock_now_step|].
  rewrite Z.add_0_r, elapsed_wrap. pose proof (steady_mono 0 (S m) Hs ltac:(lia)).
  change (100 * 1000000)%Z with 100000000%Z.
  destruct (Z.ltb_spec (real (S m) - real 0) 100000000) as [Hlt|Hge].
  - rewrite u64_small by lia. rewrite (proj2 (Z.ltb_lt _ _)) by done. cbn [negb].
    rewrite <- (Nat2Z.inj_succ m : Z.of_nat (S m) = (Z.of_nat m + 1)%Z).
    destruct (Nat.eqb_spec m 999) as [->|Hne]; [reflexivity|].
    rewrite (proj2 (Z.eqb_neq _ 1000)) by lia. cbn [andb negb].
    eapply run_silent; [reflexivity|]. by rewrite (proj2 (Z.ltb_ge 100000000 _)) by lia.
  - rewrite (proj2 (Z.ltb_ge _ _)); [done|]. unfold u64. rewrite Z.mod_small; [lia|].
    split; [lia|]. clear Hge. assert (Hb : forall k, (real k <= real 0 + 29900000000 * Z.of_nat k)%Z).
    { induction k as [|k IH]; [lia|]. specialize (Hs k). lia. }
    specialize (Hb (S m)). lia.
Qed.

Lemma cj_loop n m g rng :
  steady -> (m + S n = 1000)%nat ->
  exists b w', niter (S (S n)) (cj_body (u64 (real 0))) (Z.of_nat m, false) (IoWorld g (Clock 0 0 rng) (S m))
    = (if (b =? 1000)%Z then cj_bump else [], FRet (inr b), w') /\
    (Z.of_nat m <= b <= 1000)%Z /\
    ((real 1000 - real 0 < 100000000)%Z -> b = 1000%Z).
Proof.
  intros Hs. revert m. induction n as [|n IH]; intros m Hm.
  all: cbn [niter]; unfold bind at 1; rewrite cj_round by (done || lia).
  all: destruct (Z.ltb_spec (real (S m) - real 0) 100000000) as [Hlt|Hge].
  all: try (exists (Z.of_nat m); eexists; rewrite (proj2 (Z.eqb_neq (Z.of_nat m) 1000)) by lia;
            split; [reflexivity|]; split; [lia|];
            intros Hr; pose proof (steady_mono (S m) 1000 Hs ltac:(lia)); lia).
  - assert (m = 999)%nat as -> by lia. change (999 =? 999)%nat with true. cbv iota.
    exists 1000%Z. eexists. unfold bind. rewrite cj_after_jump by done. split; [reflexivity|]. split; [lia|done].
  - rewrite (proj2 (Nat.eqb_neq m 999)) by lia.
    destruct (IH (S m)) as (b & w' & E & Hb & Hr); [lia|].
    exists b, w'. cbn [niter] in E. rewrite E. split; [by destruct (b =? 1000)%Z|]. split; [lia|done].
Qed.

Definition cj_report (iters : Z) : list pg_event_t :=
  ([pg_phase (Some "naive timeout: while (now - start < 100ms)");
    pg_logf "we'll start the loop, then have someone jump the clock backward 30s.";
    pg_expect (Some "loop_terminated") 1] ++
   (if (iters =? 1000)%Z then [pg_logf "  ...someone bumps the clock backward 30s mid-loop"] else []) ++
   [pg_actual (Some "loop_terminated") 1;
    pg_count (Some "iterations") iters;
    pg_logf ("loop terminated after " +:+ fmt_d iters +:+ " iterations (safety net engaged)")])%list.

Lemma cj_run_lemma g rng :
  steady ->
  exists iters w', cj_run (IoWorld g (Clock 0 0 rng) 0) = (map (pair 0%Z) (cj_report iters), FRet 0%Z, w') /\
    g_clock_skew_ns (w_clock w') = 0%Z /\ (0 <= iters <= 1000)%Z /\
    ((real 1000 - real 0 < 100000000)%Z -> iters = 1000%Z).
Proof.
  intros Hs. destruct (cj_loop 999 0 g rng Hs eq_refl) as (b & w1 & E & Hb & Hr).
  exists b. eexists. split; [|split; [|split; [exact Hb|exact Hr]]].
  - unfold cj_run, cj_report. rewrite !map_app. cbn [map app]. apply run_emit. apply run_emit. apply run_emit.
    eapply run_silent; [apply clock_now_step|]. rewrite Z.add_0_r.
    change (0%Z, false) with (Z.of_nat 0, false).
    eapply run_bind.
    { eapply (loop_upto_exit 100000002 1001); [rewrite E; by destruct (b =? 1000)%Z|lia]. }
    rewrite (proj2 (Z.leb_le b 100000000)) by lia. change (1 =? 0)%Z with false.
    prog_run. reflexivity.
  - reflexivity.
Qed.

End Timeio.

(** ** Properties *)

(** The write loop loses nothing: for any kernel whose writes accept at
    least one byte of what they are offered, [partial_write] ends with
    [looped_total] 2048 after 15 to 2048 calls, while the naive write returned
    between 1 and 137; when the kernel accepts everything it is offered, the
    naive write returned 137 and the loop made 15 calls. *)
Theorem partial_write_loses_nothing k_mkstemp k_write k_errno k_ret fd name seed :
  k_mkstemp 0%nat = Some (fd, name) -> 0 <= fd -> accepting k_write ->
  exists naive calls w', pw_run k_mkstemp k_write k_errno k_ret (io_world_init seed)
      = (map (pair 0) (pw_report naive calls), FRet 0, w') /\
    1 <= naive <= 137 /\ 15 <= calls <= 2048 /\ (roomy k_write -> naive = 137 /\ calls = 15).
Proof. apply (pw_run_lemma k_mkstemp k_write k_errno (fun _ => (0, 0)) k_ret). Qed.

Lemma partial_write_loses_nothing_witness :
  exists naive calls w',
    pw_run (fun _ => Some (5, "/tmp/playground.abcdef"%string)) (fun _ n => Z.max 1 (n / 2)) (fun _ => 0) (fun _ => 0)
      (io_world_init 42) = (map (pair 0) (pw_report naive calls), FRet 0, w') /\ 15 <= calls.
Proof.
  destruct (partial_write_loses_nothing (fun _ => Some (5, "/tmp/playground.abcdef"%string))
    (fun _ n => Z.max 1 (n / 2)) (fun _ => 0) (fun _ => 0) 5 "/tmp/playground.abcdef" 42)
    as (naive & calls & w' & H & _ & Hc & _); [reflexivity|lia|intros i n Hn; zlia|].
  exists naive, calls, w'. split; [exact H|lia].
Defined.

(** The quota holds through the scenario: for any kernel that accepts at
    most what it is offered, [disk_full] ends normally having reported a total
    between 0 and 1024 bytes written (failed writes are logged and skipped);
    with room on the disk it reports 1024 bytes, 48 [ENOSPC] errors, the first
    at iteration 16. *)
Theorem disk_full_respects_quota k_mkstemp k_write k_errno k_ret fd name seed :
  k_mkstemp 0%nat = Some (fd, name) -> 0 <= fd ->
  (honest k_write k_errno ->
   exists logs total enospc first w', df_run k_mkstemp k_write k_errno k_ret (io_world_init seed)
      = (map (pair 0) (df_report logs total enospc first), FRet 0, w') /\ 0 <= total <= 1024) /\
  (roomy k_write ->
   exists w', df_run k_mkstemp k_write k_errno k_ret (io_world_init seed)
      = (map (pair 0) (df_report [] 1024 48 16), FRet 0, w')).
Proof.
  intros Hm Hfd. split; intros H;
    [by apply (df_run_lemma k_mkstemp k_write k_errno k_ret fd name)|
     by apply (df_run_roomy k_mkstemp k_write k_errno k_ret fd name)].
Qed.

Lemma disk_full_respects_quota_witness :
  exists w', df_run (fun _ => Some (5, "/tmp/playground.abcdef"%string)) (fun _ n => n) (fun _ => 0) (fun _ => 0)
      (io_world_init 42) = (map (pair 0) (df_report [] 1024 48 16), FRet 0, w').
Proof.
  apply (disk_full_respects_quota (fun _ => Some (5, "/tmp/playground.abcdef"%string)) (fun _ n => n)
    (fun _ => 0) (fun _ => 0) 5 "/tmp/playground.abcdef" 42); [reflexivity|lia|by intros i n Hn].
Defined.

(** C27: the jumped clock ends the loop instead of trapping it: for any
    monotonic clock read at least every 29.9 seconds, [clock_jump] leaves its
    loop after at most 1000 rounds and reports [loop_terminated] 1, never the
    fault its description announces: after the 30-second jump the unsigned
    difference wraps to a huge elapsed time.  When the first 1000 readings fit
    in 100 ms it makes exactly 1000 rounds.  The skew is reset afterwards. *)
Theorem clock_jump_terminates k_time g rng :
  steady k_time ->
  exists iters w', cj_run k_time (IoWorld g (Clock 0 0 rng) 0)
      = (map (pair 0) (cj_report iters), FRet 0, w') /\
    g_clock_skew_ns (w_clock w') = 0 /\ 0 <= iters <= 1000 /\
    (real k_time 1000 - real k_time 0 < 100000000 -> iters = 1000).
Proof. apply (cj_run_lemma (fun _ => None) (fun _ n => n) (fun _ => 0) k_time (fun _ => 0)). Qed.

Lemma clock_jump_terminates_witness :
  exists w', cj_run (fun i => (100, 50 * Z.of_nat i)) (IoWorld g_slots_init (Clock 0 0 (pg_xosh_seed 42)) 0)
    = (map (pair 0) (cj_report 1000), FRet 0, w').
Proof.
  destruct (clock_jump_terminates (fun i => (100, 50 * Z.of_nat i)) g_slots_init (pg_xosh_seed 42))
    as (iters & w' & H & _ & _ & Hi); [intros i; unfold real, real_ns; cbn [fst snd]; lia|].
  rewrite Hi in H by (unfold real, real_ns; cbn [fst snd]; lia). exists w'. exact H.
Defined.
