(* ===== verification/ScenConcurrency.v ===== *)
(** * The concurrency scenarios (src/scenarios/concurrency/)

    What the threads do to shared state is a step relation over all
    interleavings; what the main thread emits is a program that takes the
    outcome of the threads (the final counter, the number of fields copied)
    from the world. *)

From S2P Require Import Prelude CLib Event Runner ChaosThread Prog.

(** ** race_counter: unsynchronised read-modify-write *)

(* @ src/scenarios/concurrency/race_counter.c:9-9 WRITERS *)
Definition WRITERS : nat := 8.
(* @ src/scenarios/concurrency/race_counter.c:10-10 WRITES *)
Definition WRITES : nat := 1000.

(** A writer: iterations finished and, between its read and its write, the
    value it read. *)
(* @ src/scenarios/concurrency/race_counter.c:18-28 writer_fn *)
Record writer := Writer { wr_done : nat; wr_local : option Z }.

(** The shared [counter] and the writers. *)
Record race := Race { rc_counter : Z; rc_writers : list writer }.

(** [k] iterations each; [yield] is not a step: any interleaving is allowed at
    every point anyway. *)
(* @ src/scenarios/concurrency/race_counter.c:18-28 writer_fn *)
Inductive race_step (k : nat) : race -> race -> Prop :=
| RaceRead c ws t i :
    ws !! t = Some (Writer i None) -> (i < k)%nat ->
    race_step k (Race c ws) (Race c (<[t := Writer i (Some c)]> ws))
| RaceWrite c ws t i v :
    ws !! t = Some (Writer i (Some v)) ->
    race_step k (Race c ws) (Race (v + 1) (<[t := Writer (S i) None]> ws)).

Definition race_start (n : nat) : race := Race 0 (replicate n (Writer 0 None)).

(** Every writer has returned: the joins go through. *)
Definition race_over (k : nat) (s : race) : Prop := Forall (fun w => w = Writer k None) (rc_writers s).

(** Iterations finished so far, all writers together. *)
Fixpoint writes_done (ws : list writer) : Z :=
  match ws with
  | [] => 0
  | w :: ws => Z.of_nat (wr_done w) + writes_done ws
  end.

Lemma writes_done_insert ws t w w' :
  ws !! t = Some w ->
  writes_done (<[t := w']> ws) = writes_done ws - Z.of_nat (wr_done w) + Z.of_nat (wr_done w').
Proof.
  revert t. induction ws as [|x ws IH]; intros [|t] H; cbn in H; try done.
  - injection H as ->. cbn. lia.
  - change (<[S t := w']> (x :: ws)) with (x :: <[t := w']> ws). cbn [writes_done]. rewrite (IH t H). lia.
Qed.

(** What holds in every reachable state. *)
Record race_inv (k : nat) (s : race) : Prop := {
  ri_upper : 0 <= rc_counter s <= writes_done (rc_writers s);
  ri_local : Forall (fun w => forall v, wr_local w = Some v ->
                 0 <= v <= writes_done (rc_writers s) /\ (wr_done w < k)%nat /\
                 ((0 < wr_done w)%nat -> 1 <= v)) (rc_writers s);
  ri_bound : Forall (fun w => (wr_done w <= k)%nat) (rc_writers s);
  ri_positive : 0 < writes_done (rc_writers s) -> 1 <= rc_counter s;
  ri_two : 2 <= rc_counter s \/ writes_done (rc_writers s) = 0 \/
           Exists (fun w => (wr_done w < k)%nat) (rc_writers s)
}.

Lemma writes_done_nonneg ws : 0 <= writes_done ws.
Proof. induction ws as [|w ws IH]; cbn; lia. Qed.

Lemma writes_done_lookup ws t w : ws !! t = Some w -> Z.of_nat (wr_done w) <= writes_done ws.
Proof.
  revert t. induction ws as [|x ws IH]; intros [|t] H; cbn in *; try done.
  - injection H as ->. pose proof (writes_done_nonneg ws). lia.
  - specialize (IH t H). lia.
Qed.

Lemma race_step_inv k s s' : (2 <= k)%nat -> race_inv k s -> race_step k s s' -> race_inv k s'.
Proof.
  intros Hk [Hu Hl Hb Hp Ht] Hs. destruct Hs as [c ws t i Hw Hi|c ws t i v Hw]; cbn [rc_counter rc_writers] in *.
  - pose proof (writes_done_insert ws t _ (Writer i (Some c)) Hw) as Hd. cbn [wr_done] in Hd.
    pose proof (writes_done_lookup ws t _ Hw) as Hlk. cbn [wr_done] in Hlk.
    split; cbn [rc_counter rc_writers].
    + lia.
    + apply Forall_insert.
      * eapply Forall_impl; [exact Hl|]. cbn. intros w Hv v Ev. specialize (Hv v Ev). lia.
      * cbn. intros v [= <-]. split; [lia|]. split; [done|]. intros. apply Hp. lia.
    + apply Forall_insert; [done|cbn; lia].
    + intros. apply Hp. lia.
    + right; right. apply Exists_exists. exists (Writer i (Some c)). split; [|done].
      apply list_elem_of_lookup. exists t. apply list_lookup_insert_eq. by eapply lookup_lt_Some.
  - pose proof (writes_done_insert ws t _ (Writer (S i) None) Hw) as Hd. cbn [wr_done] in Hd.
    destruct (Forall_lookup_1 _ _ _ _ Hl Hw v eq_refl) as (Hv & Hik & Hv1). cbn [wr_done] in *.
    split; cbn [rc_counter rc_writers].
    + lia.
    + apply Forall_insert; [|by intros].
      eapply Forall_impl; [exact Hl|]. cbn. intros w Hw' v' Ev. specialize (Hw' v' Ev). lia.
    + apply Forall_insert; [done|cbn; lia].
    + lia.
    + destruct (decide (S i = k)) as [<-|Hne]; [left; assert (1 <= v) by (apply Hv1; lia); lia|].
      right; right. apply Exists_exists. exists (Writer (S i) None). split; [|cbn; lia].
      apply list_elem_of_lookup. exists t. apply list_lookup_insert_eq. by eapply lookup_lt_Some.
Qed.

Lemma writes_done_start n : writes_done (replicate n (Writer 0 None)) = 0.
Proof. induction n as [|n IH]; cbn; lia. Qed.

Lemma race_start_inv k n : race_inv k (race_start n).
Proof.
  split; cbn [race_start rc_counter rc_writers]; rewrite ?writes_done_start.
  - lia.
  - apply Forall_replicate. by intros.
  - apply Forall_replicate. cbn. lia.
  - lia.
  - by right; left.
Qed.

Lemma race_inv_reach k s s' : (2 <= k)%nat -> race_inv k s -> rtc (race_step k) s s' -> race_inv k s'.
Proof.
  intros Hk Hi Hr. induction Hr as [|s1 s2 s3 H12 _ IH]; [done|]. apply IH. by eapply race_step_inv.
Qed.

Lemma writes_done_over k ws : Forall (fun w => w = Writer k None) ws ->
  writes_done ws = Z.of_nat (length ws) * Z.of_nat k.
Proof.
  induction 1 as [|w ws -> _ IH]; cbn [writes_done wr_done length]; [lia|]. rewrite IH. nia.
Qed.

Lemma race_step_length k s s' : race_step k s s' -> length (rc_writers s') = length (rc_writers s).
Proof. intros []; cbn; apply length_insert. Qed.

Lemma race_reach_length k s s' : rtc (race_step k) s s' -> length (rc_writers s') = length (rc_writers s).
Proof. induction 1 as [|s1 s2 s3 H _ IH]; [done|]. rewrite IH. by eapply race_step_length. Qed.

(** Final counters: never more than all the increments, never less than two. *)
Lemma race_bounds k n s :
  (2 <= k)%nat -> (0 < n)%nat -> rtc (race_step k) (race_start n) s -> race_over k s ->
  2 <= rc_counter s <= Z.of_nat n * Z.of_nat k.
Proof.
  intros Hk Hn Hr Ho. pose proof (race_inv_reach k _ _ Hk (race_start_inv k n) Hr) as [Hu _ _ _ Ht].
  pose proof (race_reach_length _ _ _ Hr) as Hl. cbn in Hl. rewrite length_replicate in Hl.
  pose proof (writes_done_over k _ Ho) as Hd. rewrite Hl in Hd. rewrite Hd in *.
  split; [|lia]. destruct Ht as [|[H0|He]]; [done|nia|].
  apply Exists_exists in He as (w & Hin & Hlt). unfold race_over in Ho.
  rewrite Forall_forall in Ho. rewrite (Ho w Hin) in Hlt. cbn in Hlt. lia.
Qed.

(** One writer alone: [n] iterations. *)
Lemma race_alone k n c ws t i :
  ws !! t = Some (Writer i None) -> (i + n <= k)%nat ->
  rtc (race_step k) (Race c ws) (Race (c + Z.of_nat n) (<[t := Writer (i + n) None]> ws)).
Proof.
  revert c ws i. induction n as [|n IH]; intros c ws i Hw Hk.
  - rewrite Nat.add_0_r, Z.add_0_r, list_insert_id by done. apply rtc_refl.
  - eapply rtc_l; [apply RaceRead; [exact Hw|lia]|].
    pose proof (lookup_lt_Some _ _ _ Hw).
    eapply rtc_l; [apply (RaceWrite k c _ t i c); by rewrite list_lookup_insert_eq|].
    rewrite list_insert_insert_eq. specialize (IH (c + 1) (<[t := Writer (S i) None]> ws) (S i)).
    rewrite list_lookup_insert_eq, list_insert_insert_eq in IH by done.
    replace (c + Z.of_nat (S n)) with (c + 1 + Z.of_nat n) by lia.
    replace (i + S n)%nat with (S i + n)%nat by lia. apply IH; [done|lia].
Qed.

(** Some writers, each alone, to the end. *)
Lemma race_serial k m c ws1 ws2 :
  rtc (race_step k) (Race c (ws1 ++ replicate m (Writer 0 None) ++ ws2))
    (Race (c + Z.of_nat m * Z.of_nat k) (ws1 ++ replicate m (Writer k None) ++ ws2)).
Proof.
  revert c ws1. induction m as [|m IH]; intros c ws1; cbn [replicate app].
  - rewrite Z.mul_0_l, Z.add_0_r. apply rtc_refl.
  - etransitivity.
    + apply (race_alone k k c _ (length ws1) 0); [by rewrite lookup_app_r, Nat.sub_diag by lia|lia].
    + rewrite insert_app_r_alt, Nat.sub_diag by lia. cbn [insert list_insert Nat.add].
      rewrite !(cons_middle _ ws1), !(app_assoc ws1).
      replace (c + Z.of_nat (S m) * Z.of_nat k) with (c + Z.of_nat k + Z.of_nat m * Z.of_nat k) by lia.
      apply IH.
Qed.

(** The schedule that loses all but two increments: writer 0 reads 0 first, the
    others run to their last iteration, writer 0 writes 1, writer 1 reads it,
    writer 0 finishes, writer 1 writes 2. *)
Lemma race_worst k m :
  (2 <= k)%nat ->
  exists s, rtc (race_step k) (race_start (2 + m)) s /\ race_over k s /\ rc_counter s = 2.
Proof.
  intros Hk. set (fin := replicate m (Writer k None)).
  exists (Race 2 (Writer k None :: Writer k None :: fin)). split; [|split; [|done]].
  2:{ repeat constructor. by apply Forall_replicate. }
  unfold race_start. cbn [replicate Nat.add].
  eapply rtc_l; [apply (RaceRead k 0 _ 0 0); [done|lia]|]. cbn [insert list_insert].
  etransitivity.
  { pose proof (race_serial k m 0 [Writer 0 (Some 0); Writer 0 None] []) as H. rewrite !app_nil_r in H. exact H. }
  fold fin. cbn [app]. etransitivity.
  { apply (race_alone k (k - 1) _ _ 1 0); [done|lia]. }
  cbn [insert list_insert Nat.add].
  eapply rtc_l; [apply (RaceWrite k _ _ 0 0 0); done|]. cbn [insert list_insert].
  eapply rtc_l; [apply (RaceRead k _ _ 1 (k - 1)); [done|lia]|]. cbn [insert list_insert].
  etransitivity.
  { apply (race_alone k (k - 1) _ _ 0 1); [done|lia]. }
  cbn [insert list_insert].
  eapply rtc_l; [apply (RaceWrite k _ _ 1 (k - 1) 1); done|]. cbn [insert list_insert].
  replace (1 + (k - 1))%nat with k by lia. replace (S (k - 1)) with k by lia. apply rtc_refl.
Qed.

Lemma race_best k n :
  exists s, rtc (race_step k) (race_start n) s /\ race_over k s /\ rc_counter s = Z.of_nat n * Z.of_nat k.
Proof.
  pose proof (race_serial k n 0 [] []) as H. cbn [app] in H. rewrite !app_nil_r in H.
  eexists. split; [exact H|]. split; [by apply Forall_replicate|done].
Qed.


Open Scope string_scope.

(** Records of the writers that finish before the main thread's next step. *)
(* @ src/scenarios/concurrency/race_counter.c:26-26 writer_fn *)
Definition writers_finish (tags : list Z) : prog unit unit :=
  foldr (fun tag p => emit (pg_logf ("writer " +:+ fmt_d tag +:+ " finished"));; p) (mret tt) tags.

(** The spawn loop: [inr] when [pthread_create] fails. *)
(* @ src/scenarios/concurrency/race_counter.c:39-48 rc_run *)
Definition rc_spawn (k_create : nat -> bool) (k_fin : nat -> list Z) (i : nat)
  : prog unit (nat + unit) :=
  if (i <? WRITERS)%nat then
    writers_finish (k_fin i);;
    if k_create i then
      emit (pg_logf ("spawned writer " +:+ fmt_d (Z.of_nat i + 1)));;
      mret (inl (S i))
    else emit (pg_sut_fault (Some "pthread_create failed"));; mret (inr tt)
  else mret (inr tt).

(** [k_create]: whether each thread starts; [k_fin i]: the writers that finish
    before the main thread's [i]-th record; [counter]: what the joins leave. *)
(* @ src/scenarios/concurrency/race_counter.c rc_run *)
Definition rc_run (k_create : nat -> bool) (k_fin : nat -> list Z) (counter : Z) : prog unit Z :=
  emit (pg_phase (Some "spawning writers"));;
  emit (pg_expect (Some "counter") (Z.of_nat WRITERS * Z.of_nat WRITES));;
  r ← niter WRITERS (rc_spawn k_create k_fin) 0%nat;
  match r with
  | inr _ => mret 1%Z
  | inl _ =>
      writers_finish (k_fin WRITERS);;
      emit (pg_phase (Some "joining"));;
      writers_finish (k_fin (S WRITERS));;
      emit (pg_actual (Some "counter") counter);;
      let expected := (Z.of_nat WRITERS * Z.of_nat WRITES)%Z in
      let lost := (expected - counter)%Z in
      emit (pg_logf ("lost " +:+ fmt_d lost +:+ " of " +:+ fmt_d expected +:+ " writes (" +:+
                     percent lost expected +:+ "%)"));;
      mret 0%Z
  end.

(* @ src/scenarios/concurrency/race_counter.c rc_explain *)
Definition rc_explain : prog unit unit :=
  emit (pg_logf "Multiple threads execute `*c = *c + 1` without synchronization.");;
  emit (pg_logf "The read-modify-write is three steps; another thread can write");;
  emit (pg_logf "between read and write, so its increment is silently lost.");;
  emit (pg_logf "Fix: pthread_mutex around the update, or atomic_fetch_add.").

(** ** deadlock_classic: two locks, two orders *)

(** Where a locker is: about to announce, waiting for its first lock, holding it
    (asleep), waiting for its second, holding both, holding the first again,
    returned. *)
(* @ src/scenarios/concurrency/deadlock_classic.c:15-32 locker_fn *)
Inductive lpc := LStart | LWant1 | LHold1 | LWant2 | LBoth | LDrop2 | LDone.

#[export] Instance lpc_eq_dec : EqDecision lpc.
Proof. solve_decision. Defined.

(** The mutexes [a] and [b]. *)
Inductive mutex := MA | MB.

#[export] Instance mutex_eq_dec : EqDecision mutex.
Proof. solve_decision. Defined.

(* @ src/scenarios/concurrency/deadlock_classic.c:9-13 locker_arg_t *)
Record locker_arg_t := LockerArg { la_first : mutex; la_second : mutex; la_hold_ms : Z }.

Definition holds (arg : locker_arg_t) (pc : lpc) (m : mutex) : bool :=
  match pc with
  | LHold1 | LWant2 | LDrop2 => bool_decide (m = la_first arg)
  | LBoth => bool_decide (m = la_first arg) || bool_decide (m = la_second arg)
  | _ => false
  end.

(** One step of a locker, given which mutexes the other holds; [None] when it
    is blocked or has returned.  Also the record it emits. *)
(* @ src/scenarios/concurrency/deadlock_classic.c:15-32 locker_fn *)
Definition locker_step (addr : mutex -> Z) (arg : locker_arg_t) (taken : mutex -> bool) (pc : lpc)
  : option (lpc * list pg_event_t) :=
  match pc with
  | LStart => Some (LWant1, [pg_logf ("lock first  (" +:+ fmt_p (addr (la_first arg)) +:+ ")")])
  | LWant1 => if taken (la_first arg) then None
              else Some (LHold1, [pg_logf ("  got first; sleeping " +:+ fmt_d (la_hold_ms arg) +:+
                                           " ms before grabbing second")])
  | LHold1 => Some (LWant2, [pg_logf ("lock second (" +:+ fmt_p (addr (la_second arg)) +:+
                                      ") -- this is where the deadlock bites")])
  | LWant2 => if taken (la_second arg) then None
              else Some (LBoth, [pg_logf "  got both; releasing"])
  | LBoth => Some (LDrop2, [])
  | LDrop2 => Some (LDone, [])
  | LDone => None
  end.

Section Deadlock.
Variable addr : mutex -> Z.
Variables arg1 arg2 : locker_arg_t.

(** The pair of lockers; [true] moves the second one, and marks its records. *)
Definition lockers_step (st : lpc * lpc) (who : bool) : option ((lpc * lpc) * list (bool * pg_event_t)) :=
  let '(p1, p2) := st in
  if who then
    '(p, evs) ← locker_step addr arg2 (holds arg1 p1) p2; Some ((p1, p), map (pair true) evs)
  else
    '(p, evs) ← locker_step addr arg1 (holds arg2 p2) p1; Some ((p, p2), map (pair false) evs).

Definition lockers_move (st st' : lpc * lpc) : Prop :=
  exists who evs, lockers_step st who = Some (st', evs).

(** Blocked for ever: nobody can move and somebody has not returned. *)
Definition stuck (st : lpc * lpc) : bool :=
  bool_decide (lockers_step st false = None) && bool_decide (lockers_step st true = None) &&
  negb (bool_decide (st = (LDone, LDone))).

End Deadlock.

(** The threads' records under a schedule; a choice that cannot move is skipped. *)
Fixpoint lockers_run (addr : mutex -> Z) (a1 a2 : locker_arg_t) (st : lpc * lpc) (sched : list bool)
  : (lpc * lpc) * list (bool * pg_event_t) :=
  match sched with
  | [] => (st, [])
  | who :: sched =>
      match lockers_step addr a1 a2 st who with
      | Some (st, evs) => let '(st', evs') := lockers_run addr a1 a2 st sched in (st', evs ++ evs')%list
      | None => lockers_run addr a1 a2 st sched
      end
  end.

Definition arg_ab : locker_arg_t := LockerArg MA MB 50.
Definition arg_ba : locker_arg_t := LockerArg MB MA 50.

(** The two handles. *)
Definition locker_handle : Type := option (chaos_thread_t * wrap_arg_t unit locker_arg_t).

(* @ src/scenarios/concurrency/deadlock_classic.c:49-50 dl_run *)
Definition dl_spawns (e1 e2 : spawn_env) : locker_handle * locker_handle :=
  let '(t1, c) := chaos_thread_spawn (Some tt) arg_ab (Some "T1") e1 1 in
  let '(t2, _) := chaos_thread_spawn (Some tt) arg_ba (Some "T2") e2 c in
  (t1, t2).

(** [chaos_thread_join] of a NULL handle returns at once: there is no thread to
    wait for. *)
Definition starts_at (t : locker_handle) : lpc := match t with Some _ => LStart | None => LDone end.
Definition dl_start (e1 e2 : spawn_env) : lpc * lpc :=
  let '(t1, t2) := dl_spawns e1 e2 in (starts_at t1, starts_at t2).

(** The tag a thread's records carry. *)
Definition locker_tag (t : locker_handle) : Z :=
  match t with Some (_, w) => (thread_wrap w).1 | None => 0 end.
Definition dl_tagged (e1 e2 : spawn_env) (evs : list (bool * pg_event_t)) : list (Z * pg_event_t) :=
  let '(t1, t2) := dl_spawns e1 e2 in
  map (fun '(who, ev) => (locker_tag (if (who : bool) then t2 else t1), ev)) evs.

(** [e1], [e2]: the answers to the two spawns.  [sched] is what the scheduler does
    in the two seconds before the watchdog looks; if both threads have returned by
    then the joins go through first.  Without a watchdog ([malloc] or
    [pthread_create] failed) it is all the scheduler ever does, and the joins wait
    for ever. *)
(* @ src/scenarios/concurrency/deadlock_classic.c dl_run *)
Definition dl_run (addr : mutex -> Z) (malloc_ok create_ok : bool) (e1 e2 : spawn_env) (sched : list bool)
  : prog unit Z :=
  emit (pg_phase (Some "two threads, opposite lock order"));;
  emit (pg_logf "T1 wants A then B; T2 wants B then A; small hold delay biases the race");;
  emit (pg_logf "watchdog will fire after 2s if both threads end up waiting forever");;
  emit (pg_expect (Some "watchdog_fired") 1);;
  let wd := chaos_thread_watchdog (2 * 1000000000) (Some "classic deadlock") malloc_ok create_ok in
  let '(st, evs) := lockers_run addr arg_ab arg_ba (dl_start e1 e2) sched in
  emit_all (dl_tagged e1 e2 evs);;
  if bool_decide (st = (LDone, LDone)) then
    emit (pg_actual (Some "watchdog_fired") 0);;
    mret 0%Z
  else
    match wd with
    | Some wd => let '(_, ev, code) := watchdog_fn wd in emit ev;; exits code
    | None => hangs
    end.

(** ** thread_cancel_midwrite: a copy cut short *)

(* @ src/scenarios/concurrency/thread_cancel_midwrite.c:17-17 copier_fn *)
Definition src : list Z := [11; 22; 33; 44; 55; 66; 77; 88]%Z.

(** [g_dst] after [k] field assignments of the endless copy loop; each is
    followed by the [usleep] in which the cancellation is acted on. *)
(* @ src/scenarios/concurrency/thread_cancel_midwrite.c copier_fn *)
Fixpoint copier_fn (k : nat) : list Z :=
  match k with
  | O => replicate 8 0%Z
  | S k => <[(k `mod` 8)%nat := nth (k `mod` 8)%nat src 0%Z]> (copier_fn k)
  end.

(* @ src/scenarios/concurrency/thread_cancel_midwrite.c:50-52 set *)
Definition fields_set (g_dst : list Z) : Z := Z.of_nat (count (fun f => negb (f =? 0)%Z) g_dst).

(** [k]: the assignments made before the thread died (0 if it never started). *)
(* @ src/scenarios/concurrency/thread_cancel_midwrite.c tcm_run *)
Definition tcm_run (e : spawn_env) (malloc_ok create_ok : bool) (k : nat) : prog unit Z :=
  emit (pg_phase (Some "spawning copier; will cancel after 1ms (mid-record)"));;
  let t := fst <$> (chaos_thread_spawn (Some tt) tt (Some "copier") e 1).1 in
  let timer := (chaos_thread_cancel_at_ns t 1000000 malloc_ok create_ok).2 in
  (match t, timer with Some _, None => hangs | _, _ => mret tt end);;
  let g_dst := copier_fn (match t with Some _ => k | None => 0 end) in
  emit (pg_actual (Some "field_a") (nth 0 g_dst 0%Z));;
  emit (pg_actual (Some "field_b") (nth 1 g_dst 0%Z));;
  emit (pg_actual (Some "field_c") (nth 2 g_dst 0%Z));;
  emit (pg_actual (Some "field_d") (nth 3 g_dst 0%Z));;
  emit (pg_actual (Some "field_e") (nth 4 g_dst 0%Z));;
  emit (pg_actual (Some "field_f") (nth 5 g_dst 0%Z));;
  emit (pg_actual (Some "field_g") (nth 6 g_dst 0%Z));;
  emit (pg_actual (Some "field_h") (nth 7 g_dst 0%Z));;
  let set := fields_set g_dst in
  emit (pg_expect (Some "fields_set") 8);;
  emit (pg_actual (Some "fields_set") set);;
  emit (pg_logf ("after cancellation, " +:+ fmt_d set +:+ "/8 fields contain real data; " +:+
                 fmt_d (8 - set) +:+ " are zero/torn"));;
  emit (pg_logf "another thread reading the struct now sees a half-constructed value.");;
  mret 0%Z.

Close Scope string_scope.

(** ** The lockers, all schedules *)

Section Lockers.
Variable addr : mutex -> Z.
Variables arg1 arg2 : locker_arg_t.

(** No mutex is held twice. *)
Definition exclusive (st : lpc * lpc) : Prop :=
  forall m, holds arg1 st.1 m = true -> holds arg2 st.2 m = true -> False.

Lemma locker_step_holds arg taken pc pc' evs m :
  locker_step addr arg taken pc = Some (pc', evs) ->
  holds arg pc' m = true -> holds arg pc m = true \/ taken m = false.
Proof.
  unfold locker_step. destruct pc; cbn [holds]; try done.
  - by intros [= <- <-].
  - destruct (taken (la_first arg)) eqn:E; [done|]. intros [= <- <-] H. cbn in H.
    apply bool_decide_eq_true in H as ->. by right.
  - intros [= <- <-]. auto.
  - destruct (taken (la_second arg)) eqn:E; [done|]. intros [= <- <-] H. cbn in H.
    apply orb_true_iff in H as [H|H]; [auto|]. apply bool_decide_eq_true in H as ->. by right.
  - intros [= <- <-] H. cbn in H. rewrite H. auto.
  - by intros [= <- <-].
Qed.

Lemma lockers_exclusive st st' :
  exclusive st -> lockers_move addr arg1 arg2 st st' -> exclusive st'.
Proof.
  intros Hx (who & evs & Hs) m. destruct st as [p1 p2]. unfold exclusive in Hx. cbn [fst snd] in Hx.
  unfold lockers_step in Hs. destruct who.
  - destruct (locker_step addr arg2 _ p2) as [[p l]|] eqn:E; [|done]. cbn in Hs. injection Hs as <- <-.
    cbn. intros H1 H2. destruct (locker_step_holds _ _ _ _ _ m E H2) as [H|H]; [eauto|congruence].
  - destruct (locker_step addr arg1 _ p1) as [[p l]|] eqn:E; [|done]. cbn in Hs. injection Hs as <- <-.
    cbn. intros H1 H2. destruct (locker_step_holds _ _ _ _ _ m E H1) as [H|H]; [eauto|congruence].
Qed.

Lemma lockers_reach_exclusive st :
  rtc (lockers_move addr arg1 arg2) (LStart, LStart) st -> exclusive st.
Proof.
  intros H. assert (exclusive (LStart, LStart)) as H0 by (by intros m).
  induction H as [|s1 s2 s3 H12 _ IH]; [done|]. apply IH. by eapply lockers_exclusive.
Qed.

Lemma stuck_blocked p1 p2 :
  stuck addr arg1 arg2 (p1, p2) = true ->
  locker_step addr arg1 (holds arg2 p2) p1 = None /\
  locker_step addr arg2 (holds arg1 p1) p2 = None /\ (p1, p2) <> (LDone, LDone).
Proof.
  unfold stuck. intros H. apply andb_true_iff in H as [H H3]. apply andb_true_iff in H as [H1 H2].
  apply bool_decide_eq_true in H1, H2. apply negb_true_iff, bool_decide_eq_false in H3.
  unfold lockers_step in H1, H2. split_and!; [| |done].
  - destruct (locker_step addr arg1 (holds arg2 p2) p1) as [[]|]; done.
  - destruct (locker_step addr arg2 (holds arg1 p1) p2) as [[]|]; done.
Qed.

End Lockers.

(** Crossed orders block only with one mutex each. *)
Lemma crossed_stuck addr st :
  rtc (lockers_move addr arg_ab arg_ba) (LStart, LStart) st ->
  stuck addr arg_ab arg_ba st = true -> st = (LWant2, LWant2).
Proof.
  intros Hr Hs. apply lockers_reach_exclusive in Hr. destruct st as [p1 p2].
  apply stuck_blocked in Hs as (H1 & H2 & H3).
  pose proof (Hr MA) as HA. pose proof (Hr MB) as HB. clear Hr.
  destruct p1, p2; cbn in *; done.
Qed.

(** With one order there is always a move. *)
Lemma ordered_never_stuck addr a st :
  la_first a <> la_second a ->
  rtc (lockers_move addr a a) (LStart, LStart) st -> stuck addr a a st = false.
Proof.
  intros Hd Hr. apply lockers_reach_exclusive in Hr. destruct st as [p1 p2].
  destruct (stuck addr a a (p1, p2)) eqn:Hs; [|done]. exfalso.
  apply stuck_blocked in Hs as (H1 & H2 & H3).
  pose proof (Hr (la_first a)) as HA. pose proof (Hr (la_second a)) as HB. clear Hr.
  destruct a as [[] [] ms]; cbn in Hd; try done.
  all: destruct p1, p2; cbn in *; done.
Qed.

(** The schedule in which each takes its first lock before either asks for its
    second. *)
Definition crossing : list bool := [false; true; false; true; false; true].

Lemma lockers_run_reach addr a1 a2 st sched :
  rtc (lockers_move addr a1 a2) st (lockers_run addr a1 a2 st sched).1.
Proof.
  revert st. induction sched as [|who sched IH]; intros st; cbn [lockers_run]; [apply rtc_refl|].
  destruct (lockers_step addr a1 a2 st who) as [[st1 evs]|] eqn:E; [|apply IH].
  specialize (IH st1). destruct (lockers_run addr a1 a2 st1 sched) as [st2 evs2].
  eapply rtc_l; [|exact IH]. by exists who, evs.
Qed.

(** What is emitted before the threads run. *)
Definition dl_intro : list pg_event_t :=
  [pg_phase (Some "two threads, opposite lock order"%string);
   pg_logf "T1 wants A then B; T2 wants B then A; small hold delay biases the race"%string;
   pg_logf "watchdog will fire after 2s if both threads end up waiting forever"%string;
   pg_expect (Some "watchdog_fired"%string) 1].

(** A schedule after which somebody has not returned: the joins do not either, so
    the watchdog speaks. *)
Lemma dl_run_unfinished addr e1 e2 sched st evs :
  lockers_run addr arg_ab arg_ba (dl_start e1 e2) sched = (st, evs) -> st <> (LDone, LDone) ->
  dl_run addr true true e1 e2 sched tt
  = (map (pair 0) dl_intro ++ dl_tagged e1 e2 evs ++ [(0, pg_watchdog (Some "watchdog: classic deadlock"%string))],
     FExit 2, tt).
Proof.
  intros Hr Hst. unfold dl_run. rewrite Hr. unfold dl_intro. cbn [map app]. prog_run.
  apply run_emit_all. rewrite bool_decide_eq_false_2 by done. reflexivity.
Qed.

(** A schedule that finishes. *)
Lemma dl_run_done addr m c e1 e2 sched evs :
  lockers_run addr arg_ab arg_ba (dl_start e1 e2) sched = ((LDone, LDone), evs) ->
  dl_run addr m c e1 e2 sched tt
  = (map (pair 0) dl_intro ++ dl_tagged e1 e2 evs ++ [(0, pg_actual (Some "watchdog_fired"%string) 0)], FRet 0, tt).
Proof.
  intros Hr. unfold dl_run. rewrite Hr. unfold dl_intro. cbn [map app]. prog_run.
  apply run_emit_all. reflexivity.
Qed.

(** A thread that did not start, or has returned. *)
Definition one_returned (st : lpc * lpc) : Prop := st.1 = LDone \/ st.2 = LDone.

Lemma one_returned_not_stuck addr a1 a2 st : one_returned st -> stuck addr a1 a2 st = false.
Proof.
  destruct st as [p1 p2]. intros H. destruct (stuck addr a1 a2 (p1, p2)) eqn:Hs; [|done]. exfalso.
  apply stuck_blocked in Hs as (H1 & H2 & H3). destruct H as [H|H]; cbn in H; subst.
  - destruct p2; done.
  - destruct p1; done.
Qed.

Lemma one_returned_reach addr a1 a2 st st' :
  one_returned st -> rtc (lockers_move addr a1 a2) st st' -> one_returned st'.
Proof.
  intros H Hr. induction Hr as [|s1 s2 s3 (who & evs & Hs) _ IH]; [done|]. apply IH. clear IH.
  destruct s1 as [p1 p2]. unfold lockers_step in Hs. destruct H as [H|H]; cbn in H; subst; destruct who; try done.
  - destruct (locker_step addr a2 _ p2) as [[p l]|]; [|done]. injection Hs as <- <-. by left.
  - destruct (locker_step addr a1 _ p1) as [[p l]|]; [|done]. injection Hs as <- <-. by right.
Qed.

(** Both threads started, or one of them has nothing to do. *)
Lemma dl_start_cases e1 e2 : dl_start e1 e2 = (LStart, LStart) \/ one_returned (dl_start e1 e2).
Proof. unfold dl_start. destruct (dl_spawns e1 e2) as [[|] [|]]; cbn; [by left|by right; right|by right; left..]. Qed.

(** A state nobody can leave stays however the schedule goes on. *)
Lemma lockers_run_stuck addr a1 a2 st sched : stuck addr a1 a2 st = true -> lockers_run addr a1 a2 st sched = (st, []).
Proof.
  intros Hs. induction sched as [|who sched IH]; [done|]. cbn [lockers_run].
  unfold stuck in Hs. apply andb_true_iff in Hs as [[H1 H2]%andb_true_iff _].
  apply bool_decide_eq_true in H1, H2. by destruct who; rewrite ?H1, ?H2.
Qed.

Lemma lockers_run_app addr a1 a2 st s1 s2 :
  (lockers_run addr a1 a2 st (s1 ++ s2)).1 = (lockers_run addr a1 a2 (lockers_run addr a1 a2 st s1).1 s2).1.
Proof.
  revert st. induction s1 as [|who s1 IH]; intros st; [done|]. cbn [lockers_run app].
  destruct (lockers_step addr a1 a2 st who) as [[st1 evs]|]; [|apply IH].
  specialize (IH st1). destruct (lockers_run addr a1 a2 st1 (s1 ++ s2)), (lockers_run addr a1 a2 st1 s1). exact IH.
Qed.

(** Two threads that did start. *)
Definition started : spawn_env := SpawnEnv true true (Some 0).

(** ** The copier *)

Lemma length_copier k : length (copier_fn k) = 8%nat.
Proof. induction k as [|k IH]; [done|]. cbn [copier_fn]. by rewrite length_insert. Qed.

Definition torn (k : nat) : list Z := take k src ++ replicate (8 - k) 0.

Lemma copier_torn k : (k <= 8)%nat -> copier_fn k = torn k.
Proof. intros H. do 9 (destruct k as [|k]; [reflexivity|]). lia. Qed.

Lemma copier_full k : (8 <= k)%nat -> copier_fn k = src.
Proof.
  induction 1 as [|k Hk IH]; [reflexivity|]. cbn [copier_fn]. rewrite IH. apply list_insert_id.
  assert (k `mod` 8 < 8)%nat as Hm by (apply Nat.mod_upper_bound; lia).
  destruct (k `mod` 8)%nat as [|[|[|[|[|[|[|[|m]]]]]]]]; [reflexivity..|lia].
Qed.

Lemma fields_set_torn k : (k <= 8)%nat -> fields_set (torn k) = Z.of_nat k.
Proof. intros H. do 9 (destruct k as [|k]; [reflexivity|]). lia. Qed.

(** ** Properties *)

(** *** The report of race_counter *)

Lemma writers_finish_run tags : exists L, writers_finish tags tt = (L, FRet tt, tt).
Proof.
  induction tags as [|t tags [L IH]]; [by eexists|]. eexists. cbn [writers_finish foldr]. prog_run. exact IH.
Qed.

Lemma rc_spawn_all k_fin n i :
  (i + n <= WRITERS)%nat ->
  exists L, niter n (rc_spawn (fun _ => true) k_fin) i tt = (L, FRet (inl (i + n)%nat), tt).
Proof.
  revert i. induction n as [|n IH]; intros i Hi; [exists []; by rewrite Nat.add_0_r|].
  destruct (writers_finish_run (k_fin i)) as [L1 E1]. destruct (IH (S i)) as [L2 E2]; [lia|].
  eexists. cbn [niter]. eapply (run_bind (rc_spawn _ _ i)).
  - unfold rc_spawn. rewrite (proj2 (Nat.ltb_lt i WRITERS)) by lia. eapply run_bind; [exact E1|].
    cbv beta iota. prog_run. reflexivity.
  - cbv beta iota. rewrite E2. by replace (S i + n)%nat with (i + S n)%nat by lia.
Qed.

Definition rc_report (counter : Z) : list pg_event_t :=
  [pg_actual (Some "counter"%string) counter;
   pg_logf ("lost " +:+ fmt_d (8000 - counter) +:+ " of " +:+ fmt_d 8000 +:+ " writes (" +:+
            percent (8000 - counter) 8000 +:+ "%)")].

Lemma rc_run_report k_fin counter :
  exists L, rc_run (fun _ => true) k_fin counter tt = (L ++ map (pair 0) (rc_report counter), FRet 0, tt).
Proof.
  destruct (rc_spawn_all k_fin WRITERS 0 ltac:(lia)) as [L1 E1].
  destruct (writers_finish_run (k_fin WRITERS)) as [L2 E2].
  destruct (writers_finish_run (k_fin (S WRITERS))) as [L3 E3].
  eexists (_ :: _ :: L1 ++ L2 ++ _ :: L3). cbn [app]. rewrite <- !app_assoc. unfold rc_run. prog_run.
  eapply run_bind; [exact E1|]. cbv beta iota. eapply run_bind; [exact E2|]. cbn [app]. prog_run.
  eapply run_bind; [exact E3|]. change (Z.of_nat WRITERS * Z.of_nat WRITES) with 8000. cbv zeta.
  unfold rc_report. cbn [map]. prog_run. reflexivity.
Qed.

(** C24: the lost updates of race_counter, exactly: under every interleaving of the
    eight writers' reads and writes in which all of them finish, the counter the
    joins leave is between 2 and 8000; whenever the writers' own records come, the
    scenario then returns 0 and its last records are that counter and the number
    of lost writes, 8000 minus it, which is between 0 and 7998 and never
    negative.  Both ends are reached by some schedule, down to the one in which
    all but two of 8000 increments are lost. *)
Theorem race_counter_range :
  (forall s, rtc (race_step WRITES) (race_start WRITERS) s -> race_over WRITES s ->
     2 <= rc_counter s <= 8000 /\ 0 <= 8000 - rc_counter s <= 7998 /\
     forall k_fin, exists L, rc_run (fun _ => true) k_fin (rc_counter s) tt
       = (L ++ [(0, pg_actual (Some "counter"%string) (rc_counter s));
                (0, pg_logf ("lost " +:+ fmt_d (8000 - rc_counter s) +:+ " of " +:+ fmt_d 8000 +:+ " writes (" +:+
                             percent (8000 - rc_counter s) 8000 +:+ "%)"))], FRet 0, tt)) /\
  (exists s, rtc (race_step WRITES) (race_start WRITERS) s /\ race_over WRITES s /\ rc_counter s = 2) /\
  (exists s, rtc (race_step WRITES) (race_start WRITERS) s /\ race_over WRITES s /\ rc_counter s = 8000).
Proof.
  split; [|split].
  - intros s Hr Ho. assert (2 <= rc_counter s <= 8000).
    { replace 8000 with (Z.of_nat WRITERS * Z.of_nat WRITES) by reflexivity.
      apply race_bounds; [unfold WRITES; lia|unfold WRITERS; lia|done|done]. }
    split_and!; try lia. intros k_fin. apply rc_run_report.
  - apply (race_worst WRITES 6). unfold WRITES; lia.
  - replace 8000 with (Z.of_nat WRITERS * Z.of_nat WRITES) by reflexivity. apply race_best.
Qed.

(** C23: the classic deadlock: of all the states the two lockers can reach with
    crossed orders, the only one in which nobody can move is the one where each
    holds its first mutex and waits for its second; it is reachable; with one
    common order no reachable state is stuck, and neither is any when one of the
    two threads was not started.  The scenario, for every answer to its two
    spawns and every schedule: when both threads have returned before the watchdog
    looks it ends with [watchdog_fired] 0 and returns 0; otherwise, with the
    watchdog started, it ends with the watchdog's record and exit code 2, and it
    always does so once the two wait for each other, however the schedule goes
    on.  Both endings are reached by some schedule. *)
Theorem deadlock_exactly_crossed addr :
  (forall st, rtc (lockers_move addr arg_ab arg_ba) (LStart, LStart) st ->
     stuck addr arg_ab arg_ba st = true -> st = (LWant2, LWant2)) /\
  (rtc (lockers_move addr arg_ab arg_ba) (LStart, LStart) (LWant2, LWant2) /\
     stuck addr arg_ab arg_ba (LWant2, LWant2) = true) /\
  (forall a st, la_first a <> la_second a ->
     rtc (lockers_move addr a a) (LStart, LStart) st -> stuck addr a a st = false) /\
  (forall e1 e2 st, dl_start e1 e2 <> (LStart, LStart) ->
     rtc (lockers_move addr arg_ab arg_ba) (dl_start e1 e2) st -> stuck addr arg_ab arg_ba st = false) /\
  (forall e1 e2 sched, let '(st, evs) := lockers_run addr arg_ab arg_ba (dl_start e1 e2) sched in
     (st = (LDone, LDone) -> forall malloc_ok create_ok,
        dl_run addr malloc_ok create_ok e1 e2 sched tt
        = (map (pair 0) dl_intro ++ dl_tagged e1 e2 evs ++ [(0, pg_actual (Some "watchdog_fired"%string) 0)],
           FRet 0, tt)) /\
     (st <> (LDone, LDone) ->
        dl_run addr true true e1 e2 sched tt
        = (map (pair 0) dl_intro ++ dl_tagged e1 e2 evs ++
           [(0, pg_watchdog (Some "watchdog: classic deadlock"%string))], FExit 2, tt)) /\
     (st = (LWant2, LWant2) -> forall more,
        (lockers_run addr arg_ab arg_ba (dl_start e1 e2) (sched ++ more)).1 <> (LDone, LDone))) /\
  (lockers_run addr arg_ab arg_ba (dl_start started started) crossing).1 = (LWant2, LWant2) /\
  (lockers_run addr arg_ab arg_ba (dl_start started started) (replicate 6 false ++ replicate 6 true)).1
    = (LDone, LDone).
Proof.
  split_and!; [apply crossed_stuck| |reflexivity|apply ordered_never_stuck| | |reflexivity|reflexivity].
  - exact (lockers_run_reach addr arg_ab arg_ba (LStart, LStart) crossing).
  - intros e1 e2 st Hne Hr. apply one_returned_not_stuck. eapply one_returned_reach; [|exact Hr].
    by destruct (dl_start_cases e1 e2).
  - intros e1 e2 sched. destruct (lockers_run _ _ _ _ sched) as [st evs] eqn:E. split_and!.
    + intros -> m c. by apply dl_run_done.
    + intros Hst. by apply (dl_run_unfinished _ _ _ _ st).
    + intros -> more. rewrite lockers_run_app, E. cbn [fst]. by rewrite lockers_run_stuck.
Qed.

(** A copy cut short is a torn record: cancelled after [k] field assignments,
    the destination holds the first [k] source fields and zeros after them, for
    any [k] up to 8, and the whole source from then on however often the loop
    goes round; the scenario then reports exactly [min k 8] fields set.  When the
    timer thread cannot be started, which [tcm_run] does not check, nothing ends
    the copier and the join waits for ever. *)
Theorem cancel_midwrite_torn k pt :
  copier_fn k = (if (k <? 8)%nat then take k src ++ replicate (8 - k) 0 else src) /\
  (exists L, tcm_run (SpawnEnv true true (Some pt)) true true k tt = (L, FRet 0, tt) /\
     L !! 10%nat = Some (0, pg_actual (Some "fields_set"%string) (Z.of_nat (Nat.min k 8)))) /\
  (tcm_run (SpawnEnv true true (Some pt)) true false k tt).1.2 = FHang.
Proof.
  assert (E : copier_fn k = (if (k <? 8)%nat then torn k else src)).
  { destruct (Nat.ltb_spec k 8); [apply copier_torn; lia|by apply copier_full]. }
  split_and!; [exact E| |reflexivity]. eexists. split.
  { unfold tcm_run. cbv zeta. prog_run. eapply run_silent; [reflexivity|].
    cbn [chaos_thread_spawn se_calloc se_malloc se_create negb pg_alloc_thread_tag fst fmap option_fmap option_map].
    prog_run. reflexivity. }
  cbn [lookup list_lookup]. do 3 f_equal. rewrite E. destruct (Nat.ltb_spec k 8).
  - rewrite fields_set_torn by lia. lia.
  - change src with (torn 8). rewrite fields_set_torn by lia. lia.
Qed.
