(* ===== verification/ScenNetwork.v ===== *)
(** * The network scenarios (src/scenarios/network/)

    What the sockets answer (the results of [write], [poll] and [read]) is an
    argument of the programs; packet_loss and partial_read are related to what
    the forwarders of ChaosNet.v deliver. *)

From Stdlib Require Import SpecFloat.
From S2P Require Import Prelude CLib Rand Event Runner ChaosNet Prog.

Definition EPIPE : Z := 32.

(** ** The pair a scenario holds

    What [pair] holds, and every descriptor the scenario obtained and closed. *)

Record net_world := NetWorld {
  nw_pair : option chaos_pair_t;
  nw_opened : list Z;
  nw_closed : list Z
}.

Definition net_empty : net_world := NetWorld None [] [].

(** Every descriptor obtained has been closed, once. *)
#[export] Instance net_world_world : World net_world := fun n => nw_opened n ≡ₚ nw_closed n.

(** [chaos_net_pair(&pair, &k, seed)]. *)
Definition do_pair (k : chaos_net_knobs_t) (seed : Z) (env : pair_env) (n : net_world) : Z * net_world :=
  let '(rc, out, closed) := chaos_net_pair (Some k) seed env in
  (rc, NetWorld (match out with Some p => Some p | None => nw_pair n end)
                (nw_opened n ++ opened env) (nw_closed n ++ closed)).

(** [chaos_net_set_knobs(&pair, &k)]. *)
Definition do_set_knobs (k : chaos_net_knobs_t) (n : net_world) : net_world :=
  NetWorld (chaos_net_set_knobs (nw_pair n) (Some k)) (nw_opened n) (nw_closed n).

(** [chaos_net_close(&pair)]. *)
Definition do_net_close (n : net_world) : net_world :=
  let '(p, closed) := chaos_net_close (nw_pair n) in NetWorld p (nw_opened n) (nw_closed n ++ closed).

(** [close(pair.fd_a); pair.fd_a = -1;] *)
Definition do_close_a (n : net_world) : net_world :=
  match nw_pair n with
  | Some p => NetWorld (Some (Pair (-1) (fd_b p) (_internal p))) (nw_opened n) (nw_closed n ++ [fd_a p])
  | None => n
  end.

Section Network.

(** The text of an [errno], from the C library. *)
Variable strerror : Z -> string.

Open Scope string_scope.

(** ** connection_reset *)

(** What the peer thread does after its one [read], which returned [r] bytes. *)
Inductive peer_act :=
| PeerLog (ev : pg_event_t)
| PeerClose (fd : Z).

(* @ src/scenarios/network/connection_reset.c peer_fn *)
Definition peer_fn (fd r delay_ms : Z) : list peer_act :=
  [PeerLog (pg_logf ("peer received " +:+ fmt_d r +:+ " bytes; closing connection in " +:+ fmt_d delay_ms +:+ " ms"));
   PeerClose fd;
   PeerLog (pg_logf "peer closed")].

Definition peer_records (acts : list peer_act) : list pg_event_t :=
  omap (fun a => match a with PeerLog ev => Some ev | PeerClose _ => None end) acts.
Definition peer_closes (acts : list peer_act) : list Z :=
  omap (fun a => match a with PeerLog _ => None | PeerClose fd => Some fd end) acts.

(** What the peer has still to do, and the descriptors obtained and closed. *)
Record cr_world := CrWorld { cw_pending : list peer_act; cw_opened : list Z; cw_closed : list Z }.

Definition cr_empty : cr_world := CrWorld [] [] [].

(** Nothing left to the peer, and every descriptor closed once. *)
#[export] Instance cr_world_world : World cr_world := fun w => cw_pending w = [] /\ cw_opened w ≡ₚ cw_closed w.

(** [socketpair(AF_UNIX, SOCK_STREAM, 0, sp)]. *)
Definition do_socketpair (sp : option (Z * Z)) (w : cr_world) : option (Z * Z) * cr_world :=
  (sp, match sp with
       | Some (fd0, fd1) => CrWorld (cw_pending w) (cw_opened w ++ [fd0; fd1]) (cw_closed w)
       | None => w
       end).

(** [pthread_create]; [close]. *)
Definition peer_starts (acts : list peer_act) (w : cr_world) : cr_world := CrWorld acts (cw_opened w) (cw_closed w).
Definition cr_close (fd : Z) (w : cr_world) : cr_world := CrWorld (cw_pending w) (cw_opened w) (cw_closed w ++ [fd]).

(** The next [n] steps of the peer. *)
Definition peer_moves (n : nat) : prog cr_world unit := fun w =>
  let out := take n (cw_pending w) in
  (map (pair 0%Z) (peer_records out), FRet tt,
   CrWorld (drop n (cw_pending w)) (cw_opened w) (cw_closed w ++ peer_closes out)).

(** [pthread_join]: the rest of them. *)
Definition peer_join : prog cr_world unit := fun w => peer_moves (length (cw_pending w)) w.

(** The loop's variables. *)
(* @ src/scenarios/network/connection_reset.c:56-59 cr_run *)
Record cr_state := CrState { cr_i : nat; cr_total : Z; cr_errors : Z; cr_first_iter : Z; cr_first_errno : Z }.

(** [k_write i]: what the [i]-th [write] returns and [errno]; [k_peer i]: how
    many steps the peer takes before it. *)
(* @ src/scenarios/network/connection_reset.c:62-75 cr_run *)
Definition cr_body (k_peer : nat -> nat) (k_write : nat -> Z * Z) (s : cr_state)
  : prog cr_world (cr_state + cr_state) :=
  let '(CrState i total errors first_iter first_errno) := s in
  peer_moves (k_peer i);;
  let '(w, errno) := k_write i in
  if (w <? 0)%Z then
    '(first_iter, first_errno) ←
      (if (first_iter <? 0)%Z then
         emit (pg_logf ("first write error at iter " +:+ fmt_d (Z.of_nat i) +:+ ": errno=" +:+ fmt_d errno +:+
                        " (" +:+ strerror errno +:+ ")"));;
         mret (Z.of_nat i, errno)
       else mret (first_iter, first_errno));
    let errors := (errors + 1)%Z in
    if (3 <=? errors)%Z then mret (inr (CrState i total errors first_iter first_errno))
    else mret (inl (CrState (S i) total errors first_iter first_errno))
  else mret (inl (CrState (S i) (total + w) errors first_iter first_errno)).

(** [recv]: the bytes the peer's one [read] returned. *)
(* @ src/scenarios/network/connection_reset.c cr_run *)
Definition cr_run (socketpair : option (Z * Z)) (recv : Z) (k_peer : nat -> nat) (k_write : nat -> Z * Z)
  : prog cr_world Z :=
  sp ← act (do_socketpair socketpair);
  match sp with
  | None => emit (pg_sut_fault (Some "socketpair failed"));; mret 1%Z
  | Some (my_fd, peer_fd) =>
    emit (pg_phase (Some "spawning peer; it will read once then close after 30 ms"));;
    update (peer_starts (peer_fn peer_fd recv 30));;
    emit (pg_phase (Some "main thread writes 4KB chunks until something breaks"));;
    r ← niter 1000 (cr_body k_peer k_write) (CrState 0 0 0 (-1) 0);
    let s := match r with inl s => s | inr s => s end in
    peer_join;;
    update (cr_close my_fd);;
    emit (pg_actual (Some "bytes_before_reset") (cr_total s));;
    emit (pg_actual (Some "first_error_iter") (cr_first_iter s));;
    emit (pg_count (Some "write_errors") (cr_errors s));;
    emit (pg_logf ("wrote " +:+ fmt_d (cr_total s) +:+ " bytes before peer close; " +:+
                   fmt_d (cr_errors s) +:+ " write errors"));;
    (if (cr_first_errno s =? EPIPE)%Z then
       emit (pg_logf "EPIPE = peer's read side is gone. Without SIGPIPE-ignore,");;
       emit (pg_logf "this would have killed the process before write() returned.")
     else mret tt);;
    mret 0%Z
  end.

(** ** packet_loss *)

(** [0.30] and sixteen bytes. *)
(* @ src/scenarios/network/packet_loss.c:13-16 pl_run *)
Definition pl_knobs : chaos_net_knobs_t := NetKnobs (d_div (d_of_Z 30) (d_of_Z 100)) 0 0 16.

(* @ src/scenarios/network/packet_loss.c:23-23 pl_run *)
Definition N_MSGS : nat := 100.
(* @ src/scenarios/network/packet_loss.c:23-23 pl_run *)
Definition MSG : Z := 16.

(** The receive loop over what [poll] and [read] return; [None]: still waiting. *)
(* @ src/scenarios/network/packet_loss.c:40-46 pl_run *)
Fixpoint pl_recv (answers : list (Z * Z)) (received : Z) : option Z :=
  match answers with
  | [] => None
  | (pr, r) :: answers =>
      if (pr <=? 0)%Z then Some received
      else if (r <=? 0)%Z then Some received
      else pl_recv answers (received + r)
  end.

(** The send loop. *)
(* @ src/scenarios/network/packet_loss.c:30-33 pl_run *)
Fixpoint pl_send (n i : nat) (k_write : nat -> Z) (sent : Z) : Z :=
  match n with
  | O => sent
  | S n => let w := k_write i in pl_send n (S i) k_write (if (0 <? w)%Z then sent + w else sent)%Z
  end.

(* @ src/scenarios/network/packet_loss.c pl_run *)
Definition pl_run (seed : Z) (env : pair_env) (k_write : nat -> Z) (answers : list (Z * Z)) : prog net_world Z :=
  rc ← act (do_pair pl_knobs seed env);
  if (rc <? 0)%Z then emit (pg_sut_fault (Some "chaos_net_pair failed"));; mret 1%Z
  else
    emit (pg_phase (Some "sending 100 x 16-byte messages with 30% chunk loss"));;
    emit (pg_expect (Some "bytes_received") (Z.of_nat N_MSGS * MSG));;
    let sent := pl_send N_MSGS 0 k_write 0 in
    emit (pg_count (Some "bytes_sent") sent);;
    emit (pg_phase (Some "receiving (200ms idle timeout per read)"));;
    match pl_recv answers 0 with
    | None => hangs
    | Some received =>
        emit (pg_actual (Some "bytes_received") received);;
        emit (pg_logf ("lost " +:+ fmt_d (sent - received) +:+ " of " +:+ fmt_d sent +:+ " bytes (" +:+
                       (if (0 <? sent)%Z then percent (sent - received) sent else fmt_f 1 d_zero) +:+ "%)"));;
        emit (pg_logf "with TCP this NEVER happens — the kernel retransmits.");;
        emit (pg_logf "with UDP, this is exactly your day-to-day reality.");;
        update do_net_close;;
        mret 0%Z
    end.

(** ** partial_read *)

(* @ src/scenarios/network/partial_read.c:13-13 pr_run *)
Definition pr_knobs : chaos_net_knobs_t := NetKnobs d_zero 0 0 17.

(* @ src/scenarios/network/partial_read.c:20-20 TOTAL *)
Definition TOTAL : Z := 4096.

(** [while (total < TOTAL)] over what [poll] and [read] return. *)
(* @ src/scenarios/network/partial_read.c:34-43 pr_run *)
Fixpoint pr_recv (answers : list (Z * Z)) (calls total : Z) : prog net_world (Z * Z) :=
  if (total <? TOTAL)%Z then
    match answers with
    | [] => hangs
    | (pr, r) :: answers =>
        if (pr <=? 0)%Z then mret (calls, total)
        else if (r <=? 0)%Z then mret (calls, total)
        else
          let calls := (calls + 1)%Z in
          let total := (total + r)%Z in
          (if (calls <=? 10)%Z then
             emit (pg_logf ("  read() #" +:+ fmt_d calls +:+ " returned " +:+ fmt_d r +:+ "  (cum " +:+
                            fmt_d total +:+ ")"))
           else mret tt);;
          pr_recv answers calls total
    end
  else mret (calls, total).

(* @ src/scenarios/network/partial_read.c pr_run *)
Definition pr_run (seed : Z) (env : pair_env) (w : Z) (answers : list (Z * Z)) : prog net_world Z :=
  rc ← act (do_pair pr_knobs seed env);
  if (rc <? 0)%Z then
    emit (pg_sut_fault (Some "chaos_net_pair failed"));; mret 1%Z
  else
    emit (pg_phase (Some "sender writes 4096 bytes in ONE call"));;
    emit (pg_logf ("  write() returned " +:+ fmt_d w));;
    emit (pg_phase (Some "receiver loops on read(); naive code assumes one read suffices"));;
    emit (pg_expect (Some "read_calls") 1);;
    '(calls, total) ← pr_recv answers 0 0;
    (if (10 <? calls)%Z then emit (pg_logf ("  ... (suppressed; " +:+ fmt_d calls +:+ " calls total)"))
     else mret tt);;
    emit (pg_actual (Some "read_calls") calls);;
    emit (pg_logf ("needed " +:+ fmt_d calls +:+ " read() calls to receive " +:+ fmt_d total +:+ " bytes"));;
    emit (pg_logf "naive `read(fd, buf, 4096)` would return ~17 and silently truncate your message.");;
    update do_net_close;;
    mret 0%Z.

End Network.

(** ** Lemmas: connection_reset *)

Fixpoint sum_writes (k_write : nat -> Z * Z) (i n : nat) : Z :=
  match n with O => 0 | S n => (k_write i).1 + sum_writes k_write (S i) n end.

(** From [w] to [w'] the peer took some steps, emitting [L]. *)
Definition from_peer (L : list (Z * pg_event_t)) (w w' : cr_world) : Prop :=
  exists out, L = map (pair 0) (peer_records out) /\ cw_pending w = out ++ cw_pending w' /\
    cw_closed w' = cw_closed w ++ peer_closes out /\ cw_opened w' = cw_opened w.

Lemma from_peer_app L1 L2 w1 w2 w3 :
  from_peer L1 w1 w2 -> from_peer L2 w2 w3 -> from_peer (L1 ++ L2) w1 w3.
Proof.
  intros (o1 & -> & E1 & C1 & O1) (o2 & -> & E2 & C2 & O2). exists (o1 ++ o2).
  unfold peer_records, peer_closes. rewrite !omap_app, map_app, E1, E2, C2, C1, O2, O1, !app_assoc. done.
Qed.

Lemma from_peer_refl w : from_peer [] w w.
Proof. exists []. by rewrite app_nil_r. Qed.

Lemma peer_moves_from n w : exists L w', peer_moves n w = (L, FRet tt, w') /\ from_peer L w w'.
Proof.
  eexists _, _. split; [reflexivity|]. exists (take n (cw_pending w)).
  split_and!; [done|cbn; by rewrite take_drop|done|done].
Qed.

Section Reset.
Variable strerror : Z -> string.
Variable k_peer : nat -> nat.
Variable k_write : nat -> Z * Z.

Lemma cr_loop_ok n i total cw :
  (forall j, (i <= j < i + n)%nat -> 0 <= (k_write j).1) ->
  exists L cw', from_peer L cw cw' /\
    niter n (cr_body strerror k_peer k_write) (CrState i total 0 (-1) 0) cw
    = (L, FRet (inl (CrState (i + n) (total + sum_writes k_write i n) 0 (-1) 0)), cw').
Proof.
  revert i total cw. induction n as [|n IH]; intros i total cw H.
  - exists [], cw. rewrite Nat.add_0_r, Z.add_0_r. split; [apply from_peer_refl|done].
  - destruct (peer_moves_from (k_peer i) cw) as (L0 & cw0 & E0 & H0).
    destruct (IH (S i) (total + (k_write i).1) cw0) as (L & p & Hp & E).
    { intros j Hj. apply H. lia. }
    exists (L0 ++ L), p. split; [by eapply from_peer_app|].
    cbn [niter sum_writes]. pose proof (H i ltac:(lia)) as Hi.
    unfold bind at 1, cr_body at 1. destruct (k_write i) as [w errno]. cbn [fst] in *.
    unfold mbind, prog_bind, bind at 1. rewrite E0, (proj2 (Z.ltb_ge w 0)) by done. cbn. rewrite app_nil_r, E.
    by rewrite Nat.add_succ_r, Z.add_assoc.
Qed.

(** Rounds whose write fails with EPIPE, from the first. *)
Definition first_error (n : nat) : pg_event_t :=
  pg_logf ("first write error at iter " +:+ fmt_d (Z.of_nat n) +:+ ": errno=" +:+ fmt_d EPIPE +:+
           " (" +:+ strerror EPIPE +:+ ")").

Lemma cr_error_round i total errors fi fe cw :
  k_write i = (-1, EPIPE) -> 0 <= errors -> (errors = 0 -> fi = -1) -> (0 < errors -> 0 <= fi) ->
  let s' := CrState i total (errors + 1) (if fi <? 0 then Z.of_nat i else fi) (if fi <? 0 then EPIPE else fe) in
  exists L cw', from_peer L cw cw' /\
    cr_body strerror k_peer k_write (CrState i total errors fi fe) cw
    = (L ++ (if fi <? 0 then [(0, first_error i)] else []),
       FRet (if 3 <=? errors + 1 then inr s' else inl (CrState (S i) total (errors + 1)
              (if fi <? 0 then Z.of_nat i else fi) (if fi <? 0 then EPIPE else fe))), cw').
Proof.
  intros Hw He H0 H1. cbv zeta. destruct (peer_moves_from (k_peer i) cw) as (L & cw' & E & H).
  exists L, cw'. split; [done|]. unfold cr_body. rewrite Hw.
  unfold mbind, prog_bind, bind at 1. rewrite E. change (-1 <? 0) with true. cbv iota.
  destruct (Z.ltb_spec fi 0); cbn; destruct (3 <=? errors + 1); cbn; by rewrite ?app_nil_r.
Qed.

Lemma cr_loop_errors m n total cw :
  (forall i, (n <= i)%nat -> k_write i = (-1, EPIPE)) -> (0 < m)%nat ->
  exists L cw' s (stop : bool),
    niter m (cr_body strerror k_peer k_write) (CrState n total 0 (-1) 0) cw
    = (L, FRet (if stop then inr s else inl s), cw') /\
    (exists L1 L2, L = L1 ++ ((0, first_error n) :: L2) /\ from_peer (L1 ++ L2) cw cw') /\
    cr_total s = total /\ cr_errors s = Z.of_nat (Nat.min 3 m) /\
    cr_first_iter s = Z.of_nat n /\ cr_first_errno s = EPIPE.
Proof.
  intros Hw Hm. destruct m as [|m]; [lia|]. clear Hm. cbn [niter].
  assert (Hn : (Z.of_nat n <? 0) = false) by (apply Z.ltb_ge; lia).
  destruct (cr_error_round n total 0 (-1) 0 cw (Hw n ltac:(lia))) as (A & w1 & HA & EA); [lia..|].
  unfold bind at 1. rewrite EA. cbn [Z.leb Z.add Z.compare Z.ltb] in *.
  change (-1 <? 0) with true. change (3 <=? 0 + 1) with false. cbv iota.
  destruct m as [|m].
  { eexists _, _, _, false. split; [reflexivity|]. split; [|by split_and!].
    exists A, []. by rewrite !app_nil_r. }
  destruct (cr_error_round (S n) total (0 + 1) (Z.of_nat n) EPIPE w1 (Hw (S n) ltac:(lia))) as (B & w2 & HB & EB);
    [lia..|].
  cbn [niter]. unfold bind at 1. rewrite EB, Hn. change (3 <=? 0 + 1 + 1) with false. cbv iota.
  pose proof (from_peer_app _ _ _ _ _ HA HB) as HAB.
  destruct m as [|m].
  { eexists _, _, _, false. split; [reflexivity|]. split; [|by split_and!].
    exists A, B. by rewrite !app_nil_r, <- app_assoc. }
  destruct (cr_error_round (S (S n)) total (0 + 1 + 1) (Z.of_nat n) EPIPE w2 (Hw (S (S n)) ltac:(lia)))
    as (C & w3 & HC & EC); [lia..|].
  cbn [niter]. unfold bind at 1. rewrite EC, Hn. change (3 <=? 0 + 1 + 1 + 1) with true. cbv iota.
  eexists _, _, _, true. split; [reflexivity|]. split; [|split_and!; try done; cbn; lia].
  exists A, (B ++ C). split; [by rewrite !app_nil_r, <- !app_assoc|]. rewrite app_assoc. by eapply from_peer_app.
Qed.

End Reset.

Definition cr_report (total errors : Z) (n : nat) : list pg_event_t :=
  [pg_actual (Some "bytes_before_reset"%string) total;
   pg_actual (Some "first_error_iter"%string) (Z.of_nat n);
   pg_count (Some "write_errors"%string) errors;
   pg_logf ("wrote " +:+ fmt_d total +:+ " bytes before peer close; " +:+ fmt_d errors +:+ " write errors");
   pg_logf "EPIPE = peer's read side is gone. Without SIGPIPE-ignore,";
   pg_logf "this would have killed the process before write() returned."].

Lemma cr_run_lemma strerror my_fd peer_fd recv k_peer k_write n :
  (n < 1000)%nat ->
  (forall i, (i < n)%nat -> 0 <= (k_write i).1) ->
  (forall i, (n <= i)%nat -> k_write i = (-1, EPIPE)) ->
  exists L1 L2, cr_run strerror (Some (my_fd, peer_fd)) recv k_peer k_write cr_empty
    = ((map (pair 0) [pg_phase (Some "spawning peer; it will read once then close after 30 ms"%string);
                      pg_phase (Some "main thread writes 4KB chunks until something breaks"%string)] ++
        (L1 ++ (0, first_error strerror n) :: L2) ++
        map (pair 0) (cr_report (sum_writes k_write 0 n) (Z.of_nat (Nat.min 3 (1000 - n))) n)), FRet 0,
       CrWorld [] [my_fd; peer_fd] [peer_fd; my_fd]) /\
    L1 ++ L2 = map (pair 0) (peer_records (peer_fn peer_fd recv 30)).
Proof.
  intros Hn Hok Herr. set (cw := CrWorld (peer_fn peer_fd recv 30) [my_fd; peer_fd] []).
  destruct (cr_loop_ok strerror k_peer k_write n 0 0 cw) as (L & p1 & Hp1 & E1).
  { intros j Hj. apply Hok. lia. }
  destruct (cr_loop_errors strerror k_peer k_write (1000 - n) n (0 + sum_writes k_write 0 n) p1)
    as (L' & p2 & s & stop & E2 & (M1 & M2 & -> & Hp2) & Ht & He & Hi & Hno); [exact Herr|lia|].
  assert (E : niter 1000 (cr_body strerror k_peer k_write) (CrState 0 0 0 (-1) 0) cw
              = (L ++ M1 ++ (0, first_error strerror n) :: M2, FRet (if stop then inr s else inl s), p2)).
  { change 1000%nat with (Nat.add 0 1000). replace (0 + 1000)%nat with (n + (1000 - n))%nat by lia.
    rewrite niter_add. unfold bind. rewrite E1. cbn [resume]. rewrite Nat.add_0_l, E2. done. }
  destruct (peer_moves_from (length (cw_pending p2)) p2) as (L3 & p3 & E3 & Hp3).
  pose proof (from_peer_app _ _ _ _ _ (from_peer_app _ _ _ _ _ Hp1 Hp2) Hp3) as (out & Hout & Hpend & Hcl & Hop).
  assert (Hend : cw_pending p3 = []) by (unfold peer_moves in E3; injection E3 as _ <-; cbn; by rewrite drop_all).
  rewrite Hend, app_nil_r in Hpend. cbn [cw cw_pending cw_closed cw_opened] in Hpend, Hcl, Hop. subst out.
  exists (L ++ M1), (M2 ++ L3). split.
  - unfold cr_run. eapply run_silent; [reflexivity|]. cbn [map app]. apply run_emit.
    eapply run_silent; [reflexivity|]. apply run_emit.
    set (R := map (pair 0) (cr_report _ _ n)).
    assert (((L ++ M1) ++ (0, first_error strerror n) :: M2 ++ L3) ++ R
            = (L ++ M1 ++ (0, first_error strerror n) :: M2) ++ L3 ++ R) as ->
      by (rewrite <- !app_assoc; cbn [app]; by rewrite <- !app_assoc).
    eapply run_bind; [exact E|]. cbv zeta.
    assert (Es : (match (if stop then inr s else inl s) with inl s => s | inr s => s end) = s) by (by destruct stop).
    rewrite Es, Ht, He, Hi, Hno. change (EPIPE =? EPIPE) with true. cbv iota.
    eapply run_bind; [exact E3|]. eapply run_silent; [reflexivity|].
    subst R. unfold cr_report. cbn [map]. rewrite Z.add_0_l. prog_run.
    unfold cr_close. by rewrite Hend, Hcl, Hop.
  - by rewrite <- Hout, !app_assoc.
Qed.

(** ** Lemmas: packet_loss *)

(** The fate of [n] chunks: the draws of a lossy forwarder, kept or dropped. *)
Fixpoint fate (n : nat) (loss : spec_float) (r : pg_xosh_t) : list bool * pg_xosh_t :=
  match n with
  | O => ([], r)
  | S n =>
      let '(u, r) := rand_unit r in
      let '(l, r) := fate n loss r in (negb (SFltb u loss) :: l, r)
  end.

Definition survivors (n : nat) (loss : spec_float) (r : pg_xosh_t) : nat := count id (fate n loss r).1.

Lemma fate_add n m loss r :
  fate (n + m) loss r = let '(l, r) := fate n loss r in let '(l', r) := fate m loss r in (l ++ l', r).
Proof.
  revert r. induction n as [|n IH]; intros r; cbn [fate Nat.add].
  - by destruct (fate m loss r).
  - destruct (rand_unit r) as [u r1]. rewrite IH. destruct (fate n loss r1) as [l r2].
    by destruct (fate m loss r2).
Qed.

Lemma survivors_le n loss r : (survivors n loss r <= n)%nat.
Proof.
  unfold survivors. etransitivity; [apply count_le_length|].
  revert r. induction n as [|n IH]; intros r; cbn [fate]; [done|].
  destruct (rand_unit r) as [u r1]. specialize (IH r1). destruct (fate n loss r1). cbn in *. lia.
Qed.

(** The slices of [c] bytes whose verdict is to keep them, in order. *)
Fixpoint kept_slices (c : nat) (l : list bool) (bs : list Z) : list Z :=
  match l with
  | [] => []
  | keep :: l => (if keep then take c bs else []) ++ kept_slices c l (drop c bs)
  end.

Lemma kept_slices_app c l l' bs bs' :
  length bs = (length l * c)%nat -> kept_slices c (l ++ l') (bs ++ bs') = kept_slices c l bs ++ kept_slices c l' bs'.
Proof.
  revert bs. induction l as [|keep l IH]; intros bs Hb; cbn in *; [by destruct bs|].
  rewrite take_app_le, drop_app_le, IH, app_assoc by (rewrite ?length_drop; lia). done.
Qed.

Lemma length_kept_slices c l bs :
  length bs = (length l * c)%nat -> length (kept_slices c l bs) = (count id l * c)%nat.
Proof.
  revert bs. induction l as [|keep l IH]; intros bs Hb; cbn in *; [done|].
  rewrite length_app, IH by (rewrite length_drop; lia).
  destruct keep; cbn [id length]; rewrite ?length_take; lia.
Qed.

Lemma length_fate n loss r : length (fate n loss r).1 = n.
Proof.
  revert r. induction n as [|n IH]; intros r; cbn [fate]; [done|].
  destruct (rand_unit r) as [u r1]. specialize (IH r1). destruct (fate n loss r1). cbn in *. lia.
Qed.

Lemma length_survivors c n loss r bs :
  length bs = (n * c)%nat -> length (kept_slices c (fate n loss r).1 bs) = (survivors n loss r * c)%nat.
Proof. intros H. apply length_kept_slices. by rewrite length_fate. Qed.

(** A buffer of whole chunks: each is kept or dropped by its own draw. *)
Lemma forward_chunks_fate n fuel k (c : nat) rng buf ws :
  SFltb d_zero (loss_prob k) = true -> delay_max_ns k <= 0 -> (0 < c)%nat ->
  length buf = (n * c)%nat -> (length buf < fuel)%nat ->
  Forall (fun w => Z.of_nat c <= w) ws -> (n <= length ws)%nat ->
  exists acts ws', forward_chunks fuel k (Z.of_nat c) rng buf ws
      = (acts, (fate n (loss_prob k) rng).2, ws', FwdNext) /\
    delivered acts = kept_slices c (fate n (loss_prob k) rng).1 buf /\
    Forall (fun w => Z.of_nat c <= w) ws' /\ (length ws <= length ws' + n)%nat.
Proof.
  intros Hl Hd Hc. revert fuel rng buf ws. induction n as [|n IH]; intros fuel rng buf ws Hb Hf Hw Hn.
  - destruct buf; [|done]. destruct fuel; [cbn in Hf; lia|]. exists [], ws. split_and!; [done|done|done|lia].
  - destruct fuel as [|fuel]; [lia|]. cbn [forward_chunks]. destruct buf as [|b buf']; [cbn in Hb; lia|].
    set (buf := b :: buf') in *. cbv zeta. rewrite Hl. cbn [andb].
    assert (Ht : Z.to_nat (if Z.of_nat c <? Z.of_nat (length buf) then Z.of_nat c else Z.of_nat (length buf)) = c).
    { destruct (Z.ltb_spec (Z.of_nat c) (Z.of_nat (length buf))); nia. }
    rewrite Ht. cbn [fate]. destruct (rand_unit rng) as [u r1].
    assert (Hdrop : length (drop c buf) = (n * c)%nat) by (rewrite length_drop; lia).
    destruct (SFltb u (loss_prob k)) eqn:El.
    + destruct (IH fuel r1 (drop c buf) ws) as (acts & ws' & -> & Hk & Hw' & Hl'); [lia|rewrite length_drop; lia|done|lia|].
      destruct (fate n (loss_prob k) r1) as [l r2]. cbn [fst snd] in *.
      eexists _, ws'. split; [done|]. split_and!; [done|done|lia].
    + rewrite (proj2 (Z.ltb_ge 0 (delay_max_ns k))) by done.
      destruct ws as [|w ws]; [cbn in Hn; lia|]. apply Forall_cons in Hw as [Hwc Hw].
      rewrite (proj2 (Z.leb_gt w 0)) by lia. rewrite Nat.min_r by lia.
      destruct (IH fuel r1 (drop c buf) ws) as (acts & ws' & -> & Hk & Hw' & Hl');
        [lia|rewrite length_drop; lia|done|cbn in Hn; lia|].
      destruct (fate n (loss_prob k) r1) as [l r2]. cbn [fst snd] in *.
      eexists _, ws'. split; [done|]. cbn [app delivered kept_slices negb]. split_and!; [by rewrite Hk|done|cbn; lia].
Qed.

(** However the stream is cut into reads of whole chunks. *)
Lemma forward_fn_fate fd k (c : nat) rng ins ws n :
  SFltb d_zero (loss_prob k) = true -> delay_max_ns k <= 0 -> (0 < c)%nat -> max_chunk_bytes k = Z.of_nat c ->
  Forall (fun i => i.2 = k /\ exists m, length i.1 = (m * c)%nat) ins ->
  length (concat (map fst ins)) = (n * c)%nat ->
  Forall (fun w => Z.of_nat c <= w) ws -> (n <= length ws)%nat ->
  exists acts rng', forward_fn fd rng ins ws = (acts, rng', FwdNext) /\
    delivered acts = kept_slices c (fate n (loss_prob k) rng).1 (concat (map fst ins)).
Proof.
  intros Hl Hd Hc Hm. revert rng ws n. induction ins as [|[buf k'] ins IH]; intros rng ws n Hi Hn Hw Hlen.
  - cbn in Hn. assert (n = 0%nat) as -> by nia. by eexists _, _.
  - apply Forall_cons in Hi as [[Hk [m Hb]] Hi]. cbn [fst snd] in *. subst k'.
    cbn [map concat] in Hn. rewrite length_app in Hn. cbn [fst] in Hn.
    assert (Hmn : (m <= n)%nat) by nia.
    cbn [forward_fn]. assert (chunk_limit k (length buf) = Z.of_nat c) as ->.
    { unfold chunk_limit. rewrite Hm. destruct (Z.ltb_spec 0 (Z.of_nat c)); lia. }
    destruct (forward_chunks_fate m (S (length buf)) k c rng buf ws) as (acts & ws' & -> & Ha & Hw' & Hl');
      [done|done|done|done|lia|done|lia|].
    destruct (IH (fate m (loss_prob k) rng).2 ws' (n - m)%nat) as (more & rng' & -> & Hmore); [done|nia|done|lia|].
    eexists _, _. split; [done|]. rewrite delivered_app, Ha, Hmore. cbn [map concat fst].
    replace n with (m + (n - m))%nat at 2 by lia. rewrite fate_add.
    pose proof (length_fate m (loss_prob k) rng) as Hlf.
    destruct (fate m (loss_prob k) rng) as [l r]. cbn [fst snd] in *.
    destruct (fate (n - m) (loss_prob k) r) as [l' r']. cbn [fst snd].
    rewrite kept_slices_app; [done|congruence].
Qed.

Definition sum_Z (l : list Z) : Z := foldr Z.add 0 l.

Lemma pl_recv_all rs received t :
  Forall (fun r => 0 < r) rs ->
  pl_recv (map (pair 1) rs ++ [(0, t)]) received = Some (received + sum_Z rs).
Proof.
  intros H. revert received. induction H as [|r rs Hr _ IH]; intros received; cbn; [f_equal; lia|].
  rewrite (proj2 (Z.leb_gt r 0)) by done. rewrite IH. f_equal. unfold sum_Z. lia.
Qed.

Lemma pl_send_all n i k_write sent w :
  0 < w -> (forall j, k_write j = w) -> pl_send n i k_write sent = sent + Z.of_nat n * w.
Proof.
  intros Hw H. revert i sent. induction n as [|n IH]; intros i sent; cbn [pl_send]; [lia|].
  rewrite H, (proj2 (Z.ltb_lt 0 w)) by done. rewrite IH. lia.
Qed.

Definition pl_report (received : Z) : list pg_event_t :=
  [pg_phase (Some "sending 100 x 16-byte messages with 30% chunk loss"%string);
   pg_expect (Some "bytes_received"%string) 1600;
   pg_count (Some "bytes_sent"%string) 1600;
   pg_phase (Some "receiving (200ms idle timeout per read)"%string);
   pg_actual (Some "bytes_received"%string) received;
   pg_logf ("lost " +:+ fmt_d (1600 - received) +:+ " of " +:+ fmt_d 1600 +:+ " bytes (" +:+ percent (1600 - received) 1600 +:+ "%)");
   pg_logf "with TCP this NEVER happens — the kernel retransmits.";
   pg_logf "with UDP, this is exactly your day-to-day reality."].

(** The rng a fresh pair gives its A-to-B forwarder. *)
Definition rng_a_to_b (seed : Z) : pg_xosh_t := pg_xosh_seed (Z.lxor seed 0xA1A1A1A1A1A1A1A1).

Lemma chaos_net_pair_ok k seed sp10 sp11 sp20 sp21 :
  chaos_net_pair (Some k) seed (PairEnv (Some (sp10, sp11)) (Some (sp20, sp21)) true true true)
  = (0, Some (Pair sp10 sp21 (Some (PairInternal sp11 sp20 k (FwdArg sp11 sp20 (rng_a_to_b seed))
       (FwdArg sp20 sp11 (pg_xosh_seed (Z.lxor seed 0xB2B2B2B2B2B2B2B2)))))), []).
Proof. done. Qed.

(** ** Lemmas: partial_read *)

(** The sizes of the writes a forwarder makes. *)
Fixpoint sends (acts : list net_act) : list Z :=
  match acts with
  | [] => []
  | NSend bs :: acts => Z.of_nat (length bs) :: sends acts
  | _ :: acts => sends acts
  end.

Lemma sum_sends acts : sum_Z (sends acts) = Z.of_nat (length (delivered acts)).
Proof.
  induction acts as [|[] acts IH]; cbn; try done. rewrite length_app. unfold sum_Z in IH. lia.
Qed.

Lemma sends_ok l acts : Forall (piece_ok l) acts -> Forall (fun r => 0 < r <= l) (sends acts).
Proof. induction 1 as [|[] acts H _ IH]; cbn; [constructor|done|done| |done]. by constructor. Qed.

Lemma sum_Z_bounds l rs : Forall (fun r => 0 < r <= l) rs ->
  Z.of_nat (length rs) <= sum_Z rs <= l * Z.of_nat (length rs).
Proof. unfold sum_Z. induction 1 as [|r rs Hr _ IH]; cbn [foldr length]; [lia|nia]. Qed.

Lemma sum_Z_pos rs : Forall (fun r => 0 < r) rs -> 0 <= sum_Z rs.
Proof. unfold sum_Z. induction 1; cbn; lia. Qed.

Lemma limit_of_le m ins :
  0 < m -> Forall (fun i => max_chunk_bytes i.2 = m) ins -> limit_of ins <= m.
Proof.
  intros Hm. induction 1 as [|[buf k] ins H _ IH]; [cbn; lia|].
  change (limit_of ((buf, k) :: ins)) with (Z.max (chunk_limit k (length buf)) (limit_of ins)).
  cbn [snd] in H. unfold chunk_limit. rewrite H, (proj2 (Z.ltb_lt 0 m)) by done.
  lia.
Qed.

(** Reads that bring the rest: as many calls as reads, at most ten of them
    reported one by one. *)
Lemma pr_recv_all rs calls total w :
  Forall (fun r => 0 < r) rs -> total + sum_Z rs = TOTAL ->
  exists L, pr_recv (map (pair 1) rs) calls total w = (L, FRet (calls + Z.of_nat (length rs), TOTAL), w) /\
    (length L <= Z.to_nat (10 - calls))%nat.
Proof.
  revert calls total. induction rs as [|r rs IH]; intros calls total Hr Hs.
  - cbn in Hs. rewrite Z.add_0_r in Hs. subst total. exists []. cbn. rewrite Z.add_0_r. split; [done|lia].
  - apply Forall_cons in Hr as [Hr Hrs]. cbn [sum_Z foldr] in Hs. fold (sum_Z rs) in Hs.
    pose proof (sum_Z_pos rs Hrs). cbn [map pr_recv].
    rewrite (proj2 (Z.ltb_lt total TOTAL)) by lia. change (1 <=? 0) with false. cbv iota.
    rewrite (proj2 (Z.leb_gt r 0)) by done.
    destruct (IH (calls + 1) (total + r)) as (L & E & HL); [done|lia|].
    replace (calls + Z.of_nat (length (r :: rs))) with (calls + 1 + Z.of_nat (length rs)) by (cbn [length]; lia).
    destruct (Z.leb_spec (calls + 1) 10).
    + eexists (_ :: L). split; [apply run_emit; exact E|]. cbn [length]. lia.
    + exists L. split; [by eapply run_silent|]. lia.
Qed.

Definition pr_report (calls : Z) : list pg_event_t :=
  (if 10 <? calls then [pg_logf ("  ... (suppressed; " +:+ fmt_d calls +:+ " calls total)")] else []) ++
  [pg_actual (Some "read_calls"%string) calls;
   pg_logf ("needed " +:+ fmt_d calls +:+ " read() calls to receive " +:+ fmt_d 4096 +:+ " bytes");
   pg_logf "naive `read(fd, buf, 4096)` would return ~17 and silently truncate your message."].

(** The pair up, and closed again. *)
Definition net_up (k : chaos_net_knobs_t) (seed : Z) (env : pair_env) : net_world := (do_pair k seed env net_empty).2.
Definition net_down (k : chaos_net_knobs_t) (seed : Z) (env : pair_env) : net_world := do_net_close (net_up k seed env).

Lemma do_pair_step {B} k seed env (q : Z -> prog net_world B) R :
  0 <= (chaos_net_pair (Some k) seed env).1.1 ->
  (forall rc, 0 <= rc -> q rc (net_up k seed env) = R) ->
  (act (do_pair k seed env) ≫= q) net_empty = R.
Proof.
  intros Hp Hq. apply run_silent with (a := (do_pair k seed env net_empty).1) (w1 := net_up k seed env).
  - unfold act, net_up. by destruct (do_pair k seed env net_empty) as [rc n].
  - apply Hq. unfold do_pair. by destruct (chaos_net_pair _ _ _) as [[rc out] closed].
Qed.

Lemma pr_run_lemma seed env w rs :
  0 <= (chaos_net_pair (Some pr_knobs) seed env).1.1 ->
  Forall (fun r => 0 < r) rs -> sum_Z rs = TOTAL ->
  exists L, pr_run seed env w (map (pair 1) rs) net_empty
    = (L ++ map (pair 0) (pr_report (Z.of_nat (length rs))), FRet 0, net_down pr_knobs seed env) /\
    (length L <= 14)%nat.
Proof.
  intros Hp Hr Hs. destruct (pr_recv_all rs 0 0 (net_up pr_knobs seed env) Hr Hs) as (L & E & HL).
  eexists (_ :: _ :: _ :: _ :: L). cbn [app length]. split; [|lia].
  unfold pr_run. apply do_pair_step; [done|]. intros rc Hrc. rewrite (proj2 (Z.ltb_ge rc 0)) by done. prog_run.
  eapply run_bind; [exact E|]. cbv beta iota. unfold pr_report. rewrite Z.add_0_l.
  destruct (10 <? _); cbn [map app]; prog_run.
  - eapply run_silent; reflexivity.
  - eapply run_silent; [reflexivity|]. prog_run. eapply run_silent; reflexivity.
Qed.

(** ** Properties *)

(** C39: connection_reset reports the reset exactly: when the first [n] writes
    succeed (with whatever counts) and the peer is gone from the [n]-th on, the
    scenario returns 0, says once which iteration failed first, retries to at
    most three errors, and its final records carry the bytes accepted before the
    reset, that iteration, the number of errors and the EPIPE explanation; the
    peer thread's two records appear among the others, each once and in order,
    however the threads interleave; the peer's end is closed before ours, and
    nothing stays open. *)
Theorem connection_reset_reports strerror my_fd peer_fd recv k_peer k_write n :
  (n < 1000)%nat ->
  (forall i, (i < n)%nat -> 0 <= (k_write i).1) ->
  (forall i, (n <= i)%nat -> k_write i = (-1, EPIPE)) ->
  exists L L1 L2, cr_run strerror (Some (my_fd, peer_fd)) recv k_peer k_write cr_empty =
      (L ++ (L1 ++ (0, first_error strerror n) :: L2) ++
       map (pair 0) (cr_report (sum_writes k_write 0 n) (Z.of_nat (Nat.min 3 (1000 - n))) n), FRet 0,
       CrWorld [] [my_fd; peer_fd] [peer_fd; my_fd]) /\
    L1 ++ L2 = map (pair 0) (peer_records (peer_fn peer_fd recv 30)).
Proof.
  intros Hn Hok Herr.
  destruct (cr_run_lemma strerror my_fd peer_fd recv k_peer k_write n Hn Hok Herr) as (L1 & L2 & E & H).
  by eexists _, L1, L2.
Qed.

Lemma connection_reset_reports_witness :
  exists L L1 L2, cr_run (fun _ => "Broken pipe"%string) (Some (3, 4)) 4096 (fun i => i)
      (fun i => if (i <? 5)%nat then (4096, 0) else (-1, EPIPE)) cr_empty =
      (L ++ (L1 ++ (0, first_error (fun _ => "Broken pipe"%string) 5) :: L2) ++
       map (pair 0) (cr_report 20480 3 5), FRet 0, CrWorld [] [3; 4] [4; 3]) /\
    L1 ++ L2 = map (pair 0) (peer_records (peer_fn 4 4096 30)).
Proof.
  apply (connection_reset_reports _ 3 4 4096 (fun i => i)
    (fun i => if (i <? 5)%nat then (4096, 0) else (-1, EPIPE)) 5).
  - lia.
  - intros i Hi. rewrite (proj2 (Nat.ltb_lt i 5)) by done. done.
  - intros i Hi. rewrite (proj2 (Nat.ltb_ge i 5)) by done. done.
Defined.

(** C25: packet_loss is decided by the seed: when the sockets accept every write,
    then however the forwarder's reads cut the stream of 100 messages of 16 bytes
    (in whole messages) and however the receiver's reads cut what arrives, the
    bytes that arrive are exactly those of the messages whose draw from the seeded
    generator is at least 0.30, in order, the forwarder ends, and the scenario's
    records are a function of the seed alone: they report 16 bytes for each of
    those messages. *)
Theorem packet_loss_by_seed seed sp10 sp11 sp20 sp21 k_write ins ws rs t :
  let env := PairEnv (Some (sp10, sp11)) (Some (sp20, sp21)) true true true in
  let draws := (fate 100 (loss_prob pl_knobs) (rng_a_to_b seed)).1 in
  let kept := survivors 100 (loss_prob pl_knobs) (rng_a_to_b seed) in
  (forall i, k_write i = MSG) ->
  Forall (fun i => i.2 = pl_knobs /\ exists m, length i.1 = (m * 16)%nat) ins ->
  length (concat (map fst ins)) = 1600%nat ->
  Forall (fun w => 16 <= w) ws -> (100 <= length ws)%nat ->
  exists acts rng', forward_fn sp20 (rng_a_to_b seed) ins ws = (acts, rng', FwdNext) /\
    delivered acts = kept_slices 16 draws (concat (map fst ins)) /\
    length (delivered acts) = (kept * 16)%nat /\ (kept <= 100)%nat /\
    (Forall (fun r => 0 < r) rs -> sum_Z rs = Z.of_nat (length (delivered acts)) ->
     pl_run seed env k_write (map (pair 1) rs ++ [(0, t)]) net_empty
     = (map (pair 0) (pl_report (Z.of_nat kept * 16)), FRet 0, net_down pl_knobs seed env)).
Proof.
  intros env draws kept Hw Hi Hn Hws Hlen.
  destruct (forward_fn_fate sp20 pl_knobs 16 (rng_a_to_b seed) ins ws 100) as (acts & rng' & E & Hd);
    [reflexivity|done|lia|reflexivity|done|done|done|done|].
  exists acts, rng'. split; [exact E|]. split; [exact Hd|].
  assert (Hk : length (delivered acts) = (kept * 16)%nat) by (rewrite Hd; by apply length_survivors).
  split; [exact Hk|]. split; [apply survivors_le|].
  intros Hr Hs. unfold pl_run. apply do_pair_step; [done|]. intros rc Hrc.
  rewrite (proj2 (Z.ltb_ge rc 0)) by done. rewrite (pl_send_all N_MSGS 0 k_write 0 MSG ltac:(done) Hw).
  change (0 + Z.of_nat N_MSGS * MSG) with 1600. rewrite (pl_recv_all rs 0 t Hr), Hs, Hk.
  replace (0 + Z.of_nat (kept * 16)) with (Z.of_nat kept * 16) by lia.
  unfold pl_report. cbn [map]. prog_run. eapply run_silent; reflexivity.
Qed.

(** Seed 42: 66 of the 100 messages arrive. *)
Lemma packet_loss_by_seed_witness :
  let msgs := replicate 100 (replicate 16 88, pl_knobs) in
  exists acts rng', forward_fn 5 (rng_a_to_b 42) msgs (replicate 100 16) = (acts, rng', FwdNext) /\
    length (delivered acts) = 1056%nat.
Proof.
  intros msgs.
  destruct (packet_loss_by_seed 42 3 4 5 6 (fun _ => MSG) msgs (replicate 100 16) [] 0)
    as (acts & rng' & E & _ & Hd & _).
  - done.
  - apply Forall_replicate. split; [done|]. by exists 1%nat.
  - reflexivity.
  - by apply Forall_replicate.
  - by rewrite length_replicate.
  - exists acts, rng'. split; [exact E|]. rewrite Hd.
    assert (survivors 100 (loss_prob pl_knobs) (rng_a_to_b 42) = 66%nat) as -> by (vm_compute; reflexivity).
    reflexivity.
Defined.

(** C38: partial_read reassembles: when the forwarder (fragmenting to 17 bytes,
    with no loss) passes the 4096 bytes on and the receiver reads fragment by
    fragment, then for any seed, any cuts of the forwarder's reads and any
    partial writes, the loop takes one call per fragment, between 241 and 4096
    of them, has exactly 4096 bytes at the end, and reports that number of calls;
    at most ten reads are logged one by one. *)
Theorem partial_read_reassembles seed sp10 sp11 sp20 sp21 w ins ws :
  let env := PairEnv (Some (sp10, sp11)) (Some (sp20, sp21)) true true true in
  Forall (fun i => i.1 <> [] /\ i.2 = pr_knobs) ins ->
  length (concat (map fst ins)) = 4096%nat ->
  Forall (fun w => 0 < w) ws -> (4096 <= length ws)%nat ->
  exists acts rng', forward_fn sp20 (rng_a_to_b seed) ins ws = (acts, rng', FwdNext) /\
    delivered acts = concat (map fst ins) /\
    let calls := Z.of_nat (length (sends acts)) in
    241 <= calls <= 4096 /\
    exists L, pr_run seed env w (map (pair 1) (sends acts)) net_empty
      = (L ++ map (pair 0) (pr_report calls), FRet 0, net_down pr_knobs seed env) /\ (length L <= 14)%nat.
Proof.
  intros env Hi Hn Hw Hlen.
  assert (Hne : Forall (fun i => i.1 <> []) ins) by (eapply Forall_impl; [exact Hi|]; by intros ? []).
  destruct (forward_fn_done sp20 (rng_a_to_b seed) ins ws Hne Hw) as (acts & rng' & E); [lia|].
  destruct (forward_fn_spec _ _ _ _ _ _ _ Hne E) as (_ & (rest & Hrest & Hnil) & Hp & _ & Hdrop).
  rewrite Hnil, app_nil_r in Hrest by done.
  assert (Hd : delivered acts = concat (map fst ins)).
  { rewrite Hrest. apply delivered_no_drop, Hdrop. eapply Forall_impl; [exact Hi|]. by intros [] [_ ->]. }
  assert (Hb : Forall (fun r => 0 < r <= 17) (sends acts)).
  { apply sends_ok. eapply piece_mono_Forall; [|exact Hp]. apply limit_of_le; [lia|].
    eapply Forall_impl; [exact Hi|]. by intros [] [_ ->]. }
  pose proof (sum_sends acts) as Hsum. rewrite Hd, Hn in Hsum.
  pose proof (sum_Z_bounds 17 _ Hb) as Hc. rewrite Hsum in Hc.
  exists acts, rng'. split; [done|]. split; [done|]. split; [lia|].
  apply pr_run_lemma; [done| |done]. eapply Forall_impl; [exact Hb|]. cbn. lia.
Qed.

Lemma partial_read_reassembles_witness :
  exists acts rng', forward_fn 5 (rng_a_to_b 42) [(replicate 4096 65, pr_knobs)] (replicate 4096 17)
      = (acts, rng', FwdNext) /\ delivered acts = replicate 4096 65 ++ [].
Proof.
  destruct (partial_read_reassembles 42 3 4 5 6 4096 [(replicate 4096 65, pr_knobs)] (replicate 4096 17))
    as (acts & rng' & E & Hd & _).
  - constructor; [|constructor]. split; [|done]. by intros H%(f_equal length).
  - cbn [map fst concat]. by rewrite app_nil_r, length_replicate.
  - by apply Forall_replicate.
  - by rewrite length_replicate.
  - exists acts, rng'. split; [exact E|exact Hd].
Defined.
