(* ===== verification/ScenCompound.v ===== *)
(** * The compound scenarios (src/scenarios/compound/)

    cascading_failure and flaky_environment are programs over a world with real
    time: every call may take time of its own (an argument), a sleep takes at
    least what was asked.  thundering_herd and split_brain are step relations
    over all interleavings of their threads, whose final states the main
    thread's programs report. *)

From Stdlib Require Import SpecFloat.
From S2P Require Import Prelude CLib Rand Event Runner ChaosIo ChaosNet ChaosThread Prog ScenNetwork.

(** ** A world with real time *)

(** The descriptor table, the chaotic clock, [CLOCK_MONOTONIC] in nanoseconds,
    how many calls have been made, and the socket pair. *)
Record rt_world := RtWorld {
  rt_slots : list io_slot_t;
  rt_clock : chaos_clock;
  rt_now : Z;
  rt_calls : nat;
  rt_net : net_world
}.

Definition rt_init (seed now : Z) : rt_world :=
  RtWorld g_slots_init (chaos_clock_seed (clock_seed_of seed) clock_init) now 0 net_empty.

#[export] Instance rt_world_world : World rt_world := fun w => table (rt_slots w) = ∅ /\ released (rt_net w).

(** [CLOCK_MONOTONIC] as [clock_gettime] gives it. *)
Definition to_timespec (ns : Z) : Z * Z := (ns / 1000000000, ns mod 1000000000).

Section Compound.

(** The [i]-th call: the time it takes beyond what it is asked to sleep, and the
    answers of [mkstemp], [write] and of the calls whose result does not matter. *)
Variable k_took : nat -> Z.
Variable k_mkstemp : nat -> option (Z * string).
Variable k_write : nat -> Z -> Z.
Variable k_ret : nat -> Z.

(** A call that leaves the table as [g] after sleeping [slept]. *)
Definition called (slept : Z) (g : list io_slot_t) (w : rt_world) : rt_world :=
  RtWorld g (rt_clock w) (rt_now w + slept + k_took (rt_calls w)) (S (rt_calls w)) (rt_net w).

Definition rt_clock_now : prog rt_world Z := act (fun w =>
  let now := (rt_now w + k_took (rt_calls w))%Z in
  let '(t, c) := chaos_clock_now_ns (to_timespec now) (rt_clock w) in
  (t, RtWorld (rt_slots w) c now (S (rt_calls w)) (rt_net w))).

(** [nanosleep] for a [timespec]. *)
Definition rt_sleep (ts : Z * Z) : prog rt_world unit := act (fun w =>
  (tt, called (ts.1 * 1000000000 + ts.2) (rt_slots w) w)).

Definition rt_open : prog rt_world Z := act (fun w =>
  let '(o, g) := chaos_io_open (k_mkstemp (rt_calls w)) (rt_slots w) in
  (match o with OpenOk fd => fd | _ => -1 end, called 0 g w)).

Definition rt_write (fd n : Z) : prog rt_world Z := act (fun w =>
  let '(o, g) := chaos_io_write (k_write (rt_calls w)) fd n (rt_slots w) in
  (match o with WriteEnospc => -1 | WriteRet r => r end, called 0 g w)).

Definition rt_fsync (fd : Z) : prog rt_world Z := act (fun w =>
  let '(slept, r) := chaos_io_fsync (k_ret (rt_calls w)) fd (rt_slots w) in
  (r, called (match slept with Some ts => ts.1 * 1000000000 + ts.2 | None => 0 end) (rt_slots w) w)).

Definition rt_close (fd : Z) : prog rt_world Z := act (fun w =>
  let '(r, g) := chaos_io_close (k_ret (rt_calls w)) fd (rt_slots w) in (r, called 0 g w)).

Definition rt_table (f : list io_slot_t -> list io_slot_t) : prog rt_world unit :=
  update (fun w => RtWorld (f (rt_slots w)) (rt_clock w) (rt_now w) (rt_calls w) (rt_net w)).

Definition rt_jitter (max : Z) : prog rt_world unit :=
  update (fun w => RtWorld (rt_slots w) (chaos_clock_jitter_set max (rt_clock w)) (rt_now w) (rt_calls w) (rt_net w)).

(** Calls on the socket pair take time too; a [write] to it whose result is
    ignored does nothing else. *)
Definition net_called (n : net_world) (w : rt_world) : rt_world :=
  RtWorld (rt_slots w) (rt_clock w) (rt_now w + k_took (rt_calls w)) (S (rt_calls w)) n.

Definition rt_pair (k : chaos_net_knobs_t) (seed : Z) (env : pair_env) : prog rt_world Z := act (fun w =>
  let '(rc, n) := do_pair k seed env (rt_net w) in (rc, net_called n w)).
Definition rt_net_op (f : net_world -> net_world) : prog rt_world unit := update (fun w =>
  net_called (f (rt_net w)) w).
Definition rt_send : prog rt_world unit := rt_net_op id.

Open Scope string_scope.

(** ** cascading_failure *)

(* @ src/scenarios/compound/cascading_failure.c:19-19 CHUNKS *)
Definition CHUNKS : nat := 50.
(* @ src/scenarios/compound/cascading_failure.c:20-20 CHUNK_BYTES *)
Definition CHUNK_BYTES : Z := 256.
(* @ src/scenarios/compound/cascading_failure.c:21-21 FSYNC_MS *)
Definition FSYNC_MS : Z := 50.
(* @ src/scenarios/compound/cascading_failure.c:22-22 FSYNC_DELAY *)
Definition CF_FSYNC_DELAY : Z := FSYNC_MS * 1000000.

(* @ src/scenarios/compound/cascading_failure.c:25-32 receiver_state_t *)
Record receiver_state_t := Receiver { bytes_received : Z; bytes_persisted : Z; fsync_count : Z }.

(** [reads]: what each [read] of the socket returns. *)
(* @ src/scenarios/compound/cascading_failure.c receiver_fn *)
Fixpoint receiver_fn (io_fd : Z) (reads : list Z) (s : receiver_state_t) : prog rt_world receiver_state_t :=
  match reads with
  | [] => hangs
  | n :: reads =>
      if (n <=? 0)%Z then mret s
      else
        w ← rt_write io_fd n;
        rt_fsync io_fd;;
        receiver_fn io_fd reads
          (Receiver (bytes_received s + n)
                    (if 0 <? w then bytes_persisted s + w else bytes_persisted s)
                    (fsync_count s + 1))%Z
  end.

(** The send loop: the bytes accepted by [n] writes. *)
(* @ src/scenarios/compound/cascading_failure.c:79-83 run *)
Fixpoint send_all (n i : nat) (k_send : nat -> Z) (sent : Z) : Z :=
  match n with
  | O => sent
  | S n => let w := k_send i in send_all n (S i) k_send (if (0 <? w)%Z then sent + w else sent)%Z
  end.

(** [0.20] and 64 bytes. *)
(* @ src/scenarios/compound/cascading_failure.c:54-54 net_k *)
Definition cf_knobs : chaos_net_knobs_t := NetKnobs (d_div (d_of_Z 20) (d_of_Z 100)) 0 0 64.

(** The main thread's writes and the receiver overlap; neither touches what the
    other uses, so one after the other is every interleaving. *)
(* @ src/scenarios/compound/cascading_failure.c run *)
Definition cf_run (seed : Z) (env : pair_env) (k_send : nat -> Z) (reads : list Z) : prog rt_world Z :=
  rc ← rt_pair cf_knobs seed env;
  if (rc <? 0)%Z then
    emit (pg_sut_fault (Some "chaos_net_pair failed"));; mret 1%Z
  else
    io_fd ← rt_open;
    if (io_fd <? 0)%Z then
      emit (pg_sut_fault (Some "chaos_io_open failed"));;
      rt_net_op do_net_close;;
      mret 1%Z
    else
      rt_table (chaos_io_set_fsync_delay io_fd CF_FSYNC_DELAY);;
      emit (pg_phase (Some "sending through 20% loss → persisting with 50ms fsync"));;
      emit (pg_expect (Some "bytes_persisted") (Z.of_nat CHUNKS * CHUNK_BYTES));;
      t0 ← rt_clock_now;
      let bytes_sent := send_all CHUNKS 0 k_send 0 in
      rt_net_op do_close_a;;
      s ← receiver_fn io_fd reads (Receiver 0 0 0);
      t1 ← rt_clock_now;
      let dt := u64 (t1 - t0) in
      let ms := i64 (dt / 1000000) in
      emit (pg_count (Some "bytes_sent") bytes_sent);;
      emit (pg_count (Some "bytes_received") (bytes_received s));;
      emit (pg_actual (Some "bytes_persisted") (bytes_persisted s));;
      emit (pg_count (Some "fsync_count") (fsync_count s));;
      emit (pg_gauge (Some "elapsed_ms") ms);;
      let lost := (bytes_sent - bytes_received s)%Z in
      let expected := (Z.of_nat CHUNKS * CHUNK_BYTES)%Z in
      let lost_pct := (if 0 <? expected then Z.quot (100 * lost) expected else 0)%Z in
      emit (pg_logf ("sent=" +:+ fmt_d bytes_sent +:+ " received=" +:+ fmt_d (bytes_received s) +:+
                     " persisted=" +:+ fmt_d (bytes_persisted s) +:+ "  (lost " +:+ fmt_d lost +:+ " B = " +:+
                     fmt_d lost_pct +:+ "%)"));;
      emit (pg_logf ("elapsed=" +:+ fmt_d ms +:+ " ms across " +:+ fmt_d (fsync_count s) +:+ " fsyncs (≈ " +:+
                     fmt_d (if (fsync_count s =? 0)%Z then 0 else Z.quot ms (fsync_count s)) +:+ " ms/fsync)"));;
      rt_close io_fd;;
      rt_net_op do_net_close;;
      mret 0%Z.

(** ** flaky_environment *)

(* @ src/scenarios/compound/flaky_environment.c:19-19 TICKS *)
Definition TICKS : nat := 20.
(* @ src/scenarios/compound/flaky_environment.c:20-20 TARGET_MS *)
Definition TARGET_MS : Z := 100.
(* @ src/scenarios/compound/flaky_environment.c:21-21 NET_DELAY_MS *)
Definition NET_DELAY_MS : Z := 3.
(* @ src/scenarios/compound/flaky_environment.c:22-22 FSYNC_DELAY_MS *)
Definition FSYNC_DELAY_MS : Z := 15.
(* @ src/scenarios/compound/flaky_environment.c:23-23 JITTER_MS *)
Definition JITTER_MS : Z := 2.

(* @ src/scenarios/compound/flaky_environment.c:40-44 net_k *)
Definition fl_knobs : chaos_net_knobs_t :=
  NetKnobs d_zero (u64 (NET_DELAY_MS - 1) * 1000000) (u64 (NET_DELAY_MS + 2) * 1000000) 32.

(** What each [read] of the drain thread returns. *)
(* @ src/scenarios/compound/flaky_environment.c drain_fn *)
Fixpoint drain_fn (reads : list Z) : prog rt_world unit :=
  match reads with
  | [] => hangs
  | n :: reads => if (n <=? 0)%Z then mret tt else drain_fn reads
  end.

(** One round of the inner [for (;;)]: read the clock, leave or sleep for what
    remains. *)
(* @ src/scenarios/compound/flaky_environment.c:86-93 run *)
Definition wait_body (deadline : Z) (_ : unit) : prog rt_world (unit + unit) :=
  now ← rt_clock_now;
  if (deadline <=? now)%Z then mret (inr tt)
  else
    let remaining := u64 (deadline - now) in
    rt_sleep (remaining / 1000000000, remaining mod 1000000000)%Z;;
    mret (inl tt).

(** The variables of the tick loop. *)
(* @ src/scenarios/compound/flaky_environment.c:68-72 run *)
Record ticks := Ticks { tk_prev : Z; tk_min : Z; tk_max : Z; tk_sum : Z }.

(* @ src/scenarios/compound/flaky_environment.c:75-101 run *)
Definition tick_body (rounds : positive) (io_fd start : Z) (i : Z) (s : ticks) : prog rt_world ticks :=
  rt_send;;
  rt_write io_fd 64;;
  rt_fsync io_fd;;
  let deadline := u64 (start + i * TARGET_MS * 1000000) in
  loop_upto rounds (wait_body deadline) tt;;
  now ← rt_clock_now;
  let dt := i64 (u64 (now - tk_prev s) / 1000000) in
  mret (Ticks now (if dt <? tk_min s then dt else tk_min s) (if tk_max s <? dt then dt else tk_max s)
              (tk_sum s + dt))%Z.

(** [rounds] bounds the inner loop.  The drain thread changes nothing the main
    thread sees until the join, so its reads are run there. *)
(* @ src/scenarios/compound/flaky_environment.c run *)
Definition fl_run (rounds : positive) (seed : Z) (env : pair_env) (drained : list Z) : prog rt_world Z :=
  rc ← rt_pair fl_knobs seed env;
  if (rc <? 0)%Z then
    emit (pg_sut_fault (Some "chaos_net_pair failed"));; mret 1%Z
  else
    io_fd ← rt_open;
    if (io_fd <? 0)%Z then
      emit (pg_sut_fault (Some "chaos_io_open failed"));;
      rt_net_op do_net_close;;
      mret 1%Z
    else
      rt_table (chaos_io_set_fsync_delay io_fd (FSYNC_DELAY_MS * 1000000));;
      rt_jitter (JITTER_MS * 1000000);;
      emit (pg_phase (Some "20 'heartbeats' supposed to fire every 100ms"));;
      emit (pg_logf "each tick: net write (~3ms delay) + fsync (~15ms) + sleep to deadline");;
      emit (pg_expect (Some "max_tick_ms") TARGET_MS);;
      start ← rt_clock_now;
      s ← for_from 1 TICKS (tick_body rounds io_fd start) (Ticks start (Z.shiftl 1 62) 0 0);
      let mean := Z.quot (tk_sum s) (Z.of_nat TICKS) in
      emit (pg_actual (Some "max_tick_ms") (tk_max s));;
      emit (pg_gauge (Some "min_tick_ms") (tk_min s));;
      emit (pg_gauge (Some "max_tick_ms") (tk_max s));;
      emit (pg_gauge (Some "mean_tick_ms") mean);;
      emit (pg_logf ("target=" +:+ fmt_d TARGET_MS +:+ " ms  min=" +:+ fmt_d (tk_min s) +:+ "  mean=" +:+
                     fmt_d mean +:+ "  max=" +:+ fmt_d (tk_max s)));;
      emit (pg_logf "naive heartbeat code assumes jitter <= budget; in prod the outliers will timeout you.");;
      rt_jitter 0;;
      rt_close io_fd;;
      rt_net_op do_net_close;;
      drain_fn drained;;
      mret 0%Z.

(** ** thundering_herd: the main thread *)

(* @ src/scenarios/compound/thundering_herd.c:16-16 WORKERS *)
Definition WORKERS : nat := 8.
(* @ src/scenarios/compound/thundering_herd.c:17-17 ITERS *)
Definition ITERS : nat := 6.
(* @ src/scenarios/compound/thundering_herd.c:18-18 FSYNC_DELAY *)
Definition TH_FSYNC_DELAY : Z := 30 * 1000000.

(** The workers' writes of 64 bytes, in their order: what the kernel answers. *)
(* @ src/scenarios/compound/thundering_herd.c:49-49 worker_fn *)
Definition after_writes (fd : Z) (answers : list Z) (g : list io_slot_t) : list io_slot_t :=
  foldl (fun g w => (chaos_io_write (fun _ => w) fd 64 g).2) g answers.

(** [wall]: nanoseconds from the starting gun to the last join; the totals the
    workers left and the answers to their writes (Herd.v has the threads). *)
(* @ src/scenarios/compound/thundering_herd.c run *)
Definition th_run (wall total_wait total_work : Z) (answers : list Z) : prog rt_world Z :=
  io_fd ← rt_open;
  if (io_fd <? 0)%Z then emit (pg_sut_fault (Some "chaos_io_open failed"));; mret 1%Z
  else
    rt_table (chaos_io_set_fsync_delay io_fd TH_FSYNC_DELAY);;
    emit (pg_phase (Some "8 workers, 6 iterations each, all racing for one mutex"));;
    emit (pg_logf "critical section is a 30ms fsync — pure serial work");;
    let expected_ms := Z.quot (Z.of_nat WORKERS * Z.of_nat ITERS * TH_FSYNC_DELAY) 1000000 in
    emit (pg_expect (Some "wall_ms_approx") expected_ms);;
    rt_table (after_writes io_fd answers);;
    let wall_ms := i64 (u64 wall / 1000000) in
    let total_ops := (Z.of_nat WORKERS * Z.of_nat ITERS)%Z in
    let avg_wait_ms := Z.quot (Z.quot total_wait total_ops) 1000000 in
    let avg_work_ms := Z.quot (Z.quot total_work total_ops) 1000000 in
    emit (pg_actual (Some "wall_ms_approx") wall_ms);;
    emit (pg_gauge (Some "avg_wait_ms") avg_wait_ms);;
    emit (pg_gauge (Some "avg_work_ms") avg_work_ms);;
    emit (pg_count (Some "total_ops") total_ops);;
    emit (pg_logf ("wall=" +:+ fmt_d wall_ms +:+ " ms, avg wait=" +:+ fmt_d avg_wait_ms +:+ " ms, avg work=" +:+
                   fmt_d avg_work_ms +:+ " ms (fsync delay was " +:+
                   fmt_d (Z.quot TH_FSYNC_DELAY 1000000) +:+ " ms)"));;
    emit (pg_logf (fmt_d (Z.of_nat WORKERS) +:+ " workers × " +:+ fmt_d (Z.of_nat ITERS) +:+
                   " ops → 48 operations queued through one 30ms critical section."));;
    rt_close io_fd;;
    mret 0%Z.

End Compound.

Arguments after_writes : simpl never.

(** ** Lemmas: the world *)

Lemma to_timespec_real ns : real_ns (to_timespec ns) = ns.
Proof. unfold real_ns, to_timespec. cbn. zlia. Qed.

(** [fd] is tracked, without quota or partial writes, with this fsync delay. *)
Definition rt_tracks (fd delay : Z) (w : rt_world) : Prop :=
  table_wf (rt_slots w) /\ exists b, table (rt_slots w) !! fd = Some (Knobs 0 b 0 delay).

Lemma rt_open_step k_took k_mkstemp fd name delay :
  forall w : rt_world, rt_slots w = g_slots_init -> k_mkstemp (rt_calls w) = Some (fd, name) ->
  exists w1 w2, rt_open k_took k_mkstemp w = ([], FRet fd, w1) /\
    rt_table (chaos_io_set_fsync_delay fd delay) w1 = ([], FRet tt, w2) /\
    rt_tracks fd delay w2 /\ rt_clock w2 = rt_clock w /\ rt_calls w2 = S (rt_calls w) /\
    rt_now w2 = rt_now w + k_took (rt_calls w) /\ rt_net w2 = rt_net w.
Proof.
  intros w Hg0 Hm. unfold rt_open, act. rewrite Hm, Hg0.
  pose proof (open_sim fd name _ _ init_sim (lookup_empty fd)) as H.
  destruct (chaos_io_open (Some (fd, name)) g_slots_init) as [[f'| |c] g]; [|by destruct H|].
  - destruct H as (-> & _ & Hg).
    apply (io_sim_on_slot fd (set_fsync_delay delay) (fun k => Knobs (k_quota k) (k_written k) (k_partial k) delay)) in Hg as [Hg Hg']; [|done|done].
    eexists _, _. split; [reflexivity|]. split; [reflexivity|]. split; [|split_and!; [done|done|cbn; lia|done]].
    split; [exact Hg|]. exists 0. cbn [rt_slots called]. unfold chaos_io_set_fsync_delay. by rewrite Hg', lookup_alter_eq, lookup_insert_eq.
  - destruct H as ([= ->] & Hs & _). by rewrite map_size_empty in Hs.
Qed.

(** The pair comes up: the world the rest of [run] starts from. *)
Definition rt_up (k_took : nat -> Z) (k : chaos_net_knobs_t) (seed : Z) (env : pair_env) (now : Z) : rt_world :=
  net_called k_took (net_up k seed env) (rt_init seed now).

Lemma rt_pair_step {B} k_took k seed env now (q : Z -> prog rt_world B) R :
  0 <= (chaos_net_pair (Some k) seed env).1.1 ->
  (forall rc, 0 <= rc -> q rc (rt_up k_took k seed env now) = R) ->
  (rt_pair k_took k seed env ≫= q) (rt_init seed now) = R.
Proof.
  intros Hp Hq. apply run_silent with (a := (do_pair k seed env net_empty).1) (w1 := rt_up k_took k seed env now).
  - unfold rt_pair, act, rt_up, net_up. cbn [rt_init rt_net]. by destruct (do_pair k seed env net_empty) as [rc n].
  - apply Hq. unfold do_pair. by destruct (chaos_net_pair _ _ _) as [[rc out] closed].
Qed.

Section World.
Variable k_took : nat -> Z.
Variable k_write : nat -> Z -> Z.
Variable k_ret : nat -> Z.

Hypothesis took_pos : forall i, 0 <= k_took i.

Lemma rt_write_step fd n delay w :
  rt_tracks fd delay w ->
  exists w', rt_write k_took k_write fd n w = ([], FRet (k_write (rt_calls w) n), w') /\
    rt_tracks fd delay w' /\ rt_clock w' = rt_clock w /\ rt_calls w' = S (rt_calls w) /\
    rt_now w' = rt_now w + k_took (rt_calls w).
Proof.
  intros [Ht [b Hk]]. unfold rt_write, act, chaos_io_write. rewrite write_begin_spec, Hk.
  change (k_want (Knobs 0 b 0 delay) n) with (Some n). cbv iota zeta.
  set (r := k_write (rt_calls w) n).
  destruct (write_commit_sim fd r (rt_slots w) _ (conj Ht eq_refl)) as [H1 H2].
  eexists. split; [reflexivity|]. split; [|split_and!; [done|done|cbn; lia]].
  split; [exact H1|]. cbn [rt_slots called]. rewrite H2. destruct (0 <? r); [|by exists b].
  eexists. by rewrite lookup_alter_eq, Hk.
Qed.

Lemma rt_fsync_step fd delay w :
  rt_tracks fd delay w -> 0 <= delay ->
  exists w', rt_fsync k_took k_ret fd w = ([], FRet (k_ret (rt_calls w)), w') /\
    rt_tracks fd delay w' /\ rt_clock w' = rt_clock w /\ rt_calls w' = S (rt_calls w) /\
    rt_now w' = rt_now w + delay + k_took (rt_calls w).
Proof.
  intros [Ht [b Hk]] Hd. unfold rt_fsync, act, chaos_io_fsync.
  pose proof Hk as Hk'. rewrite table_lookup in Hk'.
  destruct (find_locked fd (rt_slots w)) as [i|]; [|done]. cbn in Hk'. injection Hk' as _ _ _ ->.
  eexists. split; [reflexivity|]. split; [by split; [|exists b]|]. split_and!; [done|done|].
  cbn [called rt_now]. destruct (Z.ltb_spec 0 delay); cbn [fst snd]; zlia.
Qed.

(** Reading the clock is silent; without jitter and skew it gives the time. *)
Lemma rt_clock_silent w :
  exists t w', rt_clock_now k_took w = ([], FRet t, w') /\ rt_slots w' = rt_slots w /\
    rt_now w' = rt_now w + k_took (rt_calls w) /\
    (g_clock_jitter_max_ns (rt_clock w) = 0 -> g_clock_skew_ns (rt_clock w) = 0 ->
     0 <= rt_now w -> rt_now w' <= 2 ^ 62 -> t = rt_now w' /\ rt_clock w' = rt_clock w).
Proof.
  unfold rt_clock_now, act.
  destruct (chaos_clock_now_ns (to_timespec (rt_now w + k_took (rt_calls w))) (rt_clock w)) as [t c] eqn:E.
  eexists _, _. split; [reflexivity|]. split_and!; [done|done|]. cbn [rt_now rt_clock]. intros Hj Hs H0 H1.
  pose proof (took_pos (rt_calls w)).
  rewrite clock_now_plain, to_timespec_real, Hs in E by (rewrite ?to_timespec_real, ?Hj, ?Hs; lia).
  injection E as <- <-. split; [lia|done].
Qed.

(** *** cascading_failure *)

Lemma receiver_all fd rs t s w :
  (forall i n, 0 < n -> k_write i n = n) -> Forall (fun n => 0 < n) rs -> t <= 0 ->
  rt_tracks fd CF_FSYNC_DELAY w ->
  exists w', receiver_fn k_took k_write k_ret fd (rs ++ [t]) s w
    = ([], FRet (Receiver (bytes_received s + foldr Z.add 0 rs) (bytes_persisted s + foldr Z.add 0 rs)
                   (fsync_count s + Z.of_nat (length rs))), w') /\
    rt_tracks fd CF_FSYNC_DELAY w' /\ rt_clock w' = rt_clock w /\
    rt_now w + Z.of_nat (length rs) * CF_FSYNC_DELAY <= rt_now w'.
Proof.
  intros Hw Hr Ht. revert s w. induction rs as [|n rs IH]; intros s w Htr; cbn [app receiver_fn].
  - rewrite (proj2 (Z.leb_le t 0)) by done. exists w. cbn. rewrite !Z.add_0_r. destruct s. split_and!; first [done|lia].
  - apply Forall_cons in Hr as [Hn Hr]. rewrite (proj2 (Z.leb_gt n 0)) by done.
    destruct (rt_write_step fd n _ w Htr) as (w1 & E1 & Ht1 & Hc1 & _ & Hn1).
    destruct (rt_fsync_step fd _ w1 Ht1 ltac:(unfold CF_FSYNC_DELAY, FSYNC_MS; lia))
      as (w2 & E2 & Ht2 & Hc2 & _ & Hn2).
    rewrite Hw in E1 by done.
    destruct (IH Hr (Receiver (bytes_received s + n) (bytes_persisted s + n) (fsync_count s + 1)) w2 Ht2)
      as (w3 & E3 & Ht3 & Hc3 & Hn3).
    exists w3. split.
    + eapply run_silent; [exact E1|]. eapply run_silent; [exact E2|].
      rewrite (proj2 (Z.ltb_lt 0 n)) by done. rewrite E3. cbn [bytes_received bytes_persisted fsync_count foldr length].
      rewrite <- !Z.add_assoc, Nat2Z.inj_succ, <- Z.add_1_l. reflexivity.
    + split_and!; [done|congruence|]. pose proof (took_pos (rt_calls w)). pose proof (took_pos (rt_calls w1)).
      unfold CF_FSYNC_DELAY, FSYNC_MS in *. cbn [length]. lia.
Qed.

End World.

Lemma send_all_sum n i k_send sent m :
  0 < m -> (forall j, k_send j = m) -> send_all n i k_send sent = sent + Z.of_nat n * m.
Proof.
  intros Hm H. revert i sent. induction n as [|n IH]; intros i sent; cbn [send_all]; [lia|].
  rewrite H, (proj2 (Z.ltb_lt 0 m)) by done. rewrite IH. lia.
Qed.

Lemma send_all_max n i k_send sent :
  (forall j, k_send j <= CHUNK_BYTES) -> sent <= send_all n i k_send sent <= sent + Z.of_nat n * CHUNK_BYTES.
Proof.
  intros H. revert i sent. induction n as [|n IH]; intros i sent; cbn [send_all]; [lia|].
  pose proof (H i). specialize (IH (S i) (if 0 <? k_send i then sent + k_send i else sent)).
  unfold CHUNK_BYTES in *. destruct (Z.ltb_spec 0 (k_send i)); lia.
Qed.

Open Scope string_scope.

Definition cf_report (sent received fsyncs ms : Z) : list pg_event_t :=
  [pg_phase (Some "sending through 20% loss → persisting with 50ms fsync");
   pg_expect (Some "bytes_persisted") 12800;
   pg_count (Some "bytes_sent") sent;
   pg_count (Some "bytes_received") received;
   pg_actual (Some "bytes_persisted") received;
   pg_count (Some "fsync_count") fsyncs;
   pg_gauge (Some "elapsed_ms") ms;
   pg_logf ("sent=" +:+ fmt_d sent +:+ " received=" +:+ fmt_d received +:+ " persisted=" +:+
            fmt_d received +:+ "  (lost " +:+ fmt_d (sent - received) +:+ " B = " +:+
            fmt_d (Z.quot (100 * (sent - received)) 12800) +:+ "%)");
   pg_logf ("elapsed=" +:+ fmt_d ms +:+ " ms across " +:+ fmt_d fsyncs +:+ " fsyncs (≈ " +:+
            fmt_d (if (fsyncs =? 0)%Z then 0 else Z.quot ms fsyncs) +:+ " ms/fsync)")].

Close Scope string_scope.

(** ** Properties: cascading_failure *)

(** C40: cascading_failure adds up and is bound by the fsyncs: with the sockets and
    the disk accepting what they are given, whatever the receiver's reads are,
    the bytes persisted are the bytes received, there is one fsync per read, and
    the elapsed milliseconds it reports are at least 50 for each of them, however
    fast everything else is (as long as the clock has not run for 2^62 ns). *)
Theorem cascade_bound_by_fsync k_took k_mkstemp k_write k_ret k_send seed env fd name now rs :
  (forall i, 0 <= k_took i) -> k_mkstemp 1%nat = Some (fd, name) -> 0 <= fd ->
  (forall i n, 0 < n -> k_write i n = n) -> (forall i, k_send i = CHUNK_BYTES) ->
  0 <= (chaos_net_pair (Some cf_knobs) seed env).1.1 ->
  Forall (fun n => 0 < n) rs -> 0 <= now ->
  exists w2 ms, cf_run k_took k_mkstemp k_write k_ret seed env k_send (rs ++ [0]) (rt_init seed now)
      = (map (pair 0) (cf_report 12800 (foldr Z.add 0 rs) (Z.of_nat (length rs)) ms), FRet 0, w2) /\
    (rt_now w2 <= 2 ^ 62 -> 50 * Z.of_nat (length rs) <= ms).
Proof.
  intros Ht Hm Hfd Hw Hs Hp Hr Hnow. set (wp := rt_up k_took cf_knobs seed env now).
  destruct (rt_open_step k_took k_mkstemp fd name CF_FSYNC_DELAY wp eq_refl Hm)
    as (w0 & w1 & E0 & E1 & Htr & Hc & Hcalls & Hn1 & _).
  destruct (rt_clock_silent k_took Ht w1) as (t0 & w2 & E2 & Hs2 & Hn2 & Ht0).
  set (wc := net_called k_took (do_close_a (rt_net w2)) w2).
  destruct (receiver_all k_took k_write k_ret Ht fd rs 0 (Receiver 0 0 0) wc) as (w3 & E3 & Htr3 & Hc3 & Hn3);
    [done|done|done|unfold rt_tracks; cbn [wc net_called rt_slots]; by rewrite Hs2|].
  destruct (rt_clock_silent k_took Ht w3) as (t1 & w4 & E4 & Hs4 & Hn4 & Ht1).
  eexists _, (i64 (u64 (t1 - t0) / 1000000)). split.
  - unfold cf_run. apply rt_pair_step; [done|]. intros rc Hrc. fold wp. rewrite (proj2 (Z.ltb_ge rc 0)) by done.
    eapply run_silent; [exact E0|]. rewrite (proj2 (Z.ltb_ge fd 0)) by done.
    eapply run_silent; [exact E1|]. unfold cf_report. cbn [map]. prog_run.
    eapply run_silent; [exact E2|]. rewrite (send_all_sum _ _ _ _ CHUNK_BYTES) by done.
    eapply run_silent; [reflexivity|]. fold wc.
    eapply run_silent; [exact E3|]. eapply run_silent; [exact E4|]. cbv beta zeta.
    cbn [bytes_received bytes_persisted fsync_count]. rewrite !Z.add_0_l. prog_run.
    eapply run_silent; [reflexivity|]. eapply run_silent; reflexivity.
  - cbn [rt_now called net_called rt_calls]. intros Hmax. pose proof (Ht (rt_calls w1)). pose proof (Ht (rt_calls w3)).
    pose proof (Ht (rt_calls w4)). pose proof (Ht (S (rt_calls w4))). pose proof (Ht 0%nat). pose proof (Ht (rt_calls w2)).
    pose proof (Ht (rt_calls wp)). assert (rt_now wp = now + k_took 0%nat) as Hwp by done.
    cbn [wc rt_now rt_clock net_called] in Hn3, Hc3.
    unfold CF_FSYNC_DELAY, FSYNC_MS in Hn3.
    destruct Ht0 as [-> Hc2]; [by rewrite Hc|by rewrite Hc|lia|lia|].
    destruct Ht1 as [-> _]; [by rewrite Hc3, Hc2, Hc|by rewrite Hc3, Hc2, Hc|lia|lia|].
    rewrite u64_small by (split; lia).
    assert (0 <= (rt_now w4 - rt_now w2) / 1000000 < 2 ^ 62) by (split; zlia).
    rewrite i64_small by (split; lia). zlia.
Qed.

Lemma cascade_bound_by_fsync_witness :
  exists w2 ms, cf_run (fun _ => 0) (fun _ => Some (7, "f"%string)) (fun _ n => n) (fun _ => 0) 42
      (PairEnv (Some (3, 4)) (Some (5, 6)) true true true) (fun _ => 256) ([4096; 192] ++ [0]) (rt_init 42 0)
      = (map (pair 0) (cf_report 12800 4288 2 ms), FRet 0, w2) /\
    (rt_now w2 <= 2 ^ 62 -> 100 <= ms).
Proof.
  apply (cascade_bound_by_fsync (fun _ => 0) (fun _ => Some (7, "f"%string)) (fun _ n => n) (fun _ => 0)
    (fun _ => 256) 42 (PairEnv (Some (3, 4)) (Some (5, 6)) true true true) 7 "f" 0 [4096; 192]); try done.
  - by repeat constructor.
Defined.

(** ** Lemmas: flaky_environment *)

(** Time taken by the first [n] calls beyond their sleeps. *)
Fixpoint spent (k_took : nat -> Z) (n : nat) : Z :=
  match n with O => 0 | S n => spent k_took n + k_took n end.

Definition J : Z := JITTER_MS * 1000000.

Section Flaky.
Variable k_took : nat -> Z.
Variable k_write : nat -> Z -> Z.
Variable k_ret : nat -> Z.

Hypothesis took_pos : forall i, 0 <= k_took i.
Hypothesis took_total : forall n, spent k_took n <= 2 ^ 60.

(** The clock jitters by less than [J] and has no skew; the sleeps so far end by
    [h]. *)
Record clk (h : Z) (w : rt_world) : Prop := {
  clk_jitter : g_clock_jitter_max_ns (rt_clock w) = J;
  clk_skew : g_clock_skew_ns (rt_clock w) = 0;
  clk_now : 0 <= rt_now w;
  clk_slept : rt_now w - spent k_took (rt_calls w) <= h
}.

Lemma spent_nonneg n : 0 <= spent k_took n.
Proof. induction n as [|n IH]; cbn; [lia|]. pose proof (took_pos n). lia. Qed.

Lemma clock_step h w :
  clk h w -> h <= 2 ^ 61 + 2 ^ 60 ->
  exists t w', rt_clock_now k_took w = ([], FRet t, w') /\
    clk h w' /\ rt_slots w' = rt_slots w /\
    rt_now w' = rt_now w + k_took (rt_calls w) /\ rt_now w' <= t < rt_now w' + J.
Proof.
  intros [Hj Hs Hn Hb] Hh. unfold rt_clock_now, act.
  pose proof (took_pos (rt_calls w)) as Ht. pose proof (took_total (S (rt_calls w))) as Hm. cbn [spent] in Hm.
  pose proof (clock_now_jitter (to_timespec (rt_now w + k_took (rt_calls w))) (rt_clock w)) as Hc.
  destruct (pg_xosh_next (g_clock_rng (rt_clock w))) as [x rng].
  rewrite to_timespec_real, Hj, Hs, Z.add_0_r in Hc. change J with 2000000 in *.
  pose proof (Z.mod_pos_bound x 2000000 ltac:(lia)).
  rewrite Hc by lia. eexists _, _. split; [reflexivity|]. split_and!; cbn; try done; [|lia..].
  split; cbn; try done; lia.
Qed.

Lemma wait_round deadline h w :
  clk h w -> deadline <= h -> h <= 2 ^ 61 + 2 ^ 60 ->
  exists (stop : bool) w', wait_body k_took deadline tt w = ([], FRet (if stop then inr tt else inl tt), w') /\
    clk h w' /\ rt_slots w' = rt_slots w /\ rt_now w <= rt_now w' /\ deadline - J <= rt_now w' /\
    (stop = false -> rt_now w < deadline /\ rt_now w < rt_now w').
Proof.
  intros Hc Hd Hh. destruct (clock_step h w Hc Hh) as (t & w1 & E & Hc1 & Hs & Hn & Ht).
  pose proof (took_pos (rt_calls w)). pose proof (took_pos (rt_calls w1)) as Ht1.
  unfold wait_body. destruct (Z.leb_spec deadline t) as [Hle|Hlt].
  - exists true, w1. split.
    { eapply run_silent; [exact E|]. by rewrite (proj2 (Z.leb_le deadline t)). }
    split_and!; [done|done|lia|lia|done].
  - exists false. eexists. split.
    { eapply run_silent; [exact E|]. rewrite (proj2 (Z.leb_gt deadline t)) by done.
      eapply run_silent; [reflexivity|reflexivity]. }
    destruct Hc1 as [C1 C2 C3 C4]. pose proof (took_total (rt_calls w1)). pose proof (spent_nonneg (rt_calls w1)).
    assert (Hr : u64 (deadline - t) = deadline - t) by (apply u64_small; split; lia).
    rewrite Hr. cbn [called rt_now rt_slots fst snd].
    assert (Hdm : (deadline - t) / 1000000000 * 1000000000 + (deadline - t) mod 1000000000 = deadline - t) by zlia.
    rewrite Hdm. split_and!; [|done|lia|lia|intros; lia].
    split; cbn [called rt_now rt_calls rt_clock spent]; [done|done|lia|lia].
Qed.

(** The wait ends; how soon depends on how far the deadline is. *)
Lemma wait_ends n deadline h w :
  clk h w -> deadline <= h -> h <= 2 ^ 61 + 2 ^ 60 -> deadline - rt_now w <= Z.of_nat n ->
  exists k w', niter k (wait_body k_took deadline) tt w = ([], FRet (inr tt), w') /\ (k <= S n)%nat /\
    clk h w' /\ rt_slots w' = rt_slots w /\ rt_now w <= rt_now w' /\ deadline - J <= rt_now w'.
Proof.
  revert w. induction n as [|n IH]; intros w Hc Hd Hh Hn;
    destruct (wait_round deadline h w Hc Hd Hh) as ([] & w1 & E & Hc1 & Hs1 & Hn1 & Hj & Hf).
  1,3: exists 1%nat, w1; split; [cbn [niter]; unfold bind; by rewrite E|]; split; [lia|done].
  - destruct Hf; [done|lia].
  - destruct Hf; [done|].
    destruct (IH w1 Hc1 Hd Hh ltac:(lia)) as (k & w2 & E2 & Hk & Hc2 & Hs2 & Hn2 & Hj2).
    exists (S k), w2. split; [cbn [niter]; unfold bind; by rewrite E, E2|].
    split; [lia|]. split_and!; [done|congruence|lia|done].
Qed.

(** At most one long sleep, then at most [J] rounds. *)
Lemma wait_bounded rounds deadline h w :
  J + 2 <= Zpos rounds ->
  clk h w -> deadline <= h -> h <= 2 ^ 61 + 2 ^ 60 ->
  exists w', loop_upto rounds (wait_body k_took deadline) tt w = ([], FRet tt, w') /\
    clk h w' /\ rt_slots w' = rt_slots w /\ rt_now w <= rt_now w' /\ deadline - J <= rt_now w'.
Proof.
  intros Hp Hc Hd Hh.
  destruct (wait_round deadline h w Hc Hd Hh) as (stop & w1 & E & Hc1 & Hs1 & Hn1 & Hj & Hf).
  assert (HJ : 0 < J) by reflexivity. remember J as j eqn:Hje.
  destruct stop.
  - exists w1. split; [|done]. apply (loop_upto_exit _ 1); [|lia]. cbn [niter]. unfold bind. by rewrite E.
  - destruct (wait_ends (Z.to_nat j) deadline h w1 Hc1 Hd Hh ltac:(lia)) as (k & w2 & E2 & Hk & Hc2 & Hs2 & Hn2 & Hj2).
    exists w2. split; [|split_and!; [done|congruence|lia|by rewrite Hje]].
    apply (loop_upto_exit _ (S k)); [|lia]. cbn [niter]. unfold bind. by rewrite E, E2.
Qed.

(** The drain thread ends at the first read that returns nothing. *)
Lemma drain_ends reads w : Exists (fun n => n <= 0) reads -> drain_fn reads w = ([], FRet tt, w).
Proof.
  induction 1 as [n reads Hn|n reads _ IH]; cbn [drain_fn]; [by rewrite (proj2 (Z.leb_le n 0))|].
  by destruct (n <=? 0).
Qed.

(** *** A tick *)

Definition H0 : Z := 2 ^ 61 + 2 ^ 40.

(** After [n] ticks from [start]: the world, what the last clock reading and the
    extremes can be. *)
Record after_ticks (fd start n : Z) (s : ticks) (w : rt_world) : Prop := {
  at_clk : clk (H0 + n * 15000000) w;
  at_tracks : rt_tracks fd (FSYNC_DELAY_MS * 1000000) w;
  at_prev : 0 <= tk_prev s < rt_now w + J;
  at_start : 0 <= start /\ start <= tk_prev s;
  at_none : n = 0 -> tk_min s = 2 ^ 62 /\ tk_max s = 0 /\ tk_sum s = 0 /\ tk_prev s = start;
  at_some : 0 < n -> 13 <= tk_min s <= tk_max s /\ n * tk_min s <= tk_sum s <= n * tk_max s /\
              start + n * 100000000 - J <= tk_prev s;
  at_sum : tk_prev s - start - n * 1000000 <= 1000000 * tk_sum s
}.

(** The extremes with one more tick. *)
Definition after_extremes (i mn mx sum dt : Z) : Prop :=
  let mn' := if dt <? mn then dt else mn in
  let mx' := if mx <? dt then dt else mx in
  13 <= mn' <= mx' /\ i * mn' <= sum + dt <= i * mx'.

Lemma extremes_step i mn mx sum dt :
  1 <= i -> 13 <= dt < 2 ^ 62 ->
  (i - 1 = 0 -> mn = 2 ^ 62 /\ mx = 0 /\ sum = 0) ->
  (0 < i - 1 -> 13 <= mn <= mx /\ (i - 1) * mn <= sum <= (i - 1) * mx) ->
  after_extremes i mn mx sum dt.
Proof.
  intros Hi Hd H0' H1. unfold after_extremes. destruct (Z.eq_dec i 1) as [->|Hne].
  - destruct H0' as (-> & -> & ->); [lia|]. destruct (Z.ltb_spec dt (2 ^ 62)), (Z.ltb_spec 0 dt); lia.
  - destruct H1 as [Hm Hs]; [lia|]. destruct (Z.ltb_spec dt mn), (Z.ltb_spec mx dt); nia.
Qed.

Lemma tick_step rounds fd start i s w :
  J + 2 <= Zpos rounds -> 1 <= i <= 20 -> start <= 2 ^ 61 + 2 ^ 30 ->
  after_ticks fd start (i - 1) s w ->
  exists s' w', tick_body k_took k_write k_ret rounds fd start i s w = ([], FRet s', w') /\
    after_ticks fd start i s' w'.
Proof.
  intros Hp Hi Hst [Hc Htr Hpv [Hs0 Hs1] Hn Hsm Hsum].
  set (w0 := net_called k_took (rt_net w) w).
  destruct (rt_write_step k_took k_write fd 64 _ w0 Htr) as (w1 & E1 & Ht1 & Hc1 & Hk1 & Hw1).
  cbn [w0 net_called rt_now rt_calls rt_clock] in Hc1, Hk1, Hw1.
  destruct (rt_fsync_step k_took k_write k_ret fd _ w1 Ht1 ltac:(unfold FSYNC_DELAY_MS; lia))
    as (w2 & E2 & Ht2 & Hc2 & Hk2 & Hw2).
  change (FSYNC_DELAY_MS * 1000000) with 15000000 in Hw2.
  pose proof (took_pos (rt_calls w)). pose proof (took_pos (S (rt_calls w))).
  pose proof (took_pos (rt_calls w1)). change J with 2000000 in *.
  assert (Hcw : clk (H0 + i * 15000000) w2).
  { destruct Hc as [C1 C2 C3 C4]. split; [congruence|congruence|lia|].
    rewrite Hk2, Hw2, Hk1, Hw1. cbn [spent]. rewrite Hk1 in *. lia. }
  assert (Hh : H0 + i * 15000000 <= 2 ^ 61 + 2 ^ 60) by (unfold H0; lia).
  assert (Hdl : u64 (start + i * TARGET_MS * 1000000) = start + i * 100000000).
  { unfold TARGET_MS. rewrite u64_small; lia. }
  destruct (wait_bounded rounds (start + i * 100000000) (H0 + i * 15000000) w2 Hp Hcw)
    as (w3 & E3 & Hc3 & Hs3 & Hn3 & Hd3); [unfold H0; lia|done|].
  destruct (clock_step _ w3 Hc3 Hh) as (t & w4 & E4 & Hc4 & Hs4 & Hn4 & Ht4).
  pose proof (took_pos (rt_calls w3)). pose proof (took_total (rt_calls w4)).
  pose proof (clk_slept _ _ Hc4). pose proof (clk_now _ _ Hc4). change J with 2000000 in *.
  assert (Hdt : i64 (u64 (t - tk_prev s) / 1000000) = (t - tk_prev s) / 1000000).
  { rewrite u64_small by lia. apply i64_small. split; zlia. }
  eexists _, w4. split.
  { unfold tick_body. eapply run_silent; [reflexivity|]. eapply run_silent; [exact E1|]. eapply run_silent; [exact E2|]. rewrite Hdl.
    eapply run_silent; [exact E3|]. eapply run_silent; [exact E4|]. cbv beta zeta. rewrite Hdt. reflexivity. }
  set (dt := (t - tk_prev s) / 1000000).
  assert (Hdtb : 13 <= dt < 2 ^ 62 /\ 1000000 * dt <= t - tk_prev s < 1000000 * dt + 1000000)
    by (subst dt; split; zlia). clearbody dt.
  assert (Hx : after_extremes i (tk_min s) (tk_max s) (tk_sum s) dt).
  { apply extremes_step; [lia|lia| |]; [intros Hi1; destruct (Hn Hi1) as (? & ? & ? & _); lia|].
    intros Hi1. destruct (Hsm Hi1) as (? & ? & _). lia. }
  destruct Hx as [Hx1 Hx2].
  split; cbn [tk_prev tk_min tk_max tk_sum]; [done| | | |lia| |lia].
  - destruct Ht2 as [Ha Hb]. split; rewrite Hs4, Hs3; done.
  - change J with 2000000. lia.
  - lia.
  - intros _. change J with 2000000. split; [done|]. split; [done|lia].
Qed.

End Flaky.

Open Scope string_scope.

Definition fl_report (mn mean mx : Z) : list pg_event_t :=
  [pg_phase (Some "20 'heartbeats' supposed to fire every 100ms");
   pg_logf "each tick: net write (~3ms delay) + fsync (~15ms) + sleep to deadline";
   pg_expect (Some "max_tick_ms") 100;
   pg_actual (Some "max_tick_ms") mx;
   pg_gauge (Some "min_tick_ms") mn;
   pg_gauge (Some "max_tick_ms") mx;
   pg_gauge (Some "mean_tick_ms") mean;
   pg_logf ("target=" +:+ fmt_d TARGET_MS +:+ " ms  min=" +:+ fmt_d mn +:+ "  mean=" +:+
            fmt_d mean +:+ "  max=" +:+ fmt_d mx);
   pg_logf "naive heartbeat code assumes jitter <= budget; in prod the outliers will timeout you."].

Close Scope string_scope.

(** ** Properties: flaky_environment *)

(** C26: the heartbeat loop terminates and its ticks make sense: on a clock that
    jitters by up to 2 ms, with every call taking any time (2^60 ns in all),
    each wait for a deadline ends after at most 2000002 rounds (one sleep, then
    at most one round per nanosecond of jitter), the scenario returns 0, no
    difference of readings wraps (each tick is at least 13 ms: the 15 ms fsync
    outweighs the jitter), and min <= mean <= max with a mean of at least 98
    ms. *)
Theorem flaky_heartbeats rounds k_took k_mkstemp k_write k_ret seed env fd name now drained :
  J + 2 <= Zpos rounds ->
  (forall i, 0 <= k_took i) -> (forall n, spent k_took n <= 2 ^ 60) -> 0 <= now <= 2 ^ 60 ->
  k_mkstemp 1%nat = Some (fd, name) -> 0 <= fd ->
  0 <= (chaos_net_pair (Some fl_knobs) seed env).1.1 ->
  Exists (fun n => n <= 0) drained ->
  exists mn mean mx w', fl_run k_took k_mkstemp k_write k_ret rounds seed env drained (rt_init seed now)
      = (map (pair 0) (fl_report mn mean mx), FRet 0, w') /\
    13 <= mn <= mean /\ 98 <= mean <= mx.
Proof.
  intros Hp Ht Hm Hnow Hmk Hfd Hpair Hdr. set (wp := rt_up k_took fl_knobs seed env now).
  destruct (rt_open_step k_took k_mkstemp fd name (FSYNC_DELAY_MS * 1000000) wp eq_refl Hmk)
    as (w0 & w1 & E0 & E1 & Htr & Hc & Hcalls & Hn1 & _).
  set (w2 := RtWorld (rt_slots w1) (chaos_clock_jitter_set J (rt_clock w1)) (rt_now w1) (rt_calls w1) (rt_net w1)).
  pose proof (Ht 0%nat). pose proof (Ht 1%nat). pose proof (Hm 1%nat) as Hm1. pose proof (Hm 2%nat) as Hm2.
  cbn [spent] in Hm1, Hm2.
  change (rt_now wp) with (now + k_took 0%nat) in Hn1. change (rt_calls wp) with 1%nat in Hn1, Hcalls.
  assert (Hc2 : clk k_took H0 w2).
  { split; cbn [w2 rt_clock rt_now rt_calls]; [done|by rewrite Hc|lia|].
    rewrite Hcalls, Hn1. cbn [spent]. unfold H0. lia. }
  destruct (clock_step k_took Ht Hm H0 w2 Hc2 ltac:(unfold H0; lia))
    as (start & w3 & E3 & Hc3 & Hs3 & Hn3 & Hst).
  pose proof (Hm (rt_calls w3)). pose proof (clk_slept _ _ _ Hc3). pose proof (clk_now _ _ _ Hc3).
  change (rt_now w2) with (rt_now w1) in Hn3. change (rt_calls w2) with (rt_calls w1) in Hn3.
  assert (Hst' : start <= 2 ^ 61 + 2 ^ 30).
  { change J with 2000000 in Hst. rewrite Hn3, Hn1, Hcalls in Hst. pose proof (Hm 3%nat) as Hm3.
    cbn [spent] in Hm3. lia. }
  destruct (for_from_inv (fun i => after_ticks k_took fd start (i - 1))
              (tick_body k_took k_write k_ret rounds fd start) TICKS 1 (Ticks start (2 ^ 62) 0 0) w3)
    as (s & w4 & E4 & Ha).
  { change (1 - 1) with 0. split; cbn [tk_prev tk_min tk_max tk_sum]; try lia.
    - rewrite Z.mul_0_l, Z.add_0_r. done.
    - unfold rt_tracks. by rewrite Hs3. }
  { intros i s w Hi Hs. replace (i + 1 - 1) with i by lia. unfold TICKS in Hi.
    apply (tick_step k_took k_write k_ret Ht Hm rounds fd start i s w); [done|lia|done|done]. }
  change (1 + Z.of_nat TICKS - 1) with 20 in Ha. destruct Ha as [_ _ _ _ _ Hsome Hsum].
  destruct Hsome as (Hmm & Hss & Hlast); [lia|]. change J with 2000000 in Hlast.
  exists (tk_min s), (Z.quot (tk_sum s) 20), (tk_max s). eexists. split.
  - unfold fl_run. apply rt_pair_step; [done|]. intros rc Hrc. fold wp. rewrite (proj2 (Z.ltb_ge rc 0)) by done.
    eapply run_silent; [exact E0|]. rewrite (proj2 (Z.ltb_ge fd 0)) by done.
    eapply run_silent; [exact E1|]. eapply run_silent; [reflexivity|].
    change (JITTER_MS * 1000000) with J. fold w2. unfold fl_report. cbn [map]. prog_run.
    eapply run_silent; [exact E3|]. eapply run_silent; [exact E4|]. cbv beta zeta.
    change (Z.of_nat TICKS) with 20. change TARGET_MS with 100. prog_run.
    eapply run_silent; [reflexivity|]. eapply run_silent; [reflexivity|]. eapply run_silent; [reflexivity|].
    eapply run_silent; [by apply drain_ends|reflexivity].
  - zlia.
Qed.

Lemma flaky_heartbeats_witness :
  exists mn mean mx w', fl_run (fun _ => 0) (fun _ => Some (7, "f"%string)) (fun _ n => n) (fun _ => 0) 2000002 42
      (PairEnv (Some (3, 4)) (Some (5, 6)) true true true) [20; 0] (rt_init 42 0)
      = (map (pair 0) (fl_report mn mean mx), FRet 0, w') /\
    13 <= mn <= mean /\ 98 <= mean <= mx.
Proof.
  assert (Hs : forall n, spent (fun _ => 0) n <= 2 ^ 60) by (induction n as [|n IH]; cbn [spent]; lia).
  apply (flaky_heartbeats 2000002 (fun _ => 0) (fun _ => Some (7, "f"%string)) (fun _ n => n) (fun _ => 0) 42
    (PairEnv (Some (3, 4)) (Some (5, 6)) true true true) 7 "f" 0 [20; 0]); [done|done|exact Hs|lia|done|lia|done|].
  by right; left.
Defined.
