(* ===== verification/ScenReplicas.v ===== *)
(** * The threads of thundering_herd and split_brain

    Step relations over all interleavings (src/scenarios/compound/
    thundering_herd.c and split_brain.c), with the main thread's report of the
    states they end in.  For thundering_herd the relation is the specification
    that Herd.v's threads implement. *)

From S2P Require Import Prelude CLib Event Runner ChaosIo ChaosNet Prog ScenNetwork ScenCompound.

(** ** thundering_herd: one mutex around a slow fsync *)

(** Where a worker is in its loop body: before the first clock reading, waiting
    for [mu], holding it, in the write and fsync since [t_acquired], after the
    third clock reading, after the unlock. *)
(* @ src/scenarios/compound/thundering_herd.c worker_fn *)
Inductive hpc :=
| HIdle
| HWaiting (t_before : Z)
| HLocked (t_before : Z)
| HFsync (t_before t_acquired : Z)
| HUnlock (t_before t_acquired t_done : Z)
| HAccount (t_before t_acquired t_done : Z).

(** Real time, the holder of [mu], the workers with the iterations they have
    finished, and the shared totals. *)
Record herd := Herd {
  hd_now : Z;
  hd_mu : option nat;
  hd_workers : list (nat * hpc);
  hd_wait : Z;
  hd_work : Z
}.

(** [k] iterations each, an fsync that takes at least [d]; the update of the
    totals under [tot_mu] is one step. *)
(* @ src/scenarios/compound/thundering_herd.c worker_fn *)
Inductive herd_step (k : nat) (d : Z) : herd -> herd -> Prop :=
| HerdTime now mu ws wt wk dt :
    0 <= dt -> herd_step k d (Herd now mu ws wt wk) (Herd (now + dt) mu ws wt wk)
| HerdBefore now mu ws wt wk t i :
    ws !! t = Some (i, HIdle) -> (i < k)%nat ->
    herd_step k d (Herd now mu ws wt wk) (Herd now mu (<[t := (i, HWaiting now)]> ws) wt wk)
| HerdLock now ws wt wk t i tb :
    ws !! t = Some (i, HWaiting tb) ->
    herd_step k d (Herd now None ws wt wk) (Herd now (Some t) (<[t := (i, HLocked tb)]> ws) wt wk)
| HerdAcquired now mu ws wt wk t i tb :
    ws !! t = Some (i, HLocked tb) ->
    herd_step k d (Herd now mu ws wt wk) (Herd now mu (<[t := (i, HFsync tb now)]> ws) wt wk)
| HerdFsynced now mu ws wt wk t i tb ta :
    ws !! t = Some (i, HFsync tb ta) -> ta + d <= now ->
    herd_step k d (Herd now mu ws wt wk) (Herd now mu (<[t := (i, HUnlock tb ta now)]> ws) wt wk)
| HerdUnlock now mu ws wt wk t i tb ta td :
    ws !! t = Some (i, HUnlock tb ta td) ->
    herd_step k d (Herd now mu ws wt wk) (Herd now None (<[t := (i, HAccount tb ta td)]> ws) wt wk)
| HerdAccount now mu ws wt wk t i tb ta td :
    ws !! t = Some (i, HAccount tb ta td) ->
    herd_step k d (Herd now mu ws wt wk)
      (Herd now mu (<[t := (S i, HIdle)]> ws) (wt + (ta - tb)) (wk + (td - ta))).

(** The starting gun at [t0]. *)
Definition herd_start (n : nat) (t0 : Z) : herd := Herd t0 None (replicate n (0%nat, HIdle)) 0 0.

Definition herd_over (k : nat) (s : herd) : Prop := Forall (fun w => w = (k, HIdle)) (hd_workers s).

(** Critical sections finished by a worker. *)
Definition sections (w : nat * hpc) : Z :=
  Z.of_nat w.1 + match w.2 with HUnlock _ _ _ | HAccount _ _ _ => 1 | _ => 0 end.

Definition in_section (p : hpc) : Prop :=
  match p with HLocked _ | HFsync _ _ | HUnlock _ _ _ => True | _ => False end.

Fixpoint sum_of {A} (f : A -> Z) (l : list A) : Z :=
  match l with [] => 0 | x :: l => f x + sum_of f l end.

Lemma sum_of_insert {A} (f : A -> Z) l t x y :
  l !! t = Some x -> sum_of f (<[t := y]> l) = sum_of f l - f x + f y.
Proof.
  revert t. induction l as [|z l IH]; intros [|t] H; cbn in H; try done.
  - injection H as ->. cbn. lia.
  - change (<[S t := y]> (z :: l)) with (z :: <[t := y]> l). cbn [sum_of]. rewrite (IH t H). lia.
Qed.

(** What the phases say about the times, [n] sections being finished. *)
Definition times_ok (d t0 now n : Z) (p : hpc) : Prop :=
  match p with
  | HIdle => True
  | HWaiting tb | HLocked tb => tb <= now
  | HFsync tb ta => tb <= ta <= now /\ t0 + d * n <= ta
  | HUnlock tb ta td | HAccount tb ta td => tb <= ta /\ ta + d <= td
  end.

Record herd_inv (k : nat) (d t0 : Z) (s : herd) : Prop := {
  hi_now : t0 + d * sum_of sections (hd_workers s) <= hd_now s;
  hi_mutex : forall t i p, hd_workers s !! t = Some (i, p) -> in_section p -> hd_mu s = Some t;
  hi_times : forall t i p, hd_workers s !! t = Some (i, p) ->
               times_ok d t0 (hd_now s) (sum_of sections (hd_workers s)) p;
  hi_work : d * sum_of (fun w => Z.of_nat w.1) (hd_workers s) <= hd_work s;
  hi_wait : 0 <= hd_wait s
}.

Lemma times_ok_mono d t0 now now' n p : now <= now' -> times_ok d t0 now n p -> times_ok d t0 now' n p.
Proof. destruct p; cbn; lia. Qed.

(** Replacing one worker. *)
Lemma lookup_insert_cases {A} (l : list A) t x t' y :
  <[t := x]> l !! t' = Some y -> (t' = t /\ y = x) \/ (t' <> t /\ l !! t' = Some y).
Proof.
  intros H. destruct (decide (t' = t)) as [->|Hne]; [left|right].
  - rewrite list_lookup_insert_eq in H; [by injection H|].
    apply lookup_lt_Some in H. by rewrite length_insert in H.
  - by rewrite list_lookup_insert_ne in H by done.
Qed.

(** A step of worker [t] that finishes no section. *)
Lemma herd_inv_worker k d t0 now mu mu' ws t i p p' wt wk :
  herd_inv k d t0 (Herd now mu ws wt wk) -> ws !! t = Some (i, p) ->
  sections (i, p') = sections (i, p) ->
  (in_section p' -> mu' = Some t) ->
  (forall t' i' q, t' <> t -> ws !! t' = Some (i', q) -> in_section q -> mu' = Some t') ->
  (t0 + d * sum_of sections ws <= now -> times_ok d t0 now (sum_of sections ws) p ->
   times_ok d t0 now (sum_of sections ws) p') ->
  herd_inv k d t0 (Herd now mu' (<[t := (i, p')]> ws) wt wk).
Proof.
  intros [Hn Hm Ht Hw Hwt] Hl Hs Hin Ho Hp. cbn [hd_now hd_mu hd_workers hd_wait hd_work] in *.
  assert (Es : sum_of sections (<[t := (i, p')]> ws) = sum_of sections ws)
    by (rewrite (sum_of_insert _ _ _ _ _ Hl), Hs; lia).
  split; cbn [hd_now hd_mu hd_workers hd_wait hd_work]; rewrite ?Es; [done| | | |done].
  - intros t' i' q [[-> [= -> ->]]|[Hne Hl']]%lookup_insert_cases Hq; [by apply Hin|by eapply Ho].
  - intros t' i' q [[-> [= -> ->]]|[Hne Hl']]%lookup_insert_cases; [apply Hp; [done|by eapply Ht]|by eapply Ht].
  - rewrite (sum_of_insert _ _ _ _ _ Hl). cbn [fst]. lia.
Qed.

Lemma herd_step_inv k d t0 s s' : 0 <= d -> herd_inv k d t0 s -> herd_step k d s s' -> herd_inv k d t0 s'.
Proof.
  intros Hd Hi Hs. pose proof (hi_mutex _ _ _ _ Hi) as Hm. destruct Hs; cbn [hd_mu hd_workers] in Hm.
  - destruct Hi as [Hn _ Ht Hw Hwt]. cbn in *. split; cbn; [lia|done| |done|done].
    intros t i p Hl. eapply times_ok_mono; [|by eapply Ht]. lia.
  - eapply herd_inv_worker; [exact Hi|exact H|done|done|by intros; eapply Hm|cbn; lia].
  - eapply herd_inv_worker; [exact Hi|exact H|done|done| |cbn; lia].
    intros t' i' q Hne Hl Hq. by specialize (Hm t' i' q Hl Hq).
  - eapply herd_inv_worker; [exact Hi|exact H|done| |by intros; eapply Hm|cbn; lia].
    intros _. by eapply Hm.
  - (* the fsync is over: one more section *)
    assert (Hmu : mu = Some t) by (by eapply Hm).
    destruct Hi as [Hn _ Ht Hw Hwt]. cbn [hd_now hd_mu hd_workers hd_wait hd_work] in *.
    pose proof (Ht t i _ H) as Hself. cbn in Hself.
    assert (Es : sum_of sections (<[t := (i, HUnlock tb ta now)]> ws) = sum_of sections ws + 1).
    { rewrite (sum_of_insert _ _ _ _ _ H). unfold sections. cbn. lia. }
    split; cbn [hd_now hd_mu hd_workers hd_wait hd_work]; rewrite ?Es; [lia| | | |done].
    + intros t' i' q [[-> [= -> ->]]|[Hne Hl']]%lookup_insert_cases Hq; [done|by eapply Hm].
    + intros t' i' q [[-> [= -> ->]]|[Hne Hl']]%lookup_insert_cases; [cbn; lia|].
      pose proof (Ht t' i' q Hl') as Hq. destruct q; cbn in *; try done.
      specialize (Hm t' i' _ Hl' I). congruence.
    + rewrite (sum_of_insert _ _ _ _ _ H). cbn [fst]. lia.
  - eapply herd_inv_worker; [exact Hi|exact H|done|done| |cbn; lia].
    intros t' i' q Hne Hl Hq. pose proof (Hm t i _ H I). pose proof (Hm t' i' q Hl Hq). congruence.
  - destruct Hi as [Hn _ Ht Hw Hwt]. cbn [hd_now hd_mu hd_workers hd_wait hd_work] in *.
    pose proof (Ht t i _ H) as Hself. cbn in Hself.
    assert (Es : sum_of sections (<[t := (S i, HIdle)]> ws) = sum_of sections ws).
    { rewrite (sum_of_insert _ _ _ _ _ H). unfold sections. cbn [fst snd]. lia. }
    split; cbn [hd_now hd_mu hd_workers hd_wait hd_work]; rewrite ?Es; [done| | | |lia].
    + intros t' i' q [[-> [= -> ->]]|[Hne Hl']]%lookup_insert_cases Hq; [done|by eapply Hm].
    + intros t' i' q [[-> [= -> ->]]|[Hne Hl']]%lookup_insert_cases; [done|by eapply Ht].
    + rewrite (sum_of_insert _ _ _ _ _ H). cbn [fst]. nia.
Qed.

Lemma sum_of_replicate {A} (f : A -> Z) n x : sum_of f (replicate n x) = Z.of_nat n * f x.
Proof. induction n as [|n IH]; cbn [replicate sum_of]; lia. Qed.

Lemma herd_start_inv k d n t0 : herd_inv k d t0 (herd_start n t0).
Proof.
  assert (Hl : forall t i p, replicate n (0%nat, HIdle) !! t = Some (i, p) -> p = HIdle).
  { intros t i p [[= _ ->] _]%lookup_replicate. done. }
  unfold herd_start. split; cbn [hd_now hd_mu hd_workers hd_wait hd_work].
  - rewrite sum_of_replicate. change (sections (0%nat, HIdle)) with 0. lia.
  - by intros t i p ->%Hl.
  - by intros t i p ->%Hl.
  - rewrite sum_of_replicate. cbn. lia.
  - done.
Qed.

Lemma herd_reach_inv k d t0 s s' :
  0 <= d -> herd_inv k d t0 s -> rtc (herd_step k d) s s' -> herd_inv k d t0 s'.
Proof.
  intros Hd Hi Hr. induction Hr as [|s1 s2 s3 H12 _ IH]; [done|]. apply IH. by eapply herd_step_inv.
Qed.

Lemma herd_step_length k d s s' : herd_step k d s s' -> length (hd_workers s') = length (hd_workers s).
Proof. intros []; cbn; by rewrite ?length_insert. Qed.

Lemma herd_reach_length k d s s' : rtc (herd_step k d) s s' -> length (hd_workers s') = length (hd_workers s).
Proof. induction 1 as [|s1 s2 s3 H _ IH]; [done|]. rewrite IH. by eapply herd_step_length. Qed.

Lemma sum_of_over {A} (f : A -> Z) ws x : Forall (fun w => w = x) ws -> sum_of f ws = Z.of_nat (length ws) * f x.
Proof. induction 1 as [|w ws -> _ IH]; cbn [sum_of length]; lia. Qed.

(** All workers finished: at least one fsync after the other. *)
Lemma herd_serialised k d n t0 s :
  0 <= d -> rtc (herd_step k d) (herd_start n t0) s -> herd_over k s ->
  Z.of_nat n * Z.of_nat k * d <= hd_now s - t0 /\ Z.of_nat n * Z.of_nat k * d <= hd_work s /\ 0 <= hd_wait s.
Proof.
  intros Hd Hr Ho. destruct (herd_reach_inv k d t0 _ _ Hd (herd_start_inv k d n t0) Hr) as [Hn _ _ Hw Hwt].
  pose proof (herd_reach_length _ _ _ _ Hr) as Hl. cbn in Hl. rewrite length_replicate in Hl.
  rewrite (sum_of_over _ _ _ Ho) in Hn. rewrite (sum_of_over _ _ _ Ho) in Hw. rewrite Hl in Hn, Hw.
  unfold sections in Hn. cbn [fst snd] in *. lia.
Qed.

Lemma herd_alone k d m now ws wt wk t i :
  0 <= d -> ws !! t = Some (i, HIdle) -> (i + m <= k)%nat ->
  rtc (herd_step k d) (Herd now None ws wt wk)
    (Herd (now + Z.of_nat m * d) None (<[t := ((i + m)%nat, HIdle)]> ws) wt (wk + Z.of_nat m * d)).
Proof.
  intros Hd. revert now ws wk i. induction m as [|m IH]; intros now ws wk i Hw Hk.
  - rewrite Nat.add_0_r, !Z.add_0_r, list_insert_id by done. apply rtc_refl.
  - pose proof (lookup_lt_Some _ _ _ Hw) as Hlt.
    eapply rtc_l; [apply HerdBefore; [exact Hw|lia]|].
    eapply rtc_l; [eapply HerdLock; by rewrite list_lookup_insert_eq|]. rewrite list_insert_insert_eq.
    eapply rtc_l; [eapply HerdAcquired; by rewrite list_lookup_insert_eq|]. rewrite list_insert_insert_eq.
    eapply rtc_l; [apply (HerdTime _ _ _ _ _ _ _ d Hd)|].
    eapply rtc_l; [eapply (HerdFsynced _ _ (now + d)); [by rewrite list_lookup_insert_eq|lia]|].
    rewrite list_insert_insert_eq.
    eapply rtc_l; [eapply HerdUnlock; by rewrite list_lookup_insert_eq|]. rewrite list_insert_insert_eq.
    eapply rtc_l; [eapply HerdAccount; by rewrite list_lookup_insert_eq|]. rewrite list_insert_insert_eq.
    specialize (IH (now + d) (<[t := (S i, HIdle)]> ws) (wk + (now + d - now)) (S i)).
    rewrite list_lookup_insert_eq, list_insert_insert_eq in IH by done.
    replace (now + Z.of_nat (S m) * d) with (now + d + Z.of_nat m * d) by lia.
    replace (wk + Z.of_nat (S m) * d) with (wk + (now + d - now) + Z.of_nat m * d) by lia.
    replace (wt + (now - now)) with wt by lia.
    replace (i + S m)%nat with (S i + m)%nat by lia. apply IH; [done|lia].
Qed.

Lemma herd_serial k d m now ws1 ws2 wt wk :
  0 <= d ->
  rtc (herd_step k d) (Herd now None (ws1 ++ replicate m (0%nat, HIdle) ++ ws2) wt wk)
    (Herd (now + Z.of_nat m * Z.of_nat k * d) None (ws1 ++ replicate m (k, HIdle) ++ ws2) wt
          (wk + Z.of_nat m * Z.of_nat k * d)).
Proof.
  intros Hd. revert now ws1 wk. induction m as [|m IH]; intros now ws1 wk; cbn [replicate app].
  - rewrite !Z.mul_0_l, !Z.add_0_r. apply rtc_refl.
  - etransitivity.
    + apply (herd_alone k d k now _ wt wk (length ws1) 0 Hd); [by rewrite lookup_app_r, Nat.sub_diag by lia|lia].
    + rewrite insert_app_r_alt, Nat.sub_diag by lia. cbn [insert list_insert Nat.add].
      rewrite !(cons_middle _ ws1), !(app_assoc ws1).
      replace (now + Z.of_nat (S m) * Z.of_nat k * d) with (now + Z.of_nat k * d + Z.of_nat m * Z.of_nat k * d) by lia.
      replace (wk + Z.of_nat (S m) * Z.of_nat k * d) with (wk + Z.of_nat k * d + Z.of_nat m * Z.of_nat k * d) by lia.
      apply IH.
Qed.

Open Scope string_scope.

Definition th_report (wall_ms avg_wait avg_work : Z) : list pg_event_t :=
  [pg_phase (Some "8 workers, 6 iterations each, all racing for one mutex");
   pg_logf "critical section is a 30ms fsync — pure serial work";
   pg_expect (Some "wall_ms_approx") 1440;
   pg_actual (Some "wall_ms_approx") wall_ms;
   pg_gauge (Some "avg_wait_ms") avg_wait;
   pg_gauge (Some "avg_work_ms") avg_work;
   pg_count (Some "total_ops") 48;
   pg_logf ("wall=" +:+ fmt_d wall_ms +:+ " ms, avg wait=" +:+ fmt_d avg_wait +:+ " ms, avg work=" +:+
            fmt_d avg_work +:+ " ms (fsync delay was " +:+ fmt_d (Z.quot TH_FSYNC_DELAY 1000000) +:+ " ms)");
   pg_logf (fmt_d (Z.of_nat WORKERS) +:+ " workers × " +:+ fmt_d (Z.of_nat ITERS) +:+
            " ops → 48 operations queued through one 30ms critical section.")].

Close Scope string_scope.

(** The table the workers start from: one file, its fsync slow. *)
(* @ src/scenarios/compound/thundering_herd.c:66-68 run *)
Definition herd_files (fd : Z) (name : string) : list io_slot_t :=
  chaos_io_set_fsync_delay fd TH_FSYNC_DELAY (chaos_io_open (Some (fd, name)) g_slots_init).2.

Lemma herd_opens fd name :
  exists g, chaos_io_open (Some (fd, name)) g_slots_init = (OpenOk fd, g) /\
    table_wf (herd_files fd name) /\ table (herd_files fd name) !! fd = Some (Knobs 0 0 0 TH_FSYNC_DELAY).
Proof.
  unfold herd_files. pose proof (open_sim fd name _ _ init_sim (lookup_empty fd)) as H.
  destruct (chaos_io_open (Some (fd, name)) g_slots_init) as [[f'| |c] g]; [|by destruct H|].
  - destruct H as (-> & _ & Hg). exists g. split; [done|].
    apply (io_sim_on_slot fd (set_fsync_delay TH_FSYNC_DELAY)
             (fun k => Knobs (k_quota k) (k_written k) (k_partial k) TH_FSYNC_DELAY)) in Hg as [Hg Hg']; [|done|done].
    split; [exact Hg|]. unfold chaos_io_set_fsync_delay. cbn [snd]. by rewrite Hg', lookup_alter_eq, lookup_insert_eq.
  - destruct H as ([= ->] & Hs & _). by rewrite map_size_empty in Hs.
Qed.

Lemma th_run_report k_took k_mkstemp k_ret fd name seed now wall wt wk answers :
  k_mkstemp 0%nat = Some (fd, name) -> 0 <= fd -> 0 <= wall < 2 ^ 62 ->
  exists w', th_run k_took k_mkstemp k_ret wall wt wk answers (rt_init seed now)
    = (map (pair 0) (th_report (wall / 1000000) (Z.quot (Z.quot wt 48) 1000000) (Z.quot (Z.quot wk 48) 1000000)),
       FRet 0, w') /\
    rt_slots w' = on_slot fd set_unused (after_writes fd answers (herd_files fd name)).
Proof.
  intros Hm Hfd Hw. destruct (herd_opens fd name) as (g & Eg & _).
  assert (E0 : rt_open k_took k_mkstemp (rt_init seed now) = ([], FRet fd, called k_took 0 g (rt_init seed now))).
  { unfold rt_open, act. cbn [rt_init rt_calls rt_slots]. by rewrite Hm, Eg. }
  eexists. split.
  - unfold th_run, th_report. cbn [map].
    eapply run_silent; [exact E0|]. rewrite (proj2 (Z.ltb_ge fd 0)) by done.
    eapply run_silent; [reflexivity|]. prog_run. cbv zeta. prog_run.
    eapply run_silent; [reflexivity|].
    assert (i64 (u64 wall / 1000000) = wall / 1000000) as ->.
    { rewrite u64_small by lia. apply i64_small. split; zlia. }
    change (Z.of_nat WORKERS * Z.of_nat ITERS) with 48. prog_run. reflexivity.
  - cbn [rt_slots called]. unfold herd_files. by rewrite Eg.
Qed.

(** ** split_brain: two replicas over one chaotic pair *)

(** The user sides of the pair; bytes written at one are read at the other. *)
Inductive side := SideA | SideB.

#[export] Instance side_eq_dec : EqDecision side.
Proof. solve_decision. Defined.

(** A replica about to publish, or draining what it hears. *)
Inductive rpc := RPublish | RDrain.

#[export] Instance rpc_eq_dec : EqDecision rpc.
Proof. solve_decision. Defined.

(* @ src/scenarios/compound/split_brain.c:27-37 replica_t *)
Record replica_t := Replica {
  rp_send : side;                 (* send_fd *)
  rp_recv : side;                 (* recv_fd *)
  local_count : Z;
  last_peer_count : Z;
  last_heard_ns : Z;
  rp_iter : nat;                  (* i, and where in the loop body *)
  rp_pc : rpc
}.

(* @ src/scenarios/compound/split_brain.c:22-22 ITERS *)
Definition SB_ITERS : nat := 30.

(** One direction of the pair, in 8-byte messages (the replicas write, the
    forwarder cuts, and the replicas read exactly 8 bytes): written and not yet
    read by the forwarder; read by it, with the loss it saw; delivered. *)
Record link := Link { lk_written : list Z; lk_buffer : list Z; lk_lossy : bool; lk_ready : list Z }.

(** [sb_healed]: which knobs are in force. *)
Record brain := Brain { sb_healed : bool; sb_r1 : replica_t; sb_r2 : replica_t; sb_ab : link; sb_ba : link }.

Definition empty_link : link := Link [] [] true [].

(** The link a side writes into, and the one it reads from. *)
Definition out_of (b : brain) (s : side) : link := match s with SideA => sb_ab b | SideB => sb_ba b end.
Definition into (b : brain) (s : side) : link := match s with SideA => sb_ba b | SideB => sb_ab b end.
Definition set_out (s : side) (l : link) (b : brain) : brain :=
  match s with
  | SideA => Brain (sb_healed b) (sb_r1 b) (sb_r2 b) l (sb_ba b)
  | SideB => Brain (sb_healed b) (sb_r1 b) (sb_r2 b) (sb_ab b) l
  end.
Definition set_into (s : side) (l : link) (b : brain) : brain :=
  match s with SideA => set_out SideB l b | SideB => set_out SideA l b end.

Definition get_replica (first : bool) (b : brain) : replica_t := if first then sb_r1 b else sb_r2 b.
Definition set_replica (first : bool) (r : replica_t) (b : brain) : brain :=
  if first then Brain (sb_healed b) r (sb_r2 b) (sb_ab b) (sb_ba b)
  else Brain (sb_healed b) (sb_r1 b) r (sb_ab b) (sb_ba b).

(** What can happen next. *)
Inductive sb_choice :=
| SbPublish (first accepted : bool)     (* the write may find the socket full *)
| SbDrain (first : bool) (now : Z)      (* one read, and the clock if it succeeds *)
| SbForward (from : side) (n : nat)     (* the forwarder reads n messages *)
| SbChunk (from : side)                 (* and handles the next one *)
| SbHeal.

(** [None] when the choice is not possible. *)
(* @ src/scenarios/compound/split_brain.c replica_fn *)
Definition sb_do (c : sb_choice) (b : brain) : option brain :=
  match c with
  | SbPublish first accepted =>
      let r := get_replica first b in
      if bool_decide (rp_pc r = RPublish) && (rp_iter r <? SB_ITERS)%nat then
        let local := local_count r + 1 in
        let b := set_replica first (Replica (rp_send r) (rp_recv r) local (last_peer_count r)
                                            (last_heard_ns r) (rp_iter r) RDrain) b in
        if accepted then
          let l := out_of b (rp_send r) in
          Some (set_out (rp_send r) (Link (lk_written l ++ [local]) (lk_buffer l) (lk_lossy l) (lk_ready l)) b)
        else Some b
      else None
  | SbDrain first now =>
      let r := get_replica first b in
      if bool_decide (rp_pc r = RDrain) then
        let l := into b (rp_recv r) in
        match lk_ready l with
        | peer :: ready =>
            Some (set_into (rp_recv r) (Link (lk_written l) (lk_buffer l) (lk_lossy l) ready)
                   (set_replica first (Replica (rp_send r) (rp_recv r) (local_count r) peer now
                                               (rp_iter r) RDrain) b))
        | [] => Some (set_replica first (Replica (rp_send r) (rp_recv r) (local_count r) (last_peer_count r)
                                                 (last_heard_ns r) (S (rp_iter r)) RPublish) b)
        end
      else None
  | SbForward from n =>
      let l := out_of b from in
      match lk_buffer l, (0 <? n)%nat && (n <=? length (lk_written l))%nat with
      | [], true => Some (set_out from (Link (drop n (lk_written l)) (take n (lk_written l))
                                             (negb (sb_healed b)) (lk_ready l)) b)
      | _, _ => None
      end
  | SbChunk from =>
      let l := out_of b from in
      match lk_buffer l with
      | m :: buf => Some (set_out from (Link (lk_written l) buf (lk_lossy l)
                            (if lk_lossy l then lk_ready l else lk_ready l ++ [m])) b)
      | [] => None
      end
  | SbHeal => Some (Brain true (sb_r1 b) (sb_r2 b) (sb_ab b) (sb_ba b))
  end.

Definition sb_step (b b' : brain) : Prop := exists c, sb_do c b = Some b'.

Fixpoint sb_steps (cs : list sb_choice) (b : brain) : option brain :=
  match cs with [] => Some b | c :: cs => b ← sb_do c b; sb_steps cs b end.

(* @ src/scenarios/compound/split_brain.c:90-91 run *)
Definition replica_init (send recv : side) (count : Z) : replica_t := Replica send recv count 0 0 0 RPublish.

(** [r1] and [r2] as [run] fills them in, with counters [c1] and [c2] (0 there). *)
(* @ src/scenarios/compound/split_brain.c:90-91 r1 *)
Definition sb_start (c1 c2 : Z) : brain :=
  Brain false (replica_init SideA SideB c1) (replica_init SideB SideA c2) empty_link empty_link.

(** The same with each replica reading its own side. *)
Definition sb_start_straight (c1 c2 : Z) : brain :=
  Brain false (replica_init SideA SideA c1) (replica_init SideB SideB c2) empty_link empty_link.

Open Scope string_scope.

(** [{ .loss_prob = 1.0, .max_chunk_bytes = 8 }] and the healed knobs. *)
(* @ src/scenarios/compound/split_brain.c:72-72 partitioned *)
Definition sb_partitioned : chaos_net_knobs_t := NetKnobs d_one 0 0 8.
(* @ src/scenarios/compound/split_brain.c:105-105 healed *)
Definition sb_healed_knobs : chaos_net_knobs_t := NetKnobs d_zero 0 0 8.

(** The main thread: [r1] and [r2] are what the joins leave. *)
(* @ src/scenarios/compound/split_brain.c run *)
Definition sb_run (seed : Z) (env : pair_env) (r1 r2 : replica_t) (dt_ms : Z) : prog net_world Z :=
  rc ← act (do_pair sb_partitioned seed env);
  if (rc <? 0)%Z then
    emit (pg_sut_fault (Some "chaos_net_pair failed"));; mret 1%Z
  else
    emit (pg_phase (Some "Two replicas, 30 ticks each. First half: network partition."));;
    emit (pg_logf "Each replica increments a local counter every 20ms and tries to tell the peer.");;
    emit (pg_logf "During partition (first ~300ms), NO messages get through.");;
    emit (pg_logf "Mid-scenario the partition heals. Observe what each replica believes.");;
    emit (pg_expect (Some "last_peer_count_r1") (Z.of_nat SB_ITERS));;
    emit (pg_expect (Some "last_peer_count_r2") (Z.of_nat SB_ITERS));;
    update (do_set_knobs sb_healed_knobs);;
    emit (pg_phase (Some "partition HEALED -- replicas can now hear each other"));;
    emit (pg_actual (Some "last_peer_count_r1") (last_peer_count r1));;
    emit (pg_actual (Some "last_peer_count_r2") (last_peer_count r2));;
    emit (pg_gauge (Some "local_count_r1") (local_count r1));;
    emit (pg_gauge (Some "local_count_r2") (local_count r2));;
    emit (pg_gauge (Some "elapsed_ms") (i64 dt_ms));;
    emit (pg_logf ("replica 1: local=" +:+ fmt_d (local_count r1) +:+ "  last heard from peer=" +:+
                   fmt_d (last_peer_count r1)));;
    emit (pg_logf ("replica 2: local=" +:+ fmt_d (local_count r2) +:+ "  last heard from peer=" +:+
                   fmt_d (last_peer_count r2)));;
    emit (pg_logf EmptyString);;
    emit (pg_logf ("at the heal boundary (~" +:+ fmt_d 300 +:+ " ms), each replica saw:"));;
    emit (pg_logf ("  replica 1: local ≈ " +:+ fmt_d 15 +:+ ", peer ≈ 0  (divergent)"));;
    emit (pg_logf ("  replica 2: local ≈ " +:+ fmt_d 15 +:+ ", peer ≈ 0  (divergent)"));;
    emit (pg_logf "they RECONCILED only because the payload was an idempotent counter.");;
    emit (pg_logf "in prod, writes during a partition are payments, orders, user actions --");;
    emit (pg_logf "NOT idempotent. 'Just merge what you have' corrupts state.");;
    (if negb (local_count r1 =? last_peer_count r1)%Z || negb (local_count r2 =? last_peer_count r2)%Z then
       emit (pg_sut_fault (Some "post-heal divergence: replicas still disagree"))
     else mret tt);;
    update do_net_close;;
    mret 0%Z.

Close Scope string_scope.

(** ** Lemmas: whose messages *)

(** A replica that started from [c] and the link it writes into and, with the
    crossed descriptors, reads from. *)
Definition pc_one (pc : rpc) : nat := match pc with RDrain => 1 | RPublish => 0 end.

Record half (c : Z) (healed : bool) (r : replica_t) (l : link) : Prop := {
  ha_written : Forall (fun m => c < m <= local_count r) (lk_written l);
  ha_buffer : Forall (fun m => c < m <= local_count r) (lk_buffer l);
  ha_ready : Forall (fun m => c < m <= local_count r) (lk_ready l);
  ha_last : last_peer_count r = 0 \/ c < last_peer_count r <= local_count r;
  ha_count : local_count r = c + Z.of_nat (rp_iter r + pc_one (rp_pc r));
  ha_iter : (rp_iter r + pc_one (rp_pc r) <= SB_ITERS)%nat;
  ha_partition : healed = false -> lk_lossy l = true /\ lk_ready l = [] /\ last_peer_count r = 0
}.

Ltac half_tac := split; cbn in *; try done; try lia; try tauto.

Lemma half_publish c hd s v n p h i w b ly rd (acc : bool) :
  half c hd (Replica s v n p h i RPublish) (Link w b ly rd) -> (i < SB_ITERS)%nat ->
  half c hd (Replica s v (n + 1) p h i RDrain) (Link (if acc then w ++ [n + 1] else w) b ly rd).
Proof.
  intros [H1 H2 H3 H4 H5 H6 H7] Hi. cbn in *.
  assert (Hm : forall l, Forall (fun m => c < m <= n) l -> Forall (fun m => c < m <= n + 1) l)
    by (intros l Hl; eapply Forall_impl; [exact Hl|cbn; lia]).
  half_tac; auto; [|lia..]. destruct acc; [|auto]. apply Forall_app. split; [auto|].
  constructor; [lia|constructor].
Qed.

Lemma half_hear c hd s v n p h i w b ly m rd now :
  half c hd (Replica s v n p h i RDrain) (Link w b ly (m :: rd)) ->
  half c hd (Replica s v n m now i RDrain) (Link w b ly rd).
Proof.
  intros [H1 H2 H3 H4 H5 H6 H7]. cbn in *. apply Forall_cons in H3 as [Hm H3]. half_tac.
  intros Hd. by destruct (H7 Hd) as (_ & ? & _).
Qed.

Lemma half_next c hd s v n p h i l :
  half c hd (Replica s v n p h i RDrain) l -> half c hd (Replica s v n p h (S i) RPublish) l.
Proof. intros [H1 H2 H3 H4 H5 H6 H7]. half_tac. Qed.

Lemma half_forward c hd r w ly rd k :
  half c hd r (Link w [] ly rd) -> half c hd r (Link (drop k w) (take k w) (negb hd) rd).
Proof.
  intros [H1 H2 H3 H4 H5 H6 H7]. cbn in *. half_tac.
  - by apply Forall_drop.
  - by apply Forall_take.
  - intros ->. destruct (H7 eq_refl) as (_ & ? & ?). done.
Qed.

Lemma half_chunk c hd r w m b (ly : bool) rd :
  half c hd r (Link w (m :: b) ly rd) -> half c hd r (Link w b ly (if ly then rd else rd ++ [m])).
Proof.
  intros [H1 H2 H3 H4 H5 H6 H7]. cbn in *. apply Forall_cons in H2 as [Hm H2]. half_tac.
  - destruct ly; [done|]. apply Forall_app. split; [done|]. by constructor.
  - intros Hd. destruct (H7 Hd) as (-> & ? & ?). done.
Qed.

Lemma half_heal c hd r l : half c hd r l -> half c true r l.
Proof. intros [H1 H2 H3 H4 H5 H6 H7]. half_tac. Qed.

(** The wiring of the code, and both halves. *)
Record crossed (c1 c2 : Z) (b : brain) : Prop := {
  cr_wiring : rp_send (sb_r1 b) = SideA /\ rp_recv (sb_r1 b) = SideB /\
              rp_send (sb_r2 b) = SideB /\ rp_recv (sb_r2 b) = SideA;
  cr_half1 : half c1 (sb_healed b) (sb_r1 b) (sb_ab b);
  cr_half2 : half c2 (sb_healed b) (sb_r2 b) (sb_ba b)
}.

Lemma crossed_step c1 c2 b b' : crossed c1 c2 b -> sb_step b b' -> crossed c1 c2 b'.
Proof.
  intros [(Hs1 & Hr1 & Hs2 & Hr2) A B] [c Hdo].
  destruct b as [hd [s1 v1 n1 p1 h1 i1 pc1] [s2 v2 n2 p2 h2 i2 pc2] [w1 b1 ly1 rd1] [w2 b2 ly2 rd2]].
  cbn in Hs1, Hr1, Hs2, Hr2. subst s1 v1 s2 v2. cbn [sb_r1 sb_r2 sb_ab sb_ba sb_healed] in A, B.
  destruct c as [[] acc|[] now|[] n|[]|]; cbn in Hdo.
  - destruct pc1, (Nat.leb_spec i1 29); try done. cbn in Hdo.
    pose proof (half_publish _ _ _ _ _ _ _ _ _ _ _ _ acc A ltac:(unfold SB_ITERS; lia)).
    destruct acc; injection Hdo as <-; by split.
  - destruct pc2, (Nat.leb_spec i2 29); try done. cbn in Hdo.
    pose proof (half_publish _ _ _ _ _ _ _ _ _ _ _ _ acc B ltac:(unfold SB_ITERS; lia)).
    destruct acc; injection Hdo as <-; by split.
  - destruct pc1; [done|]. destruct rd1 as [|m rd1]; injection Hdo as <-; split; try done.
    + by apply half_next.
    + by eapply half_hear.
  - destruct pc2; [done|]. destruct rd2 as [|m rd2]; injection Hdo as <-; split; try done.
    + by apply half_next.
    + by eapply half_hear.
  - destruct b1; [|done]. destruct (_ && _); [|done]. injection Hdo as <-. split; try done. by eapply half_forward.
  - destruct b2; [|done]. destruct (_ && _); [|done]. injection Hdo as <-. split; try done. by eapply half_forward.
  - destruct b1; [done|]. injection Hdo as <-. split; try done. by eapply half_chunk.
  - destruct b2; [done|]. injection Hdo as <-. split; try done. by eapply half_chunk.
  - injection Hdo as <-. split; try done; by eapply half_heal.
Qed.

Lemma half_start c s v : half c false (replica_init s v c) empty_link.
Proof. half_tac. Qed.

Lemma crossed_reach c1 c2 b : rtc sb_step (sb_start c1 c2) b -> crossed c1 c2 b.
Proof.
  intros Hr. assert (H0 : crossed c1 c2 (sb_start c1 c2)) by (split; [done|apply half_start..]).
  induction Hr as [|x y z Hxy _ IH]; [done|]. apply IH. by eapply crossed_step.
Qed.

Lemma sb_steps_reach cs b b' : sb_steps cs b = Some b' -> rtc sb_step b b'.
Proof.
  revert b. induction cs as [|c cs IH]; intros b H; cbn in H; [injection H as ->; apply rtc_refl|].
  destruct (sb_do c b) as [b1|] eqn:E; [|done]. eapply rtc_l; [by exists c|]. by apply IH.
Qed.

(** A healed network and 30 orderly iterations of both. *)
Definition orderly (first : bool) (from : side) : list sb_choice :=
  [SbPublish first true; SbForward from 1; SbChunk from; SbDrain first 0; SbDrain first 0].

Fixpoint repeat_list {A} (n : nat) (l : list A) : list A :=
  match n with O => [] | S n => l ++ repeat_list n l end.

Definition orderly_run : list sb_choice :=
  SbHeal :: repeat_list SB_ITERS (orderly true SideA ++ orderly false SideB).

Definition orderly_end : brain :=
  Brain true (Replica SideA SideB 30 30 0 30 RPublish) (Replica SideB SideA 30 30 0 30 RPublish)
        (Link [] [] false []) (Link [] [] false []).

Lemma orderly_ends : sb_steps orderly_run (sb_start 0 0) = Some orderly_end.
Proof. reflexivity. Qed.

(** The records of a run whose replicas agree with what they heard: no fault. *)
Definition sb_down (seed : Z) (env : pair_env) : net_world :=
  do_net_close (do_set_knobs sb_healed_knobs (net_up sb_partitioned seed env)).

Lemma sb_run_agree seed env r1 r2 dt :
  0 <= (chaos_net_pair (Some sb_partitioned) seed env).1.1 ->
  local_count r1 = last_peer_count r1 -> local_count r2 = last_peer_count r2 ->
  exists evs, sb_run seed env r1 r2 dt net_empty = (evs, FRet 0, sb_down seed env) /\
    Forall (fun e => ev_kind e.2 <> kind_code PG_EV_SUT_FAULT) evs.
Proof.
  intros Hp H1 H2. eexists. split.
  - unfold sb_run. apply do_pair_step; [done|]. intros rc Hrc. rewrite (proj2 (Z.ltb_ge _ 0)) by done.
    rewrite H1, H2, !Z.eqb_refl. cbn [negb orb]. prog_run. eapply run_silent; [reflexivity|]. prog_run.
    eapply run_silent; [reflexivity|]. eapply run_silent; reflexivity.
  - repeat (apply Forall_cons; split; [cbn [snd]; discriminate|]). constructor.
Qed.

(** ** Properties *)

(** thundering_herd is serial: in every reachable state at most one worker is
    between its lock and its unlock; in every final state the time since the
    starting gun and the total work are at least 48 times the 30 ms fsync, so the
    scenario reports a wall time of at least 1440 ms, an average work of at
    least 30 ms and a non-negative average wait; and 1440 ms, the figure it
    announces as expected, is reached by some schedule. *)
Theorem herd_is_serial k_took k_mkstemp k_ret fd name seed now t0 answers s :
  k_mkstemp 0%nat = Some (fd, name) -> 0 <= fd ->
  rtc (herd_step ITERS TH_FSYNC_DELAY) (herd_start WORKERS t0) s ->
  (forall t u i j p q, hd_workers s !! t = Some (i, p) -> hd_workers s !! u = Some (j, q) ->
     in_section p -> in_section q -> t = u) /\
  (herd_over ITERS s -> hd_now s - t0 < 2 ^ 62 ->
   exists wall_ms avg_wait avg_work w', th_run k_took k_mkstemp k_ret (hd_now s - t0) (hd_wait s) (hd_work s) answers
       (rt_init seed now) = (map (pair 0) (th_report wall_ms avg_wait avg_work), FRet 0, w') /\
     1440 <= wall_ms /\ 0 <= avg_wait /\ 30 <= avg_work) /\
  (exists s', rtc (herd_step ITERS TH_FSYNC_DELAY) (herd_start WORKERS t0) s' /\ herd_over ITERS s' /\
     hd_now s' = t0 + 1440 * 1000000).
Proof.
  intros Hm Hfd Hr. assert (Hd : 0 <= TH_FSYNC_DELAY) by (unfold TH_FSYNC_DELAY; lia). split_and!.
  - destruct (herd_reach_inv _ _ t0 _ _ Hd (herd_start_inv _ _ _ _) Hr) as [_ Hmu _ _ _].
    intros t u i j p q Ht Hu Hp Hq. pose proof (Hmu t i p Ht Hp). pose proof (Hmu u j q Hu Hq). congruence.
  - intros Ho Hw. destruct (herd_serialised _ _ _ _ _ Hd Hr Ho) as (H1 & H2 & H3).
    change (Z.of_nat WORKERS * Z.of_nat ITERS * TH_FSYNC_DELAY) with 1440000000 in *.
    destruct (th_run_report k_took k_mkstemp k_ret fd name seed now (hd_now s - t0) (hd_wait s) (hd_work s) answers Hm Hfd)
      as (w' & E & _); [lia|].
    eexists _, _, _, w'. split; [exact E|]. repeat split; zlia.
  - pose proof (herd_serial ITERS TH_FSYNC_DELAY WORKERS t0 [] [] 0 0 Hd) as H. cbn [app] in H.
    rewrite !app_nil_r in H. eexists. split; [exact H|]. split; [by apply Forall_replicate|]. cbn [hd_now].
    unfold WORKERS, ITERS, TH_FSYNC_DELAY. lia.
Qed.

Lemma herd_is_serial_witness :
  exists s', rtc (herd_step ITERS TH_FSYNC_DELAY) (herd_start WORKERS 5) s' /\ herd_over ITERS s' /\
     hd_now s' = 5 + 1440 * 1000000.
Proof.
  apply (herd_is_serial (fun _ => 0) (fun _ => Some (7, "f"%string)) (fun _ => 0) 7 "f" 42 0 5 [] (herd_start WORKERS 5));
    [done|done|apply rtc_refl].
Defined.

(** C22: in split_brain each replica hears only itself.  [run] gives replica 1 the
    A side to send and the B side to receive, and replica 2 the reverse, so what
    a replica reads is what it wrote: whatever the counters start from, in every
    state reachable by any interleaving of publishing, draining, forwarding,
    losing and healing, what replica 1 last "heard from its peer" is nothing or
    a value its own counter has taken, however far apart the other's is.  Before
    the heal nothing is heard.  The orderly healed run therefore ends with both
    "reconciled" and no fault reported although neither ever received a message
    of the other; with each replica reading its own side, messages do cross. *)
Theorem split_brain_hears_itself seed sp10 sp11 sp20 sp21 dt :
  (forall c1 c2 b, rtc sb_step (sb_start c1 c2) b ->
     (last_peer_count (sb_r1 b) = 0 \/
        (c1 < last_peer_count (sb_r1 b) <= local_count (sb_r1 b) /\ local_count (sb_r1 b) <= c1 + Z.of_nat SB_ITERS)) /\
     (last_peer_count (sb_r2 b) = 0 \/
        (c2 < last_peer_count (sb_r2 b) <= local_count (sb_r2 b) /\ local_count (sb_r2 b) <= c2 + Z.of_nat SB_ITERS)) /\
     (sb_healed b = false -> last_peer_count (sb_r1 b) = 0 /\ last_peer_count (sb_r2 b) = 0)) /\
  (exists b evs, rtc sb_step (sb_start 0 0) b /\ rp_iter (sb_r1 b) = SB_ITERS /\ rp_iter (sb_r2 b) = SB_ITERS /\
     sb_run seed (PairEnv (Some (sp10, sp11)) (Some (sp20, sp21)) true true true) (sb_r1 b) (sb_r2 b) dt net_empty
       = (evs, FRet 0, sb_down seed (PairEnv (Some (sp10, sp11)) (Some (sp20, sp21)) true true true)) /\
     Forall (fun e => ev_kind e.2 <> kind_code PG_EV_SUT_FAULT) evs) /\
  (forall c2, exists b, rtc sb_step (sb_start_straight 0 c2) b /\ last_peer_count (sb_r1 b) = c2 + 1).
Proof.
  split_and!.
  - intros c1 c2 b Hr. destruct (crossed_reach c1 c2 b Hr) as [_ [_ _ _ L1 C1 I1 P1] [_ _ _ L2 C2 I2 P2]].
    split_and!; [lia|lia|]. intros Hh. split; [by apply P1|by apply P2].
  - exists orderly_end.
    destruct (sb_run_agree seed (PairEnv (Some (sp10, sp11)) (Some (sp20, sp21)) true true true)
                (sb_r1 orderly_end) (sb_r2 orderly_end) dt) as (evs & E & Hf); [done..|].
    exists evs. split_and!; [exact (sb_steps_reach _ _ _ orderly_ends)|done|done|exact E|exact Hf].
  - intros c2.
    exists (Brain true (Replica SideA SideA 1 (c2 + 1) 0 0 RDrain) (Replica SideB SideB (c2 + 1) 0 0 0 RDrain)
                  (Link [1] [] true []) (Link [] [] false [])). split; [|done].
    apply (sb_steps_reach [SbHeal; SbPublish false true; SbForward SideB 1; SbChunk SideB; SbPublish true true;
                           SbDrain true 0]). vm_compute. reflexivity.
Qed.
