(* ===== verification/Herd.v ===== *)
(** * The threads of thundering_herd, call by call
    (src/scenarios/compound/thundering_herd.c)

    The main thread from its first [chaos_thread_spawn] to the clock reading
    after its last join, and the workers from their first lock to their return:
    one mutex call, clock reading, file operation or shared access a step, in
    every interleaving, with the three mutexes, the condition variable, the
    table of chaotic files and what the kernel answers.  [herd_step] of
    ScenReplicas is the specification: these threads implement it. *)

From S2P Require Import Prelude CLib Rand Event Runner ChaosIo ChaosThread Prog ScenCompound ScenReplicas.

(** ** Data *)

(** Who holds a mutex. *)
Inductive who := Main | Worker (t : nat).

#[export] Instance who_eq_dec : EqDecision who.
Proof. solve_decision. Defined.

(** The pointers of the struct are to the fields of [herd_threads]. *)
(* @ src/scenarios/compound/thundering_herd.c:21-32 worker_arg_t *)
Record worker_arg_t := WorkerArg { wk_id : Z; wk_io_fd : Z }.

(** [char payload[64]; memset(payload, '0' + (a->id % 10), sizeof(payload))]. *)
(* @ src/scenarios/compound/thundering_herd.c:42-42 worker_fn *)
Definition payload (a : worker_arg_t) : bytes := replicate 64 (48 + Z.rem (wk_id a) 10).

Arguments payload : simpl never.

Lemma length_payload a : length (payload a) = 64%nat.
Proof. apply length_replicate. Qed.

(** What a worker does next: lock [start_mu]; test [started]; be woken inside
    [pthread_cond_wait]; lock [start_mu] again on its way out of it; unlock it;
    test [i]; lock [mu]; read [t_acquired]; write; look up the fsync delay;
    sleep; read [t_done]; unlock [mu]; lock [tot_mu]; read the totals; write
    them; unlock [tot_mu]; nothing. *)
(* @ src/scenarios/compound/thundering_herd.c worker_fn *)
Inductive wpc :=
| WStart
| WTest
| WWaiting
| WWoken
| WGo
| WIdle (i : nat)
| WWant (i : nat) (t_before : Z)
| WGot (i : nat) (t_before : Z)
| WWrite (i : nat) (t_before t_acquired : Z)
| WSync (i : nat) (t_before t_acquired : Z)
| WSyncing (i : nat) (t_before t_acquired until : Z)
| WSynced (i : nat) (t_before t_acquired : Z)
| WUnlock (i : nat) (t_before t_acquired t_done : Z)
| WAccount (i : nat) (t_before t_acquired t_done : Z)
| WTotal (i : nat) (t_before t_acquired t_done : Z)
| WAdd (i : nat) (t_before t_acquired t_done wait work : Z)
| WTotalDone (i : nat)
| WOver.

#[export] Instance wpc_eq_dec : EqDecision wpc.
Proof. solve_decision. Defined.

(** The main thread: spawning worker [i], in its [usleep], reading [t0], locking
    [start_mu], setting [started], broadcasting, unlocking, joining worker [i];
    at the end [dt]. *)
(* @ src/scenarios/compound/thundering_herd.c:83-106 run *)
Inductive mpc :=
| MSpawn (i : nat)
| MSleep (until : Z)
| MGun
| MLock (t0 : Z)
| MSet (t0 : Z)
| MBroadcast (t0 : Z)
| MUnlock (t0 : Z)
| MJoin (t0 : Z) (i : nat)
| MDone (t0 dt : Z).

(** The locals of [run] the threads share, real time, the tag counter, the table
    of files and what each [write] to the file was given and answered. *)
(* @ src/scenarios/compound/thundering_herd.c:70-84 run *)
Record herd_threads := HerdThreads {
  ht_now : Z;
  ht_main : mpc;
  ht_started : bool;
  ht_start_mu : option who;
  ht_mu : option who;
  ht_tot_mu : option who;
  ht_next_tag : Z;
  ht_handles : list (option (nat * chaos_thread_t));
  ht_workers : list (worker_arg_t * wpc);
  ht_total_wait : Z;
  ht_total_work : Z;
  ht_table : list io_slot_t;
  ht_wrote : list (bytes * Z)
}.

(* @ src/scenarios/compound/thundering_herd.c:70-75 run *)
Definition threads_start (now next_tag : Z) (g : list io_slot_t) : herd_threads :=
  HerdThreads now (MSpawn 0) false None None None next_tag [] [] 0 0 g [].

(** What happens next: time passes, the main thread steps (the answers to a
    spawn), worker [t] steps (the answer to a [write]), or worker [t] is woken
    for no reason. *)
Inductive herd_choice :=
| HcTime (dt : Z)
| HcMain (e : spawn_env)
| HcWorker (t : nat) (answer : Z)
| HcSpurious (t : nat).

(** ** Steps *)

Definition set_now (n : Z) (s : herd_threads) : herd_threads :=
  HerdThreads n (ht_main s) (ht_started s) (ht_start_mu s) (ht_mu s) (ht_tot_mu s) (ht_next_tag s) (ht_handles s)
    (ht_workers s) (ht_total_wait s) (ht_total_work s) (ht_table s) (ht_wrote s).
Definition set_main (m : mpc) (s : herd_threads) : herd_threads :=
  HerdThreads (ht_now s) m (ht_started s) (ht_start_mu s) (ht_mu s) (ht_tot_mu s) (ht_next_tag s) (ht_handles s)
    (ht_workers s) (ht_total_wait s) (ht_total_work s) (ht_table s) (ht_wrote s).
Definition set_started (s : herd_threads) : herd_threads :=
  HerdThreads (ht_now s) (ht_main s) true (ht_start_mu s) (ht_mu s) (ht_tot_mu s) (ht_next_tag s) (ht_handles s)
    (ht_workers s) (ht_total_wait s) (ht_total_work s) (ht_table s) (ht_wrote s).
Definition set_start_mu (o : option who) (s : herd_threads) : herd_threads :=
  HerdThreads (ht_now s) (ht_main s) (ht_started s) o (ht_mu s) (ht_tot_mu s) (ht_next_tag s) (ht_handles s)
    (ht_workers s) (ht_total_wait s) (ht_total_work s) (ht_table s) (ht_wrote s).
Definition set_mu (o : option who) (s : herd_threads) : herd_threads :=
  HerdThreads (ht_now s) (ht_main s) (ht_started s) (ht_start_mu s) o (ht_tot_mu s) (ht_next_tag s) (ht_handles s)
    (ht_workers s) (ht_total_wait s) (ht_total_work s) (ht_table s) (ht_wrote s).
Definition set_tot_mu (o : option who) (s : herd_threads) : herd_threads :=
  HerdThreads (ht_now s) (ht_main s) (ht_started s) (ht_start_mu s) (ht_mu s) o (ht_next_tag s) (ht_handles s)
    (ht_workers s) (ht_total_wait s) (ht_total_work s) (ht_table s) (ht_wrote s).
Definition set_threads (tag : Z) (hs : list (option (nat * chaos_thread_t))) (ws : list (worker_arg_t * wpc))
    (s : herd_threads) : herd_threads :=
  HerdThreads (ht_now s) (ht_main s) (ht_started s) (ht_start_mu s) (ht_mu s) (ht_tot_mu s) tag hs
    ws (ht_total_wait s) (ht_total_work s) (ht_table s) (ht_wrote s).
Definition set_workers (ws : list (worker_arg_t * wpc)) (s : herd_threads) : herd_threads :=
  set_threads (ht_next_tag s) (ht_handles s) ws s.
Definition set_totals (wait work : Z) (s : herd_threads) : herd_threads :=
  HerdThreads (ht_now s) (ht_main s) (ht_started s) (ht_start_mu s) (ht_mu s) (ht_tot_mu s) (ht_next_tag s)
    (ht_handles s) (ht_workers s) wait work (ht_table s) (ht_wrote s).
Definition set_file (g : list io_slot_t) (wr : list (bytes * Z)) (s : herd_threads) : herd_threads :=
  HerdThreads (ht_now s) (ht_main s) (ht_started s) (ht_start_mu s) (ht_mu s) (ht_tot_mu s) (ht_next_tag s)
    (ht_handles s) (ht_workers s) (ht_total_wait s) (ht_total_work s) g wr.

(** [pthread_mutex_lock]: nobody, so far. *)
Definition is_free (o : option who) : bool := match o with None => true | Some _ => false end.

(** Worker [t]'s next step; [answer] is what the kernel's [write] returns, at
    most what it is offered.  The fsync takes its delay at least. *)
(* @ src/scenarios/compound/thundering_herd.c worker_fn *)
Definition worker_do (t : nat) (answer : Z) (s : herd_threads) : option herd_threads :=
  match ht_workers s !! t with
  | None => None
  | Some (a, pc) =>
      let go pc' s := Some (set_workers (<[t := (a, pc')]> (ht_workers s)) s) in
      let now := ht_now s in
      match pc with
      | WStart | WWoken =>
          if is_free (ht_start_mu s) then go WTest (set_start_mu (Some (Worker t)) s) else None
      | WTest => if ht_started s then go WGo s else go WWaiting (set_start_mu None s)
      | WWaiting => None
      | WGo => go (WIdle 0) (set_start_mu None s)
      | WIdle i => if (i <? ITERS)%nat then go (WWant i now) s else go WOver s
      | WWant i tb => if is_free (ht_mu s) then go (WGot i tb) (set_mu (Some (Worker t)) s) else None
      | WGot i tb => go (WWrite i tb now) s
      | WWrite i tb ta =>
          let '(o, g) := chaos_io_write (fun _ => answer) (wk_io_fd a) (Z.of_nat (length (payload a))) (ht_table s) in
          match o with
          | WriteEnospc => go (WSync i tb ta) s
          | WriteRet w =>
              if bool_decide (-1 <= w <= Z.of_nat (length (payload a)))
              then go (WSync i tb ta) (set_file g (ht_wrote s ++ [(payload a, w)]) s) else None
          end
      | WSync i tb ta =>
          match (chaos_io_fsync 0 (wk_io_fd a) (ht_table s)).1 with
          | Some (sec, nsec) => go (WSyncing i tb ta (now + (sec * 1000000000 + nsec))) s
          | None => go (WSyncing i tb ta now) s
          end
      | WSyncing i tb ta until => if until <=? now then go (WSynced i tb ta) s else None
      | WSynced i tb ta => go (WUnlock i tb ta now) s
      | WUnlock i tb ta td => go (WAccount i tb ta td) (set_mu None s)
      | WAccount i tb ta td =>
          if is_free (ht_tot_mu s) then go (WTotal i tb ta td) (set_tot_mu (Some (Worker t)) s) else None
      | WTotal i tb ta td => go (WAdd i tb ta td (ht_total_wait s) (ht_total_work s)) s
      | WAdd i tb ta td wait work => go (WTotalDone i) (set_totals (wait + (ta - tb)) (work + (td - ta)) s)
      | WTotalDone i => go (WIdle (S i)) (set_tot_mu None s)
      | WOver => None
      end
  end.

Definition wake (w : worker_arg_t * wpc) : worker_arg_t * wpc :=
  match w.2 with WWaiting => (w.1, WWoken) | _ => w end.

(** The main thread's next step, on the file [io_fd].  A thread starts with its
    argument; a handle the spawn did not give is NULL, which joins at once. *)
(* @ src/scenarios/compound/thundering_herd.c:83-106 run *)
Definition main_do (io_fd : Z) (e : spawn_env) (s : herd_threads) : option herd_threads :=
  match ht_main s with
  | MSpawn i =>
      if (i <? WORKERS)%nat then
        let arg := WorkerArg (Z.of_nat i + 1) io_fd in
        let '(r, tag) := chaos_thread_spawn (Some WStart) arg (Some "worker"%string) e (ht_next_tag s) in
        let ws := ht_workers s in
        Some (set_main (MSpawn (S i))
          match r with
          | Some (h, w) => let '(fn, a) := (thread_wrap w).2 in
                           set_threads tag (ht_handles s ++ [Some (length ws, h)]) (ws ++ [(a, fn)]) s
          | None => set_threads tag (ht_handles s ++ [None]) ws s
          end)
      else Some (set_main (MSleep (ht_now s + 10000 * 1000)) s)
  | MSleep until => if until <=? ht_now s then Some (set_main MGun s) else None
  | MGun => Some (set_main (MLock (ht_now s)) s)
  | MLock t0 => if is_free (ht_start_mu s) then Some (set_main (MSet t0) (set_start_mu (Some Main) s)) else None
  | MSet t0 => Some (set_main (MBroadcast t0) (set_started s))
  | MBroadcast t0 => Some (set_main (MUnlock t0) (set_workers (map wake (ht_workers s)) s))
  | MUnlock t0 => Some (set_main (MJoin t0 0) (set_start_mu None s))
  | MJoin t0 i =>
      if (i <? WORKERS)%nat then
        match ht_handles s !! i with
        | Some (Some (t, _)) =>
            match ht_workers s !! t with
            | Some (_, WOver) => Some (set_main (MJoin t0 (S i)) s)
            | _ => None
            end
        | _ => Some (set_main (MJoin t0 (S i)) s)
        end
      else Some (set_main (MDone t0 (ht_now s - t0)) s)
  | MDone _ _ => None
  end.

Definition herd_do (io_fd : Z) (c : herd_choice) (s : herd_threads) : option herd_threads :=
  match c with
  | HcTime dt => if 0 <=? dt then Some (set_now (ht_now s + dt) s) else None
  | HcMain e => main_do io_fd e s
  | HcWorker t answer => worker_do t answer s
  | HcSpurious t =>
      match ht_workers s !! t with
      | Some (a, WWaiting) => Some (set_workers (<[t := (a, WWoken)]> (ht_workers s)) s)
      | _ => None
      end
  end.

Fixpoint herd_do_all (io_fd : Z) (cs : list herd_choice) (s : herd_threads) : option herd_threads :=
  match cs with [] => Some s | c :: cs => s ← herd_do io_fd c s; herd_do_all io_fd cs s end.

Definition threads_step (io_fd : Z) (s s' : herd_threads) : Prop := exists c, herd_do io_fd c s = Some s'.

(** ** What the threads implement *)

(** Where a worker is in the specification; before the loop it has done nothing. *)
Definition spec_pc (pc : wpc) : nat * hpc :=
  match pc with
  | WStart | WTest | WWaiting | WWoken | WGo => (0%nat, HIdle)
  | WIdle i => (i, HIdle)
  | WWant i tb => (i, HWaiting tb)
  | WGot i tb => (i, HLocked tb)
  | WWrite i tb ta | WSync i tb ta | WSyncing i tb ta _ | WSynced i tb ta => (i, HFsync tb ta)
  | WUnlock i tb ta td => (i, HUnlock tb ta td)
  | WAccount i tb ta td | WTotal i tb ta td | WAdd i tb ta td _ _ => (i, HAccount tb ta td)
  | WTotalDone i => (S i, HIdle)
  | WOver => (ITERS, HIdle)
  end.

Definition spec_of (s : herd_threads) : herd :=
  Herd (ht_now s) (match ht_mu s with Some (Worker t) => Some t | _ => None end)
       (map (fun w => spec_pc w.2) (ht_workers s)) (ht_total_wait s) (ht_total_work s).

(** When the starting gun went off. *)
Definition gun (m : mpc) : option Z :=
  match m with
  | MSpawn _ | MSleep _ | MGun => None
  | MLock t0 | MSet t0 | MBroadcast t0 | MUnlock t0 | MJoin t0 _ | MDone t0 _ => Some t0
  end.

(** The time the main thread reports. *)
Definition herd_wall (s : herd_threads) : Z := match ht_main s with MDone _ dt => dt | _ => 0 end.

(** What the file holds. *)
Definition file_of (wrote : list (bytes * Z)) : bytes :=
  concat (map (fun p => take (Z.to_nat p.2) p.1) wrote).

(** ** Invariant: the mutexes *)

Definition in_start (pc : wpc) : bool := match pc with WTest | WGo => true | _ => false end.
Definition in_mu (pc : wpc) : bool :=
  match pc with
  | WGot _ _ | WWrite _ _ _ | WSync _ _ _ | WSyncing _ _ _ _ | WSynced _ _ _ | WUnlock _ _ _ _ => true
  | _ => false
  end.
Definition in_tot (pc : wpc) : bool :=
  match pc with WTotal _ _ _ _ | WAdd _ _ _ _ _ _ | WTotalDone _ => true | _ => false end.
Definition main_in_start (m : mpc) : bool := match m with MSet _ | MBroadcast _ | MUnlock _ => true | _ => false end.

Section Lock.
(** The holder of a mutex is the worker between its lock and its unlock. *)
Context (holds : wpc -> bool).

Definition lock_ok (own : option who) (ws : list (worker_arg_t * wpc)) : Prop :=
  forall t, own = Some (Worker t) <-> exists a pc, ws !! t = Some (a, pc) /\ holds pc = true.

(** What one step of worker [t] does to a mutex. *)
Definition lock_step (t : nat) (pc pc' : wpc) (own own' : option who) : Prop :=
  (own' = own /\ holds pc' = holds pc) \/
  (own = None /\ own' = Some (Worker t) /\ holds pc' = true) \/
  (holds pc = true /\ own' = None /\ holds pc' = false).

Lemma lock_step_ok t a pc pc' own own' ws :
  ws !! t = Some (a, pc) -> lock_step t pc pc' own own' -> lock_ok own ws -> lock_ok own' (<[t := (a, pc')]> ws).
Proof.
  intros Hw Hs Ho u.
  assert (Hlt : (t < length ws)%nat) by (by eapply lookup_lt_Some).
  destruct (decide (u = t)) as [->|Hne].
  - rewrite list_lookup_insert_eq by done. specialize (Ho t). rewrite Hw in Ho. destruct Hs as [[-> E]|[(-> & -> & E)|(E & -> & E')]].
    + rewrite Ho. split; intros (? & ? & [= <- <-] & ?); eexists _, _; (split; [done|congruence]).
    + split; [|done]. intros _. by eexists _, _.
    + split; [done|]. intros (? & ? & [= <- <-] & ?). congruence.
  - rewrite list_lookup_insert_ne by done. pose proof (Ho t) as Ht. specialize (Ho u). destruct Hs as [[-> E]|[(-> & -> & E)|(E & -> & E')]].
    + done.
    + split; [by intros [= <-]|]. by intros ?%Ho.
    + split; [done|]. intros Hu%Ho. assert (Hm : own = Some (Worker t)) by (apply Ht; by eexists _, _). congruence.
Qed.

Lemma lock_step_main t a pc pc' own own' ws :
  ws !! t = Some (a, pc) -> lock_ok own ws -> lock_step t pc pc' own own' ->
  (own' = Some Main <-> own = Some Main).
Proof.
  intros Hw Ho [[-> _]|[(-> & -> & _)|(E & -> & _)]]; [done|done|].
  assert (own = Some (Worker t)) as -> by (apply Ho; by eexists _, _). done.
Qed.

Lemma lock_ok_main ws own own' :
  (forall t, own <> Some (Worker t)) -> (forall t, own' <> Some (Worker t)) -> lock_ok own ws -> lock_ok own' ws.
Proof.
  intros H H' Ho t. split; [by intros ?%H'|]. intros Hw%Ho. by apply H in Hw.
Qed.

Lemma lock_ok_snoc own ws a pc : holds pc = false -> lock_ok own ws -> lock_ok own (ws ++ [(a, pc)]).
Proof.
  intros Hp Ho t. rewrite (Ho t). split.
  - intros (b & p & Hl & Hq). exists b, p. split; [by apply lookup_app_l_Some|done].
  - intros (b & p & Hl & Hq). exists b, p. split; [|done]. apply lookup_snoc_Some in Hl as [[_ Hl]|[_ [= -> ->]]]; [done|].
    congruence.
Qed.

Lemma lock_ok_map own ws f :
  (forall w, holds (f w).2 = holds w.2) -> lock_ok own ws -> lock_ok own (map f ws).
Proof.
  intros Hf Ho t. rewrite (Ho t). setoid_rewrite list_lookup_fmap. split.
  - intros (a & pc & Hl & Hp). destruct (f (a, pc)) as [b q] eqn:E. exists b, q. rewrite Hl. cbn. rewrite E.
    split; [done|]. specialize (Hf (a, pc)). rewrite E in Hf. cbn in Hf. congruence.
  - intros (b & q & Hl & Hq). destruct (ws !! t) as [[a pc]|]; [|done]. cbn in Hl. injection Hl as E.
    exists a, pc. split; [done|]. specialize (Hf (a, pc)). rewrite E in Hf. cbn in Hf. congruence.
Qed.

(** A mutex that is not free is held by the main thread or by a worker inside. *)
Lemma lock_holder own ws :
  lock_ok own ws -> own <> Some Main -> is_free own = false ->
  exists t a pc, ws !! t = Some (a, pc) /\ holds pc = true.
Proof.
  intros Ho Hm Hf. destruct own as [[|t]|]; [done| |done]. exists t. by apply Ho.
Qed.
End Lock.

(** ** Invariant: the threads *)

Definition past_gun (pc : wpc) : bool :=
  match pc with WStart | WTest | WWaiting | WWoken => false | _ => true end.
Definition fired (m : mpc) : bool :=
  match m with MBroadcast _ | MUnlock _ | MJoin _ _ | MDone _ _ => true | _ => false end.
Definition woken (m : mpc) : bool := match m with MUnlock _ | MJoin _ _ | MDone _ _ => true | _ => false end.
Definition spawned (m : mpc) : nat := match m with MSpawn i => i | _ => WORKERS end.
Definition joined (m : mpc) : nat := match m with MJoin _ i => i | MDone _ _ => WORKERS | _ => 0 end.

(** Writes a worker has done. *)
Definition writes_done (w : worker_arg_t * wpc) : Z :=
  match w.2 with
  | WStart | WTest | WWaiting | WWoken | WGo => 0
  | WIdle i | WWant i _ | WGot i _ | WWrite i _ _ => Z.of_nat i
  | WSync i _ _ | WSyncing i _ _ _ | WSynced i _ _ | WUnlock i _ _ _ | WAccount i _ _ _ | WTotal i _ _ _
  | WAdd i _ _ _ _ _ | WTotalDone i => Z.of_nat i + 1
  | WOver => Z.of_nat ITERS
  end.

(** What a worker's position says: the iteration is one of [ITERS], the fsync is
    over only after its delay, the totals it read are still the totals. *)
Definition pc_ok (now : Z) (awake : bool) (wait work : Z) (pc : wpc) : Prop :=
  match pc with
  | WStart | WTest | WWoken | WGo | WOver => True
  | WWaiting => awake = false
  | WIdle i => (i <= ITERS)%nat
  | WWant i _ | WGot i _ | WUnlock i _ _ _ | WAccount i _ _ _ | WTotal i _ _ _ | WTotalDone i => (i < ITERS)%nat
  | WWrite i _ ta | WSync i _ ta => (i < ITERS)%nat /\ ta <= now
  | WSyncing i _ ta until => (i < ITERS)%nat /\ ta + TH_FSYNC_DELAY <= until
  | WSynced i _ ta => (i < ITERS)%nat /\ ta + TH_FSYNC_DELAY <= now
  | WAdd i _ _ _ x y => (i < ITERS)%nat /\ x = wait /\ y = work
  end.

Record threads_inv (fd : Z) (g0 : list io_slot_t) (s : herd_threads) : Prop := {
  ti_start : lock_ok in_start (ht_start_mu s) (ht_workers s);
  ti_mu : lock_ok in_mu (ht_mu s) (ht_workers s);
  ti_tot : lock_ok in_tot (ht_tot_mu s) (ht_workers s);
  ti_main_start : ht_start_mu s = Some Main <-> main_in_start (ht_main s) = true;
  ti_main_others : ht_mu s <> Some Main /\ ht_tot_mu s <> Some Main;
  ti_started : ht_started s = fired (ht_main s);
  ti_past : forall t a pc, ht_workers s !! t = Some (a, pc) -> past_gun pc = true -> ht_started s = true;
  ti_pcs : forall t a pc, ht_workers s !! t = Some (a, pc) ->
             wk_io_fd a = fd /\ pc_ok (ht_now s) (woken (ht_main s)) (ht_total_wait s) (ht_total_work s) pc;
  ti_handles : omap (fun h => fst <$> h) (ht_handles s) = seq 0 (length (ht_workers s));
  ti_spawned : length (ht_handles s) = spawned (ht_main s) /\ (spawned (ht_main s) <= WORKERS)%nat;
  ti_joined : forall i t h, (i < joined (ht_main s))%nat -> ht_handles s !! i = Some (Some (t, h)) ->
                exists a, ht_workers s !! t = Some (a, WOver);
  ti_table : ht_table s = after_writes fd (map snd (ht_wrote s)) g0;
  ti_wrote : Forall (fun p => length p.1 = 64%nat /\ -1 <= p.2 <= 64) (ht_wrote s);
  ti_count : Z.of_nat (length (ht_wrote s)) = sum_of writes_done (ht_workers s)
}.

(** The table of the scenario: its file, no quota, no partial writes. *)
Definition herd_table (fd : Z) (g : list io_slot_t) : Prop :=
  table_wf g /\ exists b, table g !! fd = Some (Knobs 0 b 0 TH_FSYNC_DELAY).

Lemma herd_write fd w g n :
  herd_table fd g -> exists g', chaos_io_write (fun _ => w) fd n g = (WriteRet w, g') /\ herd_table fd g'.
Proof.
  intros [Hg [b Hb]]. unfold chaos_io_write. rewrite write_begin_spec, Hb.
  change (k_want (Knobs 0 b 0 TH_FSYNC_DELAY) n) with (Some n). cbv iota zeta. eexists. split; [reflexivity|].
  destruct (write_commit_sim fd w g _ (conj Hg eq_refl)) as [H1 H2]. split; [done|]. rewrite H2.
  destruct (0 <? w); [|by exists b]. eexists. by rewrite lookup_alter_eq, Hb.
Qed.

Lemma herd_after fd ws g : herd_table fd g -> herd_table fd (after_writes fd ws g).
Proof.
  revert g. induction ws as [|w ws IH]; intros g Hg; [done|].
  change (after_writes fd (w :: ws) g) with (after_writes fd ws (chaos_io_write (fun _ => w) fd 64 g).2).
  destruct (herd_write fd w g 64 Hg) as (g' & E & Hg'). rewrite E. by apply IH.
Qed.

Lemma herd_fsync fd g : herd_table fd g -> (chaos_io_fsync 0 fd g).1 = Some (0, TH_FSYNC_DELAY).
Proof.
  intros [_ [b Hb]]. rewrite table_lookup in Hb. unfold chaos_io_fsync. destruct (find_locked fd g) as [i|]; [|done].
  cbn in Hb. injection Hb as _ _ _ ->. reflexivity.
Qed.

Lemma after_writes_snoc fd ws w g :
  after_writes fd (ws ++ [w]) g = (chaos_io_write (fun _ => w) fd 64 (after_writes fd ws g)).2.
Proof. unfold after_writes. by rewrite foldl_snoc. Qed.

Lemma pc_ok_mono now now' aw wt wk pc : now <= now' -> pc_ok now aw wt wk pc -> pc_ok now' aw wt wk pc.
Proof. destruct pc; cbn; intuition lia. Qed.

Lemma threads_start_inv fd g now tag : threads_inv fd g (threads_start now tag g).
Proof.
  assert (Hl : forall h, lock_ok h None []) by (intros h t; split; [done|by intros (? & ? & ? & _)]).
  split; cbn; try done. lia.
Qed.

(** One step of a worker, as the invariant sees it. *)
Lemma worker_inv fd g0 now mn st o1 o2 o3 tag hs ws wt wk g wr t a pc pc' o1' o2' o3' wt' wk' g' wr' :
  threads_inv fd g0 (HerdThreads now mn st o1 o2 o3 tag hs ws wt wk g wr) -> ws !! t = Some (a, pc) ->
  pc <> WOver ->
  lock_step in_start t pc pc' o1 o1' -> lock_step in_mu t pc pc' o2 o2' -> lock_step in_tot t pc pc' o3 o3' ->
  (past_gun pc' = true -> st = true) ->
  (pc_ok now (woken mn) wt wk pc -> pc_ok now (woken mn) wt' wk' pc') ->
  (wt' = wt /\ wk' = wk \/ in_tot pc = true) ->
  (g' = g /\ wr' = wr /\ writes_done (a, pc') = writes_done (a, pc) \/
   exists p w, length p = 64%nat /\ -1 <= w <= 64 /\ g' = (chaos_io_write (fun _ => w) fd 64 g).2 /\
     wr' = wr ++ [(p, w)] /\ writes_done (a, pc') = writes_done (a, pc) + 1) ->
  threads_inv fd g0 (HerdThreads now mn st o1' o2' o3' tag hs (<[t := (a, pc')]> ws) wt' wk' g' wr').
Proof.
  intros [H1 H2 H3 Hm [Hm2 Hm3] Hs Hp Hpc Hh Hsp Hj Ht Hw Hc] Hl Hov L1 L2 L3 Hpast Hok Htot Hfile.
  cbn in *.
  assert (Hself := Hpc t a pc Hl).
  split; cbn; try done.
  - by eapply lock_step_ok.
  - by eapply lock_step_ok.
  - by eapply lock_step_ok.
  - by rewrite (lock_step_main _ _ _ _ _ _ _ _ Hl H1 L1).
  - by rewrite (lock_step_main _ _ _ _ _ _ _ _ Hl H2 L2), (lock_step_main _ _ _ _ _ _ _ _ Hl H3 L3).
  - intros u b q [[-> [= -> ->]]|[_ Hu]]%lookup_insert_cases; [done|by eapply Hp].
  - intros u b q [[-> [= -> ->]]|[Hne Hu]]%lookup_insert_cases; [tauto|].
    destruct (Hpc u b q Hu) as [Hfd Hq]. split; [done|]. destruct Htot as [[-> ->]|Hin]; [done|].
    destruct q; cbn in Hq |- *; try done. exfalso. apply Hne.
    assert (E1 : o3 = Some (Worker t)) by (apply H3; by eexists _, _).
    assert (E2 : o3 = Some (Worker u)) by (apply H3; by eexists _, _). congruence.
  - by rewrite length_insert.
  - intros i u h Hi Hu. destruct (Hj i u h Hi Hu) as [b Hb]. exists b.
    rewrite list_lookup_insert_ne; [done|]. intros ->. congruence.
  - destruct Hfile as [(-> & -> & _)|(p & w & _ & _ & -> & -> & _)]; [done|].
    rewrite map_app. cbn [map snd]. by rewrite after_writes_snoc, Ht.
  - destruct Hfile as [(-> & -> & _)|(p & w & Hp64 & Hwr & -> & -> & _)]; [done|]. apply Forall_app. split; [done|]. by apply Forall_singleton.
  - rewrite (sum_of_insert _ _ _ _ _ Hl), <- Hc.
    destruct Hfile as [(-> & -> & E)|(p & w & _ & _ & -> & -> & E)]; rewrite E; [lia|]. rewrite length_app. cbn. lia.
Qed.

(** ** Every step keeps the invariant and follows the specification *)

(** What a worker's step is, position by position. *)
Ltac worker_cases fd g t a answer El Hfd Hgt H :=
  match type of El with _ = Some (a, ?pc) => destruct pc end;
  cbn -[ITERS Nat.ltb chaos_io_write chaos_io_fsync after_writes payload] in H; try discriminate H;
  match type of H with
  | context [chaos_io_write _ _ ?n _] =>
      let g' := fresh "g'" in let E := fresh "E" in let Hg' := fresh "Hg'" in
      destruct (herd_write fd answer g n Hgt) as (g' & E & Hg'); rewrite Hfd, E in H
  | context [chaos_io_fsync] => rewrite Hfd, (herd_fsync fd g Hgt) in H
  | context [is_free ?o] => destruct o; [discriminate H|]
  | _ => idtac
  end;
  repeat match type of H with
  | context [(?i <? ITERS)%nat] => destruct (Nat.ltb_spec i ITERS)
  | context [?u <=? ?n] => destruct (Z.leb_spec u n)
  | context [bool_decide ?P] => let B := fresh "B" in destruct (bool_decide_reflect P) as [B|B]
  | context [if ?st then _ else _] => destruct st eqn:?
  end; try discriminate H; injection H as <-.

Ltac lock_tac := unfold lock_step; cbn; intuition congruence.

(** A worker's step. *)
Lemma worker_do_inv fd g0 t answer s s' :
  herd_table fd g0 -> threads_inv fd g0 s -> worker_do t answer s = Some s' -> threads_inv fd g0 s'.
Proof.
  intros Hg Hi H. unfold worker_do in H. destruct (ht_workers s !! t) as [[a pc]|] eqn:El; [|done].
  destruct s as [now mn st o1 o2 o3 tag hs ws wt wk g wr]. cbn in El.
  pose proof (ti_past _ _ _ Hi t a pc El) as Hpast. destruct (ti_pcs _ _ _ Hi t a pc El) as [Hfd Hok].
  pose proof (ti_table _ _ _ Hi) as Ht. cbn in Hpast, Hok, Ht.
  assert (Hgt : herd_table fd g) by (rewrite Ht; by apply herd_after).
  pose proof (ti_main_start _ _ _ Hi) as Hms. pose proof (ti_started _ _ _ Hi) as Hst. cbn in Hms, Hst.
  worker_cases fd g t a answer El Hfd Hgt H.
  all: eapply (worker_inv fd g0 now mn); [exact Hi|exact El|done|lock_tac|lock_tac|lock_tac|..].
  all: cbn -[ITERS chaos_io_write] in *; try (intuition (try congruence; try lia)).
  - destruct mn; done.
  - right. exists (payload a), answer. rewrite length_payload in *. change (Z.of_nat 64) with 64 in *. by rewrite E.
Qed.

(** The specification of a worker's replacement. *)
Lemma spec_of_worker now mn st o1 o2 o3 tag hs ws wt wk g wr t w :
  spec_of (HerdThreads now mn st o1 o2 o3 tag hs (<[t := w]> ws) wt wk g wr)
  = Herd now (match o2 with Some (Worker t) => Some t | _ => None end)
      (<[t := spec_pc w.2]> (map (fun w => spec_pc w.2) ws)) wt wk.
Proof. unfold spec_of. cbn. f_equal. apply (list_fmap_insert (fun w : worker_arg_t * wpc => spec_pc w.2)). Qed.

Lemma spec_lookup (ws : list (worker_arg_t * wpc)) t a pc :
  ws !! t = Some (a, pc) -> map (fun w => spec_pc w.2) ws !! t = Some (spec_pc pc).
Proof. intros H. change (map ?f ws) with (f <$> ws). by rewrite list_lookup_fmap, H. Qed.

(** Every step of a worker is no step of the specification or one of its steps,
    which it takes only after the gun. *)
Lemma worker_do_spec fd g0 t answer s s' :
  herd_table fd g0 -> threads_inv fd g0 s -> worker_do t answer s = Some s' ->
  spec_of s' = spec_of s \/
  (ht_started s = true /\ herd_step ITERS TH_FSYNC_DELAY (spec_of s) (spec_of s')).
Proof.
  intros Hg Hi H. unfold worker_do in H. destruct (ht_workers s !! t) as [[a pc]|] eqn:El; [|done].
  destruct s as [now mn st o1 o2 o3 tag hs ws wt wk g wr]. cbn in El.
  pose proof (ti_past _ _ _ Hi t a pc El) as Hpast. destruct (ti_pcs _ _ _ Hi t a pc El) as [Hfd Hok].
  pose proof (ti_table _ _ _ Hi) as Ht. cbn in Hpast, Hok, Ht.
  assert (Hgt : herd_table fd g) by (rewrite Ht; by apply herd_after).
  pose proof (spec_lookup _ _ _ _ El) as Hl.
  worker_cases fd g t a answer El Hfd Hgt H; unfold set_file, set_workers, set_threads;
    cbn [ht_now ht_main ht_started ht_start_mu ht_mu ht_tot_mu ht_next_tag ht_handles ht_workers ht_total_wait
         ht_total_work ht_table ht_wrote set_start_mu set_mu set_tot_mu set_totals set_threads];
    rewrite spec_of_worker; cbn -[ITERS] in *; unfold spec_of;
    cbn [ht_now ht_mu ht_workers ht_total_wait ht_total_work].
  all: try (left; by rewrite list_insert_id).
  all: try (right; split; [by apply Hpast|econstructor; try done; try exact Hl; lia]).
  - left. assert (i = ITERS) as -> by lia. by rewrite list_insert_id.
  - right. destruct Hok as (_ & -> & ->). split; [by apply Hpast|by econstructor].
Qed.

(** A thread starts its function with its argument. *)
Lemma spawn_wrap {F A} (f : F) (a : A) tag e c h w c' :
  chaos_thread_spawn (Some f) a tag e c = (Some (h, w), c') -> thread_wrap w = (wa_tag_id w, (f, a)).
Proof.
  unfold chaos_thread_spawn. destruct (negb (se_calloc e)); [done|]. destruct (pg_alloc_thread_tag c) as [id d].
  destruct (negb (se_malloc e)); [done|]. destruct (se_create e); [|done]. by intros [= <- <- <-].
Qed.

(** A step of the main thread alone. *)
Lemma main_inv fd g0 now mn st o1 o2 o3 tag hs ws wt wk g wr mn' st' o1' :
  threads_inv fd g0 (HerdThreads now mn st o1 o2 o3 tag hs ws wt wk g wr) ->
  lock_ok in_start o1' ws -> (o1' = Some Main <-> main_in_start mn' = true) ->
  st' = fired mn' -> (st = true -> st' = true) -> woken mn' = woken mn -> spawned mn' = spawned mn ->
  (forall i t h, (i < joined mn')%nat -> hs !! i = Some (Some (t, h)) -> exists a, ws !! t = Some (a, WOver)) ->
  threads_inv fd g0 (HerdThreads now mn' st' o1' o2 o3 tag hs ws wt wk g wr).
Proof.
  intros [H1 H2 H3 Hm Hm2 Hs Hp Hpc Hh Hsp Hj Ht Hw Hc] Hl Hm' Hs' Hss Hwk Hsp' Hj'. cbn in *.
  split; cbn; try done.
  - intros t a pc Hla Hpa. by eapply Hss, Hp.
  - intros t a pc Hla. rewrite Hwk. by eapply Hpc.
  - by rewrite Hsp'.
Qed.

Lemma omap_app_snoc {A B} (f : A -> option B) l x :
  omap f (l ++ [x]) = omap f l ++ (match f x with Some y => [y] | None => [] end).
Proof. rewrite omap_app. f_equal. Qed.

Lemma sum_of_app {A} (f : A -> Z) l k : sum_of f (l ++ k) = sum_of f l + sum_of f k.
Proof. induction l as [|x l IH]; cbn [app sum_of]; lia. Qed.

Lemma sum_of_map {A B} (f : B -> Z) (h : A -> B) l : sum_of f (map h l) = sum_of (fun x => f (h x)) l.
Proof. induction l as [|x l IH]; cbn [map sum_of]; [done|]. by rewrite IH. Qed.

Lemma sum_of_ext {A} (f h : A -> Z) l : (forall x, f x = h x) -> sum_of f l = sum_of h l.
Proof. intros E. induction l as [|x l IH]; cbn [sum_of]; [done|]. by rewrite E, IH. Qed.

(** Worker [i] is spawned, or its spawn fails. *)
Lemma spawn_inv fd g0 now i st o1 o2 o3 tag hs ws wt wk g wr tag' (r : option (worker_arg_t * chaos_thread_t)) :
  threads_inv fd g0 (HerdThreads now (MSpawn i) st o1 o2 o3 tag hs ws wt wk g wr) -> (i < WORKERS)%nat ->
  (forall a h, r = Some (a, h) -> wk_io_fd a = fd) ->
  threads_inv fd g0 (HerdThreads now (MSpawn (S i)) st o1 o2 o3 tag'
    (hs ++ [(fun ah => (length ws, ah.2)) <$> r])
    (ws ++ match r with Some (a, _) => [(a, WStart)] | None => [] end) wt wk g wr).
Proof.
  intros [H1 H2 H3 Hm Hm2 Hs Hp Hpc Hh [Hsp1 Hsp2] Hj Ht Hw Hc] Hi Hr. cbn in *.
  assert (Hspl : length (hs ++ [(fun ah : worker_arg_t * chaos_thread_t => (length ws, ah.2)) <$> r]) = S i)
    by (rewrite length_app; cbn; lia).
  destruct r as [[a h]|]; cbn [fmap option_fmap option_map] in *.
  2:{ rewrite app_nil_r. split; cbn; try done; [|by intros; lia]. by rewrite omap_app_snoc, app_nil_r. }
  split; cbn; try done; try (by apply lock_ok_snoc); try (by intros; lia).
  - intros t b pc [[_ Hl]|[_ [= <- <-]]]%lookup_snoc_Some; [by eapply Hp|done].
  - intros t b pc [[_ Hl]|[_ [= <- <-]]]%lookup_snoc_Some; [by eapply Hpc|]. split; [by eapply Hr|done].
  - rewrite omap_app_snoc, Hh, length_app, Nat.add_1_r, seq_S. done.
  - rewrite sum_of_app. cbn. lia.
Qed.

(** The broadcast: nobody waits any more. *)
Lemma wake_inv fd g0 now t0 st o1 o2 o3 tag hs ws wt wk g wr :
  threads_inv fd g0 (HerdThreads now (MBroadcast t0) st o1 o2 o3 tag hs ws wt wk g wr) ->
  threads_inv fd g0 (HerdThreads now (MUnlock t0) st o1 o2 o3 tag hs (map wake ws) wt wk g wr).
Proof.
  intros [H1 H2 H3 Hm Hm2 Hs Hp Hpc Hh Hsp Hj Ht Hw Hc]. cbn in *.
  split; cbn; try done; try (by apply lock_ok_map; [by intros [b []]|]); try (by intros; lia).
  - intros t a pc Hl. change (map wake ws) with (wake <$> ws) in Hl. rewrite list_lookup_fmap in Hl.
    destruct (ws !! t) as [[b q]|] eqn:E; [|done]. specialize (Hpc t b q E).
    destruct q; cbn in Hl; injection Hl as <- <-; cbn in *; tauto.
  - by rewrite length_map.
  - rewrite sum_of_map, Hc. apply sum_of_ext. by intros [b []].
Qed.

Lemma not_worker_main ws own : lock_ok in_start own ws -> own = Some Main -> lock_ok in_start None ws.
Proof. intros Ho ->. by eapply lock_ok_main; [..|exact Ho]. Qed.

Lemma main_do_inv fd g0 e s s' : threads_inv fd g0 s -> main_do fd e s = Some s' -> threads_inv fd g0 s'.
Proof.
  intros Hi H. destruct s as [now mn st o1 o2 o3 tag hs ws wt wk g wr].
  pose proof (ti_start _ _ _ Hi) as Hl. pose proof (ti_main_start _ _ _ Hi) as Hms.
  pose proof (ti_started _ _ _ Hi) as Hst. pose proof (ti_joined _ _ _ Hi) as Hj.
  pose proof (ti_spawned _ _ _ Hi) as [Hsp1 Hsp2]. cbn in Hl, Hms, Hst, Hj, Hsp1, Hsp2.
  unfold main_do in H. destruct mn; cbn -[WORKERS Nat.ltb chaos_thread_spawn thread_wrap] in H, Hms, Hst, Hj, Hsp1, Hsp2.
  - destruct (Nat.ltb_spec i WORKERS) as [Hlt|Hge].
    + destruct (chaos_thread_spawn _ _ _ _ _) as [r tag'] eqn:E.
      destruct r as [[h w]|].
      * rewrite (spawn_wrap _ _ _ _ _ _ _ _ E) in H. injection H as <-.
        apply (spawn_inv _ _ _ _ _ _ _ _ _ _ _ _ _ _ _ tag' (Some (WorkerArg (Z.of_nat i + 1) fd, h)) Hi Hlt).
        by intros a h' [= <- _].
      * injection H as <-. pose proof (spawn_inv _ _ _ _ _ _ _ _ _ _ _ _ _ _ _ tag' None Hi Hlt ltac:(done)) as Hn.
        by rewrite app_nil_r in Hn.
    + injection H as <-. eapply main_inv; [exact Hi|done..| |]; cbn; [lia|by intros; lia].
  - destruct (until <=? now); [|done]. injection H as <-. by eapply main_inv; [exact Hi|..].
  - injection H as <-. by eapply main_inv; [exact Hi|..].
  - destruct o1; [done|]. injection H as <-. eapply main_inv; [exact Hi| |done..].
    by eapply lock_ok_main; [..|exact Hl].
  - injection H as <-. by eapply main_inv; [exact Hi|..].
  - injection H as <-. by apply wake_inv.
  - injection H as <-. eapply main_inv; [exact Hi| |done..|by intros; cbn in *; lia].
    eapply not_worker_main; [exact Hl|by apply Hms].
  - destruct (Nat.ltb_spec i WORKERS) as [Hlt|Hge].
    + assert (Hnext : forall a t h, hs !! i = Some (Some (t, h)) -> ws !! t = Some (a, WOver) ->
                forall j u k, (j < S i)%nat -> hs !! j = Some (Some (u, k)) -> exists b, ws !! u = Some (b, WOver)).
      { intros a t h Hh Hov j u k Hju Hu. destruct (decide (j = i)) as [->|Hne]; [|by apply (Hj j u k); [lia|]].
        rewrite Hh in Hu. injection Hu as <- <-. by exists a. }
      destruct (hs !! i) as [[[t h]|]|] eqn:Eh.
      * destruct (ws !! t) as [[a []]|] eqn:Ew; try done. injection H as <-.
        eapply main_inv; [exact Hi|done..|]. cbn. by eapply Hnext.
      * injection H as <-. eapply main_inv; [exact Hi|done..|]. cbn. intros j u k Hju Hu.
        destruct (decide (j = i)) as [->|Hne]; [congruence|by apply (Hj j u k); [lia|]].
      * apply lookup_ge_None in Eh. lia.
    + injection H as <-. eapply main_inv; [exact Hi|done..|]. cbn -[WORKERS]. intros j u k Hju. apply Hj. lia.
  - done.
Qed.

Lemma herd_do_inv fd g0 c s s' : herd_table fd g0 -> threads_inv fd g0 s -> herd_do fd c s = Some s' -> threads_inv fd g0 s'.
Proof.
  intros Hg Hi H. destruct c as [dt|e|t w|t]; cbn in H.
  - destruct (Z.leb_spec 0 dt); [|done]. injection H as <-. destruct Hi. split; try done.
    intros t a pc Hl. destruct (ti_pcs0 t a pc Hl) as [? Hok]. split; [done|].
    eapply pc_ok_mono; [|exact Hok]. cbn. lia.
  - by eapply main_do_inv.
  - by eapply worker_do_inv.
  - destruct (ht_workers s !! t) as [[a []]|] eqn:El; try done. injection H as <-.
    destruct s as [now mn st o1 o2 o3 tag hs ws wt wk g wr].
    eapply worker_inv; [exact Hi|exact El|done|lock_tac|lock_tac|lock_tac|done|done|by left|by left].
Qed.

Lemma herd_reach fd g0 now tag s :
  herd_table fd g0 -> rtc (threads_step fd) (threads_start now tag g0) s -> threads_inv fd g0 s.
Proof.
  intros Hg Hr. assert (H0 := threads_start_inv fd g0 now tag).
  induction Hr as [|x y z [c Hxy] _ IH]; [done|]. by eapply IH, herd_do_inv.
Qed.

(** ** The threads implement the specification *)

Lemma worker_do_frame t answer s s' :
  worker_do t answer s = Some s' ->
  ht_main s' = ht_main s /\ ht_now s' = ht_now s /\ ht_handles s' = ht_handles s /\
  exists a pc pc', ht_workers s !! t = Some (a, pc) /\ ht_workers s' = <[t := (a, pc')]> (ht_workers s).
Proof.
  unfold worker_do. destruct (ht_workers s !! t) as [[a pc]|] eqn:El; [|done]. cbv zeta. intros H.
  destruct pc; repeat case_match; try done; injection H as <-; by eauto 8.
Qed.

(** Once the gun has gone off the threads are where some run of the
    specification is; before, where it starts. *)
Definition follows (s : herd_threads) : Prop :=
  match gun (ht_main s) with
  | Some t0 => rtc (herd_step ITERS TH_FSYNC_DELAY) (herd_start (length (ht_workers s)) t0) (spec_of s)
  | None => spec_of s = herd_start (length (ht_workers s)) (ht_now s)
  end.

(** The main thread's steps do not show, apart from the spawns and the gun. *)
Lemma main_do_follows fd e s s' : follows s -> main_do fd e s = Some s' -> follows s'.
Proof.
  intros Hf H. destruct s as [now mn st o1 o2 o3 tag hs ws wt wk g wr].
  unfold main_do in H. destruct mn; cbn -[WORKERS Nat.ltb chaos_thread_spawn thread_wrap] in H.
  - destruct (i <? WORKERS)%nat; [|by injection H as <-].
    destruct (chaos_thread_spawn _ _ _ _ _) as [r tag'] eqn:E. destruct r as [[h w]|]; [|by injection H as <-].
    rewrite (spawn_wrap _ _ _ _ _ _ _ _ E) in H. injection H as <-. unfold follows, spec_of in Hf |- *. cbn in Hf |- *.
    unfold herd_start in *. injection Hf as E1 E2 E3 E4. rewrite length_app, Nat.add_comm. cbn [length Nat.add].
    rewrite replicate_S_end, map_app, E1, E2. by subst.
  - destruct (until <=? now); [|done]. by injection H as <-.
  - injection H as <-. unfold follows in *. cbn in *. rewrite <- Hf. apply rtc_refl.
  - destruct o1; [done|]. by injection H as <-.
  - by injection H as <-.
  - injection H as <-. unfold follows, spec_of in *. cbn in *. rewrite length_map, map_map.
    erewrite map_ext; [exact Hf|]. by intros [a []].
  - by injection H as <-.
  - by repeat case_match; try done; injection H as <-.
  - done.
Qed.

Lemma herd_do_follows fd g0 c s s' :
  herd_table fd g0 -> threads_inv fd g0 s -> follows s -> herd_do fd c s = Some s' -> follows s'.
Proof.
  intros Hg Hi Hf H. destruct c as [dt|e|t w|t]; cbn in H.
  - destruct (Z.leb_spec 0 dt); [|done]. injection H as <-. unfold follows, spec_of in *. cbn.
    destruct (gun (ht_main s)); [|unfold herd_start in *; congruence].
    eapply rtc_r; [exact Hf|]. by constructor.
  - by eapply main_do_follows.
  - destruct (worker_do_frame _ _ _ _ H) as (Em & En & _ & a & pc & pc' & _ & Ew).
    pose proof (worker_do_spec _ _ _ _ _ _ Hg Hi H) as Hs. unfold follows in *. rewrite Em, En, Ew, length_insert.
    destruct Hs as [->|[Hst Hs]]; [exact Hf|].
    destruct (gun (ht_main s)) eqn:Eg; [by eapply rtc_r|]. rewrite (ti_started _ _ _ Hi) in Hst.
    by destruct (ht_main s).
  - destruct (ht_workers s !! t) as [[a []]|] eqn:El; try done. injection H as <-.
    destruct s as [now mn st o1 o2 o3 tag hs ws wt wk g wr]. unfold follows, set_workers, set_threads in *. cbn in *.
    rewrite spec_of_worker, length_insert. cbn.
    rewrite list_insert_id by (by apply (spec_lookup ws t a WWaiting)). exact Hf.
Qed.

Lemma herd_reach_follows fd g0 now tag s :
  herd_table fd g0 -> rtc (threads_step fd) (threads_start now tag g0) s -> follows s.
Proof.
  intros Hg Hr. assert (H0 : follows (threads_start now tag g0)) by done.
  assert (Hi := threads_start_inv fd g0 now tag).
  induction Hr as [|x y z [c Hxy] _ IH]; [done|]. apply IH; [by eapply herd_do_follows|by eapply herd_do_inv].
Qed.

(** ** Every run ends *)

(** Steps a worker and the main thread have left, at most: twelve an iteration;
    a broadcast can send each worker round the test of [started] once more. *)
Definition worker_left (w : worker_arg_t * wpc) : Z :=
  let left i := 12 * (Z.of_nat ITERS - Z.of_nat i) in
  match w.2 with
  | WStart | WWoken => left 0%nat + 5
  | WTest => left 0%nat + 4
  | WWaiting => left 0%nat + 3
  | WGo => left 0%nat + 2
  | WIdle i => left i + 1
  | WWant i _ => left i
  | WGot i _ => left i - 1
  | WWrite i _ _ => left i - 2
  | WSync i _ _ => left i - 3
  | WSyncing i _ _ _ => left i - 4
  | WSynced i _ _ => left i - 5
  | WUnlock i _ _ _ => left i - 6
  | WAccount i _ _ _ => left i - 7
  | WTotal i _ _ _ => left i - 8
  | WAdd i _ _ _ _ _ => left i - 9
  | WTotalDone i => left i - 10
  | WOver => 0
  end.

Definition main_left (m : mpc) : Z :=
  let n := Z.of_nat WORKERS in
  match m with
  | MSpawn i => 3 * n + 8 + (12 * Z.of_nat ITERS + 6) * (n - Z.of_nat i)
  | MSleep _ => 3 * n + 7
  | MGun => 3 * n + 6
  | MLock _ => 3 * n + 5
  | MSet _ => 3 * n + 4
  | MBroadcast _ => 3 * n + 3
  | MUnlock _ => n + 2
  | MJoin _ i => Z.of_nat (WORKERS - i) + 1
  | MDone _ _ => 0
  end.

Definition herd_left (s : herd_threads) : Z := main_left (ht_main s) + sum_of worker_left (ht_workers s).

(** The steps that are a thread's own, and the spurious wake-ups, of a schedule. *)
Definition active (c : herd_choice) : bool := match c with HcMain _ | HcWorker _ _ => true | _ => false end.
Definition spurious (c : herd_choice) : bool := match c with HcSpurious _ => true | _ => false end.

Lemma sum_of_nonneg {A} (f : A -> Z) l : (forall t x, l !! t = Some x -> 0 <= f x) -> 0 <= sum_of f l.
Proof.
  induction l as [|x l IH]; intros H; cbn [sum_of]; [done|].
  pose proof (H 0%nat x eq_refl). specialize (IH (fun t => H (S t))). lia.
Qed.

Lemma workers_bound fd g0 s : threads_inv fd g0 s -> (length (ht_workers s) <= WORKERS)%nat.
Proof.
  intros Hi. pose proof (ti_handles _ _ _ Hi) as Hh. destruct (ti_spawned _ _ _ Hi) as [H1 H2].
  apply (f_equal length) in Hh. rewrite length_seq in Hh. rewrite <- Hh.
  assert (forall hs : list (option (nat * chaos_thread_t)), (length (omap (fun h => fst <$> h) hs) <= length hs)%nat) as Hl.
  { induction hs as [|[h|] hs IH]; cbn; lia. }
  specialize (Hl (ht_handles s)). lia.
Qed.

Lemma herd_left_nonneg fd g0 s : threads_inv fd g0 s -> 0 <= herd_left s.
Proof.
  intros Hi. unfold herd_left. assert (0 <= sum_of worker_left (ht_workers s)).
  { apply sum_of_nonneg. intros t [a pc] Hl. destruct (ti_pcs _ _ _ Hi t a pc Hl) as [_ Hok].
    unfold worker_left. destruct pc; cbn -[ITERS] in *; unfold ITERS in *; lia. }
  assert (0 <= main_left (ht_main s)); [|lia].
  destruct (ti_spawned _ _ _ Hi) as [_ Hs]. unfold main_left. destruct (ht_main s); cbn in *; unfold WORKERS, ITERS in *; lia.
Qed.

(** A worker's step uses one up. *)
Lemma worker_do_left fd g0 t answer s s' :
  herd_table fd g0 -> threads_inv fd g0 s -> worker_do t answer s = Some s' -> herd_left s' + 1 <= herd_left s.
Proof.
  intros Hg Hi H. unfold worker_do in H. destruct (ht_workers s !! t) as [[a pc]|] eqn:El; [|done].
  destruct s as [now mn st o1 o2 o3 tag hs ws wt wk g wr]. cbn in El.
  destruct (ti_pcs _ _ _ Hi t a pc El) as [Hfd Hok].
  pose proof (ti_table _ _ _ Hi) as Ht. cbn in Hok, Ht.
  assert (Hgt : herd_table fd g) by (rewrite Ht; by apply herd_after).
  worker_cases fd g t a answer El Hfd Hgt H; unfold herd_left;
    cbn [set_file set_workers set_threads set_start_mu set_mu set_tot_mu set_totals ht_main ht_workers];
    rewrite (sum_of_insert _ _ _ _ _ El); cbn -[ITERS Z.mul main_left] in *; unfold worker_left; cbn -[ITERS Z.mul]; lia.
Qed.

Lemma wake_left ws : sum_of worker_left (map wake ws) <= sum_of worker_left ws + 2 * Z.of_nat (length ws).
Proof.
  induction ws as [|[a pc] ws IH]; cbn [map sum_of length]; [done|].
  assert (worker_left (wake (a, pc)) <= worker_left (a, pc) + 2); [|lia].
  destruct pc; unfold worker_left; cbn -[ITERS Z.mul]; lia.
Qed.

Lemma main_do_left fd g0 e s s' : threads_inv fd g0 s -> main_do fd e s = Some s' -> herd_left s' + 1 <= herd_left s.
Proof.
  intros Hi H. pose proof (workers_bound _ _ _ Hi) as Hb. destruct (ti_spawned _ _ _ Hi) as [_ Hs].
  destruct s as [now mn st o1 o2 o3 tag hs ws wt wk g wr].
  unfold main_do in H. unfold herd_left. cbn [ht_workers] in *.
  destruct mn; cbn -[WORKERS Nat.ltb chaos_thread_spawn thread_wrap] in H, Hs.
  - destruct (Nat.ltb_spec i WORKERS).
    + destruct (chaos_thread_spawn _ _ _ _ _) as [r tag'] eqn:E. destruct r as [[h w]|].
      * rewrite (spawn_wrap _ _ _ _ _ _ _ _ E) in H. injection H as <-.
        cbn [ht_main ht_workers set_main set_threads main_left]. rewrite sum_of_app. cbn [sum_of].
        change (worker_left (_, WStart)) with (12 * (Z.of_nat ITERS - 0) + 5). lia.
      * injection H as <-. cbn. unfold ITERS, WORKERS in *. lia.
    + injection H as <-. cbn. unfold ITERS, WORKERS in *. lia.
  - destruct (until <=? now); [|done]. injection H as <-. cbn. lia.
  - injection H as <-. cbn. lia.
  - destruct o1; [done|]. injection H as <-. cbn. lia.
  - injection H as <-. cbn. lia.
  - injection H as <-. cbn [ht_main ht_workers set_main set_workers set_threads]. pose proof (wake_left ws).
    unfold main_left. lia.
  - injection H as <-. cbn [ht_main ht_workers set_main set_start_mu main_left]. lia.
  - destruct (Nat.ltb_spec i WORKERS); repeat case_match; try done; injection H as <-;
      cbn [ht_main ht_workers set_main main_left]; lia.
  - done.
Qed.

(** However the threads are interleaved they take at most 656 steps, and two more
    for every spurious wake-up. *)
Lemma herd_do_bound fd g0 cs s s' :
  herd_table fd g0 -> threads_inv fd g0 s -> herd_do_all fd cs s = Some s' ->
  threads_inv fd g0 s' /\
  herd_left s' + Z.of_nat (count active cs) <= herd_left s + 2 * Z.of_nat (count spurious cs).
Proof.
  intros Hg. revert s. induction cs as [|c cs IH]; intros s Hi H; cbn [herd_do_all] in H.
  { injection H as <-. cbn. split; [done|lia]. }
  destruct (herd_do fd c s) as [s1|] eqn:E; [|done]. change (herd_do_all fd cs s1 = Some s') in H.
  assert (Hi1 : threads_inv fd g0 s1) by (by eapply herd_do_inv). destruct (IH s1 Hi1 H) as [Hi' Hb]. split; [done|].
  destruct c as [dt|e|t w|t]; cbn [count active spurious]; cbn in E.
  - destruct (0 <=? dt); [|done]. injection E as <-. unfold herd_left at 2. cbn. fold (herd_left s). unfold herd_left in *. cbn in *. lia.
  - pose proof (main_do_left _ _ _ _ _ Hi E). lia.
  - pose proof (worker_do_left _ _ _ _ _ _ Hg Hi E). lia.
  - destruct (ht_workers s !! t) as [[a []]|] eqn:El; try done. injection E as <-.
    assert (herd_left (set_workers (<[t:=(a, WWoken)]> (ht_workers s)) s) <= herd_left s + 2); [|lia].
    unfold herd_left. cbn [set_workers set_threads ht_main ht_workers]. rewrite (sum_of_insert _ _ _ _ _ El).
    unfold worker_left. cbn. lia.
Qed.

(** ** No run gets stuck *)

(** Some thread can step, now or after a while. *)
Definition can_step (fd : Z) (s : herd_threads) : Prop :=
  exists dt c s', active c = true /\ herd_do_all fd [HcTime dt; c] s = Some s'.

(** When worker [t] has nothing to wait for but time. *)
Definition unblocked (s : herd_threads) (pc : wpc) : Prop :=
  match pc with
  | WStart | WWoken => is_free (ht_start_mu s) = true
  | WWant _ _ => is_free (ht_mu s) = true
  | WAccount _ _ _ _ => is_free (ht_tot_mu s) = true
  | WWaiting | WOver => False
  | _ => True
  end.

Lemma now_step fd c s s' : active c = true -> herd_do fd c s = Some s' -> can_step fd s.
Proof.
  intros Hc H. exists 0, c, s'. split; [done|]. cbn [herd_do_all herd_do]. rewrite Z.leb_refl, Z.add_0_r.
  change (herd_do_all fd [c] (set_now (ht_now s) s) = Some s'). destruct s. cbn [set_now]. unfold set_now. cbn.
  by rewrite H.
Qed.

Lemma later_step fd c s s' dt :
  0 <= dt -> active c = true -> herd_do fd c (set_now (ht_now s + dt) s) = Some s' -> can_step fd s.
Proof.
  intros Hd Hc H. exists dt, c, s'. split; [done|]. cbn [herd_do_all herd_do]. rewrite (proj2 (Z.leb_le 0 dt) Hd). cbn.
  by rewrite H.
Qed.

Lemma unblocked_steps fd g0 s t a pc :
  herd_table fd g0 -> threads_inv fd g0 s -> ht_workers s !! t = Some (a, pc) -> unblocked s pc -> can_step fd s.
Proof.
  intros Hg Hi El Hu. destruct (ti_pcs _ _ _ Hi t a pc El) as [Hfd Hok].
  assert (Hgt : herd_table fd (ht_table s)) by (rewrite (ti_table _ _ _ Hi); by apply herd_after).
  assert (exists dt s', 0 <= dt /\ herd_do fd (HcWorker t 0) (set_now (ht_now s + dt) s) = Some s') as (dt & s' & Hd & H).
  2:{ exact (later_step fd (HcWorker t 0) s s' dt Hd eq_refl H). }
  exists (match pc with WSyncing _ _ _ until => Z.max 0 (until - ht_now s) | _ => 0 end). cbn [herd_do].
  unfold worker_do. cbn [ht_workers set_now]. rewrite El.
  destruct pc; cbn [unblocked] in Hu; try done;
    cbn [ht_start_mu ht_mu ht_tot_mu ht_table ht_now set_now]; rewrite ?Hu; cbv zeta; try (by eexists).
  - destruct (ht_started (set_now _ s)); by eexists.
  - destruct (i <? ITERS)%nat; by eexists.
  - rewrite Hfd. destruct (herd_write fd 0 (ht_table s) (Z.of_nat (length (payload a))) Hgt) as (g' & E & _).
    rewrite E, bool_decide_true by lia. by eexists.
  - rewrite Hfd, (herd_fsync fd _ Hgt). by eexists.
  - rewrite (proj2 (Z.leb_le until _)) by lia. eexists. split; [lia|reflexivity].
Qed.

(** Whoever wants a mutex gets it or its holder can step. *)
Lemma lock_or_steps fd g0 s holds own :
  herd_table fd g0 -> threads_inv fd g0 s -> lock_ok holds own (ht_workers s) -> own <> Some Main ->
  (forall pc, holds pc = true -> unblocked s pc) -> is_free own = true \/ can_step fd s.
Proof.
  intros Hg Hi Ho Hm Hh. destruct (is_free own) eqn:Ef; [by left|right].
  destruct (lock_holder _ _ _ Ho Hm Ef) as (t & a & pc & Hl & Hp). eapply unblocked_steps; [done|done|exact Hl|by apply Hh].
Qed.

Lemma start_or_steps fd g0 s :
  herd_table fd g0 -> threads_inv fd g0 s -> main_in_start (ht_main s) = false ->
  is_free (ht_start_mu s) = true \/ can_step fd s.
Proof.
  intros Hg Hi Hm. eapply lock_or_steps; [done|exact Hi|apply (ti_start _ _ _ Hi)| |by intros []].
  intros E%(ti_main_start _ _ _ Hi). congruence.
Qed.

(** A worker that is neither over nor waiting for the gun. *)
Lemma worker_or_steps fd g0 s t a pc :
  herd_table fd g0 -> threads_inv fd g0 s -> main_in_start (ht_main s) = false ->
  ht_workers s !! t = Some (a, pc) -> pc <> WOver -> pc <> WWaiting -> can_step fd s.
Proof.
  intros Hg Hi Hm Hl Ho Hw. destruct (ti_main_others _ _ _ Hi) as [Hm2 Hm3].
  destruct (start_or_steps fd g0 s Hg Hi Hm) as [H1|]; [|done].
  destruct (lock_or_steps fd g0 s in_mu _ Hg Hi (ti_mu _ _ _ Hi) Hm2 ltac:(by intros [])) as [H2|]; [|done].
  destruct (lock_or_steps fd g0 s in_tot _ Hg Hi (ti_tot _ _ _ Hi) Hm3 ltac:(by intros [])) as [H3|]; [|done].
  eapply unblocked_steps; [done|done|exact Hl|]. by destruct pc.
Qed.

Definition some_env : spawn_env := SpawnEnv true true (Some 0).

Lemma herd_progress fd g0 s :
  herd_table fd g0 -> threads_inv fd g0 s -> (forall t0 dt, ht_main s <> MDone t0 dt) -> can_step fd s.
Proof.
  intros Hg Hi Hd. pose proof (ti_spawned _ _ _ Hi) as [Hsp _].
  assert (Hm : forall s', main_do fd some_env s = Some s' -> can_step fd s)
    by (intros s' H; by apply (now_step fd (HcMain some_env) s s')).
  destruct (ht_main s) as [i|until| |t0|t0|t0|t0|t0 i|t0 dt] eqn:Em; unfold main_do in Hm; rewrite Em in Hm.
  - destruct (i <? WORKERS)%nat; [|by eapply Hm]. destruct (chaos_thread_spawn _ _ _ _ _) as [[[h w]|] tag]; [|by eapply Hm].
    destruct (thread_wrap w).2 as [f a]. by eapply Hm.
  - apply (later_step fd (HcMain some_env) s (set_main MGun (set_now (ht_now s + Z.max 0 (until - ht_now s)) s))
             (Z.max 0 (until - ht_now s))); [lia|done|].
    cbn. unfold main_do. cbn. rewrite Em. by rewrite (proj2 (Z.leb_le until _)) by lia.
  - by eapply Hm.
  - destruct (start_or_steps fd g0 s Hg Hi) as [Hf|]; [by rewrite Em| |done]. rewrite Hf in Hm. by eapply Hm.
  - by eapply Hm.
  - by eapply Hm.
  - by eapply Hm.
  - destruct (Nat.ltb_spec i WORKERS) as [Hlt|]; [|by eapply Hm].
    destruct (ht_handles s !! i) as [[[t h]|]|] eqn:Eh; [|by eapply Hm..].
    assert (Ht : (t < length (ht_workers s))%nat).
    { assert (Hin : t ∈ seq 0 (length (ht_workers s))).
      { rewrite <- (ti_handles _ _ _ Hi). apply list_elem_of_omap. exists (Some (t, h)).
        split; [by eapply list_elem_of_lookup_2|done]. }
      apply elem_of_seq in Hin. lia. }
    destruct (lookup_lt_is_Some_2 _ _ Ht) as [[a pc] El]. rewrite El in Hm.
    destruct (decide (pc = WOver)) as [->|Ho]; [by eapply Hm|].
    eapply worker_or_steps; [done|exact Hi|by rewrite Em|exact El|exact Ho|].
    intros ->. destruct (ti_pcs _ _ _ Hi t a _ El) as [_ Hok]. rewrite Em in Hok. done.
  - by destruct (Hd t0 dt).
Qed.

(** ** What is left at the end *)

Lemma sum_of_over_on {A} (f : A -> Z) l c : Forall (fun x => f x = c) l -> sum_of f l = c * Z.of_nat (length l).
Proof. induction 1 as [|x l Hx _ IH]; cbn [sum_of length]; lia. Qed.

(** The bytes a [write] that answers [w] took. *)
Definition took (w : Z) : Z := Z.max 0 w.

Lemma charged fd answers g b :
  table_wf g -> table g !! fd = Some (Knobs 0 b 0 TH_FSYNC_DELAY) ->
  Forall (fun w => w <= 64) answers -> 0 <= b -> b + 64 * Z.of_nat (length answers) < 2 ^ 63 ->
  table (after_writes fd answers g) !! fd = Some (Knobs 0 (b + sum_of took answers) 0 TH_FSYNC_DELAY).
Proof.
  intros Hg Hb Ha. revert g b Hg Hb. induction Ha as [|w ws Hw _ IH]; intros g b Hg Hb Hb0 Hlt.
  { cbn [sum_of]. by rewrite Z.add_0_r. }
  change (after_writes fd (w :: ws) g) with (after_writes fd ws (chaos_io_write (fun _ => w) fd 64 g).2).
  unfold chaos_io_write. rewrite write_begin_spec, Hb.
  change (k_want (Knobs 0 b 0 TH_FSYNC_DELAY) 64) with (Some 64). cbv iota zeta.
  destruct (write_commit_sim fd w g _ (conj Hg eq_refl)) as [H1 H2]. cbn [length sum_of] in *.
  rewrite Z.add_assoc. unfold took at 1. apply IH; [exact H1| |lia|lia]. cbn [snd]. rewrite H2.
  destruct (Z.ltb_spec 0 w).
  - rewrite lookup_alter_eq, Hb. cbn. rewrite u64_small by lia. by rewrite Z.max_r by lia.
  - rewrite Hb. do 2 f_equal. lia.
Qed.

Lemma file_length wrote :
  Forall (fun p : bytes * Z => length p.1 = 64%nat /\ -1 <= p.2 <= 64) wrote ->
  Z.of_nat (length (file_of wrote)) = sum_of took (map snd wrote).
Proof.
  unfold file_of. induction 1 as [|[p w] l [Hp Hw] _ IH]; [done|]. cbn [map concat sum_of fst snd] in *.
  rewrite length_app, length_take. unfold took at 1. lia.
Qed.

Lemma writes_bound fd g0 s : threads_inv fd g0 s -> (length (ht_wrote s) <= 48)%nat.
Proof.
  intros Hi. pose proof (workers_bound _ _ _ Hi) as Hb. pose proof (ti_count _ _ _ Hi) as Hc.
  assert (Hs : forall ws, (forall t w, ws !! t = Some w -> writes_done w <= 6) ->
            sum_of writes_done ws <= 6 * Z.of_nat (length ws)).
  { induction ws as [|w ws IH]; intros H; cbn [sum_of length]; [lia|].
    pose proof (H 0%nat w eq_refl). specialize (IH (fun t => H (S t))). lia. }
  specialize (Hs (ht_workers s)). unfold WORKERS in Hb. enough (sum_of writes_done (ht_workers s) <= 6 * Z.of_nat (length (ht_workers s))) by lia.
  apply Hs. intros t [a pc] Hl. destruct (ti_pcs _ _ _ Hi t a pc Hl) as [_ Hok].
  destruct pc; cbn -[Z.add] in *; unfold ITERS in *; lia.
Qed.

(** The table is charged with what the file holds. *)
Lemma herd_charged fd name s :
  threads_inv fd (herd_files fd name) s ->
  table (ht_table s) !! fd = Some (Knobs 0 (Z.of_nat (length (file_of (ht_wrote s)))) 0 TH_FSYNC_DELAY).
Proof.
  intros Hi. destruct (herd_opens fd name) as (_ & _ & Hg & Ht). rewrite (ti_table _ _ _ Hi).
  pose proof (ti_wrote _ _ _ Hi) as Hw. pose proof (writes_bound _ _ _ Hi) as Hb.
  rewrite (charged fd _ _ 0 Hg Ht), file_length; [done|exact Hw| |lia|rewrite length_map; lia].
  apply Forall_map. eapply Forall_impl; [exact Hw|]. cbn. lia.
Qed.

Lemma files_ok fd name : herd_table fd (herd_files fd name).
Proof. destruct (herd_opens fd name) as (_ & _ & Hg & Ht). split; [done|by exists 0]. Qed.

(** Once every handle is joined every worker has returned. *)
Lemma all_over fd g0 s :
  threads_inv fd g0 s -> (WORKERS <= joined (ht_main s))%nat -> Forall (fun w => w.2 = WOver) (ht_workers s).
Proof.
  intros Hi Hj. destruct (ti_spawned _ _ _ Hi) as [Hsp Hle]. apply Forall_lookup. intros t w Hl.
  assert (Hin : t ∈ omap (fun h => fst <$> h) (ht_handles s)).
  { rewrite (ti_handles _ _ _ Hi), elem_of_seq. apply lookup_lt_Some in Hl. lia. }
  apply list_elem_of_omap in Hin as (h & Hh & Et). destruct h as [[u h]|]; [|done]. injection Et as ->.
  apply list_elem_of_lookup in Hh as [i Hh].
  destruct (ti_joined _ _ _ Hi i t h) as [a Ha]; [|done|rewrite Hl in Ha; by injection Ha as ->].
  apply lookup_lt_Some in Hh. lia.
Qed.

Lemma spec_over s : Forall (fun w => w.2 = WOver) (ht_workers s) -> herd_over ITERS (spec_of s).
Proof.
  unfold herd_over, spec_of. cbn. intros H. apply Forall_map. eapply Forall_impl; [exact H|]. by intros [a pc] ->.
Qed.

(** The time the main thread measures. *)
Definition measured (s : herd_threads) : Prop :=
  match ht_main s with
  | MDone t0 dt => Z.of_nat (length (ht_workers s)) * Z.of_nat ITERS * TH_FSYNC_DELAY <= dt /\ dt <= ht_now s - t0
  | _ => True
  end.

Lemma herd_serial_since fd g0 s t0 :
  threads_inv fd g0 s -> follows s -> gun (ht_main s) = Some t0 -> (WORKERS <= joined (ht_main s))%nat ->
  let n := Z.of_nat (length (ht_workers s)) * Z.of_nat ITERS * TH_FSYNC_DELAY in
  n <= ht_now s - t0 /\ n <= ht_total_work s /\ 0 <= ht_total_wait s.
Proof.
  intros Hi Hf Hg Hj. unfold follows in Hf. rewrite Hg in Hf.
  exact (herd_serialised _ TH_FSYNC_DELAY _ _ _ ltac:(done) Hf (spec_over s (all_over _ _ _ Hi Hj))).
Qed.

Lemma herd_do_measured fd g0 c s s' :
  threads_inv fd g0 s -> follows s -> measured s -> herd_do fd c s = Some s' -> measured s'.
Proof.
  intros Hi Hf Hm H. unfold measured in *. destruct c as [dt|e|t w|t]; cbn in H.
  - destruct (Z.leb_spec 0 dt); [|done]. injection H as <-. cbn. destruct (ht_main s); [done..|]. lia.
  - destruct (ht_main s) as [i|until| |t0|t0|t0|t0|t0 i|t0 dt] eqn:Em; unfold main_do in H; rewrite Em in H;
      repeat case_match; try done; injection H as <-; try done.
    apply Nat.ltb_ge in H0. injection H1 as <- <-. cbn [set_main ht_now ht_workers]. split; [|lia].
    apply (herd_serial_since fd g0 s t0 Hi Hf); rewrite Em; [done|exact H0].
  - destruct (worker_do_frame _ _ _ _ H) as (-> & -> & _ & a & pc & pc' & _ & ->). by rewrite length_insert.
  - destruct (ht_workers s !! t) as [[a []]|]; try done. injection H as <-. cbn. by rewrite length_insert.
Qed.

Lemma herd_reach_all fd g0 now tag s :
  herd_table fd g0 -> rtc (threads_step fd) (threads_start now tag g0) s -> threads_inv fd g0 s /\ follows s /\ measured s.
Proof.
  intros Hg Hr.
  assert (H0 : threads_inv fd g0 (threads_start now tag g0) /\ follows (threads_start now tag g0) /\
               measured (threads_start now tag g0)) by (split_and!; [apply threads_start_inv|done|done]).
  induction Hr as [|x y z [c Hxy] _ IH]; [done|]. apply IH. destruct H0 as (Hi & Hf & Hm).
  split_and!; [by eapply herd_do_inv|by eapply herd_do_follows|by eapply herd_do_measured].
Qed.

(** *** A run *)

Lemma herd_do_all_reach fd cs s s' : herd_do_all fd cs s = Some s' -> rtc (threads_step fd) s s'.
Proof.
  revert s. induction cs as [|c cs IH]; intros s H; cbn in H; [injection H as ->; apply rtc_refl|].
  destruct (herd_do fd c s) as [s1|] eqn:E; [|done]. eapply rtc_l; [by exists c|by apply IH].
Qed.

(** Everybody waits for the gun, then the workers run one after the other. *)
Definition one_iteration (t : nat) : list herd_choice :=
  replicate 5 (HcWorker t 64) ++ [HcTime TH_FSYNC_DELAY] ++ replicate 7 (HcWorker t 64).

Definition herd_schedule : list herd_choice :=
  let workers := seq 0 WORKERS in
  replicate 9 (HcMain some_env) ++ concat (map (fun t => [HcWorker t 0; HcWorker t 0]) workers) ++
  [HcTime (10000 * 1000)] ++ replicate 6 (HcMain some_env) ++
  concat (map (fun t => replicate 3 (HcWorker t 0) ++ concat (replicate ITERS (one_iteration t)) ++ [HcWorker t 0])
              workers) ++
  replicate 9 (HcMain some_env).

Definition herd_end : herd_threads :=
  let s := threads_start 0 1 (herd_files 5 "/tmp/playground.abcdef") in default s (herd_do_all 5 herd_schedule s).

Lemma herd_schedule_ends :
  herd_do_all 5 herd_schedule (threads_start 0 1 (herd_files 5 "/tmp/playground.abcdef")) = Some herd_end /\
  ht_main herd_end = MDone 10000000 1440000000 /\ length (ht_workers herd_end) = WORKERS /\
  ht_total_wait herd_end = 0 /\ ht_total_work herd_end = 1440000000 /\ length (file_of (ht_wrote herd_end)) = 3072%nat.
Proof. vm_compute. repeat split. Qed.

(** ** Properties *)

(** C11: the threads of thundering_herd, taken call by call, implement their
    specification.  In every state they reach, by any interleaving and whatever
    spawns fail, the workers are where a run of [herd_step] from the starting
    gun is, with the same clock, holder of [mu] and totals (before the gun: where
    it starts); each of the three mutexes has at most one thread inside, so no
    addition to the totals is lost; no worker is past the gun before [started]
    is set and none is left waiting on the condition variable after the
    broadcast; and the file's slot is charged with exactly the bytes the file
    holds. *)
Theorem herd_refines fd name now tag s :
  rtc (threads_step fd) (threads_start now tag (herd_files fd name)) s ->
  match gun (ht_main s) with
  | Some t0 => rtc (herd_step ITERS TH_FSYNC_DELAY) (herd_start (length (ht_workers s)) t0) (spec_of s)
  | None => spec_of s = herd_start (length (ht_workers s)) (ht_now s)
  end /\
  (forall holds t u a b p q, holds ∈ [in_start; in_mu; in_tot] ->
     ht_workers s !! t = Some (a, p) -> ht_workers s !! u = Some (b, q) -> holds p = true -> holds q = true -> t = u) /\
  (forall t a p, ht_workers s !! t = Some (a, p) ->
     (past_gun p = true -> ht_started s = true) /\ (woken (ht_main s) = true -> p <> WWaiting)) /\
  table (ht_table s) !! fd = Some (Knobs 0 (Z.of_nat (length (file_of (ht_wrote s)))) 0 TH_FSYNC_DELAY).
Proof.
  intros Hr. destruct (herd_reach_all _ _ _ _ _ (files_ok fd name) Hr) as (Hi & Hf & _).
  split_and!; [exact Hf| | |by eapply herd_charged].
  - assert (Hone : forall holds own, lock_ok holds own (ht_workers s) -> forall t u a b p q,
              ht_workers s !! t = Some (a, p) -> ht_workers s !! u = Some (b, q) -> holds p = true -> holds q = true -> t = u).
    { intros holds own Ho t u a b p q Ht Hu Hp Hq.
      assert (own = Some (Worker t)) by (apply Ho; eauto). assert (own = Some (Worker u)) by (apply Ho; eauto). congruence. }
    intros holds t u a b p q Hh. pose proof (ti_start _ _ _ Hi). pose proof (ti_mu _ _ _ Hi). pose proof (ti_tot _ _ _ Hi).
    rewrite !elem_of_cons, elem_of_nil in Hh. destruct Hh as [->|[->|[->|[]]]]; by eapply Hone.
  - intros t a p Hl. split; [by eapply (ti_past _ _ _ Hi)|]. intros Hw ->.
    destruct (ti_pcs _ _ _ Hi t a _ Hl) as [_ Hok]. cbn in Hok. congruence.
Qed.

Lemma herd_refines_witness :
  rtc (herd_step ITERS TH_FSYNC_DELAY) (herd_start 8 10000000) (spec_of herd_end) /\
  table (ht_table herd_end) !! 5 = Some (Knobs 0 3072 0 TH_FSYNC_DELAY).
Proof.
  destruct herd_schedule_ends as (Hr & Hm & Hl & _ & _ & Hf).
  destruct (herd_refines 5 "/tmp/playground.abcdef" 0 1 herd_end (herd_do_all_reach _ _ _ _ Hr)) as (H & _ & _ & Ht).
  rewrite Hm, Hl in H. rewrite Hf in Ht. exact (conj H Ht).
Defined.

(** C12: thundering_herd always ends.  However its threads are scheduled they take
    at most 656 steps, and two more for each spurious wake-up; until the last
    join has returned some thread can step, at once or after a while, so there
    is neither a deadlock nor a lost wake-up; and then every worker has returned
    from all its iterations, the time measured is at least 180 ms for each
    worker that was spawned, the totals cover it, and [run] reports these
    figures and leaves the table the writes left, its file closed. *)
Theorem herd_ends k_took k_mkstemp k_ret fd name seed now0 now tag s :
  k_mkstemp 0%nat = Some (fd, name) -> 0 <= fd ->
  rtc (threads_step fd) (threads_start now tag (herd_files fd name)) s ->
  (forall cs, herd_do_all fd cs (threads_start now tag (herd_files fd name)) = Some s ->
     Z.of_nat (count active cs) <= 656 + 2 * Z.of_nat (count spurious cs)) /\
  ((forall t0 dt, ht_main s <> MDone t0 dt) ->
     exists dt c s', active c = true /\ herd_do_all fd [HcTime dt; c] s = Some s') /\
  (forall t0 dt, ht_main s = MDone t0 dt -> dt < 2 ^ 62 ->
     let n := Z.of_nat (length (ht_workers s)) in
     Forall (fun w => w.2 = WOver) (ht_workers s) /\ Z.of_nat (length (ht_wrote s)) = 6 * n /\
     180 * n <= dt / 1000000 /\ 180 * n <= ht_total_work s / 1000000 /\ 0 <= ht_total_wait s /\
     exists w', th_run k_took k_mkstemp k_ret dt (ht_total_wait s) (ht_total_work s) (map snd (ht_wrote s))
         (rt_init seed now0)
       = (map (pair 0) (th_report (dt / 1000000) (Z.quot (Z.quot (ht_total_wait s) 48) 1000000)
                          (Z.quot (Z.quot (ht_total_work s) 48) 1000000)), FRet 0, w') /\
       rt_slots w' = (chaos_io_close 0 fd (ht_table s)).2).
Proof.
  intros Hk Hfd Hr. pose proof (files_ok fd name) as Hg.
  destruct (herd_reach_all _ _ _ _ _ Hg Hr) as (Hi & Hf & Hm). split_and!.
  - intros cs Hcs. destruct (herd_do_bound _ _ _ _ _ Hg (threads_start_inv _ _ _ _) Hcs) as [_ Hb].
    pose proof (herd_left_nonneg _ _ _ Hi). change (herd_left (threads_start now tag (herd_files fd name))) with 656 in Hb. lia.
  - by eapply herd_progress.
  - intros t0 dt E Hlt n. unfold measured in Hm. rewrite E in Hm.
    assert (Hj : (WORKERS <= joined (ht_main s))%nat) by by rewrite E.
    pose proof (all_over _ _ _ Hi Hj) as Ho.
    destruct (herd_serial_since _ _ s t0 Hi Hf ltac:(by rewrite E) Hj) as (_ & Hwk & Hwt).
    change (Z.of_nat ITERS) with 6 in *. unfold TH_FSYNC_DELAY in *. split_and!; [exact Ho| |zlia|zlia|exact Hwt|].
    + rewrite (ti_count _ _ _ Hi). apply sum_of_over_on. eapply Forall_impl; [exact Ho|]. unfold writes_done. by intros w ->.
    + destruct (th_run_report k_took k_mkstemp k_ret fd name seed now0 dt (ht_total_wait s) (ht_total_work s)
                  (map snd (ht_wrote s)) Hk Hfd) as (w' & Ew & Es); [lia|].
      exists w'. split; [exact Ew|]. rewrite Es. cbn [chaos_io_close snd]. by rewrite (ti_table _ _ _ Hi).
Qed.

Lemma herd_ends_witness :
  exists w', th_run (fun _ => 0) (fun _ => Some (5, "/tmp/playground.abcdef"%string)) (fun _ => 0) 1440000000 0 1440000000
      (map snd (ht_wrote herd_end)) (rt_init 42 0) = (map (pair 0) (th_report 1440 0 30), FRet 0, w').
Proof.
  destruct herd_schedule_ends as (Hr & Hm & Hl & Hwt & Hwk & _).
  destruct (herd_ends (fun _ => 0) (fun _ => Some (5, "/tmp/playground.abcdef"%string)) (fun _ => 0) 5
              "/tmp/playground.abcdef" 42 0 0 1 herd_end eq_refl ltac:(lia) (herd_do_all_reach _ _ _ _ Hr)) as (_ & _ & H).
  destruct (H _ _ Hm ltac:(lia)) as (_ & _ & _ & _ & _ & w' & E & _). rewrite Hwt, Hwk in E. by exists w'.
Defined.
