(* ===== verification/Tui.v ===== *)
(** * The terminal interface: what is on the screen (src/tui/tui.c)

    The event log, the statistics table, the window geometry and the drawing
    functions, the last as the sequences of ncurses calls they make. ncurses is
    not modelled: the sizes it reports are an argument. The event loops are in
    TuiLoop.v. *)

From Stdlib Require Import SpecFloat.
From S2P Require Import Prelude CLib Event Registry Catalogue.

(** ** Colours and attributes *)

(* @ src/tui/tui.c:20-20 CP_NORMAL *)
Definition CP_NORMAL : Z := 1.
(* @ src/tui/tui.c:21-21 CP_CHAOS *)
Definition CP_CHAOS : Z := 2.
(* @ src/tui/tui.c:22-22 CP_FAULT *)
Definition CP_FAULT : Z := 3.
(* @ src/tui/tui.c:23-23 CP_HEADER *)
Definition CP_HEADER : Z := 4.
(* @ src/tui/tui.c:24-24 CP_DIM *)
Definition CP_DIM : Z := 5.
(* @ src/tui/tui.c:25-25 CP_SELECT *)
Definition CP_SELECT : Z := 6.
(* @ src/tui/tui.c:26-26 CP_BAR *)
Definition CP_BAR : Z := 7.
(* @ src/tui/tui.c:27-27 CP_MATCH *)
Definition CP_MATCH : Z := 8.
(* @ src/tui/tui.c:28-28 CP_MISS *)
Definition CP_MISS : Z := 9.

(** [0] or [A_BOLD]. *)
Inductive attr_t := A_NONE | A_BOLD.

#[export] Instance attr_eq_dec : EqDecision attr_t.
Proof. solve_decision. Defined.

Inductive win := win_menu | win_log | win_stats | win_status | win_overlay.

#[export] Instance win_eq_dec : EqDecision win.
Proof. solve_decision. Defined.

(** The four windows of the module; the overlay is [show_overlay]'s own. *)
(* @ src/tui/tui.c:128-128 win_menu *)
Definition screen_windows : list win := [win_menu; win_log; win_stats; win_status].

(** The ncurses calls. *)
Inductive curses :=
| InitPair (cp : Z) (fg bg : string)
| ColorOn (w : win) (cp : Z)
| ColorOff (w : win) (cp : Z)
| BoldOn (w : win)
| BoldOff (w : win)
| Werase (w : win)
| Box (w : win)
| Print (w : win) (y x : Z) (text : list Z)      (* mvwprintw *)
| AddCh (w : win) (y x : Z) (ch : Z)             (* mvwaddch *)
| NoutRefresh (w : win)
| Refresh (w : win)
| DoUpdate
| TouchWin (w : win)
| DelWin (w : win)
| NewWin (w : win) (h wd y x : Z)
| EndWin.

(* @ src/tui/tui.c init_colors *)
Definition init_colors (has_colors : bool) : list curses * bool :=
  if negb has_colors then ([], false)
  else ([InitPair CP_NORMAL "GREEN" "default"; InitPair CP_CHAOS "YELLOW" "default";
         InitPair CP_FAULT "RED" "default"; InitPair CP_HEADER "CYAN" "default";
         InitPair CP_DIM "WHITE" "default"; InitPair CP_SELECT "BLACK" "CYAN";
         InitPair CP_BAR "GREEN" "default"; InitPair CP_MATCH "GREEN" "default";
         InitPair CP_MISS "RED" "default"], true).

(* @ src/tui/tui.c pg_attr_on *)
Definition pg_attr_on (g_has_color : bool) (w : win) (cp : Z) (attr : attr_t) : list curses :=
  (if g_has_color && negb (cp =? 0) then [ColorOn w cp] else []) ++
  (match attr with A_BOLD => [BoldOn w] | A_NONE => [] end).

(* @ src/tui/tui.c pg_attr_off *)
Definition pg_attr_off (g_has_color : bool) (w : win) (cp : Z) (attr : attr_t) : list curses :=
  (if g_has_color && negb (cp =? 0) then [ColorOff w cp] else []) ++
  (match attr with A_BOLD => [BoldOff w] | A_NONE => [] end).

(** ** Formats with a width argument *)

(** [%-*.*s] with the same width and precision: a negative precision is no
    precision, a negative width is a positive one. *)
Definition fmt_field (w : Z) (s : list Z) : list Z :=
  let t := if w <? 0 then s else take (Z.to_nat w) s in
  t ++ replicate (Z.to_nat (Z.abs w) - length t) 32.

(** [%.*s]. *)
Definition fmt_prec (p : Z) (s : list Z) : list Z := if p <? 0 then s else take (Z.to_nat p) s.

(** [%-ns] of bytes. *)
Definition pad_bytes (n : nat) (s : list Z) : list Z := s ++ replicate (n - length s) 32.

(** ** The ring-buffered log *)

(* @ src/tui/tui.c:60-60 LOG_LINES *)
Definition LOG_LINES : Z := 512.
(* @ src/tui/tui.c:61-61 LOG_LINE_LEN *)
Definition LOG_LINE_LEN : nat := 256.

(* @ src/tui/tui.c:63-67 log_entry_t *)
Record log_entry_t := LogEntry { le_text : list Z; le_cp : Z; le_attr : attr_t }.

(** [g_log] and [g_log_count]. *)
(* @ src/tui/tui.c:69-70 g_log *)
Record log_state := LogState { g_log : list log_entry_t; g_log_count : Z }.

Definition blank_entry : log_entry_t := LogEntry (replicate LOG_LINE_LEN 0) 0 A_NONE.
(* @ src/tui/tui.c:69-70 g_log *)
Definition log_init : log_state := LogState (replicate (Z.to_nat LOG_LINES) blank_entry) 0.

(* @ src/tui/tui.c log_clear *)
Definition log_clear (l : log_state) : log_state := LogState (g_log l) 0.

(** [text]: what the format produced. *)
(* @ src/tui/tui.c log_pushf *)
Definition log_pushf (cp : Z) (attr : attr_t) (text : list Z) (l : log_state) : log_state :=
  LogState (<[Z.to_nat (g_log_count l mod LOG_LINES) := LogEntry (snprintf LOG_LINE_LEN text) cp attr]> (g_log l))
           (u32 (g_log_count l + 1)).

(** ** The statistics table *)

(* @ src/tui/tui.c:86-86 STATS_MAX *)
Definition STATS_MAX : nat := 64.

(* @ src/tui/tui.c:88-94 stat_t *)
Record stat_t := Stat {
  st_key : list Z;
  st_value : Z;
  gauge_min : Z;
  gauge_max : Z;
  touched_gauge : bool;
  st_kind : Z
}.

(** [g_stats] and [g_stats_n]. *)
(* @ src/tui/tui.c:96-97 g_stats *)
Record stats_state := Stats { g_stats : list stat_t; g_stats_n : nat }.

Definition zero_stat : stat_t := Stat (replicate 32 0) 0 0 0 false 0.
(* @ src/tui/tui.c:96-97 g_stats *)
Definition stats_init : stats_state := Stats (replicate STATS_MAX zero_stat) 0.

(* @ src/tui/tui.c stats_clear *)
Definition stats_clear (s : stats_state) : stats_state := Stats (g_stats s) 0.

(** The slots in use. *)
Definition stats_used (s : stats_state) : list stat_t := take (g_stats_n s) (g_stats s).

(* @ src/tui/tui.c:103-103 stat_upsert *)
Definition stat_matches (key : list Z) (kind : Z) (s : stat_t) : bool :=
  (st_kind s =? kind) && bool_decide (cstr (st_key s) = cstr key).

(* @ src/tui/tui.c:102-103 stat_upsert *)
Fixpoint find_stat (key : list Z) (kind : Z) (l : list stat_t) : option nat :=
  match l with
  | [] => None
  | s :: l => if stat_matches key kind s then Some 0%nat else S <$> find_stat key kind l
  end.

(** The update of a slot that is there. *)
(* @ src/tui/tui.c:104-109 stat_upsert *)
Definition stat_update (v kind : Z) (delta : bool) (s : stat_t) : stat_t :=
  let gauge := kind =? kind_code PG_EV_GAUGE in
  Stat (st_key s) (if delta then i64 (st_value s + v) else v)
       (if gauge && (negb (touched_gauge s) || (v <? gauge_min s)) then v else gauge_min s)
       (if gauge && (negb (touched_gauge s) || (gauge_max s <? v)) then v else gauge_max s)
       (if gauge then true else touched_gauge s) (st_kind s).

(** The slot taken for a new key; what it held before shows only where nothing
    is written. *)
(* @ src/tui/tui.c:114-121 stat_upsert *)
Definition stat_fill (key : list Z) (v kind : Z) (s : stat_t) : stat_t :=
  let gauge := kind =? kind_code PG_EV_GAUGE in
  Stat (snprintf PG_EVENT_KEY_LEN key) v
       (if gauge then v else gauge_min s) (if gauge then v else gauge_max s)
       (if gauge then true else touched_gauge s) kind.

(* @ src/tui/tui.c stat_upsert *)
Definition stat_upsert (key : list Z) (v kind : Z) (delta : bool) (s : stats_state) : stats_state :=
  match find_stat key kind (stats_used s) with
  | Some i => Stats (alter (stat_update v kind delta) i (g_stats s)) (g_stats_n s)
  | None =>
      if (g_stats_n s <? STATS_MAX)%nat
      then Stats (alter (stat_fill key v kind) (g_stats_n s) (g_stats s)) (S (g_stats_n s))
      else s
  end.

(** ** Event styling *)

(* @ src/tui/tui.c category_color *)
Definition category_color (c : pg_category_t) : Z :=
  match c with
  | PG_CAT_CONCURRENCY => CP_CHAOS
  | PG_CAT_MEMORY => CP_FAULT
  | PG_CAT_NETWORK => CP_HEADER
  | PG_CAT_TIMEIO => CP_NORMAL
  | PG_CAT_COMPOUND => CP_MATCH
  | PG_CAT__COUNT => CP_NORMAL
  end.

(* @ src/tui/tui.c style_for *)
Definition style_for (kind : Z) : Z * attr_t :=
  match kind_of_code kind with
  | Some PG_EV_LOG => (CP_NORMAL, A_NONE)
  | Some PG_EV_PHASE => (CP_HEADER, A_BOLD)
  | Some PG_EV_COUNTER => (CP_DIM, A_NONE)
  | Some PG_EV_GAUGE => (CP_DIM, A_NONE)
  | Some PG_EV_EXPECT => (CP_CHAOS, A_NONE)
  | Some PG_EV_ACTUAL => (CP_CHAOS, A_BOLD)
  | Some PG_EV_SUT_FAULT => (CP_FAULT, A_BOLD)
  | Some PG_EV_CHILD_CRASH => (CP_FAULT, A_BOLD)
  | Some PG_EV_WATCHDOG => (CP_FAULT, A_BOLD)
  | Some PG_EV_DONE => (CP_NORMAL, A_BOLD)
  | None => (CP_NORMAL, A_NONE)
  end.

Open Scope string_scope.

(** The text of the line pushed for an event. *)
(* @ src/tui/tui.c:391-426 push_event *)
Definition event_line (ev : pg_event_t) : list Z :=
  let t := str (pad_left 6 (fmt_f 3 (d_div (d_of_Z (ev_ts_ns ev)) (d_of_Z 1000000000)))) in
  let key := cstr (key_chars ev) in
  let text := cstr (ev_text ev) in
  let num := str (fmt_d (ev_num ev)) in
  match kind_of_code (ev_kind ev) with
  | Some PG_EV_LOG => (t ++ str (" log[t" +:+ fmt_d (ev_thread_tag ev) +:+ "] ") ++ text)%list
  | Some PG_EV_PHASE => (t ++ str " -- " ++ text ++ str " --")%list
  | Some PG_EV_COUNTER => (t ++ str " counter " ++ key ++ str " += " ++ num)%list
  | Some PG_EV_GAUGE => (t ++ str " gauge   " ++ key ++ str " = " ++ num)%list
  | Some PG_EV_EXPECT => (t ++ str " expect  " ++ key ++ str " = " ++ num)%list
  | Some PG_EV_ACTUAL => (t ++ str " actual  " ++ key ++ str " = " ++ num)%list
  | Some PG_EV_SUT_FAULT => (t ++ str " SUT FAULT  " ++ text)%list
  | Some PG_EV_CHILD_CRASH => (t ++ str " CRASH      " ++ text)%list
  | Some PG_EV_WATCHDOG => (t ++ str " WATCHDOG   " ++ text)%list
  | Some PG_EV_DONE => (t ++ str " done.")%list
  | None => (t ++ str " ?")%list
  end.

(** Whether [snprintf] finds the end of the string a record is shown with. *)
(* @ src/tui/tui.c:392-425 push_event *)
Definition event_ends (ev : pg_event_t) : bool :=
  match kind_of_code (ev_kind ev) with
  | Some PG_EV_LOG | Some PG_EV_PHASE | Some PG_EV_SUT_FAULT | Some PG_EV_CHILD_CRASH | Some PG_EV_WATCHDOG =>
      text_ends ev
  | Some PG_EV_COUNTER | Some PG_EV_GAUGE | Some PG_EV_EXPECT | Some PG_EV_ACTUAL => key_ends ev
  | Some PG_EV_DONE | None => true
  end.

(* @ src/tui/tui.c push_event *)
Definition push_event (ev : pg_event_t) (l : log_state) : log_state :=
  let '(cp, attr) := style_for (ev_kind ev) in log_pushf cp attr (event_line ev) l.

(** What a record does to the table. *)
(* @ src/tui/tui.c:482-488 run_scenario *)
Definition stats_event (ev : pg_event_t) (s : stats_state) : stats_state :=
  match kind_of_code (ev_kind ev) with
  | Some PG_EV_COUNTER => stat_upsert (key_chars ev) (ev_num ev) (kind_code PG_EV_COUNTER) true s
  | Some PG_EV_GAUGE => stat_upsert (key_chars ev) (ev_num ev) (kind_code PG_EV_GAUGE) false s
  | Some PG_EV_EXPECT => stat_upsert (key_chars ev) (ev_num ev) (kind_code PG_EV_EXPECT) false s
  | Some PG_EV_ACTUAL => stat_upsert (key_chars ev) (ev_num ev) (kind_code PG_EV_ACTUAL) false s
  | _ => s
  end.

Close Scope string_scope.

(** ** Drawing *)

Section Draw.
Variable g_has_color : bool.
Variable getmaxyx : win -> Z * Z.      (* rows, columns *)

(** A print between [pg_attr_on] and [pg_attr_off]. *)
Definition styled (w : win) (cp : Z) (attr : attr_t) (body : list curses) : list curses :=
  pg_attr_on g_has_color w cp attr ++ body ++ pg_attr_off g_has_color w cp attr.

Open Scope string_scope.

(* @ src/tui/tui.c draw_menu *)
Definition draw_menu {C} (g_scens : list (pg_scenario_t C)) (g_sel : Z) : list curses :=
  let w := (snd (getmaxyx win_menu) - 4)%Z in
  ([Werase win_menu; Box win_menu] ++
   styled win_menu CP_HEADER A_BOLD [Print win_menu 0 2 (str " Failure Playground ")] ++
   concat (imap (fun i s =>
     let is_sel := (Z.of_nat i =? g_sel)%Z in
     styled win_menu (if is_sel then CP_SELECT else category_color (sc_category s))
                     (if is_sel then A_BOLD else A_NONE)
       [Print win_menu (2 + Z.of_nat i) 2 (str " " ++ fmt_field (w - 1) (cstr (str (sc_title s))) ++ str " ")])
     g_scens) ++
   match g_scens !! Z.to_nat g_sel with
   | Some s =>
       let y := (2 + Z.of_nat (length g_scens) + 1)%Z in
       styled win_menu CP_DIM A_NONE
         [Print win_menu y 2 (fmt_field w (cstr (str (sc_one_liner s))));
          Print win_menu (y + 1) 2 (str "expect: " ++ fmt_field (w - 8) (cstr (str (sc_expected s))))]
   | None => []
   end ++
   [NoutRefresh win_menu])%list.

(* @ src/tui/tui.c draw_log *)
Definition draw_log (l : log_state) : list curses :=
  let '(rows, cols) := getmaxyx win_log in
  let viewable := (rows - 2)%Z in
  ([Werase win_log; Box win_log] ++
   styled win_log CP_HEADER A_BOLD [Print win_log 0 2 (str " Event Log ")] ++
   (if (viewable <? 1)%Z then []
    else
      let start := (if viewable <? g_log_count l then g_log_count l - viewable else 0)%Z in
      concat (map (fun i =>
        let e := nth (Z.to_nat (u32 (start + i) mod LOG_LINES)) (g_log l) blank_entry in
        styled win_log (le_cp e) (le_attr e) [Print win_log (1 + i) 1 (fmt_field (cols - 2) (cstr (le_text e)))])
        (seqZ 0 (Z.min viewable (g_log_count l - start))))) ++
   [NoutRefresh win_log])%list.

(** The cells filled: a fraction, clamped to [0, 1]. *)
(* @ src/tui/tui.c:217-220 draw_bar *)
Definition bar_filled (width : Z) (frac : double) : Z :=
  let frac := if SFltb frac (d_of_Z 0) then d_of_Z 0 else frac in
  let frac := if SFltb (d_of_Z 1) frac then d_of_Z 1 else frac in
  let filled := d_trunc (d_mul frac (d_of_Z width)) in
  if (width <? filled)%Z then width else filled.

(* @ src/tui/tui.c draw_bar *)
Definition draw_bar (w : win) (y x width : Z) (frac : double) : list curses :=
  let filled := bar_filled width frac in
  (styled w CP_BAR A_NONE (map (fun i => AddCh w y (x + i) 35) (seqZ 0 filled)) ++
   styled w CP_DIM A_NONE (map (fun i => AddCh w y (x + i) 46) (seqZ filled (width - filled))))%list.

Definition has_kind (k : pg_event_kind_t) (s : stats_state) : bool :=
  existsb (fun e => (st_kind e =? kind_code k)%Z) (stats_used s).

(** One row per slot of a kind while [row < rows - 1]; the next free row. *)
(* @ src/tui/tui.c:250-254 draw_stats *)
Fixpoint stat_rows (k : pg_event_kind_t) (render : Z -> stat_t -> list curses) (rows : Z)
    (l : list stat_t) (row : Z) : list curses * Z :=
  match l with
  | [] => ([], row)
  | s :: l =>
      if (row <? rows - 1)%Z then
        if (st_kind s =? kind_code k)%Z then
          let '(out, row') := stat_rows k render rows l (row + 1) in ((render row s ++ out)%list, row')
        else stat_rows k render rows l row
      else ([], row)
  end.

(** A titled block of rows; [gap]: the blank row after it. *)
Definition stat_block (title : string) (k : pg_event_kind_t) (render : Z -> stat_t -> list curses) (gap : bool)
    (rows : Z) (shown : bool) (l : list stat_t) (row : Z) : list curses * Z :=
  if shown && (row <? rows - 1)%Z then
    let '(out, row') := stat_rows k render rows l (row + 1) in
    ((styled win_stats CP_HEADER A_BOLD [Print win_stats row 1 (str title)] ++ out)%list,
     if gap && (row' <? rows - 1)%Z then row' + 1 else row')%Z
  else ([], row).

(* @ src/tui/tui.c:252-253 draw_stats *)
Definition counter_row (row : Z) (s : stat_t) : list curses :=
  [Print win_stats row 2 (pad_bytes 18 (cstr (st_key s)) ++ str (" " +:+ fmt_d (st_value s)))].

Definition label_w : Z := 14.
Definition value_w : Z := 12.

(* @ src/tui/tui.c:264-275 draw_stats *)
Definition gauge_row (cols : Z) (row : Z) (s : stat_t) : list curses :=
  let bar_width := (cols - label_w - value_w - 4)%Z in
  let bar_width := (if bar_width <? 6 then 6 else bar_width)%Z in
  let span := i64 (gauge_max s - gauge_min s) in
  let frac := if (0 <? span)%Z then d_div (d_of_Z (i64 (st_value s - gauge_min s))) (d_of_Z span) else d_of_Z 1 in
  ([Print win_stats row 1 (str " " ++ fmt_field (label_w - 2) (cstr (st_key s)) ++ str " ")] ++
   draw_bar win_stats row (1 + label_w) bar_width frac ++
   [Print win_stats row (1 + label_w + bar_width + 1) (str (fmt_d (st_value s)))])%list.

(** The actual value paired with an expected one: the first with its key. *)
(* @ src/tui/tui.c:288-296 draw_stats *)
Definition find_actual (l : list stat_t) (key : list Z) : option Z :=
  st_value <$> (find_stat key (kind_code PG_EV_ACTUAL) l ≫= fun i => l !! i).

(* @ src/tui/tui.c:287-307 draw_stats *)
Definition diff_row (l : list stat_t) (row : Z) (s : stat_t) : list curses :=
  let exp := st_value s in
  match find_actual l (st_key s) with
  | Some act =>
      styled win_stats (if (exp =? act)%Z then CP_MATCH else CP_MISS) A_BOLD
        [Print win_stats row 2 (pad_bytes 14 (cstr (st_key s)) ++
           str ("  " +:+ fmt_d exp +:+ " vs " +:+ fmt_d act +:+ "  (" +:+ fmt_plus_d (i64 (act - exp)) +:+ ")"))]
  | None =>
      styled win_stats CP_DIM A_NONE
        [Print win_stats row 2 (pad_bytes 14 (cstr (st_key s)) ++ str ("  " +:+ fmt_d exp +:+ " vs (pending)"))]
  end.

(* @ src/tui/tui.c draw_stats *)
Definition draw_stats (st : stats_state) : list curses :=
  let '(rows, cols) := getmaxyx win_stats in
  let l := stats_used st in
  let '(counters, row) := stat_block "COUNTERS" PG_EV_COUNTER counter_row true rows (has_kind PG_EV_COUNTER st) l 1 in
  let '(gauges, row) := stat_block "GAUGES" PG_EV_GAUGE (gauge_row cols) true rows (has_kind PG_EV_GAUGE st) l row in
  let '(diff, _) := stat_block "EXPECTED vs ACTUAL" PG_EV_EXPECT (diff_row l) false rows
                      (has_kind PG_EV_EXPECT st || has_kind PG_EV_ACTUAL st) l row in
  ([Werase win_stats; Box win_stats] ++
   styled win_stats CP_HEADER A_BOLD [Print win_stats 0 2 (str " Stats ")] ++
   counters ++ gauges ++ diff ++ [NoutRefresh win_stats])%list.

(* @ src/tui/tui.c draw_status *)
Definition draw_status (text : string) : list curses :=
  let cols := snd (getmaxyx win_status) in
  ([Werase win_status] ++
   styled win_status CP_DIM A_NONE [Print win_status 0 1 (fmt_field (cols - 2) (str text))] ++
   [NoutRefresh win_status])%list.

(* @ src/tui/tui.c redraw_all *)
Definition redraw_all {C} (g_scens : list (pg_scenario_t C)) (g_sel : Z) (l : log_state) (st : stats_state)
    (status : string) : list curses :=
  (draw_menu g_scens g_sel ++ draw_log l ++ draw_stats st ++ draw_status status ++ [DoUpdate])%list.

(** *** The lesson overlay *)

(** The inner [while] on one line of [body]: the pieces that fit, the row after
    them, and what is left of the line. *)
(* @ src/tui/tui.c:346-350 show_overlay *)
Fixpoint wrap_line (fuel : nat) (wrap : Z) (bottom : Z) (line : list Z) (y : Z) : list (Z * list Z) * Z * list Z :=
  match fuel with
  | O => ([], y, line)
  | S fuel =>
      if (u64 wrap <? Z.of_nat (length line))%Z && (y <? bottom)%Z then
        let '(out, y', rest) := wrap_line fuel wrap bottom (drop (Z.to_nat wrap) line) (y + 1) in
        ((y, fmt_prec wrap line) :: out, y', rest)
      else ([], y, line)
  end.

(** The outer [while] over the lines of [body]. *)
(* @ src/tui/tui.c:343-355 show_overlay *)
Fixpoint wrap_body (wrap bottom : Z) (lines : list (list Z)) (y : Z) : list (Z * list Z) :=
  match lines with
  | [] => []
  | line :: lines =>
      if negb (bool_decide (line = []) && bool_decide (lines = [])) && (y <? bottom)%Z then
        let '(out, y, rest) := wrap_line (S (Z.to_nat (bottom - y))) wrap bottom line y in
        let '(last, y) := if (y <? bottom)%Z then ([(y, rest)], y + 1)%Z else ([], y) in
        (out ++ last ++ wrap_body wrap bottom lines y)%list
      else []
  end.

(** The text between newlines; always at least one piece. *)
Fixpoint split_lines (s : list Z) : list (list Z) :=
  match s with
  | [] => [[]]
  | c :: s =>
      if (c =? 10)%Z then [] :: split_lines s
      else match split_lines s with
           | l :: ls => (c :: l) :: ls
           | [] => [[c]]
           end
  end.

(** The overlay's height and width on a screen. *)
(* @ src/tui/tui.c:329-330 show_overlay *)
Definition overlay_size (rows cols : Z) : Z * Z :=
  (if (28 <? rows)%Z then 24 else if (8 <? rows)%Z then rows - 4 else rows,
   if (90 <? cols)%Z then 80 else if (12 <? cols)%Z then cols - 8 else cols)%Z.

(** [rows], [cols] of the screen; the key press is waited for and dropped. *)
(* @ src/tui/tui.c show_overlay *)
Definition show_overlay (rows cols : Z) (title body : option string) : list curses :=
  let '(oh, ow) := overlay_size rows cols in
  let oy := Z.quot (rows - oh) 2 in
  let ox := Z.quot (cols - ow) 2 in
  let text := match cstr (str (default "" body)) with
              | [] => str "(no lesson written for this scenario)"
              | b => b
              end in
  ([NewWin win_overlay oh ow oy ox; Box win_overlay] ++
   styled win_overlay CP_HEADER A_BOLD
     [Print win_overlay 0 2 (str " " ++ cstr (str (default "Lesson" title)) ++ str " ")] ++
   map (fun '(y, t) => Print win_overlay y 2 t) (wrap_body (ow - 4) (oh - 2) (split_lines text) 2) ++
   styled win_overlay CP_DIM A_NONE [Print win_overlay (oh - 2) 2 (str "(press any key)")] ++
   [Refresh win_overlay; DelWin win_overlay] ++
   map TouchWin [win_menu; win_log; win_stats; win_status])%list.

Close Scope string_scope.

End Draw.

(** ** Layout *)

(** Height, width, row and column of a window. *)
Record geometry := Geometry { ge_h : Z; ge_w : Z; ge_y : Z; ge_x : Z }.

(** What [newwin] makes of its arguments on a screen: a height or a width of 0
    extends to the screen's edge. *)
Definition newwin (rows cols : Z) (g : geometry) : geometry :=
  Geometry (if ge_h g =? 0 then rows - ge_y g else ge_h g) (if ge_w g =? 0 then cols - ge_x g else ge_w g)
           (ge_y g) (ge_x g).

(** The arguments of the four calls. *)
(* @ src/tui/tui.c layout_windows *)
Definition layout_calls (rows cols : Z) (w : win) : geometry :=
  let status_h := 1 in
  let main_h := rows - status_h in
  let menu_w := Z.quot cols 3 in
  let menu_w := if menu_w <? 34 then 34 else menu_w in
  let menu_w := if cols - 24 <? menu_w then cols - 24 else menu_w in
  let menu_w := if menu_w <? 20 then 20 else menu_w in
  let right_w := cols - menu_w in
  let log_h := Z.quot (main_h * 2) 3 in
  let stats_h := main_h - log_h in
  match w with
  | win_menu => Geometry main_h menu_w 0 0
  | win_log => Geometry log_h right_w 0 menu_w
  | win_stats => Geometry stats_h right_w log_h menu_w
  | win_status => Geometry status_h cols main_h 0
  | win_overlay => Geometry 0 0 0 0
  end.

(** The windows afterwards; the overlay is not one of them. *)
(* @ src/tui/tui.c layout_windows *)
Definition layout_windows (rows cols : Z) (w : win) : geometry :=
  match w with win_overlay => Geometry 0 0 0 0 | _ => newwin rows cols (layout_calls rows cols w) end.

(** ** Lemmas: the table *)

(** The slot of a kind and key, if there is one. *)
Definition stat_lookup (kk : Z * list Z) (s : stats_state) : option stat_t :=
  find_stat kk.2 kk.1 (stats_used s) ≫= fun i => stats_used s !! i.

(** The kinds the table counts, and the pairs they are filed under. *)
Definition stat_kind (ev : pg_event_t) : option (Z * bool) :=
  match kind_of_code (ev_kind ev) with
  | Some PG_EV_COUNTER => Some (ev_kind ev, true)
  | Some PG_EV_GAUGE | Some PG_EV_EXPECT | Some PG_EV_ACTUAL => Some (ev_kind ev, false)
  | _ => None
  end.

Definition stat_pair (ev : pg_event_t) : option (Z * list Z) :=
  '(k, _) ← stat_kind ev; Some (k, cstr (key_chars ev)).

(** The numbers recorded under a pair, oldest first. *)
Definition recorded (kk : Z * list Z) (evs : list pg_event_t) : list Z :=
  omap (fun ev => kk' ← stat_pair ev; if bool_decide (kk' = kk) then Some (ev_num ev) else None) evs.

(** What the interface promises to show for them. *)
Record shows (kind : Z) (vs : list Z) (s : stat_t) : Prop := {
  sh_counter : kind = kind_code PG_EV_COUNTER -> st_value s = foldl (fun a v => i64 (a + v)) (hd 0 vs) (tl vs);
  sh_last : kind <> kind_code PG_EV_COUNTER -> last vs = Some (st_value s);
  sh_min : kind = kind_code PG_EV_GAUGE -> gauge_min s = foldl Z.min (hd 0 vs) (tl vs);
  sh_max : kind = kind_code PG_EV_GAUGE -> gauge_max s = foldl Z.max (hd 0 vs) (tl vs);
  sh_touched : kind = kind_code PG_EV_GAUGE -> touched_gauge s = true
}.

Lemma find_stat_Some key kind l i :
  find_stat key kind l = Some i -> exists s, l !! i = Some s /\ stat_matches key kind s = true.
Proof.
  revert i. induction l as [|s l IH]; intros i; cbn [find_stat]; [done|].
  destruct (stat_matches key kind s) eqn:E; [intros [= <-]; by exists s|].
  destruct (find_stat key kind l) as [j|]; [|done]. intros [= <-]. by apply IH.
Qed.

Lemma stat_matches_spec key kind s :
  stat_matches key kind s = true <-> st_kind s = kind /\ cstr (st_key s) = cstr key.
Proof. unfold stat_matches. rewrite andb_true_iff, Z.eqb_eq, bool_decide_eq_true. done. Qed.

Definition pair_of (s : stat_t) : Z * list Z := (st_kind s, cstr (st_key s)).

Record stats_wf (s : stats_state) : Prop := {
  sw_length : length (g_stats s) = STATS_MAX;
  sw_n : (g_stats_n s <= STATS_MAX)%nat
}.

(** The slot found is the one filed under the pair. *)
Lemma find_stat_pairs kk l :
  find_stat kk.2 kk.1 l = None <-> (kk.1, cstr kk.2) ∉ (pair_of <$> l).
Proof.
  induction l as [|s l IH]; cbn [find_stat]; [split; [intros _; by apply not_elem_of_nil|done]|].
  rewrite fmap_cons, not_elem_of_cons. destruct (stat_matches kk.2 kk.1 s) eqn:E.
  - split; [done|]. intros [Hne _]. apply stat_matches_spec in E as [E1 E2].
    destruct Hne. unfold pair_of. by rewrite E1, E2.
  - rewrite <- IH. destruct (find_stat kk.2 kk.1 l); [by split; [done|intros []]|].
    split; [|done]. intros _. split; [|done]. intros [= E1 E2].
    assert (stat_matches kk.2 kk.1 s = true) by (by apply stat_matches_spec). congruence.
Qed.

Lemma stats_used_upsert key v kind delta s :
  stats_wf s ->
  stats_wf (stat_upsert key v kind delta s) /\
  stats_used (stat_upsert key v kind delta s) =
    match find_stat key kind (stats_used s) with
    | Some i => alter (stat_update v kind delta) i (stats_used s)
    | None => if (g_stats_n s <? STATS_MAX)%nat
              then stats_used s ++ [stat_fill key v kind (nth (g_stats_n s) (g_stats s) zero_stat)]
              else stats_used s
    end.
Proof.
  intros [Hl Hn]. unfold stat_upsert. destruct (find_stat key kind (stats_used s)) as [i|] eqn:E.
  - apply find_stat_Some in E as (x & Hx & _). apply lookup_lt_Some in Hx. unfold stats_used in Hx.
    rewrite length_take in Hx. split; [split; cbn; [by rewrite length_alter|done]|].
    unfold stats_used. cbn [g_stats_n g_stats]. rewrite <- (take_drop (g_stats_n s) (g_stats s)) at 1.
    rewrite alter_app_l by (rewrite length_take; lia). apply take_app_length'.
    rewrite length_alter, length_take. lia.
  - destruct (Nat.ltb_spec (g_stats_n s) STATS_MAX) as [Hlt|]; [|by split].
    split; [split; cbn [g_stats g_stats_n]; [by rewrite length_alter|lia]|].
    unfold stats_used. cbn [g_stats_n g_stats].
    destruct (lookup_lt_is_Some_2 (g_stats s) (g_stats_n s)) as [x Hx]; [lia|].
    rewrite (nth_lookup_Some _ _ _ _ Hx).
    erewrite take_S_r by (rewrite list_lookup_alter_eq, Hx; reflexivity).
    by rewrite take_alter, decide_False by lia.
Qed.

Lemma shows_first key v kind s : shows kind [v] (stat_fill key v kind s).
Proof.
  split; cbn; intros H; try done; subst kind; done.
Qed.

Lemma shows_next kind vs v s :
  vs <> [] -> shows kind vs s ->
  shows kind (vs ++ [v]) (stat_update v kind (kind =? kind_code PG_EV_COUNTER) s).
Proof.
  intros Hne [H1 H2 H3 H4 H5]. destruct vs as [|x vs]; [done|]. cbn [hd tl app] in *.
  split; cbn [stat_update st_value gauge_min gauge_max touched_gauge hd tl app]; intros Hk.
  - subst kind. rewrite Z.eqb_refl, foldl_snoc, <- (H1 eq_refl). done.
  - rewrite (proj2 (Z.eqb_neq _ _)) by done. by rewrite app_comm_cons, last_snoc.
  - rewrite foldl_snoc, <- (H3 Hk). subst kind. rewrite Z.eqb_refl, (H5 eq_refl). cbn [andb orb negb].
    destruct (Z.ltb_spec v (gauge_min s)); lia.
  - rewrite foldl_snoc, <- (H4 Hk). subst kind. rewrite Z.eqb_refl, (H5 eq_refl). cbn [andb orb negb].
    destruct (Z.ltb_spec (gauge_max s) v); lia.
  - subst kind. done.
Qed.

(** The table after some records: one slot per pair seen. *)
Record stats_inv (evs : list pg_event_t) (s : stats_state) : Prop := {
  si_wf : stats_wf s;
  si_nodup : NoDup (pair_of <$> stats_used s);
  si_pairs : forall kk, kk ∈ (pair_of <$> stats_used s) <-> recorded kk evs <> [];
  si_shows : forall i x, stats_used s !! i = Some x -> shows (st_kind x) (recorded (pair_of x) evs) x
}.

Lemma recorded_snoc kk evs ev :
  recorded kk (evs ++ [ev]) = recorded kk evs ++
    match stat_pair ev with Some kk' => if bool_decide (kk' = kk) then [ev_num ev] else [] | None => [] end.
Proof.
  unfold recorded. rewrite omap_app. f_equal. cbn. destruct (stat_pair ev) as [kk'|]; cbn; [|done].
  by case_bool_decide.
Qed.

Lemma stats_event_kind ev s :
  stats_event ev s = match stat_kind ev with
                     | Some (k, delta) => stat_upsert (key_chars ev) (ev_num ev) k delta s
                     | None => s
                     end.
Proof.
  unfold stats_event, stat_kind. destruct (kind_of_code (ev_kind ev)) as [[]|] eqn:E; try done.
  all: by rewrite (kind_of_code_Some _ _ E).
Qed.

Lemma stat_kind_delta ev k delta :
  stat_kind ev = Some (k, delta) -> k = ev_kind ev /\ delta = (k =? kind_code PG_EV_COUNTER).
Proof.
  unfold stat_kind. destruct (kind_of_code (ev_kind ev)) as [[]|] eqn:E; try done.
  all: intros [= <- <-]; split; [done|]; rewrite (kind_of_code_Some _ _ E); done.
Qed.

(** The pairs a run uses, each once. *)
Definition pairs_of (evs : list pg_event_t) : list (Z * list Z) := remove_dups (omap stat_pair evs).

Lemma recorded_elem kk evs : recorded kk evs <> [] <-> kk ∈ omap stat_pair evs.
Proof.
  induction evs as [|ev evs IH]; cbn; [split; [done|by intros ?%not_elem_of_nil]|].
  unfold recorded in *. cbn. destruct (stat_pair ev) as [kk'|]; cbn; [|exact IH].
  rewrite elem_of_cons. case_bool_decide as E.
  - split; [intros _; by left|done].
  - rewrite IH. split; [by right|]. intros [->|H]; [done|exact H].
Qed.

Lemma stats_room evs ev kk s :
  stats_inv evs s -> stat_pair ev = Some kk -> kk ∉ (pair_of <$> stats_used s) ->
  (length (pairs_of (evs ++ [ev])) <= STATS_MAX)%nat -> (g_stats_n s < STATS_MAX)%nat.
Proof.
  intros [[Hl Hn] Hd Hp _] Hkk Hnew Hcap.
  assert (Hlen : length (stats_used s) = g_stats_n s) by (unfold stats_used; rewrite length_take; lia).
  assert (Hsub : kk :: (pair_of <$> stats_used s) ⊆+ pairs_of (evs ++ [ev])).
  { apply NoDup_submseteq; [by constructor|]. intros x Hx. unfold pairs_of.
    rewrite elem_of_remove_dups, omap_app, elem_of_app. apply elem_of_cons in Hx as [->|Hx].
    - right. cbn. rewrite Hkk. apply list_elem_of_here.
    - left. by apply recorded_elem, Hp. }
  apply submseteq_length in Hsub. cbn in Hsub. rewrite length_fmap, Hlen in Hsub. lia.
Qed.

Lemma pair_of_update v kind delta x : pair_of (stat_update v kind delta x) = pair_of x.
Proof. done. Qed.

Lemma pair_of_fill key v kind x :
  (length (cstr key) < PG_EVENT_KEY_LEN)%nat -> pair_of (stat_fill key v kind x) = (kind, cstr key).
Proof.
  intros H. unfold pair_of. cbn [stat_fill st_kind st_key]. rewrite cstr_snprintf by (unfold PG_EVENT_KEY_LEN; lia).
  rewrite take_ge; [done|]. unfold PG_EVENT_KEY_LEN in *. lia.
Qed.

(** A record whose pair has a slot. *)
Lemma stats_inv_old evs ev s k delta i :
  stats_inv evs s -> stat_kind ev = Some (k, delta) -> find_stat (key_chars ev) k (stats_used s) = Some i ->
  stats_wf (stats_event ev s) ->
  stats_used (stats_event ev s) = alter (stat_update (ev_num ev) k delta) i (stats_used s) ->
  stats_inv (evs ++ [ev]) (stats_event ev s).
Proof.
  intros [Hwf Hd Hp Hs] Hk Hf Hw Hu. apply find_stat_Some in Hf as (x & Hx & [Hxk Hxc]%stat_matches_spec).
  assert (Hpr : stat_pair ev = Some (pair_of x)) by (unfold stat_pair, pair_of; rewrite Hk; cbn; by rewrite Hxk, Hxc).
  assert (Hpairs : pair_of <$> stats_used (stats_event ev s) = pair_of <$> stats_used s).
  { rewrite Hu. apply list_eq. intros j. rewrite !list_lookup_fmap, list_lookup_alter.
    case_decide; [subst j|done]. by destruct (stats_used s !! i). }
  split; [done|by rewrite Hpairs| |].
  - intros kk. rewrite Hpairs, Hp, recorded_snoc, Hpr. split; [intros H1 [? ?]%app_nil; done|].
    intros H1. case_bool_decide as E; [|by rewrite app_nil_r in H1].
    subst kk. apply Hp. apply list_elem_of_fmap. exists x. split; [done|]. by eapply list_elem_of_lookup_2.
  - intros j y Hy. rewrite Hu, list_lookup_alter in Hy. rewrite recorded_snoc, Hpr. case_decide as E.
    + subst j. rewrite Hx in Hy. injection Hy as <-. rewrite pair_of_update, bool_decide_eq_true_2 by done.
      destruct (stat_kind_delta _ _ _ Hk) as [_ ->]. rewrite <- Hxk. apply shows_next; [|by eapply Hs].
      apply Hp. apply list_elem_of_fmap. exists x. split; [done|]. by eapply list_elem_of_lookup_2.
    + rewrite bool_decide_eq_false_2, app_nil_r; [by eapply Hs|].
      intros Heq. apply E. eapply (NoDup_lookup (pair_of <$> stats_used s)); [done| |].
      * rewrite list_lookup_fmap, Hx. reflexivity.
      * by rewrite list_lookup_fmap, Hy, Heq.
Qed.

(** A record with a new pair. *)
Lemma stats_inv_new evs ev s k delta x :
  stats_inv evs s -> stat_kind ev = Some (k, delta) ->
  (length (cstr (key_chars ev)) < PG_EVENT_KEY_LEN)%nat ->
  (k, cstr (key_chars ev)) ∉ (pair_of <$> stats_used s) ->
  stats_wf (stats_event ev s) ->
  stats_used (stats_event ev s) = stats_used s ++ [stat_fill (key_chars ev) (ev_num ev) k x] ->
  stats_inv (evs ++ [ev]) (stats_event ev s).
Proof.
  intros [Hwf Hd Hp Hs] Hk Hkey Hnew Hw Hu. set (kk := (k, cstr (key_chars ev))) in *.
  assert (Hpr : stat_pair ev = Some kk) by (unfold stat_pair; by rewrite Hk).
  assert (Hfill : pair_of (stat_fill (key_chars ev) (ev_num ev) k x) = kk) by (by apply pair_of_fill).
  assert (Hnone : recorded kk evs = []).
  { destruct (recorded kk evs) eqn:E; [done|]. destruct Hnew. apply Hp. by rewrite E. }
  split; [done| | |].
  - rewrite Hu, fmap_app. apply NoDup_app. split; [done|]. split; [|by apply NoDup_singleton].
    cbn. rewrite Hfill. by intros y Hy ->%list_elem_of_singleton.
  - intros kk'. rewrite Hu, fmap_app, elem_of_app, Hp, recorded_snoc, Hpr. cbn. rewrite Hfill, list_elem_of_singleton.
    case_bool_decide as E.
    + subst kk'. split; [intros _ [? ?]%app_nil; done|by right].
    + rewrite app_nil_r. split; [intros [?| ->]; done|by left].
  - intros j y Hy. rewrite Hu in Hy. rewrite recorded_snoc, Hpr. apply lookup_app_Some in Hy as [Hy|[Hj Hy]].
    + rewrite bool_decide_eq_false_2, app_nil_r; [by eapply Hs|]. intros Heq. apply Hnew. rewrite Heq.
      apply list_elem_of_fmap. exists y. split; [done|]. by eapply list_elem_of_lookup_2.
    + apply list_lookup_singleton_Some in Hy as [_ <-]. rewrite Hfill, bool_decide_eq_true_2, Hnone by done.
      apply shows_first.
Qed.

Lemma stats_inv_step evs ev s :
  stats_inv evs s -> (length (cstr (key_chars ev)) < PG_EVENT_KEY_LEN)%nat ->
  (length (pairs_of (evs ++ [ev])) <= STATS_MAX)%nat ->
  stats_inv (evs ++ [ev]) (stats_event ev s).
Proof.
  intros Hi Hkey Hcap. pose proof (stats_event_kind ev s) as He.
  destruct (stat_kind ev) as [[k delta]|] eqn:Hk.
  - destruct (stats_used_upsert (key_chars ev) (ev_num ev) k delta s (si_wf _ _ Hi)) as [Hw Hu]. rewrite <- He in Hw, Hu.
    destruct (find_stat (key_chars ev) k (stats_used s)) as [i|] eqn:Hf; [by eapply stats_inv_old|].
    apply (find_stat_pairs (k, key_chars ev)) in Hf. cbn in Hf.
    assert (Hpr : stat_pair ev = Some (k, cstr (key_chars ev))) by (unfold stat_pair; by rewrite Hk).
    rewrite (proj2 (Nat.ltb_lt _ _)) in Hu by (by eapply stats_room). by eapply stats_inv_new.
  - rewrite He. destruct Hi as [Hwf Hd Hp Hs].
    assert (Hn : stat_pair ev = None) by (unfold stat_pair; by rewrite Hk).
    split; [done|done| |].
    + intros kk. rewrite recorded_snoc, Hn, app_nil_r. apply Hp.
    + intros i x Hx. rewrite recorded_snoc, Hn, app_nil_r. by eapply Hs.
Qed.

Lemma pairs_of_prefix evs evs' : (length (pairs_of evs) <= length (pairs_of (evs ++ evs')))%nat.
Proof.
  apply submseteq_length, NoDup_submseteq; [apply NoDup_remove_dups|].
  intros x. unfold pairs_of. rewrite !elem_of_remove_dups, omap_app, elem_of_app. by left.
Qed.

Lemma stats_run evs s :
  stats_wf s ->
  Forall (fun ev => (length (cstr (key_chars ev)) < PG_EVENT_KEY_LEN)%nat) evs ->
  (length (pairs_of evs) <= STATS_MAX)%nat ->
  stats_inv evs (foldl (fun s ev => stats_event ev s) (stats_clear s) evs).
Proof.
  intros [Hl Hn]. induction evs as [|ev evs IH] using rev_ind; intros Hk Hc.
  - cbn. split; [split; cbn; [done|lia]|constructor| |done].
    intros kk. cbn. split; [by intros ?%not_elem_of_nil|done].
  - apply Forall_app in Hk as [Hk [Hkey _]%Forall_cons]. rewrite foldl_snoc.
    apply stats_inv_step; [|done|done]. apply IH; [done|]. pose proof (pairs_of_prefix evs [ev]). lia.
Qed.

(** Searching for a pair finds its slot. *)
Lemma stats_inv_lookup evs s kk :
  stats_inv evs s -> cstr kk.2 = kk.2 ->
  match stat_lookup kk s with
  | Some x => recorded kk evs <> [] /\ pair_of x = kk /\ shows kk.1 (recorded kk evs) x
  | None => recorded kk evs = []
  end.
Proof.
  intros [_ _ Hp Hs] Hc. destruct kk as [k c]. cbn [fst snd] in *. unfold stat_lookup. cbn [fst snd].
  destruct (find_stat c k (stats_used s)) as [i|] eqn:Hf; cbn.
  - apply find_stat_Some in Hf as (x & Hx & [Hk Hcx]%stat_matches_spec). rewrite Hx.
    assert (Hpx : pair_of x = (k, c)) by (unfold pair_of; by rewrite Hk, Hcx, Hc).
    split_and!; [|done|].
    + apply Hp. rewrite <- Hpx. apply list_elem_of_fmap. exists x. split; [done|]. by eapply list_elem_of_lookup_2.
    + rewrite <- Hpx, <- Hk. by eapply Hs.
  - apply (find_stat_pairs (k, c)) in Hf. cbn in Hf. rewrite Hc in Hf.
    destruct (recorded (k, c) evs) eqn:E; [done|]. destruct Hf. apply Hp. by rewrite E.
Qed.

(** ** Lemmas: the log *)

Definition entry_of (e : Z * attr_t * list Z) : log_entry_t :=
  LogEntry (snprintf LOG_LINE_LEN e.2) e.1.1 e.1.2.

(** A cleared log after some pushes. *)
Definition push_all (l : log_state) (es : list (Z * attr_t * list Z)) : log_state :=
  foldl (fun l e => log_pushf e.1.1 e.1.2 e.2 l) (log_clear l) es.

(** The ring keeps the last 512 entries. *)
Lemma push_all_ring l es :
  length (g_log l) = Z.to_nat LOG_LINES -> Z.of_nat (length es) < 2 ^ 32 ->
  g_log_count (push_all l es) = Z.of_nat (length es) /\
  length (g_log (push_all l es)) = Z.to_nat LOG_LINES /\
  forall i e, es !! i = Some e -> (length es <= i + Z.to_nat LOG_LINES)%nat ->
    g_log (push_all l es) !! Z.to_nat (Z.of_nat i mod LOG_LINES) = Some (entry_of e).
Proof.
  intros Hl. change (Z.to_nat LOG_LINES) with 512%nat in *. change LOG_LINES with 512.
  induction es as [|e es IH] using rev_ind; intros Hn; [cbn; by split_and!|].
  rewrite length_app in Hn. cbn in Hn. destruct IH as (Hc & Hlen & Hr); [lia|].
  unfold push_all in *. rewrite foldl_snoc. set (m := foldl _ _ es) in *. unfold log_pushf. cbn [g_log g_log_count].
  rewrite Hc, length_app, length_insert. change LOG_LINES with 512. split_and!.
  - rewrite u32_small by (cbn; lia). cbn. lia.
  - done.
  - cbn [length]. intros i x Hx Hi. apply lookup_snoc_Some in Hx as [[Hlt Hx]|[-> <-]].
    + rewrite list_lookup_insert_ne; [apply Hr; [done|lia]|]. intros E. apply Z2Nat.inj in E; [|zlia..].
      zlia.
    + apply list_lookup_insert_eq. rewrite Hlen. zlia.
Qed.

(** ** Lemmas: rows *)

Definition row_ok (lo hi : Z) (c : curses) : Prop :=
  match c with Print _ y _ _ | AddCh _ y _ _ => lo <= y <= hi | _ => True end.

Lemma styled_rows hc w cp attr lo hi body :
  Forall (row_ok lo hi) body -> Forall (row_ok lo hi) (styled hc w cp attr body).
Proof.
  intros H. unfold styled, pg_attr_on, pg_attr_off. rewrite !Forall_app.
  split_and!; try done; first [destruct (_ && _); by repeat constructor|destruct attr; by repeat constructor].
Qed.

Lemma bar_rows hc w y x width frac lo hi :
  lo <= y <= hi -> Forall (row_ok lo hi) (draw_bar hc w y x width frac).
Proof.
  intros Hy. unfold draw_bar. apply Forall_app.
  split; apply styled_rows, Forall_fmap, Forall_true; intros i; exact Hy.
Qed.

Lemma stat_rows_in k render rows l row hi :
  (forall r s, 1 <= r <= hi -> Forall (row_ok 0 hi) (render r s)) -> hi = rows - 2 -> 1 <= row ->
  Forall (row_ok 0 hi) (stat_rows k render rows l row).1 /\ row <= (stat_rows k render rows l row).2.
Proof.
  intros Hr Hh. revert row. induction l as [|s l IH]; intros row H1; cbn [stat_rows]; [split; [constructor|done]|].
  destruct (Z.ltb_spec row (rows - 1)); [|split; [constructor|done]].
  destruct (st_kind s =? kind_code k); [|by apply IH].
  destruct (IH (row + 1) ltac:(lia)) as [H2 H3]. destruct (stat_rows k render rows l (row + 1)) as [out row'].
  cbn [fst snd] in *. split; [|lia]. apply Forall_app. split; [apply Hr; lia|done].
Qed.

Lemma stat_block_in hc title k render gap rows shown l row hi :
  (forall r s, 1 <= r <= hi -> Forall (row_ok 0 hi) (render r s)) -> hi = rows - 2 -> 1 <= row ->
  Forall (row_ok 0 hi) (stat_block hc title k render gap rows shown l row).1 /\
  row <= (stat_block hc title k render gap rows shown l row).2.
Proof.
  intros Hr Hh H1. unfold stat_block. destruct shown; [|split; [constructor|done]].
  destruct (Z.ltb_spec row (rows - 1)); [|split; [constructor|done]]. cbn [andb].
  destruct (stat_rows_in k render rows l (row + 1) hi Hr Hh ltac:(lia)) as [H2 H3].
  destruct (stat_rows k render rows l (row + 1)) as [out row']. cbn [fst snd] in *.
  split; [|destruct (gap && _); lia]. apply Forall_app. split; [|done].
  apply styled_rows. constructor; [cbn; lia|constructor].
Qed.

(** Everything the statistics pane prints is above its bottom border. *)
Lemma draw_stats_rows hc dim st :
  2 <= (dim win_stats).1 -> Forall (row_ok 0 ((dim win_stats).1 - 2)) (draw_stats hc dim st).
Proof.
  intros Hrows. unfold draw_stats. destruct (dim win_stats) as [rows cols]. cbn [fst] in *.
  set (l := stats_used st). set (hi := rows - 2).
  pose proof (stat_block_in hc "COUNTERS" PG_EV_COUNTER counter_row true rows (has_kind PG_EV_COUNTER st) l 1 hi) as B1.
  destruct (stat_block _ "COUNTERS" _ _ _ _ _ _ _) as [counters row1]. cbn [fst snd] in *.
  destruct B1 as [B1 R1]; [intros; constructor; [cbn; lia|constructor]|done|done|].
  pose proof (stat_block_in hc "GAUGES" PG_EV_GAUGE (gauge_row hc cols) true rows (has_kind PG_EV_GAUGE st) l row1 hi) as B2.
  destruct (stat_block _ "GAUGES" _ _ _ _ _ _ _) as [gauges row2]. cbn [fst snd] in *.
  destruct B2 as [B2 R2]; [|done|lia|].
  { intros r s Hr. unfold gauge_row. rewrite !Forall_app.
    split_and!; [constructor; [cbn; lia|constructor]|apply bar_rows; lia|constructor; [cbn; lia|constructor]]. }
  pose proof (stat_block_in hc "EXPECTED vs ACTUAL" PG_EV_EXPECT (diff_row hc l) false rows
    (has_kind PG_EV_EXPECT st || has_kind PG_EV_ACTUAL st) l row2 hi) as B3.
  destruct (stat_block _ "EXPECTED vs ACTUAL" _ _ _ _ _ _ _) as [diff row3]. cbn [fst snd] in *.
  destruct B3 as [B3 R3]; [|done|lia|].
  { intros r s Hr. unfold diff_row. destruct (find_actual _ _).
    all: apply styled_rows; constructor; [cbn; lia|constructor]. }
  rewrite !Forall_app. split_and!; try done; [by repeat constructor| |by repeat constructor].
  apply styled_rows. constructor; [cbn; unfold hi; lia|constructor].
Qed.

(** One line of the log pane. *)
Definition log_line (hc : bool) (cols : Z) (i : nat) (e : Z * attr_t * list Z) : list curses :=
  styled hc win_log e.1.1 e.1.2
    [Print win_log (1 + Z.of_nat i) 1 (fmt_field (cols - 2) (take (LOG_LINE_LEN - 1) (cstr e.2)))].

Lemma draw_log_tail hc dim l es rows cols :
  dim win_log = (rows, cols) -> 3 <= rows <= 514 ->
  length (g_log l) = Z.to_nat LOG_LINES -> Z.of_nat (length es) < 2 ^ 32 ->
  draw_log hc dim (push_all l es) =
  [Werase win_log; Box win_log] ++ styled hc win_log CP_HEADER A_BOLD [Print win_log 0 2 (str " Event Log ")] ++
  concat (imap (log_line hc cols) (drop (length es - Z.to_nat (rows - 2)) es)) ++ [NoutRefresh win_log].
Proof.
  intros Hd Hrows Hl Hn. destruct (push_all_ring l es Hl Hn) as (Hc & _ & Hr).
  unfold draw_log. rewrite Hd. rewrite (proj2 (Z.ltb_ge (rows - 2) 1)) by lia. rewrite Hc.
  set (start := if rows - 2 <? Z.of_nat (length es) then Z.of_nat (length es) - (rows - 2) else 0).
  assert (Hs : start = Z.of_nat (length es - Z.to_nat (rows - 2))).
  { subst start. destruct (Z.ltb_spec (rows - 2) (Z.of_nat (length es))); lia. }
  clearbody start. subst start. set (k := (length es - Z.to_nat (rows - 2))%nat).
  do 2 f_equal. f_equal. f_equal. apply list_eq. intros i.
  rewrite list_lookup_fmap, list_lookup_imap, lookup_drop.
  destruct (decide (i < length es - k)%nat) as [Hi|Hi].
  - rewrite lookup_seqZ_lt by lia. destruct (lookup_lt_is_Some_2 es (k + i)) as [e He]; [lia|]. rewrite He. cbn.
    rewrite Z.add_0_l, u32_small by (split; lia). rewrite <- Nat2Z.inj_add.
    change LOG_LINES with 512 in *. rewrite (nth_lookup_Some _ _ _ _ (Hr _ _ He ltac:(lia))).
    unfold log_line. cbn [entry_of le_text le_cp le_attr]. by rewrite cstr_snprintf by (unfold LOG_LINE_LEN; lia).
  - rewrite lookup_seqZ_ge by lia. by rewrite lookup_ge_None_2 by lia.
Qed.

(** ** Lemmas: the overlay *)

(** A line cut into pieces of [w] bytes. *)
Fixpoint chunks (fuel : nat) (w : nat) (l : list Z) : list (list Z) :=
  match fuel with
  | O => [l]
  | S fuel => if (w <? length l)%nat then take w l :: chunks fuel w (drop w l) else [l]
  end.

Lemma concat_chunks fuel w l : concat (chunks fuel w l) = l.
Proof.
  revert l. induction fuel as [|fuel IH]; intros l; cbn [chunks]; [cbn; by rewrite app_nil_r|].
  destruct (w <? length l)%nat; cbn [concat]; [by rewrite IH, take_drop|by rewrite app_nil_r].
Qed.

Lemma chunks_width fuel w l :
  (0 < w)%nat -> (length l <= fuel)%nat -> Forall (fun c => (length c <= w)%nat) (chunks fuel w l).
Proof.
  intros Hw. revert l. induction fuel as [|fuel IH]; intros l Hf; cbn [chunks].
  - constructor; [lia|constructor].
  - destruct (Nat.ltb_spec w (length l)); [|by repeat constructor].
    constructor; [rewrite length_take; lia|]. apply IH. rewrite length_drop. lia.
Qed.

(** Rows from [y] on. *)
Definition place (y : Z) (ls : list (list Z)) : list (Z * list Z) := imap (fun i c => (y + Z.of_nat i, c)) ls.

Lemma place_cons y c ls : place y (c :: ls) = (y, c) :: place (y + 1) ls.
Proof.
  unfold place. cbn. rewrite Z.add_0_r. f_equal. apply imap_ext. intros i x _. cbn. f_equal. lia.
Qed.

Lemma place_app y a b : place y (a ++ b) = place y a ++ place (y + Z.of_nat (length a)) b.
Proof.
  revert y. induction a as [|c a IH]; intros y; cbn [app length]; [by rewrite Z.add_0_r|].
  rewrite !place_cons, IH. cbn [app]. do 3 f_equal. lia.
Qed.

(** The inner loop and the print after it: as many pieces as there are rows. *)
Lemma wrap_line_spec fuel cf (w : nat) bottom line y :
  (0 < w)%nat -> Z.of_nat w < 2 ^ 31 -> (Z.to_nat (bottom - y) < fuel)%nat -> (length line <= cf)%nat ->
  let '(out, y', rest) := wrap_line fuel (Z.of_nat w) bottom line y in
  let n := Z.to_nat (bottom - y) in
  out ++ (if y' <? bottom then [(y', rest)] else []) = place y (take n (chunks cf w line)) /\
  (if y' <? bottom then y' + 1 else y') = y + Z.of_nat (length (take n (chunks cf w line))).
Proof.
  intros Hw Hw2. revert cf line y. induction fuel as [|fuel IH]; intros cf line y Hf Hcf; [lia|].
  cbn [wrap_line]. rewrite u64_small by (split; lia).
  destruct (Z.ltb_spec y bottom) as [Hy|Hy].
  2:{ rewrite andb_false_r. replace (Z.to_nat (bottom - y)) with 0%nat by lia. rewrite take_0.
      rewrite (proj2 (Z.ltb_ge y bottom)) by done. cbn. split; [done|lia]. }
  rewrite andb_true_r. destruct (Z.ltb_spec (Z.of_nat w) (Z.of_nat (length line))) as [Hl|Hl].
  - destruct cf as [|cf]; [lia|]. cbn [chunks]. rewrite (proj2 (Nat.ltb_lt w (length line))) by lia.
    specialize (IH cf (drop w line) (y + 1)). rewrite Nat2Z.id.
    destruct (wrap_line fuel (Z.of_nat w) bottom (drop w line) (y + 1)) as [[out y'] rest].
    destruct IH as [E1 E2]; [lia|rewrite length_drop; lia|].
    replace (Z.to_nat (bottom - y)) with (S (Z.to_nat (bottom - (y + 1)))) by lia. cbn [take length].
    rewrite place_cons. cbn [app]. rewrite E1, E2. split; [|lia].
    unfold fmt_prec. rewrite (proj2 (Z.ltb_ge (Z.of_nat w) 0)) by lia. by rewrite Nat2Z.id.
  - assert (chunks cf w line = [line]) as ->.
    { destruct cf as [|cf]; [done|]. cbn [chunks]. by rewrite (proj2 (Nat.ltb_ge w (length line))) by lia. }
    rewrite (proj2 (Z.ltb_lt y bottom)) by done.
    destruct (Z.to_nat (bottom - y)) as [|n] eqn:E; [lia|]. rewrite (take_ge [line]) by (cbn; lia).
    cbn. split; [by rewrite Z.add_0_r|lia].
Qed.

(** The lines that are shown: all but an empty last one. *)
Fixpoint shown_lines (ls : list (list Z)) : list (list Z) :=
  match ls with
  | [] => []
  | l :: ls => if bool_decide (l = []) && bool_decide (ls = []) then [] else l :: shown_lines ls
  end.

Definition pieces_of (w : nat) (ls : list (list Z)) : list (list Z) :=
  concat (map (fun l => chunks (length l) w l) (shown_lines ls)).

Lemma wrap_body_spec (w : nat) bottom lines y :
  (0 < w)%nat -> Z.of_nat w < 2 ^ 31 ->
  wrap_body (Z.of_nat w) bottom lines y = place y (take (Z.to_nat (bottom - y)) (pieces_of w lines)).
Proof.
  intros Hw Hw2. revert y. induction lines as [|line lines IH]; intros y; cbn [wrap_body].
  { unfold pieces_of. cbn. by rewrite take_nil. }
  unfold pieces_of in *. cbn [shown_lines]. destruct (bool_decide (line = []) && bool_decide (lines = [])).
  { cbn. by rewrite take_nil. }
  cbn [negb andb map concat]. destruct (Z.ltb_spec y bottom) as [Hy|Hy].
  2:{ replace (Z.to_nat (bottom - y)) with 0%nat by lia. done. }
  pose proof (wrap_line_spec (S (Z.to_nat (bottom - y))) (length line) w bottom line y Hw Hw2 ltac:(lia) ltac:(lia)) as H.
  destruct (wrap_line _ _ _ _ _) as [[out y'] rest]. cbn in H. destruct H as [E1 E2].
  set (cs := chunks (length line) w line) in *. rewrite take_app, place_app.
  destruct (y' <? bottom); rewrite app_assoc, E1, E2, IH; do 2 f_equal; rewrite length_take; f_equal; lia.
Qed.

(** ** Lemmas: the menu and the layout *)

(** Rows a menu of [n] scenarios prints on. *)
Lemma draw_menu_rows {C} hc dim (scens : list (pg_scenario_t C)) sel :
  Forall (row_ok 0 (Z.of_nat (length scens) + 4)) (draw_menu hc dim scens sel).
Proof.
  unfold draw_menu. rewrite !Forall_app. split_and!; [by repeat constructor| | | |by repeat constructor].
  - apply styled_rows. constructor; [cbn; lia|constructor].
  - apply Forall_concat, Forall_lookup. intros i c Hc. rewrite list_lookup_imap in Hc.
    destruct (scens !! i) as [s|] eqn:E; [|done]. injection Hc as <-. apply lookup_lt_Some in E.
    apply styled_rows. constructor; [cbn; lia|constructor].
  - destruct (scens !! _); [|constructor]. apply styled_rows.
    constructor; [cbn; lia|constructor; [cbn; lia|constructor]].
Qed.

(** The hint goes on the last of them. *)
Lemma draw_menu_hint {C} hc dim (scens : list (pg_scenario_t C)) sel s :
  scens !! Z.to_nat sel = Some s ->
  exists text, Print win_menu (Z.of_nat (length scens) + 4) 2 (str "expect: " ++ text) ∈ draw_menu hc dim scens sel.
Proof.
  intros Hs. eexists. unfold draw_menu. rewrite Hs, !elem_of_app. right. right. right. left.
  unfold styled. rewrite !elem_of_app. right. left. right.
  replace (Z.of_nat (length scens) + 4) with (2 + Z.of_nat (length scens) + 1 + 1) by lia. left.
Qed.

Definition inside (g : geometry) (y x : Z) : Prop :=
  ge_y g <= y < ge_y g + ge_h g /\ ge_x g <= x < ge_x g + ge_w g.

(** ** Properties *)

(** C29: the statistics table is the summary of the run: after [stats_clear] and any
    sequence of records with keys of fewer than 32 bytes and at most 64 different
    (kind, key) pairs, whatever the slots held before, searching a pair finds a
    slot exactly when some record carried it; a counter's slot holds the sum (in
    64-bit arithmetic), the others the last value, and a gauge's extremes are the
    minimum and maximum recorded, never those of an earlier run. *)
Theorem stats_summarise_run s evs kk :
  stats_wf s ->
  Forall (fun ev => (length (cstr (key_chars ev)) < PG_EVENT_KEY_LEN)%nat) evs ->
  (length (pairs_of evs) <= STATS_MAX)%nat -> cstr kk.2 = kk.2 ->
  match stat_lookup kk (foldl (fun s ev => stats_event ev s) (stats_clear s) evs) with
  | Some x => recorded kk evs <> [] /\ pair_of x = kk /\ shows kk.1 (recorded kk evs) x
  | None => recorded kk evs = []
  end.
Proof. intros Hw Hk Hc Hkk. apply stats_inv_lookup; [by apply stats_run|done]. Qed.

Lemma stats_summarise_run_witness :
  let evs := [pg_count (Some "n"%string) 2; pg_gauge (Some "g"%string) 5; pg_count (Some "n"%string) 3;
              pg_gauge (Some "g"%string) 1] in
  match stat_lookup (kind_code PG_EV_COUNTER, str "n") (foldl (fun s ev => stats_event ev s) (stats_clear stats_init) evs) with
  | Some x => recorded (kind_code PG_EV_COUNTER, str "n") evs <> [] /\
              pair_of x = (kind_code PG_EV_COUNTER, str "n") /\
              shows (kind_code PG_EV_COUNTER) (recorded (kind_code PG_EV_COUNTER, str "n") evs) x
  | None => recorded (kind_code PG_EV_COUNTER, str "n") evs = []
  end.
Proof.
  apply (stats_summarise_run stats_init
    [pg_count (Some "n"%string) 2; pg_gauge (Some "g"%string) 5; pg_count (Some "n"%string) 3;
     pg_gauge (Some "g"%string) 1] (kind_code PG_EV_COUNTER, str "n")).
  - split; [reflexivity|cbn; lia].
  - repeat (constructor; [vm_compute; lia|]). constructor.
  - vm_compute. lia.
  - reflexivity.
Defined.

(** C30: the log pane shows the latest lines: on a screen of 3 to 514 rows, however
    many lines (below 2^32) were pushed since the log was cleared and whatever
    the ring held before, [draw_log] prints exactly the last ones that fit, in
    order, one per row from row 1, each with its own colour and cut to 255 bytes
    and to the pane; all of it stays within the borders. *)
Theorem log_pane_shows_tail hc dim l es rows cols :
  dim win_log = (rows, cols) -> 3 <= rows <= 514 ->
  length (g_log l) = Z.to_nat LOG_LINES -> Z.of_nat (length es) < 2 ^ 32 ->
  draw_log hc dim (push_all l es) =
  [Werase win_log; Box win_log] ++ styled hc win_log CP_HEADER A_BOLD [Print win_log 0 2 (str " Event Log ")] ++
  concat (imap (log_line hc cols) (drop (length es - Z.to_nat (rows - 2)) es)) ++ [NoutRefresh win_log] /\
  Forall (row_ok 0 (rows - 2)) (draw_log hc dim (push_all l es)).
Proof.
  intros Hd Hr Hl Hn. pose proof (draw_log_tail hc dim l es rows cols Hd Hr Hl Hn) as E. split; [exact E|].
  rewrite E, !Forall_app. split_and!; [by repeat constructor| | |by repeat constructor].
  - apply styled_rows. constructor; [cbn; lia|constructor].
  - apply Forall_concat, Forall_lookup. intros i c Hc. rewrite list_lookup_imap, lookup_drop in Hc.
    destruct (es !! _) as [e|] eqn:Ee; [|done]. injection Hc as <-. apply lookup_lt_Some in Ee.
    apply styled_rows. constructor; [cbn; lia|constructor].
Qed.

Lemma log_pane_shows_tail_witness :
  draw_log true (fun _ => (4, 20)) (push_all log_init [(CP_DIM, A_NONE, str "a"); (CP_FAULT, A_BOLD, str "b");
                                                       (CP_DIM, A_NONE, str "c")]) =
  [Werase win_log; Box win_log] ++ styled true win_log CP_HEADER A_BOLD [Print win_log 0 2 (str " Event Log ")] ++
  concat (imap (log_line true 20) [(CP_FAULT, A_BOLD, str "b"); (CP_DIM, A_NONE, str "c")]) ++ [NoutRefresh win_log].
Proof.
  apply (log_pane_shows_tail true (fun _ => (4, 20)) log_init
    [(CP_DIM, A_NONE, str "a"); (CP_FAULT, A_BOLD, str "b"); (CP_DIM, A_NONE, str "c")] 4 20).
  - reflexivity.
  - lia.
  - unfold log_init. cbn [g_log]. by rewrite length_replicate.
  - cbn. lia.
Defined.

(** C32: the overlay shows the lesson faithfully: for any body, with at least one
    column inside, it prints the body's lines cut into pieces of the inner width,
    in order, one per row from row 2, until the text or the room above the
    footer ends; no piece is wider than the inside, and the pieces of a line
    joined give the line back. *)
Theorem overlay_wraps_body (w : nat) bottom body :
  (0 < w)%nat -> Z.of_nat w < 2 ^ 31 ->
  wrap_body (Z.of_nat w) bottom (split_lines body) 2
    = place 2 (take (Z.to_nat (bottom - 2)) (pieces_of w (split_lines body))) /\
  Forall (fun c => (length c <= w)%nat) (pieces_of w (split_lines body)) /\
  Forall (fun l => concat (chunks (length l) w l) = l) (shown_lines (split_lines body)) /\
  Forall (fun p => 2 <= p.1 < Z.max 2 bottom) (wrap_body (Z.of_nat w) bottom (split_lines body) 2).
Proof.
  intros Hw Hw2. pose proof (wrap_body_spec w bottom (split_lines body) 2 Hw Hw2) as E. split; [exact E|].
  split; [|split].
  - unfold pieces_of. apply Forall_concat, Forall_fmap, Forall_true. intros l. by apply chunks_width.
  - apply Forall_true. intros l. apply concat_chunks.
  - rewrite E. apply Forall_lookup. intros i p Hp. unfold place in Hp. rewrite list_lookup_imap in Hp.
    destruct (take _ _ !! i) as [c|] eqn:Ec; [|done]. injection Hp as <-. apply lookup_lt_Some in Ec.
    rewrite length_take in Ec. cbn. lia.
Qed.

Lemma overlay_wraps_body_witness :
  wrap_body 4 9 (split_lines (str "abcdefghij")) 2 = [(2, str "abcd"); (3, str "efgh"); (4, str "ij")].
Proof.
  transitivity (place 2 (take (Z.to_nat (9 - 2)) (pieces_of 4 (split_lines (str "abcdefghij"))))).
  - apply (overlay_wraps_body 4 9 (str "abcdefghij")); lia.
  - reflexivity.
Defined.

Lemma layout_widths rows cols :
  44 <= cols ->
  20 <= ge_w (layout_windows rows cols win_menu) <= cols - 24 /\
  ge_w (layout_windows rows cols win_menu) = ge_w (layout_calls rows cols win_menu) /\
  ge_w (layout_windows rows cols win_log) = cols - ge_w (layout_windows rows cols win_menu) /\
  ge_w (layout_windows rows cols win_stats) = cols - ge_w (layout_windows rows cols win_menu) /\
  ge_w (layout_windows rows cols win_status) = cols.
Proof.
  intros Hc. set (m := ge_w (layout_calls rows cols win_menu)).
  assert (Hm : 20 <= m <= cols - 24).
  { subst m. unfold layout_calls. cbn [ge_w].
    destruct (Z.ltb_spec (Z.quot cols 3) 34); repeat case_match; try lia; zlia. }
  unfold layout_windows, newwin. fold m.
  change (ge_w (layout_calls rows cols win_log)) with (cols - m).
  change (ge_w (layout_calls rows cols win_stats)) with (cols - m).
  change (ge_w (layout_calls rows cols win_status)) with cols. cbn [ge_w].
  rewrite (proj2 (Z.eqb_neq m 0)), (proj2 (Z.eqb_neq (cols - m) 0)), (proj2 (Z.eqb_neq cols 0)) by lia. lia.
Qed.

(** From three rows on no height is 0. *)
Lemma layout_heights rows cols w :
  3 <= rows -> w <> win_overlay ->
  ge_h (layout_windows rows cols w) = ge_h (layout_calls rows cols w).
Proof.
  intros Hr Hw. unfold layout_windows, newwin.
  destruct w; try done; cbn [layout_calls ge_h]; rewrite (proj2 (Z.eqb_neq _ 0)); done || zlia.
Qed.

Lemma layout_menu_height rows cols : 2 <= rows -> ge_h (layout_windows rows cols win_menu) = rows - 1.
Proof.
  intros Hr. unfold layout_windows, newwin. cbn [layout_calls ge_h]. by rewrite (proj2 (Z.eqb_neq _ 0)) by lia.
Qed.

(** C33: the windows fit the screen: on at least 44 columns and 3 rows every screen
    cell belongs to exactly one of the four windows; from 44 columns on the menu
    has at least 20 columns and each of the others at least 24; and on at least 5
    rows everything the statistics pane prints stays above its bottom border.  On 2
    rows the log's height is 0, which [newwin] extends to the bottom: the log then
    covers the statistics and the status line's right part.  The menu prints on
    row [n + 4] for [n] scenarios without looking at its height: with the 19
    scenarios of this program the hint of what to expect is printed on row 23, and
    a terminal of 24 rows has a menu of only 23 (rows 0 to 22). *)
Theorem windows_tile_screen {C} hc rows cols st (scens : list (pg_scenario_t C)) sel s :
  44 <= cols -> 2 <= rows -> scens !! Z.to_nat sel = Some s ->
  let dim w := (ge_h (layout_windows rows cols w), ge_w (layout_windows rows cols w)) in
  (3 <= rows -> forall y x, 0 <= y < rows -> 0 <= x < cols ->
     exists w, w ∈ screen_windows /\ inside (layout_windows rows cols w) y x /\
       forall w', w' ∈ screen_windows -> inside (layout_windows rows cols w') y x -> w' = w) /\
  (rows = 2 -> forall y x, 0 <= y < 2 -> ge_w (layout_windows rows cols win_menu) <= x < cols ->
     inside (layout_windows rows cols win_log) y x) /\
  20 <= (dim win_menu).2 /\ Forall (fun w => 24 <= (dim w).2) [win_log; win_stats; win_status] /\
  (5 <= rows -> Forall (row_ok 0 ((dim win_stats).1 - 2)) (draw_stats hc dim st)) /\
  Forall (row_ok 0 (Z.of_nat (length scens) + 4)) (draw_menu hc dim scens sel) /\
  (exists text, Print win_menu (Z.of_nat (length scens) + 4) 2 text ∈ draw_menu hc dim scens sel /\
     (rows <= Z.of_nat (length scens) + 5 -> (dim win_menu).1 <= Z.of_nat (length scens) + 4)).
Proof.
  intros Hc Hr Hs dim. unfold dim. cbn [fst snd].
  destruct (layout_widths rows cols Hc) as (Hmw & Hmc & Hlw & Hsw & Htw).
  pose proof (layout_heights rows cols) as Hh. pose proof (layout_menu_height rows cols Hr) as Hmh.
  set (g := layout_windows rows cols) in *.
  assert (Hq : 0 <= Z.quot ((rows - 1) * 2) 3 <= rows - 1) by zlia.
  split_and!.
  - intros Hr3 y x Hy Hx. specialize (fun w => Hh w Hr3).
    assert (Hwin : forall w, inside (g w) y x <->
      match w with
      | win_menu => y < rows - 1 /\ x < ge_w (g win_menu)
      | win_log => y < Z.quot ((rows - 1) * 2) 3 /\ ge_w (g win_menu) <= x
      | win_stats => Z.quot ((rows - 1) * 2) 3 <= y < rows - 1 /\ ge_w (g win_menu) <= x
      | win_status => rows - 1 <= y
      | win_overlay => False
      end).
    { intros w. unfold inside. destruct w; rewrite ?Hh, ?Hlw, ?Hsw, ?Htw by done;
        subst g; cbn [layout_windows newwin ge_y ge_x ge_h ge_w] in *; rewrite ?Hmc in *;
        cbn [layout_calls ge_y ge_x ge_h ge_w] in *; lia. }
    destruct (Z.lt_ge_cases y (rows - 1)) as [H1|H1]; [destruct (Z.lt_ge_cases x (ge_w (g win_menu))) as [H2|H2];
      [|destruct (Z.lt_ge_cases y (Z.quot ((rows - 1) * 2) 3)) as [H3|H3]]|].
    1: exists win_menu. 2: exists win_log. 3: exists win_stats. 4: exists win_status.
    all: split; [apply list_elem_of_In; cbn; tauto|]; split; [apply Hwin; lia|].
    all: intros w' _ Hw'; apply Hwin in Hw'; destruct w'; done || lia.
  - intros -> y x Hy Hx. unfold inside. rewrite Hlw.
    replace (ge_x (g win_log)) with (ge_w (g win_menu)) by (rewrite Hmc; reflexivity).
    replace (ge_y (g win_log)) with 0 by reflexivity. replace (ge_h (g win_log)) with 2 by reflexivity. lia.
  - lia.
  - repeat (apply Forall_cons_2; [lia|]). apply Forall_nil_2.
  - intros Hr5. apply (draw_stats_rows hc (fun w => (ge_h (g w), ge_w (g w)))). cbn [fst].
    rewrite Hh by (lia || done). cbn [layout_calls ge_h]. zlia.
  - apply draw_menu_rows.
  - destruct (draw_menu_hint hc (fun w => (ge_h (g w), ge_w (g w))) scens sel s Hs) as [text Ht].
    eexists. split; [exact Ht|]. intros Hle. lia.
Qed.

Lemma windows_tile_screen_witness :
  exists text, Print win_menu 23 2 text
      ∈ draw_menu true (fun w => (ge_h (layout_windows 24 80 w), ge_w (layout_windows 24 80 w))) g_reg 0 /\
    ge_h (layout_windows 24 80 win_menu) = 23.
Proof.
  destruct (windows_tile_screen true 24 80 stats_init g_reg 0 (nth 0 g_reg scen_race_counter))
    as (_ & _ & _ & _ & _ & _ & text & H & _); [lia|lia|reflexivity|]. exists text. split; [exact H|reflexivity].
Defined.
