(* ===== verification/TuiWindows.v ===== *)
(** * The terminal interface: the life of its windows (src/tui/tui.c)

    The calls recorded by Tui.v played on the windows they name: a window is made
    once, drawn on and released while it exists, and every attribute that is
    turned on is turned off again.  Lemmas that every drawing routine leaves the
    windows as it found them. *)

From S2P Require Import Prelude CLib Event Registry Runner Main Tui.

#[export] Instance win_countable : Countable win.
Proof.
  refine (inj_countable'
    (fun w => match w with win_menu => 0 | win_log => 1 | win_stats => 2 | win_status => 3 | win_overlay => 4 end%nat)
    (fun n => match n with 0 => win_menu | 1 => win_log | 2 => win_stats | 3 => win_status | _ => win_overlay end%nat) _).
  by intros [].
Defined.

(** The attributes turned on in a window: a colour pair, boldness. *)
Record wattrs := WAttrs { wa_color : option Z; wa_bold : bool }.
Definition plain_attrs : wattrs := WAttrs None false.

(** The windows that exist. *)
Abbreviation windows := (gmap win wattrs).

(** One call; [None] when it names a window that does not exist, makes one that
    does, turns an attribute on twice or off unasked, or ends with windows left. *)
Definition play1 (c : curses) (m : windows) : option windows :=
  match c with
  | InitPair _ _ _ | DoUpdate => Some m
  | ColorOn w cp =>
      match m !! w with Some (WAttrs None b) => Some (<[w := WAttrs (Some cp) b]> m) | _ => None end
  | ColorOff w cp =>
      match m !! w with
      | Some (WAttrs (Some cp') b) => if cp =? cp' then Some (<[w := WAttrs None b]> m) else None
      | _ => None
      end
  | BoldOn w =>
      match m !! w with Some (WAttrs o false) => Some (<[w := WAttrs o true]> m) | _ => None end
  | BoldOff w =>
      match m !! w with Some (WAttrs o true) => Some (<[w := WAttrs o false]> m) | _ => None end
  | Werase w | Box w | Print w _ _ _ | AddCh w _ _ _ | NoutRefresh w | Refresh w | TouchWin w =>
      match m !! w with Some _ => Some m | None => None end
  | DelWin w => match m !! w with Some _ => Some (delete w m) | None => None end
  | NewWin w _ _ _ _ => match m !! w with Some _ => None | None => Some (<[w := plain_attrs]> m) end
  | EndWin => if bool_decide (m = ∅) then Some m else None
  end.

Fixpoint play (cs : list curses) (m : windows) : option windows :=
  match cs with
  | [] => Some m
  | c :: cs => match play1 c m with Some m => play cs m | None => None end
  end.

(** The four windows of the screen, no attribute on. *)
Definition screen : windows := Eval vm_compute in list_to_map (map (fun w => (w, plain_attrs)) screen_windows).

Lemma play_app a b m : play (a ++ b) m = match play a m with Some m => play b m | None => None end.
Proof. revert m. induction a as [|c a IH]; intros m; [done|]. cbn [app play]. by destruct (play1 c m). Qed.

(** Calls that leave the windows as they were. *)
Definition steady (m : windows) (cs : list curses) : Prop := play cs m = Some m.

Lemma steady_nil m : steady m [].
Proof. done. Qed.

Lemma steady_app m a b : steady m a -> steady m b -> steady m (a ++ b).
Proof. unfold steady. intros Ha Hb. by rewrite play_app, Ha. Qed.

Lemma steady_cons m c cs : play1 c m = Some m -> steady m cs -> steady m (c :: cs).
Proof. unfold steady. intros Hc Hs. cbn [play]. by rewrite Hc. Qed.

Lemma steady_concat m css : Forall (steady m) css -> steady m (concat css).
Proof. induction 1; [done|]. by apply steady_app. Qed.

Lemma steady_concat_map {A} m (f : A -> list curses) l : (forall a, steady m (f a)) -> steady m (concat (map f l)).
Proof. intros H. apply steady_concat, Forall_fmap, Forall_true. exact H. Qed.

Lemma steady_concat_imap {A} m (f : nat -> A -> list curses) l :
  (forall i a, steady m (f i a)) -> steady m (concat (imap f l)).
Proof.
  intros H. apply steady_concat. revert f H. induction l as [|a l IH]; intros f H; [constructor|].
  rewrite imap_cons. constructor; [apply H|]. apply IH. intros i. apply (H (S i)).
Qed.

(** What is only drawn on [w]. *)
Definition draws (w : win) (c : curses) : Prop :=
  match c with Werase v | Box v | Print v _ _ _ | AddCh v _ _ _ | NoutRefresh v | Refresh v => v = w | _ => False end.

Lemma steady_draws w x m cs : m !! w = Some x -> Forall (draws w) cs -> steady m cs.
Proof.
  intros Hm. induction 1 as [|c cs Hc _ IH]; [done|]. apply steady_cons; [|done].
  destruct c; cbn in Hc; try done; subst; cbn; by rewrite Hm.
Qed.

Lemma play_draws w x m body rest :
  Forall (draws w) body -> m !! w = Some x -> play (body ++ rest) m = play rest m.
Proof. intros Hb Hm. by rewrite play_app, (steady_draws w x m body). Qed.

(** Whatever the colour and the attribute, a styled print undoes what it turned on. *)
Lemma steady_styled hc w cp attr body m :
  m !! w = Some plain_attrs -> Forall (draws w) body -> steady m (styled hc w cp attr body).
Proof.
  intros Hm Hb. unfold steady, styled, pg_attr_on, pg_attr_off.
  destruct (hc && negb (cp =? 0)), attr; cbn [app].
  all: cbn [play play1]; rewrite ?Hm; cbn [plain_attrs]; rewrite ?lookup_insert_eq.
  all: erewrite play_draws; [|exact Hb|by rewrite ?lookup_insert_eq].
  all: cbn [play play1]; rewrite ?lookup_insert_eq, ?Z.eqb_refl; cbn [play play1]; rewrite ?lookup_insert_eq; try done.
  all: f_equal; rewrite ?insert_insert_eq; by apply insert_id.
Qed.

(** ** The drawing routines *)

Create HintDb steady.
#[export] Hint Resolve steady_nil steady_app : steady.

(** Splits a drawing routine into its styled and plain parts. *)
Ltac steady_parts :=
  repeat first
    [ apply steady_nil
    | eapply steady_styled; [first [reflexivity | eassumption]|by repeat constructor]
    | lazymatch goal with |- steady _ (_ ++ _) => apply steady_app end
    | eapply steady_draws; [first [reflexivity | eassumption]|by repeat constructor] ].

Lemma steady_bar hc m w y x width frac : m !! w = Some plain_attrs -> steady m (draw_bar hc w y x width frac).
Proof.
  intros Hm. apply steady_app; (eapply steady_styled; [exact Hm|]); apply Forall_fmap, Forall_true; done.
Qed.

Lemma steady_stat_rows m k render rows l row :
  (forall r s, steady m (render r s)) -> steady m (stat_rows k render rows l row).1.
Proof.
  intros Hr. revert row. induction l as [|s l IH]; intros row; [done|]. cbn [stat_rows].
  destruct (row <? rows - 1); [|done]. destruct (st_kind s =? kind_code k); [|apply IH].
  specialize (IH (row + 1)). destruct (stat_rows k render rows l (row + 1)) as [out row'].
  by apply steady_app.
Qed.

Lemma steady_stat_block hc k title render gap rows shown l row :
  (forall r s, steady screen (render r s)) ->
  steady screen (stat_block hc title k render gap rows shown l row).1.
Proof.
  intros Hr. unfold stat_block. destruct (shown && _); [|done].
  pose proof (steady_stat_rows screen k render rows l (row + 1) Hr) as H.
  destruct (stat_rows k render rows l (row + 1)) as [out row']. cbn [fst] in *. steady_parts. exact H.
Qed.

Lemma steady_menu {C} hc dim (scens : list (pg_scenario_t C)) sel : steady screen (draw_menu hc dim scens sel).
Proof.
  unfold draw_menu. steady_parts.
  - apply steady_concat_imap. intros i s. steady_parts.
  - destruct (scens !! Z.to_nat sel); steady_parts.
Qed.

Lemma steady_log hc dim l : steady screen (draw_log hc dim l).
Proof.
  unfold draw_log. destruct (dim win_log) as [rows cols]. steady_parts.
  destruct (rows - 2 <? 1); [done|]. apply steady_concat_map. intros i. steady_parts.
Qed.

Lemma steady_stats hc dim st : steady screen (draw_stats hc dim st).
Proof.
  unfold draw_stats. destruct (dim win_stats) as [rows cols].
  pose proof (steady_stat_block hc PG_EV_COUNTER "COUNTERS" counter_row true rows
    (has_kind PG_EV_COUNTER st) (stats_used st) 1) as H1.
  destruct (stat_block _ "COUNTERS" _ _ _ _ _ _ _) as [counters r1].
  pose proof (steady_stat_block hc PG_EV_GAUGE "GAUGES" (gauge_row hc cols) true rows
    (has_kind PG_EV_GAUGE st) (stats_used st) r1) as H2.
  destruct (stat_block _ "GAUGES" _ _ _ _ _ _ _) as [gauges r2].
  pose proof (steady_stat_block hc PG_EV_EXPECT "EXPECTED vs ACTUAL" (diff_row hc (stats_used st)) false rows
    (has_kind PG_EV_EXPECT st || has_kind PG_EV_ACTUAL st) (stats_used st) r2) as H3.
  destruct (stat_block _ "EXPECTED vs ACTUAL" _ _ _ _ _ _ _) as [diff r3]. cbn [fst] in *.
  steady_parts.
  - apply H1. intros r s. steady_parts.
  - apply H2. intros r s. unfold gauge_row. steady_parts. by apply steady_bar.
  - apply H3. intros r s. unfold diff_row. destruct (find_actual _ _); steady_parts.
Qed.

Lemma steady_redraw {C} hc dim (scens : list (pg_scenario_t C)) sel l st status :
  steady screen (redraw_all hc dim scens sel l st status).
Proof.
  unfold redraw_all. apply steady_app; [apply steady_menu|]. apply steady_app; [apply steady_log|].
  apply steady_app; [apply steady_stats|]. unfold draw_status. steady_parts.
Qed.

Lemma steady_play m a b : steady m a -> play (a ++ b) m = play b m.
Proof. intros H. unfold steady in H. by rewrite play_app, H. Qed.

(** The overlay is made, drawn on and released, with the screen's windows behind it. *)
Lemma steady_overlay hc rows cols title body : steady screen (show_overlay hc rows cols title body).
Proof.
  unfold show_overlay. destruct (overlay_size rows cols) as [oh ow]. unfold steady.
  set (m := <[win_overlay := plain_attrs]> screen).
  assert (Hm : m !! win_overlay = Some plain_attrs) by done.
  match goal with |- play ([NewWin ?w ?a ?b ?c ?d; Box win_overlay] ++ ?r) screen = _ =>
    change (play ([Box win_overlay] ++ r) m = Some screen) end.
  assert (Hlines : forall ls, steady m (map (fun '(y, t) => Print win_overlay y 2 t) ls)).
  { intros ls. eapply steady_draws; [exact Hm|]. apply Forall_fmap, Forall_true. by intros [y t]. }
  do 2 rewrite steady_play by steady_parts. rewrite steady_play by apply Hlines.
  rewrite steady_play by steady_parts. reflexivity.
Qed.

#[export] Hint Resolve steady_redraw steady_overlay : steady.

(** Laying the windows out again, and the end. *)
Lemma play_new_windows (g : win -> geometry) :
  play (map (fun w => NewWin w (ge_h (g w)) (ge_w (g w)) (ge_y (g w)) (ge_x (g w))) screen_windows) ∅ = Some screen.
Proof. reflexivity. Qed.

Lemma play_del_windows : play (map DelWin screen_windows) screen = Some ∅.
Proof. reflexivity. Qed.

Lemma steady_touch : steady screen (map TouchWin screen_windows).
Proof. reflexivity. Qed.
