(* ===== verification/TuiLoop.v ===== *)
(** * The terminal interface: its loops (src/tui/tui.c)

    [run_scenario], the loop that shows one run, and [tui_run], the state machine
    of the menu, as functions of what [poll], [getch] and the runner answer.
    What they draw is recorded as the ncurses calls of Tui.v. *)

From S2P Require Import Prelude CLib Event Registry Runner Main Catalogue Tui TuiWindows.

(** The module's globals, the size of the screen at the last layout, and the
    calls made so far. *)
(* @ src/tui/tui.c:430-431 g_last_seed *)
Record tui := TuiState {
  t_log : log_state;
  t_stats : stats_state;
  g_sel : Z;
  g_last_exit : exit_status;
  g_last_seed : Z;
  t_size : Z * Z;
  t_drawn : list curses
}.

Definition with_log (f : log_state -> log_state) (t : tui) : tui :=
  TuiState (f (t_log t)) (t_stats t) (g_sel t) (g_last_exit t) (g_last_seed t) (t_size t) (t_drawn t).
Definition with_stats (f : stats_state -> stats_state) (t : tui) : tui :=
  TuiState (t_log t) (f (t_stats t)) (g_sel t) (g_last_exit t) (g_last_seed t) (t_size t) (t_drawn t).
Definition with_sel (n : Z) (t : tui) : tui :=
  TuiState (t_log t) (t_stats t) n (g_last_exit t) (g_last_seed t) (t_size t) (t_drawn t).
Definition with_exit (x : exit_status) (t : tui) : tui :=
  TuiState (t_log t) (t_stats t) (g_sel t) x (g_last_seed t) (t_size t) (t_drawn t).
Definition with_seed (n : Z) (t : tui) : tui :=
  TuiState (t_log t) (t_stats t) (g_sel t) (g_last_exit t) n (t_size t) (t_drawn t).
Definition with_size (d : Z * Z) (t : tui) : tui :=
  TuiState (t_log t) (t_stats t) (g_sel t) (g_last_exit t) (g_last_seed t) d (t_drawn t).
Definition with_calls (cs : list curses) (t : tui) : tui :=
  TuiState (t_log t) (t_stats t) (g_sel t) (g_last_exit t) (g_last_seed t) (t_size t) (t_drawn t ++ cs).

Section Loop.
Context {C : Type}.
Variable g_scens : list (pg_scenario_t C).
Variable g_has_color : bool.

(** The sizes [layout_windows] gave the windows. *)
Definition dims (t : tui) (w : win) : Z * Z :=
  let g := layout_windows (t_size t).1 (t_size t).2 w in (ge_h g, ge_w g).

Definition redraw (status : string) (t : tui) : tui :=
  with_calls (redraw_all g_has_color (dims t) g_scens (g_sel t) (t_log t) (t_stats t) status) t.

Open Scope string_scope.

(* @ src/tui/tui.c:433-434 running_status *)
Definition running_status : string := "running...   [q] abort".

(** ** Showing one run *)

(** A round of the loop: whether [poll] succeeded, a key if one is there, whether
    the pipe is ready, and what the [poll] inside [pg_run_poll] says. *)
Record round := Round { rd_poll_ok : bool; rd_key : option Z; rd_ready : bool; rd_inner : pollres }.

Definition is_quit (ch : Z) : bool := (ch =? 113)%Z || (ch =? 81)%Z.   (* q, Q *)

(** A record arrives. *)
(* @ src/tui/tui.c:481-489 run_scenario *)
Definition show_event (ev : pg_event_t) (t : tui) : tui :=
  redraw running_status (with_stats (stats_event ev) (with_log (push_event ev) t)).

(** The loop: the state afterwards and the signals sent; [None] while it has not
    ended, and when a string without end makes it read past a record. *)
(* @ src/tui/tui.c:464-495 run_scenario *)
Fixpoint run_loop (rounds : list round) (h : pg_run_handle_t) (p : pipe) (rs : list rres) (aborted : bool)
    (t : tui) : option (tui * list (Z * signal)) :=
  match rounds with
  | [] => None
  | r :: rounds =>
      if negb (rd_poll_ok r) then Some (t, [])
      else
        let '(t, aborted, sent) :=
          match rd_key r with
          | Some ch =>
              if is_quit ch && negb aborted then
                (with_log (log_pushf CP_FAULT A_BOLD (str "(user aborted -- SIGTERM to child)")) t, true,
                 pg_run_abort (Some h))
              else (t, aborted, [])
          | None => (t, aborted, [])
          end in
        let more '(t, p, rs) :=
          match run_loop rounds h p rs aborted t with
          | Some (t, sent') => Some (t, (sent ++ sent')%list)
          | None => None
          end in
        if rd_ready r then
          match pg_run_poll (Some h) true 0 (rd_inner r) p rs with
          | PollBlocked => None
          | PollRet code (Some ev) p rs =>
              if (code =? 1)%Z then
                if negb (event_ends ev) then None
                else
                  let t := show_event ev t in
                  if is_done ev then Some (t, sent) else more (t, p, rs)
              else Some (t, sent)
          | PollRet _ None _ _ => Some (t, sent)
          end
        else more (t, p, rs)
  end.

(** What the kernel and the child do in one run. *)
Record run_env := RunEnv {
  re_pipe : option (Z * Z);
  re_fork : option Z;
  re_data : pipe;
  re_reads : list rres;
  re_rounds : list round;
  re_waits : list waitres
}.

(** The line that names a bad end. *)
(* @ src/tui/tui.c:499-503 run_scenario *)
Definition exit_line (x : exit_status) : list (Z * attr_t * list Z) :=
  match x with
  | Signaled s => [(CP_FAULT, A_BOLD, str ("child killed by signal " +:+ fmt_d (signal_no s)))]
  | Exited c => if (c =? 0)%Z then [] else [(CP_FAULT, A_BOLD, str ("child exited " +:+ fmt_d c))]
  end.

Definition push_lines (ls : list (Z * attr_t * list Z)) (t : tui) : tui :=
  with_log (fun l => foldl (fun l e => log_pushf e.1.1 e.1.2 e.2 l) l ls) t.

Definition start_line (s : pg_scenario_t C) (seed : Z) : Z * attr_t * list Z :=
  (CP_HEADER, A_BOLD, str ("starting " +:+ sc_id s +:+ "   seed=" +:+ fmt_d seed)).

(** [None] while the run has not ended. *)
(* @ src/tui/tui.c run_scenario *)
Definition run_scenario (s : pg_scenario_t C) (seed : Z) (e : run_env) (t : tui)
  : option (Z * tui * list (Z * signal)) :=
  let t := with_seed seed (with_stats stats_clear (with_log log_clear t)) in
  let t := redraw running_status (push_lines [start_line s seed] t) in
  match pg_run_start (Some s) seed true (re_pipe e) (re_fork e) with
  | (_, None, _) =>
      Some (-1, redraw running_status (push_lines [(CP_FAULT, A_BOLD, str "failed to start scenario")] t), [])%Z
  | (_, Some h, _) =>
      match run_loop (re_rounds e) h (re_data e) (re_reads e) false t with
      | None => None
      | Some (t, sent) =>
          match pg_run_reap (Some h) (re_waits e) with
          | None => None
          | Some (_, st, _, _) =>
              let t := with_exit (default (g_last_exit t) st) t in
              Some (0%Z, push_lines (exit_line (g_last_exit t)) t, sent)
          end
      end
  end.

(** ** The menu *)

(** ncurses' codes. *)
Definition ERR : Z := -1.
Definition KEY_DOWN : Z := 258.
Definition KEY_UP : Z := 259.
Definition KEY_ENTER : Z := 343.
Definition KEY_RESIZE : Z := 410.

(* @ src/tui/tui.c:534-535 menu_status *)
Definition menu_status : string := "[UP/DOWN] select   [ENTER] run   [q] quit".
(* @ src/tui/tui.c:536-537 post_status *)
Definition post_status : string := "[r] rerun   [R] new seed   [e] lesson   [ENTER] menu   [q] quit".

(* @ src/tui/tui.c touch_all *)
Definition touch_all : list curses := map TouchWin screen_windows.

(** The calls of [layout_windows]. *)
(* @ src/tui/tui.c:509-532 layout_windows *)
Definition relayout (size : Z * Z) (t : tui) : tui :=
  with_calls (map DelWin screen_windows ++
              map (fun w => let g := layout_calls size.1 size.2 w in NewWin w (ge_h g) (ge_w g) (ge_y g) (ge_x g))
                  screen_windows) (with_size size t).

(** [state], [running], [last] and the globals. *)
(* @ src/tui/tui.c:554-556 tui_run *)
Record machine := Machine {
  m_post : bool;
  m_running : bool;
  m_last : option (pg_scenario_t C);
  m_tui : tui
}.

(** A key, with the clock, the screen size and the run it may start. *)
Record keypress := KeyPress { kp_ch : Z; kp_time : Z; kp_size : Z * Z; kp_env : run_env }.

Definition is_enter (ch : Z) : bool := (ch =? 10)%Z || (ch =? KEY_ENTER)%Z || (ch =? 32)%Z.

(** [case S_MENU]. *)
(* @ src/tui/tui.c:565-587 tui_run *)
Definition menu_key (k : keypress) (m : machine) : option machine :=
  let ch := kp_ch k in
  let t := m_tui m in
  if is_quit ch then Some (Machine (m_post m) false (m_last m) t)
  else if (ch =? KEY_UP)%Z then
    Some (Machine (m_post m) (m_running m) (m_last m)
                  (if (0 <? g_sel t)%Z then with_sel (g_sel t - 1) t else t))
  else if (ch =? KEY_DOWN)%Z then
    Some (Machine (m_post m) (m_running m) (m_last m)
                  (if (g_sel t + 1 <? Z.of_nat (length g_scens))%Z then with_sel (g_sel t + 1) t else t))
  else if (ch =? KEY_RESIZE)%Z then
    Some (Machine (m_post m) (m_running m) (m_last m) (with_calls touch_all (relayout (kp_size k) t)))
  else if is_enter ch then
    match g_scens !! Z.to_nat (g_sel t) with
    | Some s =>
        match run_scenario s (u64 (kp_time k)) (kp_env k) t with
        | Some (_, t, _) => Some (Machine true (m_running m) (Some s) t)
        | None => None
        end
    | None => Some m
    end
  else Some m.

(** [case S_POST]; the flag says that [show_overlay] waits for one more key. *)
(* @ src/tui/tui.c:589-614 tui_run *)
Definition post_key (k : keypress) (m : machine) : option (machine * bool) :=
  let ch := kp_ch k in
  let t := m_tui m in
  let rerun seed :=
    match m_last m with
    | Some s =>
        match run_scenario s seed (kp_env k) t with
        | Some (_, t, _) => Some (Machine (m_post m) (m_running m) (m_last m) t, false)
        | None => None
        end
    | None => Some (m, false)
    end in
  if is_quit ch then Some (Machine (m_post m) false (m_last m) t, false)
  else if (ch =? 114)%Z then rerun (g_last_seed t)
  else if (ch =? 82)%Z then rerun (Z.lxor (Z.lxor (u64 (kp_time k)) (g_last_seed t)) 0x5A5A5A5A)
  else if (ch =? 101)%Z || (ch =? 69)%Z then
    match m_last m with
    | Some s =>
        let title := unstr (take 127 (cstr (str ("Lesson: " +:+ sc_title s)))) in
        Some (Machine (m_post m) (m_running m) (m_last m)
                (with_calls (show_overlay g_has_color (kp_size k).1 (kp_size k).2 (Some title) (sc_lesson s)) t),
              true)
    | None => Some (m, false)
    end
  else if (ch =? KEY_RESIZE)%Z then
    Some (Machine (m_post m) (m_running m) (m_last m) (with_calls touch_all (relayout (kp_size k) t)), false)
  else if is_enter ch || (ch =? 27)%Z then Some (Machine false (m_running m) (m_last m) t, false)
  else Some (m, false).

(** One turn of [while (running)]. *)
(* @ src/tui/tui.c:561-616 tui_run *)
Definition tui_key (k : keypress) (m : machine) : option (machine * bool) :=
  if (kp_ch k =? ERR)%Z then Some (m, false)
  else
    match (if m_post m then post_key k m else (fun m => (m, false)) <$> menu_key k m) with
    | Some (m, overlay) =>
        Some (Machine (m_post m) (m_running m) (m_last m)
                (redraw (if m_post m then post_status else menu_status) (m_tui m)), overlay)
    | None => None
    end.

(** The machine after some keys; the key that closes an overlay is dropped. *)
(* @ src/tui/tui.c:560-617 tui_run *)
Fixpoint tui_keys (keys : list keypress) (m : machine) : option machine :=
  match keys with
  | [] => Some m
  | k :: keys =>
      if m_running m then
        match tui_key k m with
        | Some (m, true) => match keys with [] => Some m | _ :: keys => tui_keys keys m end
        | Some (m, false) => tui_keys keys m
        | None => None
        end
      else Some m
  end.

(** The globals when the program starts. *)
Definition tui_init : tui := TuiState log_init stats_init 0 (Exited 0) 0 (0, 0)%Z [].

(** [initscr], the colours, the layout and the first drawing. *)
(* @ src/tui/tui.c:540-558 tui_run *)
Definition tui_start (size : Z * Z) : machine :=
  Machine false true None
    (redraw menu_status
       (with_calls ((init_colors g_has_color).1 ++
                    map (fun w => let g := layout_calls size.1 size.2 w in NewWin w (ge_h g) (ge_w g) (ge_y g) (ge_x g))
                        screen_windows) (with_size size tui_init))).

(** What is left is released. *)
(* @ src/tui/tui.c:619-623 tui_run *)
Definition tui_end (m : machine) : machine :=
  Machine (m_post m) (m_running m) (m_last m) (with_calls (map DelWin screen_windows ++ [EndWin]) (m_tui m)).

(** The exit code and the last state; [None] while it is running. *)
(* @ src/tui/tui.c tui_run *)
Definition tui_run (initscr_ok : bool) (size : Z * Z) (keys : list keypress) : option (Z * option machine) :=
  if negb initscr_ok then Some (1%Z, None)
  else match tui_keys keys (tui_start size) with
       | Some m => if m_running m then None else Some (0%Z, Some (tui_end m))
       | None => None
       end.

End Loop.

(** ** Lemmas: showing one run *)

Section RunLemmas.
Context {C : Type}.
Variable g_scens : list (pg_scenario_t C).
Variable g_has_color : bool.

(** The line pushed for a record. *)
Definition event_entry (ev : pg_event_t) : Z * attr_t * list Z :=
  ((style_for (ev_kind ev)).1, (style_for (ev_kind ev)).2, event_line ev).

#[local] Abbreviation show := (show_event g_scens g_has_color).

Lemma show_event_log ev t :
  t_log (show ev t) = log_pushf (event_entry ev).1.1 (event_entry ev).1.2 (event_entry ev).2 (t_log t).
Proof. unfold show_event, event_entry, push_event. cbn. by destruct (style_for (ev_kind ev)). Qed.

Definition show_all (evs : list pg_event_t) (t : tui) : tui := foldl (fun t ev => show ev t) t evs.

Lemma show_all_log evs t :
  t_log (show_all evs t)
  = foldl (fun l e => log_pushf e.1.1 e.1.2 e.2 l) (t_log t) (map event_entry evs).
Proof. revert t. induction evs as [|ev evs IH]; intros t; [done|]. cbn [show_all foldl map]. fold (show_all evs (show ev t)). by rewrite IH, show_event_log. Qed.

Lemma show_all_stats evs t :
  t_stats (show_all evs t) = foldl (fun s ev => stats_event ev s) (t_stats t) evs.
Proof. revert t. induction evs as [|ev evs IH]; intros t; [done|]. cbn [show_all foldl]. fold (show_all evs (show ev t)). by rewrite IH. Qed.

Lemma show_all_keeps evs t :
  g_sel (show_all evs t) = g_sel t /\ g_last_seed (show_all evs t) = g_last_seed t /\
  g_last_exit (show_all evs t) = g_last_exit t /\ t_size (show_all evs t) = t_size t.
Proof. revert t. induction evs as [|ev evs IH]; intros t; [done|]. cbn [show_all foldl]. apply (IH (show ev t)). Qed.

#[local] Abbreviation loop := (run_loop g_scens g_has_color).

(** Nothing but records happens. *)
Definition calm (r : round) : Prop :=
  rd_poll_ok r = true /\ (forall ch, rd_key r = Some ch -> is_quit ch = false) /\ rd_inner r = PollReady.

Lemma loop_idle r rounds h p rs ab t :
  calm r -> rd_ready r = false -> loop (r :: rounds) h p rs ab t = loop rounds h p rs ab t.
Proof.
  intros (H1 & H2 & _) H3. cbn [run_loop]. rewrite H1, H3. cbn [negb].
  destruct (rd_key r) as [ch|]; [rewrite H2 by done; cbn [andb]|]; by destruct (loop rounds h p rs ab t) as [[? ?]|].
Qed.

Lemma loop_ready r rounds h p rs ab t :
  calm r -> rd_ready r = true ->
  loop (r :: rounds) h p rs ab t =
  match pg_run_poll (Some h) true 0 PollReady p rs with
  | PollBlocked => None
  | PollRet code (Some ev) p rs =>
      if code =? 1 then
        if negb (event_ends ev) then None
        else if is_done ev then Some (show ev t, []) else loop rounds h p rs ab (show ev t)
      else Some (t, [])
  | PollRet _ None _ _ => Some (t, [])
  end.
Proof.
  intros (H1 & H2 & H4) H3. cbn [run_loop]. rewrite H1, H3, H4. cbn [negb].
  destruct (rd_key r) as [ch|]; [rewrite H2 by done; cbn [andb]|];
    destruct (pg_run_poll (Some h) true 0 PollReady p rs) as [code [ev|] p' rs'|]; try done;
    destruct (code =? 1); try done; destruct (event_ends ev); try done; destruct (is_done ev); try done;
    by destruct (loop rounds h p' rs' ab _) as [[? ?]|].
Qed.

(** A record with both its zeros is shown. *)
Lemma strings_end_shown ev : strings_end ev -> event_ends ev = true.
Proof.
  intros [Hk Ht]. unfold event_ends. destruct (kind_of_code (ev_kind ev)) as [[]|]; try done.
  all: by apply text_key_ends.
Qed.

Definition ready_rounds (rounds : list round) : nat := count rd_ready rounds.

(** Sound records, one per ready round. *)
Lemma loop_records rounds h closed evs rest rs ab t more :
  live_handle h -> Forall sound_event evs -> Forall calm rounds -> ready_rounds rounds = length evs ->
  RErr ∉ rs -> (EVENT_SIZE * length evs <= reads rs)%nat ->
  exists rs', (RErr ∉ rs') /\ (reads rs <= EVENT_SIZE * length evs + reads rs')%nat /\
    loop (rounds ++ more) h (Pipe (concat (map encode evs) ++ rest) closed) rs ab t
    = loop more h (Pipe rest closed) rs' ab (show_all evs t).
Proof.
  intros Hh Hev Hc. revert evs rs t Hev. induction Hc as [|r rounds Hr Hc IH]; intros evs rs t Hev Hn He Hrd.
  - destruct evs; [|done]. exists rs. cbn. split; [done|]. split; [lia|done].
  - unfold ready_rounds in *. cbn [count app] in *. destruct (rd_ready r) eqn:Er.
    + destruct evs as [|e evs]; [done|]. cbn in Hn. apply Forall_cons in Hev as [[Hw Hst Hok Hnd] Hev].
      cbn [length map concat] in *. rewrite <- app_assoc.
      destruct (poll_record h 0 PollReady (Pipe (encode e ++ concat (map encode evs) ++ rest) closed)
        rs e (concat (map encode evs) ++ rest)) as (rs1 & He1 & Hr1 & E1); try done; [lia|].
      destruct (IH evs rs1 (show e t) Hev) as (rs2 & He2 & Hr2 & E2); [lia|done|lia|].
      exists rs2. split; [done|]. split; [lia|]. rewrite loop_ready, E1 by done. cbn [p_closed].
      change (1 =? 1) with true. cbv iota. by rewrite strings_end_shown, Hnd, E2.
    + destruct (IH evs rs t Hev Hn He Hrd) as (rs1 & He1 & Hr1 & E1).
      exists rs1. split; [done|]. split; [done|]. by rewrite loop_idle, E1.
Qed.

(** The rounds up to the [n]-th ready one. *)
Lemma split_ready rounds n :
  (n < ready_rounds rounds)%nat ->
  exists pre r more, rounds = pre ++ r :: more /\ ready_rounds pre = n /\ rd_ready r = true.
Proof.
  unfold ready_rounds. revert n. induction rounds as [|r rounds IH]; intros n Hn; cbn [count] in Hn; [lia|].
  destruct (rd_ready r) eqn:Er.
  - destruct n as [|n]; [by exists [], r, rounds|].
    destruct (IH n) as (pre & x & more & -> & <- & Hx); [lia|].
    exists (r :: pre), x, more. cbn [count app]. by rewrite Er.
  - destruct (IH n) as (pre & x & more & -> & <- & Hx); [lia|].
    exists (r :: pre), x, more. cbn [count app]. by rewrite Er.
Qed.

(** All records of a child, up to its DONE or the end of the pipe. *)
Lemma loop_child {St} (call : C -> pg_runctx -> option St -> list pg_event_t * cb_fin (option St))
    (td : C -> pg_runctx -> option St -> list pg_event_t * cb_fin unit) now (s : pg_scenario_t C) fd seed start
    rounds h junk rs ab t :
  records_sound call -> records_sound td -> live_handle h -> Forall calm rounds ->
  let '(evs, x) := child_main call td now s fd seed start in
  (length junk < EVENT_SIZE)%nat -> RErr ∉ rs -> (EVENT_SIZE * S (length evs) <= reads rs)%nat ->
  (length evs < ready_rounds rounds)%nat ->
  loop rounds h (Pipe (concat (map encode evs) ++ junk) true) rs ab t = Some (show_all evs t, []).
Proof.
  intros Hc Ht Hh Hcalm. pose proof (child_main_shape call td now sound_event Hc Ht s fd seed start) as Hs.
  destruct (child_main _ _ _ _ _ _ _) as [evs x]. destruct Hs as (body & tail & He & Hb & Htl).
  cbn [fst snd] in He, Htl. subst evs. intros Hj Hr Hn Hrd.
  assert (Hend : forall evs, Forall sound_event evs -> (EVENT_SIZE * S (length evs) <= reads rs)%nat ->
    (length evs < ready_rounds rounds)%nat ->
    loop rounds h (Pipe (concat (map encode evs) ++ junk) true) rs ab t = Some (show_all evs t, [])).
  { intros evs Hev Hn' Hrd'. destruct (split_ready rounds (length evs) Hrd') as (pre & r & more & -> & Hpre & Hready).
    apply Forall_app in Hcalm as [Hpc [Hrc Hmc]%Forall_cons].
    destruct (loop_records pre h true evs junk rs ab t (r :: more)) as (rs1 & He1 & Hr1 & ->); try done; [lia|].
    rewrite loop_ready by done.
    destruct (poll_end h 0 PollReady (Pipe junk true) rs1) as (rs2 & ->); try done. cbn. lia. }
  rewrite length_app in Hn, Hrd. destruct Htl as [ctx rc Htag|sig|code].
  - cbn [length] in Hn, Hrd. set (d := pg_emit_copy ctx 0 now pg_done).
    assert (Hwd : event_wf d) by (apply pg_done_wf; rewrite Htag; lia).
    destruct (split_ready rounds (length body)) as (pre & r & more & -> & Hpre & Hready); [lia|].
    apply Forall_app in Hcalm as [Hpc [Hrc Hmc]%Forall_cons].
    rewrite map_app, concat_app, <- app_assoc. cbn [map concat]. rewrite app_nil_r.
    destruct (loop_records pre h true body (encode d ++ junk) rs ab t (r :: more)) as (rs1 & He1 & Hr1 & ->);
      try done; [lia|].
    rewrite loop_ready by done.
    destruct (poll_record h 0 PollReady (Pipe (encode d ++ junk) true) rs1 d junk) as (rs2 & _ & _ & ->);
      try done; [lia|].
    change (1 =? 1) with true. change (is_done d) with true. change (event_ends d) with true. cbv iota.
    unfold show_all. by rewrite foldl_snoc.
  - apply Hend; [apply Forall_app; split; [done|apply sound_signal_records]|rewrite length_app; lia|rewrite length_app; lia].
  - rewrite app_nil_r in *. cbn [length] in *. apply Hend; [done|lia|lia].
Qed.

(** *** What a run leaves *)

(** What every record and every line pushed keeps, a run's loop keeps. *)
Lemma run_loop_inv (P : tui -> Prop) rounds h p rs ab t t' sent :
  (forall ev t, P t -> P (show ev t)) -> (forall f t, P t -> P (with_log f t)) ->
  loop rounds h p rs ab t = Some (t', sent) -> P t -> P t'.
Proof.
  intros Hshow Hlog. revert h p rs ab t t' sent.
  induction rounds as [|r rounds IH]; intros h p rs ab t t' sent; cbn [run_loop]; [done|].
  destruct (negb (rd_poll_ok r)); [by intros [= <- <-]|].
  assert (Hmore : forall h p rs ab t s2, match loop rounds h p rs ab t with
      | Some (t, s3) => Some (t, s2 ++ s3) | None => None end = Some (t', sent) -> P t -> P t').
  { intros h' p' rs' ab' t0 s2. destruct (loop rounds h' p' rs' ab' t0) as [[t1 s1]|] eqn:E; [|done].
    intros [= <- _]. by eapply IH. }
  assert (Hround : forall ab' t0 s2, P t0 ->
    (if rd_ready r then
       match pg_run_poll (Some h) true 0 (rd_inner r) p rs with
       | PollBlocked => None
       | PollRet code (Some ev) p rs =>
           if code =? 1 then
             if negb (event_ends ev) then None
             else if is_done ev then Some (show ev t0, s2)
             else match loop rounds h p rs ab' (show ev t0) with
                  | Some (t, s3) => Some (t, s2 ++ s3) | None => None end
           else Some (t0, s2)
       | PollRet _ None _ _ => Some (t0, s2)
       end
     else match loop rounds h p rs ab' t0 with
          | Some (t, s3) => Some (t, s2 ++ s3) | None => None end) = Some (t', sent) -> P t').
  { intros ab' t0 s2 Ht. destruct (rd_ready r); [|intros H; by eapply Hmore].
    destruct (pg_run_poll _ _ _ _ _ _) as [code [ev|] p' rs'|]; [|by intros [= <- _]|done].
    destruct (code =? 1); [|by intros [= <- _]]. destruct (event_ends ev); [|done]. cbn [negb].
    destruct (is_done ev); [intros [= <- _]; by apply Hshow|].
    intros H. eapply Hmore; [exact H|by apply Hshow]. }
  intros H Ht. destruct (rd_key r) as [ch|]; [|by apply (Hround ab t [] Ht)].
  destruct (is_quit ch && negb ab); [|by apply (Hround ab t [] Ht)].
  eapply Hround; [apply Hlog, Ht|exact H].
Qed.

(** What also the drawing and the fields it sets keep, a run keeps. *)
Lemma run_scenario_inv (P : tui -> Prop) s seed e t rc t' sent :
  (forall ev t, P t -> P (show ev t)) -> (forall f t, P t -> P (with_log f t)) ->
  (forall x t, P t -> P (with_exit x t)) -> (forall st t, P t -> P (redraw g_scens g_has_color st t)) ->
  run_scenario g_scens g_has_color s seed e t = Some (rc, t', sent) ->
  P (with_seed seed (with_stats stats_clear t)) -> P t'.
Proof.
  intros Hshow Hlog Hexit Hdraw. unfold run_scenario. intros H Ht.
  assert (Ht0 : P (redraw g_scens g_has_color running_status (push_lines [start_line s seed]
      (with_seed seed (with_stats stats_clear (with_log log_clear t)))))).
  { apply Hdraw, Hlog. exact (Hlog log_clear _ Ht). }
  revert H. destruct (pg_run_start (Some s) seed true (re_pipe e) (re_fork e)) as [[c [h|]] fds].
  - destruct (loop (re_rounds e) h (re_data e) (re_reads e) false _) as [[t1 s1]|] eqn:E; [|done].
    destruct (pg_run_reap (Some h) (re_waits e)) as [[[[c2 st] h2] fds2]|]; [|done].
    intros [= _ <- _]. apply Hlog, Hexit. by apply (run_loop_inv P) in E.
  - intros [= _ <- _]. by apply Hdraw, Hlog.
Qed.

Lemma run_scenario_keeps s seed e t rc t' sent :
  run_scenario g_scens g_has_color s seed e t = Some (rc, t', sent) ->
  g_sel t' = g_sel t /\ g_last_seed t' = seed /\ t_size t' = t_size t.
Proof.
  intros H. by apply (run_scenario_inv (fun t' => g_sel t' = g_sel t /\ g_last_seed t' = seed /\ t_size t' = t_size t)) in H.
Qed.

(** The calls made so far leave the screen's four windows. *)
Definition on_screen (t : tui) : Prop := play (t_drawn t) ∅ = Some screen.

Lemma on_screen_calls cs t : on_screen t -> steady screen cs -> on_screen (with_calls cs t).
Proof. unfold on_screen. intros Ht Hc. cbn. rewrite play_app, Ht. exact Hc. Qed.

Lemma on_screen_redraw st t : on_screen t -> on_screen (redraw g_scens g_has_color st t).
Proof. intros Ht. apply on_screen_calls; [exact Ht|apply steady_redraw]. Qed.

Lemma on_screen_relayout size t : on_screen t -> on_screen (with_calls touch_all (relayout size t)).
Proof. intros Ht. do 2 (apply on_screen_calls; [|reflexivity]). exact Ht. Qed.

Lemma on_screen_run s seed e t rc t' sent :
  run_scenario g_scens g_has_color s seed e t = Some (rc, t', sent) -> on_screen t -> on_screen t'.
Proof.
  intros H Ht. apply (run_scenario_inv on_screen) in H; try done.
  - intros ev t0 H0. by apply on_screen_redraw.
  - intros st t0 H0. by apply on_screen_redraw.
Qed.

End RunLemmas.

(** ** Lemmas: the machine *)

Section MachineLemmas.
Context {C : Type}.
Variable g_scens : list (pg_scenario_t C).
Variable g_has_color : bool.

(** The selection is a scenario (or nothing is registered), after a run there is
    a scenario to run again, and the windows are those of the screen. *)
Record machine_ok (m : machine) : Prop := {
  mk_sel : 0 <= g_sel (m_tui m) < Z.max 1 (Z.of_nat (length g_scens));
  mk_last : m_post m = true -> exists s, m_last m = Some s /\ s ∈ g_scens;
  mk_elem : forall s, m_last m = Some s -> s ∈ g_scens;
  mk_screen : on_screen (m_tui m)
}.

Lemma menu_key_ok k m m' : machine_ok m -> menu_key g_scens g_has_color k m = Some m' -> machine_ok m'.
Proof.
  intros [Hs Hl He Hw]. unfold menu_key.
  destruct (is_quit (kp_ch k)); [by intros [= <-]|].
  destruct (kp_ch k =? KEY_UP).
  { intros [= <-]. split; [|done|done|by destruct (_ <? _)]. cbn. destruct (Z.ltb_spec 0 (g_sel (m_tui m))); cbn; lia. }
  destruct (kp_ch k =? KEY_DOWN).
  { intros [= <-]. split; [|done|done|by destruct (_ <? _)]. cbn. destruct (Z.ltb_spec (g_sel (m_tui m) + 1) (Z.of_nat (length g_scens))); cbn; lia. }
  destruct (kp_ch k =? KEY_RESIZE); [intros [= <-]; split; try done; by apply on_screen_relayout|].
  destruct (is_enter (kp_ch k)); [|by intros [= <-]].
  destruct (g_scens !! Z.to_nat (g_sel (m_tui m))) as [s|] eqn:E; [|by intros [= <-]].
  destruct (run_scenario _ _ _ _ _ _) as [[[rc t] sent]|] eqn:Er; [|done]. intros [= <-].
  pose proof (on_screen_run _ _ _ _ _ _ _ _ _ Er Hw) as Hw'.
  apply run_scenario_keeps in Er as (Hsel & _). apply list_elem_of_lookup_2 in E.
  split; cbn; [by rewrite Hsel|by exists s|by intros s' [= <-]|done].
Qed.

Lemma post_key_ok k m m' o : machine_ok m -> post_key g_scens g_has_color k m = Some (m', o) -> machine_ok m'.
Proof.
  intros Hm. pose proof Hm as [Hs Hl He Hw]. unfold post_key.
  assert (Hr : forall seed, match m_last m with
      | Some s => match run_scenario g_scens g_has_color s seed (kp_env k) (m_tui m) with
                  | Some (_, t, _) => Some (Machine (m_post m) (m_running m) (m_last m) t, false)
                  | None => None
                  end
      | None => Some (m, false)
      end = Some (m', o) -> machine_ok m').
  { intros seed. destruct (m_last m) as [s|] eqn:El; [|by intros [= <- <-]].
    destruct (run_scenario _ _ _ _ _ _) as [[[rc t] sent]|] eqn:Er; [|done]. intros [= <- <-].
    pose proof (on_screen_run _ _ _ _ _ _ _ _ _ Er Hw) as Hw'.
    apply run_scenario_keeps in Er as (Hsel & _). split; cbn; [by rewrite Hsel|done|done|done]. }
  destruct (is_quit (kp_ch k)); [by intros [= <- <-]|].
  destruct (kp_ch k =? 114); [apply Hr|]. destruct (kp_ch k =? 82); [apply Hr|].
  destruct (_ || _).
  { destruct (m_last m); intros [= <- <-]; [|done]. split; try done. apply on_screen_calls; [done|apply steady_overlay]. }
  destruct (kp_ch k =? KEY_RESIZE); [intros [= <- <-]; split; try done; by apply on_screen_relayout|].
  destruct (_ || _); [|by intros [= <- <-]]. by intros [= <- <-].
Qed.

Lemma tui_key_ok k m m' o : machine_ok m -> tui_key g_scens g_has_color k m = Some (m', o) -> machine_ok m'.
Proof.
  intros Hm. unfold tui_key. destruct (kp_ch k =? ERR); [by intros [= <- <-]|].
  destruct (m_post m).
  - destruct (post_key g_scens g_has_color k m) as [[m1 o1]|] eqn:E; [|done].
    intros [= <- <-]. apply post_key_ok in E; [|done]. destruct E. split; try done. by apply on_screen_redraw.
  - destruct (menu_key g_scens g_has_color k m) as [m1|] eqn:E; [|done]. cbn.
    intros [= <- <-]. apply menu_key_ok in E; [|done]. destruct E. split; try done. by apply on_screen_redraw.
Qed.

Lemma tui_keys_ok keys m m' : machine_ok m -> tui_keys g_scens g_has_color keys m = Some m' -> machine_ok m'.
Proof.
  intros Hm. assert (Hn : forall n keys m, (length keys <= n)%nat -> machine_ok m ->
    tui_keys g_scens g_has_color keys m = Some m' -> machine_ok m'); [|by eapply (Hn (length keys))].
  clear. induction n as [|n IH]; intros keys m Hl Hm H.
  - destruct keys; [|cbn in Hl; lia]. cbn in H. by injection H as <-.
  - destruct keys as [|k keys]; cbn in H; [by injection H as <-|]. cbn in Hl.
    destruct (m_running m); [|by injection H as <-].
    destruct (tui_key g_scens g_has_color k m) as [[m1 o]|] eqn:E; [|done].
    apply tui_key_ok in E; [|done]. destruct o; [|apply (IH keys m1); [lia|done|done]].
    destruct keys as [|k2 keys]; [by injection H as <-|]. apply (IH keys m1); [cbn in Hl; lia|done|done].
Qed.

(** Keys in two batches: the first key of the second one is lost when the first
    batch ends with a lesson on the screen. *)
Lemma tui_keys_app keys m m' :
  tui_keys g_scens g_has_color keys m = Some m' -> m_running m' = true ->
  (forall rest, tui_keys g_scens g_has_color (keys ++ rest) m = tui_keys g_scens g_has_color rest m') \/
  (forall rest, tui_keys g_scens g_has_color (keys ++ rest) m = tui_keys g_scens g_has_color (tail rest) m').
Proof.
  remember (length keys) as n eqn:Hn. assert (Hl : (length keys <= n)%nat) by lia. clear Hn.
  revert keys m Hl. induction n as [|n IH]; intros keys m Hl H Hr.
  - destruct keys; [|cbn in Hl; lia]. cbn in H. injection H as ->. by left.
  - destruct keys as [|k keys]; cbn [tui_keys app] in *; [injection H as ->; by left|]. cbn [length] in Hl.
    destruct (m_running m) eqn:Em; [|injection H as ->; congruence].
    destruct (tui_key g_scens g_has_color k m) as [[m1 o]|]; [|done].
    destruct o; [|apply IH; [lia|done|done]].
    destruct keys as [|k2 keys]; cbn [app].
    + injection H as ->. right. by intros [].
    + apply IH; [cbn [length] in Hl; lia|done|done].
Qed.

(** A key that stops the program, in either batch. *)
Lemma tui_run_stop keys size m k m' :
  tui_keys g_scens g_has_color keys (tui_start g_scens g_has_color size) = Some m -> m_running m = true ->
  tui_key g_scens g_has_color k m = Some (m', false) -> m_running m' = false ->
  let run keys := tui_run g_scens g_has_color true size keys in
  run (keys ++ [k]) = Some (0, Some (tui_end m')) \/
  (run (keys ++ [k]) = None /\ run (keys ++ [k; k]) = Some (0, Some (tui_end m'))).
Proof.
  intros H Hr Hk Hm'. cbv zeta. unfold tui_run. cbn [negb].
  assert (E : forall ks, tui_keys g_scens g_has_color (k :: ks) m = Some m').
  { intros ks. cbn [tui_keys]. rewrite Hr, Hk. destruct ks; cbn [tui_keys]; by rewrite ?Hm'. }
  destruct (tui_keys_app keys _ m H Hr) as [Ha|Ha]; rewrite !Ha; cbn [tail]; rewrite ?E, ?Hm'; [by left|right].
  cbn [tui_keys]. by rewrite Hr.
Qed.

Lemma tui_start_ok size : machine_ok (tui_start g_scens g_has_color size).
Proof.
  split; cbn [tui_start m_tui]; [cbn; lia|done|done|]. apply on_screen_redraw. unfold on_screen.
  cbn [with_calls t_drawn tui_init with_size app]. rewrite play_app.
  replace (play (init_colors g_has_color).1 ∅) with (Some (∅ : windows)) by (by destruct g_has_color).
  apply (play_new_windows (layout_calls size.1 size.2)).
Qed.

End MachineLemmas.

(** A whole run in the interface. *)
Lemma run_scenario_child {C St} g_scens hc
    (call : C -> pg_runctx -> option St -> list pg_event_t * cb_fin (option St))
    (td : C -> pg_runctx -> option St -> list pg_event_t * cb_fin unit) now (s : pg_scenario_t C) seed
    rd wr pid start rounds junk rs ws t :
  records_sound call -> records_sound td -> 0 <= rd -> 0 < pid -> Forall calm rounds ->
  let '(evs, x) := child_main call td now s wr seed start in
  (length junk < EVENT_SIZE)%nat -> RErr ∉ rs -> (EVENT_SIZE * S (length evs) <= reads rs)%nat ->
  (length evs < ready_rounds rounds)%nat -> reap_wait ws = Some (Some x) ->
  exists t', run_scenario g_scens hc s seed
      (RunEnv (Some (rd, wr)) (Some pid) (Pipe (concat (map encode evs) ++ junk) true) rs rounds ws) t
      = Some (0, t', []) /\
    t_log t' = push_all (t_log t) (start_line s seed :: map event_entry evs ++ exit_line x) /\
    t_stats t' = foldl (fun s ev => stats_event ev s) (stats_clear (t_stats t)) evs /\
    g_last_exit t' = x /\ g_last_seed t' = seed /\ g_sel t' = g_sel t.
Proof.
  intros Hc Ht Hrd Hpid Hcalm.
  pose proof (loop_child g_scens hc call td now s wr seed start rounds (Handle pid rd (-1) seed) junk rs false) as Hl.
  destruct (child_main call td now s wr seed start) as [evs x]. intros Hj He Hn Hrounds Hx.
  unfold run_scenario. cbn [pg_run_start re_pipe re_fork re_rounds re_data re_reads re_waits].
  set (t0 := redraw _ _ _ _). rewrite (Hl t0) by done.
  unfold pg_run_reap. cbn [child_pid]. rewrite (proj2 (Z.ltb_lt 0 pid)), Hx by done. cbv beta iota.
  destruct (show_all_keeps g_scens hc evs t0) as (K1 & K2 & K3 & K4).
  eexists. split; [reflexivity|]. cbn [default push_lines with_exit with_log t_log t_stats g_last_exit g_last_seed g_sel].
  rewrite show_all_log, show_all_stats, K1, K2. split_and!; try done.
  unfold push_all. cbn [foldl]. by rewrite foldl_app.
Qed.

(** ** Properties *)

(** C4: the interface shows the whole run: whatever records the scenario emits
    (well formed, none of kind DONE), however the run ends, however the kernel
    cuts up the reads, and with idle rounds and other keys in between, once the
    pipe has been ready for every record [run_scenario] ends with the log holding
    the start line, one line per record in order and the line naming a bad end,
    the statistics being those of the records alone, nothing of an earlier run
    left in either, the exit status of the child, and the selection unchanged. *)
Theorem tui_shows_child {C St} g_scens hc
    (call : C -> pg_runctx -> option St -> list pg_event_t * cb_fin (option St))
    (td : C -> pg_runctx -> option St -> list pg_event_t * cb_fin unit) now (s : pg_scenario_t C) seed
    rd wr pid start rounds junk rs ws t :
  records_sound call -> records_sound td -> 0 <= rd -> 0 < pid -> Forall calm rounds ->
  let '(evs, x) := child_main call td now s wr seed start in
  (length junk < EVENT_SIZE)%nat -> RErr ∉ rs -> (EVENT_SIZE * S (length evs) <= reads rs)%nat ->
  (length evs < ready_rounds rounds)%nat -> reap_wait ws = Some (Some x) ->
  exists t', run_scenario g_scens hc s seed
      (RunEnv (Some (rd, wr)) (Some pid) (Pipe (concat (map encode evs) ++ junk) true) rs rounds ws) t
      = Some (0, t', []) /\
    t_log t' = push_all (t_log t) (start_line s seed :: map event_entry evs ++ exit_line x) /\
    t_stats t' = foldl (fun s ev => stats_event ev s) (stats_clear (t_stats t)) evs /\
    g_last_exit t' = x /\ g_last_seed t' = seed /\ g_sel t' = g_sel t.
Proof. apply run_scenario_child. Qed.

Lemma tui_shows_child_witness :
  let '(evs, x) := child_main crash_call no_teardown 9000 crash_scenario 4 42 1000 in
  exists t', run_scenario [crash_scenario] true crash_scenario 42
      (RunEnv (Some (3, 4)) (Some 77) (Pipe (concat (map encode evs) ++ []) true) (replicate 1100 (RChunk 512))
         (Round true (Some 120) false PollReady :: replicate 4 (Round true None true PollReady))
         [WaitOk x]) tui_init
      = Some (0, t', []) /\
    t_log t' = push_all log_init (start_line crash_scenario 42 :: map event_entry evs ++ exit_line x) /\
    t_stats t' = foldl (fun s ev => stats_event ev s) (stats_clear stats_init) evs /\
    g_last_exit t' = x /\ g_last_seed t' = 42 /\ g_sel t' = 0.
Proof.
  refine (tui_shows_child [crash_scenario] true crash_call no_teardown 9000 crash_scenario 42 3 4 77 1000
    (Round true (Some 120) false PollReady :: replicate 4 (Round true None true PollReady)) []
    (replicate 1100 (RChunk 512)) [WaitOk (Signaled SIGSEGV)] tui_init _ _ ltac:(lia) ltac:(lia) _
    ltac:(unfold EVENT_SIZE; cbn; lia) _ _ _ eq_refl).
  - intros f ctx st Htag. constructor; [|constructor]. apply sound_emit; [by apply ev_text_wf|by apply ev_text_strings|lia|done|done].
  - intros f ctx st _. constructor.
  - constructor; [split; [done|split; [by intros ch [= <-]|done]]|]. apply Forall_replicate. by split_and!.
  - apply (bool_decide_unpack _). vm_compute. exact I.
  - vm_compute. lia.
  - vm_compute. lia.
Defined.

(** C34: an interrupted [poll] ends the display of a run: when [poll] fails in the
    middle of a run (a resize of the terminal interrupts it with EINTR), the loop
    is left at once and the records not read by then are never shown, whatever
    they are and whoever the child is; only its exit status still is. *)
Theorem tui_poll_error_drops_rest {C} g_scens hc (s : pg_scenario_t C) seed rd wr pid evs rest rs rounds r more ws x t :
  0 <= rd -> 0 < pid -> Forall sound_event evs -> Forall calm rounds -> ready_rounds rounds = length evs ->
  rd_poll_ok r = false -> RErr ∉ rs -> (EVENT_SIZE * length evs <= reads rs)%nat -> reap_wait ws = Some (Some x) ->
  exists t', run_scenario g_scens hc s seed
      (RunEnv (Some (rd, wr)) (Some pid) (Pipe (concat (map encode evs) ++ rest) true) rs (rounds ++ r :: more) ws) t
      = Some (0, t', []) /\
    t_log t' = push_all (t_log t) (start_line s seed :: map event_entry evs ++ exit_line x) /\
    t_stats t' = foldl (fun s ev => stats_event ev s) (stats_clear (t_stats t)) evs.
Proof.
  intros Hrd Hpid Hev Hc Hn Hr He Hreads Hx.
  unfold run_scenario. cbn [pg_run_start re_pipe re_fork re_rounds re_data re_reads re_waits].
  set (t0 := redraw _ _ _ _).
  destruct (loop_records g_scens hc rounds (Handle pid rd (-1) seed) true evs rest rs false t0 (r :: more))
    as (rs' & _ & _ & ->); [done..|].
  cbn [run_loop]. rewrite Hr. cbn [negb].
  unfold pg_run_reap. cbn [child_pid]. rewrite (proj2 (Z.ltb_lt 0 pid)), Hx by done. cbv beta iota.
  eexists. split; [reflexivity|]. cbn [default push_lines with_exit with_log t_log t_stats g_last_exit].
  rewrite show_all_log, show_all_stats. split_and!; try done.
  unfold push_all. cbn [foldl]. by rewrite foldl_app.
Qed.

(** A record sent and a fault record waiting when the terminal is resized. *)
Lemma tui_poll_error_drops_rest_witness :
  exists t', run_scenario [crash_scenario] true crash_scenario 42
      (RunEnv (Some (3, 4)) (Some 77) (Pipe (concat (map encode [fault_event SIGBUS]) ++ encode (fault_event SIGSEGV)) true)
         (replicate 300 (RChunk 512)) ([Round true None true PollReady] ++ Round false None false PollReady :: [])
         [WaitOk (Exited 0)]) tui_init
      = Some (0, t', []) /\
    t_log t' = push_all log_init (start_line crash_scenario 42 :: map event_entry [fault_event SIGBUS] ++ exit_line (Exited 0)) /\
    t_stats t' = foldl (fun s ev => stats_event ev s) (stats_clear stats_init) [fault_event SIGBUS].
Proof.
  apply (tui_poll_error_drops_rest [crash_scenario] true crash_scenario 42 3 4 77 [fault_event SIGBUS]
    (encode (fault_event SIGSEGV)) (replicate 300 (RChunk 512)) [Round true None true PollReady]
    (Round false None false PollReady) [] [WaitOk (Exited 0)] (Exited 0) tui_init); try done.
  - constructor; [apply sound_fault|constructor].
  - constructor; [by split_and!|constructor].
  - apply (bool_decide_unpack _). vm_compute. exact I.
  - vm_compute. lia.
Defined.

(** C31: the menu never leaves its bounds: after any keys, whatever the runs do, the
    selected index is that of a registered scenario (0 if there is none), so
    [draw_menu]'s and ENTER's [g_scens[g_sel]] are in bounds, and after a run the
    scenario to run again is a registered one.  Rerunning with [r] uses the seed
    of the last run, and that remains the last seed.  From either state [q] stops
    the loop and [tui_run] returns 0 (the first [q] only closes a lesson that is
    on the screen, the second one ends the program); it returns 0 whenever the
    loop has stopped, and 1 only when [initscr] fails.  Every ncurses call made on
    the way names a window that exists, resizes and lessons included: none is
    drawn on after it was released or released twice, every attribute turned on is
    turned off, what is left are the four windows of the screen, and the end
    releases those. *)
Theorem menu_stays_in_bounds {C} (g_scens : list (pg_scenario_t C)) hc size keys m k :
  tui_keys g_scens hc keys (tui_start g_scens hc size) = Some m ->
  0 <= g_sel (m_tui m) < Z.max 1 (Z.of_nat (length g_scens)) /\
  (m_post m = true -> exists s, m_last m = Some s /\ s ∈ g_scens /\
     (kp_ch k = 114 -> forall rc t sent,
        run_scenario g_scens hc s (g_last_seed (m_tui m)) (kp_env k) (m_tui m) = Some (rc, t, sent) ->
        tui_key g_scens hc k m = Some (Machine true (m_running m) (Some s) (redraw g_scens hc post_status t), false) /\
        g_last_seed t = g_last_seed (m_tui m))) /\
  (is_quit (kp_ch k) = true ->
     exists m', tui_key g_scens hc k m = Some (m', false) /\ m_running m' = false /\
       (m_running m = true ->
          let run keys := tui_run g_scens hc true size keys in
          run (keys ++ [k]) = Some (0, Some (tui_end m')) \/
          (run (keys ++ [k]) = None /\ run (keys ++ [k; k]) = Some (0, Some (tui_end m'))))) /\
  (m_running m = false -> tui_run g_scens hc true size keys = Some (0, Some (tui_end m))) /\
  tui_run g_scens hc false size keys = Some (1, None) /\
  play (t_drawn (m_tui m)) ∅ = Some screen /\
  play (t_drawn (m_tui (tui_end m))) ∅ = Some ∅.
Proof.
  intros H. pose proof (tui_keys_ok g_scens hc keys _ m (tui_start_ok g_scens hc size) H) as [Hs Hl He Hw].
  split; [done|]. split; [|split; [|split; [|split; [done|split; [exact Hw|]]]]].
  - intros Hp. destruct (Hl Hp) as (s & Hlast & Hin). exists s. split_and!; [done|done|].
    intros Hk rc t sent Hrun. unfold tui_key, post_key. rewrite Hk, Hp, Hlast. cbn [Z.eqb Pos.eqb ERR].
    change (is_quit 114) with false. cbv iota. rewrite Hrun. cbn [m_post m_running m_last m_tui].
    split; [done|]. by apply run_scenario_keeps in Hrun as (_ & ? & _).
  - intros Hq. assert (Hk : exists m', tui_key g_scens hc k m = Some (m', false) /\ m_running m' = false).
    { unfold tui_key.
      assert (Hne : (kp_ch k =? ERR) = false) by (destruct (Z.eqb_spec (kp_ch k) ERR) as [E|]; [by rewrite E in Hq|done]).
      rewrite Hne. destruct (m_post m) eqn:Hp; unfold post_key, menu_key; rewrite Hq; eexists; split; reflexivity. }
    destruct Hk as (m' & Hk & Hm'). exists m'. split; [done|]. split; [done|].
    intros Hr. by apply (tui_run_stop g_scens hc keys size m k).
  - intros Hr. unfold tui_run. cbn [negb]. by rewrite H, Hr.
  - cbn [tui_end m_tui with_calls t_drawn]. rewrite play_app. unfold on_screen in Hw. rewrite Hw. reflexivity.
Qed.

Lemma menu_stays_in_bounds_witness :
  let key ch := KeyPress ch 0 (24, 80) (RunEnv None None (Pipe [] true) [] [] []) in
  exists m, tui_keys g_reg true [key KEY_UP; key KEY_DOWN; key 10] (tui_start g_reg true (24, 80)) = Some m /\
    0 <= g_sel (m_tui m) < Z.max 1 (Z.of_nat (length g_reg)).
Proof.
  intros key.
  assert (Hs : is_Some (tui_keys g_reg true [key KEY_UP; key KEY_DOWN; key 10] (tui_start g_reg true (24, 80))))
    by (apply (bool_decide_unpack _); vm_compute; exact I).
  destruct (tui_keys g_reg true _ _) as [m|] eqn:E; [|by destruct Hs].
  exists m. split; [done|].
  apply (menu_stays_in_bounds g_reg true (24, 80) [key KEY_UP; key KEY_DOWN; key 10] m (key 113) E).
Defined.
