(* ===== verification/Assembly.v ===== *)
(** * The whole program

    Every callback of the catalogue as the runner calls it: the scenario
    programs over one record of what the kernel, the scheduler and the clock
    answer.  Under the answers the system's interfaces allow, every record any
    of them emits is one the runner's consumers can trust, so the headless
    front end and the display are right about every registered scenario. *)

From S2P Require Import Herd.
From S2P Require Import Prelude CLib Rand Event Registry Runner Main ChaosMem ChaosIo ChaosNet ChaosThread Prog.
From S2P Require Import Catalogue ScenMemory ScenTimeio ScenConcurrency ScenNetwork ScenCompound ScenReplicas.

#[local] Open Scope Z_scope.
#[local] Open Scope list_scope.

(** ** The answers of the system *)

Record system := System {
  (* the clock at each record; the signal that ends a child that waits for ever *)
  y_now : nat -> Z;
  y_kill : signal;
  (* calloc, mmap *)
  y_calloc : bool;
  y_mmap : option Z;
  (* by number of the call: mkstemp, write, errno, clock_gettime, fsync and close,
     and the time calls take *)
  y_mkstemp : nat -> option (Z * string);
  y_write : nat -> Z -> Z;
  y_errno : nat -> Z;
  y_time : nat -> Z * Z;
  y_ret : nat -> Z;
  y_took : nat -> Z;
  y_start : Z;
  y_rounds : positive;
  (* sockets: the pair, each send, what poll and read return *)
  y_strerror : Z -> string;
  y_socketpair : option (Z * Z);
  y_pair : pair_env;
  y_send : nat -> Z * Z;
  y_peer : nat -> nat;
  y_recv : list (Z * Z);
  (* threads: which start, which finish before a record, how locks are taken,
     where the copier is cut, and the final states of the shared-memory races *)
  y_create : nat -> bool;
  y_finish : nat -> list Z;
  y_race : race;
  y_mutex : mutex -> Z;
  y_sched : list bool;
  y_copied : nat;
  y_herd : herd_threads;
  y_brain : brain
}.

(** [s->run(&ctx, state)] and [s->explain]; no scenario has state. *)
Definition run_on {W} (y : system) (ctx : pg_runctx) (st : option unit) (p : prog W Z) (w : W)
  : list pg_event_t * cb_fin (option unit) := as_callback (y_kill y) (y_now y) p w ctx st.

(** A scenario program with the world it starts in. *)
Record runnable := Runnable {
  rn_world : Type;
  rn_released : World rn_world;
  rn_prog : prog rn_world Z;
  rn_init : rn_world
}.
Arguments Runnable {rn_world rn_released} rn_prog rn_init.

Definition program (y : system) (seed : Z) (f : scenario_fn) : runnable :=
  let io := io_world_init seed in
  let rt := rt_init seed (y_start y) in
  match f with
  | Run_arena_corrupt => Runnable (ac_run (y_calloc y) (y_mmap y)) None
  | Run_double_free => Runnable (ScenMemory.df_run (y_calloc y) (y_mmap y)) None
  | Run_uaf_callback => Runnable (uc_run (y_calloc y) (y_mmap y)) None
  | Run_crash_null_deref => Runnable cn_run None
  | Run_disk_full =>
      Runnable (ScenTimeio.df_run (y_mkstemp y) (y_write y) (y_errno y) (y_ret y)) io
  | Run_partial_write => Runnable (pw_run (y_mkstemp y) (y_write y) (y_errno y) (y_ret y)) io
  | Run_slow_fsync =>
      Runnable (sf_run (y_mkstemp y) (y_write y) (y_errno y) (y_time y) (y_ret y)) io
  | Run_clock_jump => Runnable (cj_run (y_time y)) io
  | Run_jittery_timer => Runnable (jt_run (y_time y)) io
  | Run_connection_reset =>
      Runnable
        (cr_run (y_strerror y) (y_socketpair y) (hd (0, 0) (y_recv y)).2 (y_peer y) (y_send y)) cr_empty
  | Run_packet_loss => Runnable (pl_run seed (y_pair y) (fun i => (y_send y i).1) (y_recv y)) net_empty
  | Run_partial_read => Runnable (pr_run seed (y_pair y) (y_send y 0).1 (y_recv y)) net_empty
  | Run_race_counter => Runnable (rc_run (y_create y) (y_finish y) (rc_counter (y_race y))) tt
  | Run_deadlock_classic => Runnable (dl_run (y_mutex y) (y_calloc y) (y_create y 0)
        (SpawnEnv (y_calloc y) (y_calloc y) (if y_create y 1 then Some 0 else None))
        (SpawnEnv (y_calloc y) (y_calloc y) (if y_create y 2 then Some 0 else None)) (y_sched y)) tt
  | Run_thread_cancel_midwrite =>
      Runnable (tcm_run (SpawnEnv (y_calloc y) (y_calloc y) (if y_create y 0 then Some 0 else None))
        (y_calloc y) (y_create y 1) (y_copied y)) tt
  | Run_cascading_failure =>
      Runnable (cf_run (y_took y) (y_mkstemp y) (y_write y) (y_ret y) seed (y_pair y)
        (fun i => (y_send y i).1) (map snd (y_recv y))) rt
  | Run_flaky_environment =>
      Runnable (fl_run (y_took y) (y_mkstemp y) (y_write y) (y_ret y) (y_rounds y) seed (y_pair y)
        (map snd (y_recv y))) rt
  | Run_thundering_herd =>
      Runnable (th_run (y_took y) (y_mkstemp y) (y_ret y) (herd_wall (y_herd y))
        (ht_total_wait (y_herd y)) (ht_total_work (y_herd y)) (map snd (ht_wrote (y_herd y)))) rt
  | Run_split_brain =>
      Runnable (sb_run seed (y_pair y) (sb_r1 (y_brain y)) (sb_r2 (y_brain y)) (y_took y 0)) net_empty
  | Explain_race_counter => Runnable (rc_explain;; mret 0) tt
  end.

(* @ src/core/runner.c:255-255 pg_run_start *)
Definition callbacks (y : system) (f : scenario_fn) (ctx : pg_runctx) (st : option unit)
  : list pg_event_t * cb_fin (option unit) :=
  let r := program y (pg_runctx_seed (Some ctx)) f in run_on y ctx st (rn_prog r) (rn_init r).

(** No descriptor has a teardown. *)
Definition no_callbacks (f : scenario_fn) (ctx : pg_runctx) (st : option unit)
  : list pg_event_t * cb_fin unit := ([], CbRet 0 (ctx_rng ctx) tt).

(** Bytes that came out of a stream of reads. *)
Definition arrived (answers : list (Z * Z)) : Z := foldr (fun a n => Z.max 0 a.2 + n) 0 answers.

(** What the interfaces promise: user mappings are in the lower half of the
    address space, descriptors are not negative, writes accept at most what they are offered (4 KiB at a time
    on sockets), a socket delivers no more than the scenarios ever send, and the
    races end in states their steps reach, every thread having returned, the
    herd's totals without overflow. *)
Record admissible (y : system) : Prop := {
  ad_mmap : forall base, y_mmap y = Some base -> 0 < base /\ base + arena_bytes <= 2 ^ 63;
  ad_mkstemp : forall i fd name, y_mkstemp y i = Some (fd, name) -> 0 <= fd;
  ad_pair : Forall (fun fd => 0 <= fd) (opened (y_pair y));
  ad_write : forall i n, 0 < n -> -1 <= y_write y i n <= n;
  ad_send : forall i, (y_send y i).1 <= 4096;
  ad_recv : arrived (y_recv y) <= 12800;
  ad_race : rtc (race_step WRITES) (race_start WRITERS) (y_race y) /\ race_over WRITES (y_race y);
  ad_herd : (forall fd name, y_mkstemp y 0%nat = Some (fd, name) ->
               exists now tag, rtc (threads_step fd) (threads_start now tag (herd_files fd name)) (y_herd y)) /\
            (exists t0 dt, ht_main (y_herd y) = MDone t0 dt) /\
            in_i64 (ht_total_wait (y_herd y)) /\ in_i64 (ht_total_work (y_herd y));
  ad_brain : rtc sb_step (sb_start 0 0) (y_brain y)
}.

(** ** Every record is sound *)

Definition sound_from {W A} (p : prog W A) (w : W) : Prop := Forall raw_sound (p w).1.1.

Lemma emits_from {W A} I (p : prog W A) Q w : emits I p Q -> I w -> sound_from p w.
Proof. intros H Hw. apply (H w Hw). Qed.

(** The invariant [anywhere], where the world does not matter. *)
Lemma emits_sound {W A} (p : prog W A) w : emits anywhere p anywhere -> sound_from p w.
Proof. intros H. by eapply emits_from. Qed.

(** *** Memory *)

Lemma plain_run {W} (p : prog W Z) w report r w' :
  p w = (map (pair 0) report, r, w') -> Forall (fun ev => raw_sound (0, ev)) report -> sound_from p w.
Proof. intros E H. unfold sound_from. rewrite E. cbn. by apply Forall_map. Qed.

Ltac report_sound :=
  repeat first [ apply Forall_nil_2 | apply Forall_cons_2 ];
  first [ by apply text_sound | apply kv_sound; [done|done|lia] ].

Lemma with_arena_sound (run : bool -> option Z -> prog (option chaos_arena) Z) body ok m :
  (forall ok m, run ok m = with_arena ok m body) ->
  (forall base, 0 < base -> base + arena_bytes <= 2 ^ 63 -> sound_from (run true (Some base)) None) ->
  (forall base, m = Some base -> 0 < base /\ base + arena_bytes <= 2 ^ 63) ->
  sound_from (run ok m) None.
Proof.
  intros Hrun Hb Hm. destruct ok, m as [base|]; [by apply Hb; apply Hm|..];
    rewrite Hrun; apply emits_sound; unfold with_arena, chaos_arena_create;
    change (arena_bytes <? 4096) with false; cbv beta iota delta [negb]; emits_steps.
Qed.

Section Memory.
Variable y : system.
Hypothesis ok : admissible y.

Lemma ac_sound : sound_from (ac_run (y_calloc y) (y_mmap y)) None.
Proof.
  eapply with_arena_sound; [reflexivity| |apply ok]. intros base Hb Ht.
  eapply plain_run; [by apply ac_run_lemma|]. report_sound.
Qed.

Lemma double_free_sound : sound_from (ScenMemory.df_run (y_calloc y) (y_mmap y)) None.
Proof.
  eapply with_arena_sound; [reflexivity| |apply ok]. intros base Hb Ht.
  eapply plain_run; [by apply double_free_run_lemma|]. report_sound.
Qed.

Lemma uc_sound : sound_from (uc_run (y_calloc y) (y_mmap y)) None.
Proof.
  eapply with_arena_sound; [reflexivity| |apply ok]. intros base Hb Ht.
  eapply plain_run; [by apply uc_run_lemma|]. report_sound.
Qed.

Lemma cn_sound w : sound_from cn_run w.
Proof. eapply plain_run; [apply cn_run_lemma|]. report_sound. Qed.

End Memory.

(** *** Files and clocks *)

Section Timeio.
Variable y : system.
Hypothesis ok : admissible y.

Abbreviation mk := (y_mkstemp y).
Abbreviation wr := (y_write y).

Lemma write_begin_bound fd n g want : 0 < n -> write_begin fd n g = Some want -> 0 < want <= n.
Proof.
  intros Hn. unfold write_begin. destruct (find_locked fd g) as [i|]; [|intros [= <-]; lia].
  repeat case_match; intros; simplify_eq; zlia.
Qed.

Lemma io_write_emits fd n : 0 < n ->
  emits anywhere (io_write wr (y_errno y) fd n) (fun r => -1 <= r.1 <= n).
Proof.
  intros Hn. apply emits_act. intros w _. split; [|done]. unfold chaos_io_write.
  destruct (write_begin fd n (w_slots w)) as [want|] eqn:E; cbn; [|lia].
  apply write_begin_bound in E; [|done]. pose proof (ad_write y ok (w_calls w) want). lia.
Qed.

Lemma act_any {W A} (f : W -> A * W) : emits anywhere (act f) anywhere.
Proof. by apply emits_act. Qed.

Lemma update_any {W} (f : W -> W) : emits anywhere (update f) anywhere.
Proof. by apply emits_update. Qed.

Lemma clock_now_emits t : emits anywhere (clock_now t) (fun t => in_u64 t).
Proof.
  apply emits_act. intros w _. split; [|done]. unfold chaos_clock_now_ns.
  repeat case_match; cbn in *; simplify_eq; apply u64_range.
Qed.

Lemma jt_now_emits : emits anywhere (jt_now_ns (y_time y)) (fun t => in_i64 t).
Proof. apply emits_act. intros w _. split; [apply i64_range|done]. Qed.

End Timeio.

Ltac emits_any := apply (emits_bind _ _ _ anywhere); [first [apply act_any | apply update_any]|intros ? _].

(** The next call of the program, where what it returns does not matter. *)
Ltac emits_calls :=
  repeat first
    [ emits_step
    | match goal with
      | |- emits _ (mbind _ (if ?b then _ else _)) _ =>
          apply (emits_bind _ _ _ anywhere); [destruct b; solve [emits_calls]|intros ? _]
      | |- emits _ (if ?b then _ else _) _ => let H := fresh "Hb" in destruct b eqn:H
      | |- emits _ (mbind _ (mret _)) _ => apply (emits_bind _ _ _ anywhere); [by apply emits_ret|intros ? _]
      | |- emits _ (mbind _ ?p) _ =>
          lazymatch p with
          | io_open _ => emits_any | io_fsync _ _ => emits_any | io_close _ _ => emits_any
          | rt_open _ _ => emits_any | rt_sleep _ _ => emits_any | rt_fsync _ _ _ => emits_any
          | rt_close _ _ _ => emits_any | io_table _ => emits_any | clock_set _ => emits_any
          | rt_table _ => emits_any | rt_jitter _ => emits_any | update _ => emits_any
          | act _ => emits_any | rt_pair _ _ _ _ => emits_any | rt_net_op _ _ => emits_any
          | rt_send _ => emits_any
          end
      | |- emits _ (emit _) _ => eapply emits_weaken; [solve [auto with emits]|done]
      end ].

Section TimeioRuns.
Variable y : system.
Hypothesis ok : admissible y.

Lemma disk_full_sound w :
  sound_from (ScenTimeio.df_run (y_mkstemp y) (y_write y) (y_errno y) (y_ret y)) w.
Proof.
  apply emits_sound. unfold ScenTimeio.df_run. emits_calls.
  eapply emits_bind.
  { apply emits_for_from with (P := fun i s => 0 <= s.1.1 <= 64 * i /\ 0 <= s.1.2 <= i); [cbn; lia|].
    intros i [[total n] first] Hi H. cbn in H. unfold df_body.
    eapply emits_bind; [by apply io_write_emits|]. intros [r errno] Hr. cbn in Hr.
    destruct (r <? 0) eqn:E; [destruct (errno =? ENOSPC)|]; emits_calls; cbn; lia. }
  intros [[total n] first] H. cbn in H. emits_calls.
Qed.

Lemma pw_sound w : sound_from (pw_run (y_mkstemp y) (y_write y) (y_errno y) (y_ret y)) w.
Proof.
  apply emits_sound. unfold pw_run. emits_calls.
  eapply emits_bind; [by apply io_write_emits|]. intros [naive e] Hn. cbn in Hn. emits_calls.
  eapply emits_bind.
  { apply emits_loop with (P := fun s => 0 <= s.1.1 /\ s.2 = 2048 - s.1.1 /\ 0 <= s.1.2 <= s.2)
                         (Q := fun s => 0 <= s.1 <= 2048 /\ 0 <= s.2 <= 2048); [cbn; lia|].
    intros [[remaining calls] total] H. cbn in H. unfold pw_body.
    destruct (remaining <=? 0) eqn:E; [emits_calls; cbn; lia|].
    eapply emits_bind; [apply io_write_emits; [done|lia]|]. intros [r e'] Hr. cbn in Hr.
    destruct (r <=? 0) eqn:E'; emits_calls; cbn; lia. }
  intros [calls total] H. cbn in H. emits_calls.
Qed.

Lemma sf_sound w :
  sound_from (sf_run (y_mkstemp y) (y_write y) (y_errno y) (y_time y) (y_ret y)) w.
Proof.
  apply emits_sound. unfold sf_run. emits_calls.
  eapply emits_bind; [by apply io_write_emits|]. intros _ _. emits_calls.
  eapply emits_bind; [apply clock_now_emits|]. intros t0 H0. emits_calls.
  eapply emits_bind; [apply clock_now_emits|]. intros t1 H1. cbv zeta.
  pose proof (u64_range (t1 - t0)).
  assert (in_i64 (u64 (t1 - t0) / 1000000)) by zlia. emits_calls.
Qed.

Lemma cj_sound w : sound_from (cj_run (y_time y)) w.
Proof.
  apply emits_sound. unfold cj_run. emits_calls.
  eapply emits_bind; [apply clock_now_emits|]. intros start _.
  eapply emits_bind.
  { apply emits_loop_upto with (P := fun s => 0 <= s.1 <= 100000000) (Q := fun n => 0 <= n <= 100000001);
      [cbn; lia|].
    intros [iters bumped] H. cbn in H. unfold cj_body.
    eapply emits_bind; [apply clock_now_emits|]. intros now _.
    destruct (negb _); [emits_calls; cbn; lia|]. cbv zeta.
    apply (emits_bind _ _ _ anywhere); [destruct (_ && _); emits_calls|]. intros b _.
    destruct (100000000 <? iters + 1) eqn:E; emits_calls; cbn; lia. }
  intros iters H. cbn in H. cbv zeta. destruct (iters <=? 100000000); emits_calls.
Qed.

Lemma jt_sound w : sound_from (jt_run (y_time y)) w.
Proof.
  apply emits_sound. unfold jt_run. emits_calls.
  eapply emits_bind.
  { apply emits_for_from with (P := fun i s => in_i64 s.1.1 /\ in_i64 s.1.2 /\ in_i64 s.2);
      [change (Z.shiftl 1 62) with (2 ^ 62); cbn [fst snd]; lia|].
    intros i [[total mn] mx] Hi H. cbn in H. unfold jt_body.
    eapply emits_bind; [apply jt_now_emits|]. intros t0 _.
    eapply emits_bind; [apply jt_now_emits|]. intros t1 _.
    pose proof (i64_range (t1 - t0)). pose proof (i64_range (total + i64 (t1 - t0))).
    emits_calls. cbn. repeat case_match; lia. }
  intros [[total mn] mx] H. cbn in H. cbv zeta.
  assert (in_i64 (Z.quot (Z.quot total 50) 1000)) by zlia.
  assert (in_i64 (Z.quot mn 1000)) by zlia. assert (in_i64 (Z.quot mx 1000)) by zlia.
  emits_calls.
Qed.
End TimeioRuns.

(** *** Threads *)

Section Threads.
Variable y : system.
Hypothesis ok : admissible y.

Lemma writers_finish_emits tags : emits anywhere (writers_finish tags) anywhere.
Proof. induction tags as [|t tags IH]; cbn [writers_finish foldr]; [emits_calls|]. emits_step. apply IH. Qed.

Lemma final_counter : in_i64 (rc_counter (y_race y)).
Proof.
  destruct (ad_race y ok) as [Hr Ho].
  destruct (race_bounds WRITES WRITERS (y_race y)) as [H1 H2];
    [unfold WRITES; lia|unfold WRITERS; lia|done|done|]. unfold WRITES, WRITERS in *. lia.
Qed.

Lemma rc_sound w : sound_from (rc_run (y_create y) (y_finish y) (rc_counter (y_race y))) w.
Proof.
  apply emits_sound. unfold rc_run. pose proof final_counter.
  change (Z.of_nat WRITERS * Z.of_nat WRITES) with 8000. emits_calls.
  eapply emits_bind.
  { apply emits_niter with (P := anywhere) (Q := anywhere); [done|]. intros i _. unfold rc_spawn.
    destruct (i <? WRITERS)%nat; [|by apply emits_ret].
    eapply emits_bind; [apply writers_finish_emits|]. intros _ _.
    destruct (y_create y i); emits_calls. }
  intros [i|[]] _; [|emits_calls].
  eapply emits_bind; [apply writers_finish_emits|]. intros _ _. emits_step.
  eapply emits_bind; [apply writers_finish_emits|]. intros _ _. emits_calls.
Qed.

Lemma rc_explain_sound w : sound_from (rc_explain;; mret 0) w.
Proof.
  apply emits_sound. eapply (emits_bind _ _ _ anywhere); [unfold rc_explain; emits_calls|].
  intros _ _. emits_calls.
Qed.

Lemma locker_step_sound arg taken pc pc' evs :
  locker_step (y_mutex y) arg taken pc = Some (pc', evs) -> forall tag, in_u32 tag -> Forall raw_sound (map (pair tag) evs).
Proof.
  intros H tag Ht. unfold locker_step in H. destruct pc; repeat case_match; simplify_eq; cbn [map];
    repeat (apply Forall_cons_2 || apply Forall_nil_2); by apply text_sound.
Qed.

Lemma lockers_sound a1 a2 st sched (tag : bool -> Z) : (forall who, in_u32 (tag who)) ->
  Forall raw_sound (map (fun '(who, ev) => (tag who, ev)) (lockers_run (y_mutex y) a1 a2 st sched).2).
Proof.
  intros Ht. revert st. induction sched as [|who sched IH]; intros st; cbn [lockers_run]; [constructor|].
  destruct (lockers_step _ _ _ _ _) as [[st' evs]|] eqn:E; [|apply IH].
  specialize (IH st'). destruct (lockers_run _ _ _ st' sched) as [st2 evs2]. cbn [snd] in *.
  rewrite map_app. apply Forall_app. split; [|done]. unfold lockers_step in E. destruct st as [p1 p2], who.
  - destruct (locker_step _ a2 _ _) as [[p e]|] eqn:E1; cbn in E; [|done]. simplify_eq. rewrite map_map.
    by eapply (locker_step_sound _ _ _ _ _ E1 (tag true)).
  - destruct (locker_step _ a1 _ _) as [[p e]|] eqn:E1; cbn in E; [|done]. simplify_eq. rewrite map_map.
    by eapply (locker_step_sound _ _ _ _ _ E1 (tag false)).
Qed.

Lemma locker_tag_range e1 e2 who :
  let '(t1, t2) := dl_spawns e1 e2 in in_u32 (locker_tag (if (who : bool) then t2 else t1)).
Proof.
  unfold dl_spawns. pose proof (spawn_cases tt arg_ab (Some "T1"%string) e1 1 ltac:(lia)) as H1.
  destruct (chaos_thread_spawn (Some tt) arg_ab (Some "T1"%string) e1 1) as [t1 c].
  assert (1 <= c <= 2) by (destruct t1 as [[]|]; lia).
  pose proof (spawn_cases tt arg_ba (Some "T2"%string) e2 c ltac:(lia)) as H2.
  destruct (chaos_thread_spawn (Some tt) arg_ba (Some "T2"%string) e2 c) as [t2 c2].
  destruct who; [destruct t2 as [[]|]|destruct t1 as [[]|]]; cbn; lia.
Qed.

Lemma dl_sound m c e1 e2 w : sound_from (dl_run (y_mutex y) m c e1 e2 (y_sched y)) w.
Proof.
  apply emits_sound. unfold dl_run. emits_calls. unfold dl_tagged.
  pose proof (lockers_sound arg_ab arg_ba (dl_start e1 e2) (y_sched y)) as H.
  pose proof (locker_tag_range e1 e2) as Ht. destruct (dl_spawns e1 e2) as [t1 t2].
  specialize (H (fun who : bool => locker_tag (if who then t2 else t1)) Ht).
  destruct (lockers_run _ _ _ _ _) as [st evs]. cbn [snd] in H.
  eapply (emits_bind _ _ _ anywhere); [by apply emits_emit_all|]. intros _ _.
  destruct (bool_decide _); [emits_calls|]. unfold chaos_thread_watchdog, watchdog_fn.
  destruct m, c; cbv beta iota zeta; emits_calls.
Qed.

Lemma copied_range k n : in_i64 (nth n (copier_fn k) 0).
Proof.
  assert (H : Forall (fun z => 0 <= z <= 88) (copier_fn k)).
  { induction k as [|k IH]; cbn [copier_fn]; [by repeat constructor|].
    apply Forall_insert; [done|]. destruct (nth_in_or_default (k mod 8) src 0) as [Hin| ->]; [|lia].
    revert Hin. generalize (nth (k mod 8) src 0). intros z Hin. cbn in Hin. lia. }
  destruct (nth_in_or_default n (copier_fn k) 0) as [Hin| ->]; [|lia].
  apply list_elem_of_In in Hin. rewrite Forall_forall in H. specialize (H _ Hin). lia.
Qed.

Lemma fields_set_range k : 0 <= fields_set (copier_fn k) <= 8.
Proof.
  unfold fields_set. pose proof (count_le_length (fun f => negb (f =? 0)) (copier_fn k)) as H.
  assert (length (copier_fn k) = 8%nat) as E; [|lia].
  clear H. induction k as [|k IH]; cbn [copier_fn]; [done|]. by rewrite length_insert.
Qed.

Lemma tcm_sound e malloc_ok create_ok k w : sound_from (tcm_run e malloc_ok create_ok k) w.
Proof.
  apply emits_sound. unfold tcm_run. cbv zeta. set (t := fst <$> _). set (k' := match t with Some _ => k | None => _ end).
  pose proof (fields_set_range k'). pose proof (copied_range k') as Hc.
  set (d := copier_fn _) in *. clearbody d. emits_step.
  eapply (emits_bind _ _ _ anywhere).
  { destruct t as [t|]; [destruct (chaos_thread_cancel_at_ns _ _ _ _).2|]; emits_calls. }
  intros _ _.
  repeat (eapply (emits_bind _ _ _ anywhere); [first [solve [auto with emits]|by apply emits_actual; apply Hc]|intros _ _]).
  by apply emits_ret.
Qed.
End Threads.

(** *** Sockets *)

Section Sockets.
Variable y : system.
Hypothesis ok : admissible y.

(** The peer's records that are still to come are sound. *)
Abbreviation peer_sound := (Forall (fun ev => raw_sound (0, ev))) (only parsing).
Definition pending_ok (w : cr_world) : Prop := peer_sound (peer_records (cw_pending w)).

Lemma peer_moves_emits n : emits pending_ok (peer_moves n) anywhere.
Proof.
  intros w Hw. unfold pending_ok in Hw. rewrite <- (take_drop n (cw_pending w)) in Hw.
  unfold peer_records in Hw. rewrite omap_app in Hw. apply Forall_app in Hw as [H1 H2].
  cbn. split; [by apply Forall_map|]. by split.
Qed.

Lemma peer_join_emits : emits pending_ok peer_join anywhere.
Proof. intros w. apply (peer_moves_emits (length (cw_pending w)) w). Qed.

Lemma cr_emits sp recv :
  emits pending_ok (cr_run (y_strerror y) sp recv (y_peer y) (y_send y)) anywhere.
Proof.
  unfold cr_run. eapply (emits_bind _ _ _ anywhere).
  { apply emits_act. intros w Hw. split; [done|]. by destruct sp as [[]|]. }
  intros [[my_fd peer_fd]|] _; [|emits_calls]. emits_step.
  eapply (emits_bind _ _ _ anywhere).
  { apply emits_update; [|done]. intros w' _. change (peer_sound (peer_records (peer_fn peer_fd recv 30))).
    unfold peer_fn. cbn [peer_records omap list_omap]. report_sound. }
  intros _ _. emits_step.
  set (P := fun b s => (cr_i s <= 1000)%nat /\ 0 <= cr_total s <= 4096 * Z.of_nat (cr_i s) /\
                     0 <= cr_errors s <= b /\ -1 <= cr_first_iter s <= 1000).
  assert (Hloop : forall n s, P 2 s -> (n + cr_i s <= 1000)%nat ->
    emits pending_ok (niter n (cr_body (y_strerror y) (y_peer y) (y_send y)) s) (either (P 2) (P 3))).
  { induction n as [|n IH]; intros [i total errors fi fe] Hs Hn; cbn [niter]; [by apply emits_ret|].
    destruct Hs as (Hi & Ht & He & Hf). cbn in *.
    apply (emits_bind _ _ _ (fun r => match r with inl s => P 2 s /\ cr_i s = S i | inr s => P 3 s end)).
    - unfold cr_body. eapply emits_bind; [apply peer_moves_emits|]. intros _ _.
      pose proof (ad_send y ok i) as Hw. destruct (y_send y i) as [w errno]. cbn in Hw.
      destruct (w <? 0) eqn:E.
      + eapply (emits_bind _ _ _ (fun r => -1 <= r.1 <= 1000)).
        { destruct (fi <? 0); emits_calls; cbn; lia. }
        intros [fi' fe'] Hf'. cbn in Hf'. cbv zeta. destruct (3 <=? errors + 1) eqn:E3; apply emits_ret.
        * unfold P. cbn. lia.
        * unfold P. cbn. lia.
      + apply emits_ret. unfold P. cbn. lia.
    - intros [s|s] Hs; [apply IH; [apply Hs|lia]|by apply emits_ret]. }
  eapply emits_bind; [apply Hloop; [unfold P; cbn; lia|cbn; lia]|]. intros r Hr. cbv zeta.
  assert (Hs : exists s, P 3 s /\ r = match r with inl _ => inl s | inr _ => inr s end)
    by (destruct r as [s|s]; exists s; unfold P in *; cbn in Hr; split; [lia|done|lia|done]).
  destruct Hs as (s & (Hi & Ht & He & Hf) & ->).
  eapply emits_bind; [apply peer_join_emits|]. intros _ _.
  eapply (emits_bind _ _ _ anywhere); [by apply emits_update|]. intros _ _. destruct r; emits_calls.
Qed.

Lemma arrived_nonneg l : 0 <= arrived l.
Proof. induction l as [|a l IH]; cbn; [lia|]. unfold arrived in *. lia. Qed.

Lemma pl_recv_range l n : 0 <= n -> forall r, pl_recv l n = Some r -> 0 <= r <= n + arrived l.
Proof.
  revert n. induction l as [|[p r] l IH]; intros n Hn r'; cbn [pl_recv]; [done|].
  pose proof (arrived_nonneg l). change (arrived ((p, r) :: l)) with (Z.max 0 r + arrived l).
  destruct (p <=? 0); [intros [= <-]; lia|]. destruct (r <=? 0) eqn:E; [intros [= <-]; lia|].
  intros H'%IH; lia.
Qed.

Lemma sends_range n b k_send sent0 i :
  (forall i, k_send i <= b) -> 0 <= b -> 0 <= sent0 ->
  0 <= pl_send n i k_send sent0 <= sent0 + Z.of_nat n * b /\
  0 <= send_all n i k_send sent0 <= sent0 + Z.of_nat n * b.
Proof.
  intros Hb H0. revert i sent0. induction n as [|n IH]; intros i s Hs; cbn [pl_send send_all]; [lia|].
  pose proof (Hb i). destruct (0 <? k_send i) eqn:E.
  - destruct (IH (S i) (s + k_send i)) as [H1 H2]; [lia|]. lia.
  - destruct (IH (S i) s) as [H1 H2]; [lia|]. lia.
Qed.

Lemma pl_sound seed w : sound_from (pl_run seed (y_pair y) (fun i => (y_send y i).1) (y_recv y)) w.
Proof.
  apply emits_sound. unfold pl_run. change (Z.of_nat N_MSGS * MSG) with 1600.
  destruct (sends_range N_MSGS 4096 (fun i => (y_send y i).1) 0 0 (ad_send y ok)) as [Hs _]; [lia|lia|].
  set (sent := pl_send _ _ _ _) in *. clearbody sent. change (Z.of_nat N_MSGS) with 100 in Hs.
  emits_calls. destruct (pl_recv (y_recv y) 0) as [r|] eqn:E; [|emits_calls].
  apply pl_recv_range in E; [|lia]. pose proof (ad_recv y ok). emits_calls.
Qed.

Lemma pr_recv_emits l calls total : 0 <= calls <= total -> calls <= 4096 ->
  emits anywhere (pr_recv l calls total) (fun r => 0 <= r.1 <= 4096).
Proof.
  revert calls total. induction l as [|[p r] l IH]; intros calls total Hc H4; cbn [pr_recv].
  - destruct (total <? TOTAL); emits_calls; cbn; lia.
  - destruct (total <? TOTAL) eqn:E; [|emits_calls; cbn; lia].
    destruct (p <=? 0); [emits_calls; cbn; lia|]. destruct (r <=? 0) eqn:E'; [emits_calls; cbn; lia|].
    cbv zeta. apply (emits_bind _ _ _ anywhere); [destruct (calls + 1 <=? 10); emits_calls|].
    intros _ _. unfold TOTAL in E. apply IH; lia.
Qed.

Lemma pr_sound seed n w : sound_from (pr_run seed (y_pair y) n (y_recv y)) w.
Proof.
  apply emits_sound. unfold pr_run. emits_calls.
  eapply emits_bind; [apply pr_recv_emits; lia|]. intros [calls total] H. cbn in H. emits_calls.
Qed.
End Sockets.

(** *** Compound scenarios *)

Section CompoundRuns.
Variable y : system.
Hypothesis ok : admissible y.

Lemma rt_write_emits fd n : 0 < n ->
  emits anywhere (rt_write (y_took y) (y_write y) fd n) (fun r => -1 <= r <= n).
Proof.
  intros Hn. apply emits_act. intros w _. split; [|done]. unfold chaos_io_write.
  destruct (write_begin fd n (rt_slots w)) as [want|] eqn:E; cbn; [|lia].
  apply write_begin_bound in E; [|done]. pose proof (ad_write y ok (rt_calls w) want). lia.
Qed.

Lemma rt_clock_now_emits : emits anywhere (rt_clock_now (y_took y)) (fun t => in_u64 t).
Proof.
  apply emits_act. intros w _. split; [|done]. unfold chaos_clock_now_ns.
  repeat case_match; cbn in *; simplify_eq; apply u64_range.
Qed.

Lemma receiver_emits fd l s :
  0 <= bytes_persisted s <= bytes_received s -> 0 <= fsync_count s <= bytes_received s ->
  emits anywhere (receiver_fn (y_took y) (y_write y) (y_ret y) fd (map snd l) s)
    (fun s' => 0 <= bytes_persisted s' <= bytes_received s' /\ 0 <= fsync_count s' <= bytes_received s' /\
               bytes_received s' <= bytes_received s + arrived l).
Proof.
  revert s. induction l as [|[p n] l IH]; intros s Hp Hf; cbn [map receiver_fn snd]; [apply emits_hangs|].
  change (arrived ((p, n) :: l)) with (Z.max 0 n + arrived l). pose proof (arrived_nonneg l).
  destruct (n <=? 0) eqn:E; [apply emits_ret; lia|].
  eapply emits_bind; [apply rt_write_emits; lia|]. intros r Hr. cbn in Hr. emits_any.
  eapply emits_weaken; [apply IH; cbn; destruct (0 <? r) eqn:E'; lia|].
  intros s'. cbn. lia.
Qed.

Lemma cf_sound seed w :
  sound_from (cf_run (y_took y) (y_mkstemp y) (y_write y) (y_ret y) seed (y_pair y)
    (fun i => (y_send y i).1) (map snd (y_recv y))) w.
Proof.
  apply emits_sound. unfold cf_run. change (Z.of_nat CHUNKS * CHUNK_BYTES) with 12800.
  destruct (sends_range CHUNKS 4096 (fun i => (y_send y i).1) 0 0 (ad_send y ok)) as [_ Hs]; [lia|lia|].
  set (sent := send_all _ _ _ _) in *. clearbody sent. change (Z.of_nat CHUNKS) with 50 in Hs.
  emits_calls. eapply emits_bind; [apply rt_clock_now_emits|]. intros t0 _. cbv zeta. emits_any.
  eapply emits_bind; [apply receiver_emits; cbn; lia|]. intros s (H1 & H2 & H3). cbn in H3.
  pose proof (ad_recv y ok).
  eapply emits_bind; [apply rt_clock_now_emits|]. intros t1 _. cbv zeta.
  pose proof (i64_range (u64 (t1 - t0) / 1000000)). emits_calls.
Qed.

Lemma drain_emits reads : emits anywhere (drain_fn reads) anywhere.
Proof.
  induction reads as [|n reads IH]; cbn [drain_fn]; [apply emits_hangs|].
  destruct (n <=? 0); [by apply emits_ret|exact IH].
Qed.

Lemma fl_sound seed w :
  sound_from (fl_run (y_took y) (y_mkstemp y) (y_write y) (y_ret y) (y_rounds y) seed (y_pair y)
    (map snd (y_recv y))) w.
Proof.
  apply emits_sound. unfold fl_run. unfold TARGET_MS. emits_calls.
  eapply emits_bind; [apply rt_clock_now_emits|]. intros start _.
  set (D := 18446744073709).
  eapply emits_bind.
  { apply emits_for_from with (P := fun i s => 0 <= tk_min s <= 2 ^ 62 /\ 0 <= tk_max s <= D /\
                                              0 <= tk_sum s <= (i - 1) * D).
    { cbn [tk_min tk_max tk_sum]. change (Z.shiftl 1 62) with (2 ^ 62). unfold D. lia. }
    intros i s Hi (H1 & H2 & H3). unfold tick_body. emits_any.
    eapply emits_bind; [by apply rt_write_emits|]. intros _ _. emits_any. cbv zeta.
    eapply emits_bind.
    { apply emits_loop_upto with (P := anywhere) (Q := anywhere); [done|]. intros [] _. unfold wait_body.
      eapply emits_bind; [apply rt_clock_now_emits|]. intros now _.
      destruct (_ <=? now); emits_calls. }
    intros _ _. eapply emits_bind; [apply rt_clock_now_emits|]. intros now _. cbv zeta.
    pose proof (u64_range (now - tk_prev s)).
    assert (0 <= u64 (now - tk_prev s) / 1000000 <= D) by (unfold D; zlia).
    rewrite i64_small by (unfold D in *; lia). apply emits_ret. cbn [tk_min tk_max tk_sum].
    repeat case_match; unfold D in *; lia. }
  intros s (H1 & H2 & H3). cbv zeta. change (Z.of_nat TICKS) with 20 in *. unfold D in *.
  assert (in_i64 (Z.quot (tk_sum s) 20)) by zlia. emits_calls.
  eapply emits_bind; [apply drain_emits|]. intros _ _. emits_calls.
Qed.

Lemma th_sound w :
  sound_from (th_run (y_took y) (y_mkstemp y) (y_ret y) (herd_wall (y_herd y))
    (ht_total_wait (y_herd y)) (ht_total_work (y_herd y)) (map snd (ht_wrote (y_herd y)))) w.
Proof.
  apply emits_sound. unfold th_run. destruct (ad_herd y ok) as (_ & _ & Hw & Hk).
  change (Z.of_nat WORKERS * Z.of_nat ITERS) with 48.
  change (Z.quot (48 * TH_FSYNC_DELAY) 1000000) with 1440. cbv zeta.
  pose proof (i64_range (u64 (herd_wall (y_herd y)) / 1000000)).
  assert (in_i64 (Z.quot (Z.quot (ht_total_wait (y_herd y)) 48) 1000000)) by zlia.
  assert (in_i64 (Z.quot (Z.quot (ht_total_work (y_herd y)) 48) 1000000)) by zlia.
  emits_calls.
Qed.

Lemma final_counts :
  in_i64 (last_peer_count (sb_r1 (y_brain y))) /\ in_i64 (local_count (sb_r1 (y_brain y))) /\
  in_i64 (last_peer_count (sb_r2 (y_brain y))) /\ in_i64 (local_count (sb_r2 (y_brain y))).
Proof.
  destruct (crossed_reach 0 0 _ (ad_brain y ok)) as [_ [_ _ _ L1 C1 I1 _] [_ _ _ L2 C2 I2 _]].
  unfold SB_ITERS in *. lia.
Qed.

Lemma sb_sound seed w :
  sound_from (sb_run seed (y_pair y) (sb_r1 (y_brain y)) (sb_r2 (y_brain y)) (y_took y 0)) w.
Proof.
  apply emits_sound. unfold sb_run. destruct final_counts as (H1 & H2 & H3 & H4).
  change (Z.of_nat SB_ITERS) with 30. pose proof (i64_range (y_took y 0)). emits_calls.
Qed.
End CompoundRuns.

(** *** The promise *)

Lemma run_on_sound {W} (y : system) ctx st (p : prog W Z) w :
  ctx_thread_tag ctx = 0 -> sound_from p w -> Forall sound_event (run_on y ctx st p w).1.
Proof.
  intros Hc Hs. unfold run_on, as_callback, sound_from in *. destruct (p w) as [[evs r] w']. cbn in *.
  unfold stamp. eapply Forall_imap; [|exact Hs]. intros i [tag ev] (Ht & Hw & Hst & Hk).
  apply sound_emit; [done|done|done|done|]. by apply Z.eqb_neq.
Qed.

#[export] Instance callbacks_sound y : admissible y -> records_sound (callbacks y).
Proof.
  intros ok f ctx st Hc. destruct f; cbv beta iota zeta delta [callbacks program rn_prog rn_init]; apply run_on_sound; try done.
  - by apply cf_sound.
  - by apply fl_sound.
  - by apply sb_sound.
  - by apply th_sound.
  - by apply dl_sound.
  - by apply rc_sound.
  - by apply tcm_sound.
  - by apply ac_sound.
  - by apply cn_sound.
  - by apply double_free_sound.
  - by apply uc_sound.
  - by eapply emits_from; [by apply cr_emits|apply Forall_nil_2].
  - by apply pl_sound.
  - by apply pr_sound.
  - by apply cj_sound.
  - by apply disk_full_sound.
  - by apply jt_sound.
  - by apply pw_sound.
  - by apply sf_sound.
  - by apply rc_explain_sound.
Qed.

#[export] Instance no_callbacks_sound : records_sound no_callbacks.
Proof. intros f ctx st _. constructor. Qed.

(** Every registered scenario is found under its own id. *)
Lemma g_reg_find s : s ∈ scenarios -> pg_registry_find (Some (sc_id s)) g_reg = Some s.
Proof.
  revert s. apply Forall_forall. repeat (apply Forall_cons_2; [reflexivity|]). apply Forall_nil_2.
Qed.

(** ** A system for the witnesses *)

Definition all_written : race := Race 8000 (replicate WRITERS (Writer WRITES None)).

(** Memory at 64 KiB, files and sockets that take and give everything at once, a
    clock that ticks every 50 ns, no thread interleaved with another. *)
Definition quiet : system :=
  System (fun i => 1000 + Z.of_nat i) SIGABRT true (Some 65536)
    (fun _ => Some (5, "/tmp/playground.abcdef"%string)) (fun _ n => n) (fun _ => 0)
    (fun i => (100, 50 * Z.of_nat i)) (fun _ => 0) (fun _ => 0) 0 1000
    (fun _ => EmptyString) (Some (3, 4)) (PairEnv (Some (5, 6)) (Some (7, 8)) true true true)
    (fun _ => (16, 0)) (fun _ => O) [(1, 1600); (0, 0)]
    (fun _ => true) (fun _ => []) all_written (fun m => match m with MA => 4096 | MB => 8192 end)
    crossing 20 herd_end (sb_start 0 0).

Lemma quiet_admissible : admissible quiet.
Proof.
  split; cbn -[arena_bytes herd_end].
  - intros base [= <-]. unfold arena_bytes. lia.
  - by intros _ fd name [= <- <-].
  - by repeat constructor.
  - lia.
  - lia.
  - lia.
  - split; [|by apply Forall_replicate]. exact (race_serial WRITES WRITERS 0 [] []).
  - destruct herd_schedule_ends as (Hr & Hm & _ & -> & -> & _). split_and!; [|by rewrite Hm; eauto|lia..].
    intros fd name [= <- <-]. exists 0, 1. by eapply herd_do_all_reach.
  - apply rtc_refl.
Qed.
