(* ===== verification/Resources.v ===== *)
(** * What the scenarios hold and give back

    A Hoare-style triple for the scenario programs, with assertions on the world
    before and after, and what each call does to the descriptors and the arena a
    world records.  Every registered callback that returns has released what it
    obtained, on every path. *)

From S2P Require Import Prelude CLib Rand Event Registry Runner ChaosMem ChaosIo ChaosNet ChaosThread Prog.
From S2P Require Import Catalogue ScenMemory ScenTimeio ScenConcurrency ScenNetwork ScenCompound ScenReplicas.
From S2P Require Import Assembly.

#[local] Open Scope Z_scope.
#[local] Open Scope list_scope.

(** ** Triples *)

(** From a world in [P], if [p] returns [a] the world is in [Q a]. *)
Definition triple {W A} (P : W -> Prop) (p : prog W A) (Q : A -> W -> Prop) : Prop :=
  forall w, P w -> match (p w).1.2 with FRet a => Q a (p w).2 | _ => True end.

(** [p] keeps [I]. *)
Abbreviation keeps J p := (triple J%function p (fun _ => J%function)) (only parsing).

Section Triples.
Context {W : Type}.
Implicit Types P I : W -> Prop.

Lemma triple_ret {A} P (a : A) (Q : A -> W -> Prop) : (forall w, P w -> Q a w) -> triple P (ret a) Q.
Proof. intros H w Hw. by apply H. Qed.

Lemma triple_bind {A B} P (p : prog W A) (f : A -> prog W B) (M : A -> W -> Prop) Q :
  triple P p M -> (forall a, triple (M a) (f a) Q) -> triple P (bind p f) Q.
Proof.
  intros Hp Hf w Hw. specialize (Hp w Hw). unfold bind.
  destruct (p w) as [[evs [a|sig|c|]] w1]; try done. specialize (Hf a w1 Hp).
  by destruct (f a w1) as [[evs' r] w2].
Qed.

Lemma triple_act {A} P (f : W -> A * W) (Q : A -> W -> Prop) :
  (forall w, P w -> Q (f w).1 (f w).2) -> triple P (act f) Q.
Proof. intros H w Hw. specialize (H w Hw). unfold act. by destruct (f w). Qed.

Lemma triple_update P (f : W -> W) (Q : unit -> W -> Prop) :
  (forall w, P w -> Q tt (f w)) -> triple P (update f) Q.
Proof. intros H w Hw. by apply H. Qed.

Lemma triple_hangs {A} P (Q : A -> W -> Prop) : triple P hangs Q.
Proof. by intros w Hw. Qed.

Lemma triple_exits {A} P c (Q : A -> W -> Prop) : triple P (exits c) Q.
Proof. by intros w Hw. Qed.

Lemma triple_pre {A} P P' (p : prog W A) Q : triple P' p Q -> (forall w, P w -> P' w) -> triple P p Q.
Proof. intros H HP w Hw. by apply H, HP. Qed.

Lemma keeps_if {A} I (b : bool) (p q : prog W A) : keeps I p -> keeps I q -> keeps I (if b then p else q).
Proof. by destruct b. Qed.

(** What never changes the world keeps everything. *)
Lemma keeps_emit I ev : keeps I (emit ev).
Proof. by intros w Hw. Qed.

Lemma keeps_for_from {A} I from n (body : Z -> A -> prog W A) a :
  (forall i a, keeps I (body i a)) -> keeps I (for_from from n body a).
Proof.
  intros H. revert from a. induction n as [|n IH]; intros from a; cbn [for_from]; [by apply triple_ret|].
  eapply triple_bind; [apply H|]. intros b. apply IH.
Qed.

Lemma keeps_niter {A B} I n (body : A -> prog W (A + B)) a :
  (forall a, keeps I (body a)) -> keeps I (niter n body a).
Proof.
  intros H. revert a. induction n as [|n IH]; intros a; cbn [niter]; [by apply triple_ret|].
  eapply triple_bind; [apply H|]. intros [b|b]; [apply IH|by apply triple_ret].
Qed.

Lemma keeps_loop {A B} I n (body : A -> prog W (A + B)) a :
  (forall a, keeps I (body a)) -> keeps I (loop n body a).
Proof.
  intros H. revert a. induction n as [|n IH]; intros a; cbn [loop]; [by intros w Hw|].
  eapply triple_bind; [apply H|]. intros [b|b]; [apply IH|by apply triple_ret].
Qed.

Lemma keeps_loop_upto {A B} I n (body : A -> prog W (A + B)) a :
  (forall a, keeps I (body a)) -> keeps I (loop_upto n body a).
Proof.
  intros H. eapply (triple_bind _ _ _ (fun _ => I)).
  - intros w Hw. rewrite rounds_niter. by apply (keeps_niter I (Pos.to_nat n) body a H w).
  - intros [b|b]; [by intros w Hw|by apply triple_ret].
Qed.

End Triples.

Create HintDb triples.
#[export] Hint Resolve keeps_emit triple_hangs triple_exits : triples.
#[export] Hint Resolve keeps_for_from keeps_niter keeps_loop keeps_loop_upto : triples.

(** Goes over one step of a program: an emission, a call with a specification in
    [triples], or a choice. *)
Ltac triple_step :=
  lazymatch goal with
  | |- triple _ (mbind _ (emit _)) _ => eapply triple_bind; [apply keeps_emit|intros ?; cbv beta]
  | |- triple _ (mbind _ (mret _)) _ => eapply triple_bind; [apply triple_ret; intros ?; exact id|intros ?; cbv beta]
  | |- triple _ (mbind _ (if _ then _ else _)) _ =>
      eapply triple_bind; [apply keeps_if; repeat triple_step|intros ?; cbv beta]
  | |- triple _ (mbind _ _) _ => eapply triple_bind; [solve [eauto with triples]|intros ?; cbv beta]
  | |- triple _ (if ?b then _ else _) _ => destruct b
  | |- triple _ (match ?x with _ => _ end) _ => destruct x
  | |- triple _ (mret _) _ => apply triple_ret; intros ?; first [done|exact id|idtac]
  | |- triple _ (let _ := _ in _) _ => cbv zeta
  | |- triple _ hangs _ => apply triple_hangs
  | |- triple _ _ _ => solve [eauto with triples]
  end.
Ltac triple_steps := repeat triple_step.

(** ** Tracked descriptors *)

(** The table tracks nothing, or [fd] alone. *)
Definition io_holds (o : option Z) (g : list io_slot_t) : Prop :=
  match o with
  | None => io_sim g ∅
  | Some fd => exists k, io_sim g {[ fd := k ]}
  end.

Lemma holds_open mk g o g' :
  (forall fd name, mk = Some (fd, name) -> 0 <= fd) -> io_holds None g ->
  chaos_io_open mk g = (o, g') ->
  let fd := match o with OpenOk fd => fd | _ => -1 end in
  io_holds (if fd <? 0 then None else Some fd) g'.
Proof.
  intros Hmk Hg E. destruct mk as [[fd name]|]; [|by injection E as <- <-].
  pose proof (open_sim fd name g ∅ Hg (lookup_empty fd)) as H. rewrite E in H.
  destruct o as [fd'| |c]; [|by destruct H as (_ & _ & ->)..].
  destruct H as (-> & _ & H). specialize (Hmk fd name eq_refl).
  cbv zeta. rewrite (proj2 (Z.ltb_ge fd 0)) by done. by exists no_knobs.
Qed.

Lemma holds_on_slot fd f h g :
  (forall s, sl_in_use (f s) = sl_in_use s /\ sl_fd (f s) = sl_fd s) ->
  (forall s, slot_is fd s -> slot_knobs (f s) = h (slot_knobs s)) ->
  io_holds (Some fd) g -> io_holds (Some fd) (on_slot fd f g).
Proof.
  intros Hf Hh [k Hk]. exists (h k). rewrite <- alter_singleton_eq. by apply io_sim_on_slot.
Qed.

Lemma holds_write kernel fd n g : io_holds (Some fd) g -> io_holds (Some fd) (chaos_io_write kernel fd n g).2.
Proof.
  intros H. unfold chaos_io_write. destruct (write_begin fd n g) as [want|]; [|done]. cbn. unfold write_commit.
  destruct (0 <? kernel want); [|done].
  by apply (holds_on_slot fd _ (fun k => k_set_written (u64 (k_written k + kernel want)) k)).
Qed.

Lemma holds_after fd answers g : io_holds (Some fd) g -> io_holds (Some fd) (after_writes fd answers g).
Proof.
  unfold after_writes. revert g. induction answers as [|w answers IH]; intros g Hg; [done|]. by apply IH, holds_write.
Qed.

Lemma holds_close r fd g : io_holds (Some fd) g -> io_holds None (chaos_io_close r fd g).2.
Proof.
  intros [k [[Hl Hn] Ht]]. cbn. destruct (table_close fd g Hn) as [E Hn'].
  split; [split; [by rewrite length_on_slot|done]|]. by rewrite E, Ht, delete_singleton_eq.
Qed.

Lemma holds_quota fd q g : io_holds (Some fd) g -> io_holds (Some fd) (chaos_io_set_quota fd q g).
Proof. by apply (holds_on_slot fd _ (fun k => Knobs q (k_written k) (k_partial k) (k_fsync_delay k))). Qed.
Lemma holds_partial fd m g : io_holds (Some fd) g -> io_holds (Some fd) (chaos_io_set_partial fd m g).
Proof. by apply (holds_on_slot fd _ (fun k => Knobs (k_quota k) (k_written k) m (k_fsync_delay k))). Qed.
Lemma holds_delay fd d g : io_holds (Some fd) g -> io_holds (Some fd) (chaos_io_set_fsync_delay fd d g).
Proof. by apply (holds_on_slot fd _ (fun k => Knobs (k_quota k) (k_written k) (k_partial k) d)). Qed.

Lemma holds_none g : io_holds None g -> table g = ∅.
Proof. by intros [_ H]. Qed.

#[export] Hint Resolve holds_write holds_after holds_close holds_quota holds_partial holds_delay : triples.

(** *** In the worlds of the file scenarios *)

Section Files.
Variables (k_mkstemp : nat -> option (Z * string)) (k_write : nat -> Z -> Z) (k_errno k_ret : nat -> Z).
Variables (k_time : nat -> Z * Z) (k_took : nat -> Z).
Hypothesis mkstemp_ok : forall i fd name, k_mkstemp i = Some (fd, name) -> 0 <= fd.

Definition io_at (o : option Z) (w : io_world) : Prop := io_holds o (w_slots w).

Lemma io_open_at : triple (io_at None) (io_open k_mkstemp) (fun fd => io_at (if fd <? 0 then None else Some fd)).
Proof.
  apply triple_act. intros w Hw. destruct (chaos_io_open (k_mkstemp (w_calls w)) (w_slots w)) as [o g] eqn:E.
  exact (holds_open _ _ _ _ (mkstemp_ok _) Hw E).
Qed.

Lemma io_write_at fd n : keeps (io_at (Some fd)) (io_write k_write k_errno fd n).
Proof.
  apply triple_act. intros w Hw. pose proof (holds_write (k_write (w_calls w)) fd n _ Hw) as H.
  by destruct (chaos_io_write _ _ _ _) as [[] g].
Qed.

Lemma io_close_at fd : triple (io_at (Some fd)) (io_close k_ret fd) (fun _ => io_at None).
Proof. apply triple_act. intros w Hw. exact (holds_close (k_ret (w_calls w)) fd _ Hw). Qed.

Lemma io_table_at fd f :
  (forall g, io_holds (Some fd) g -> io_holds (Some fd) (f g)) -> keeps (io_at (Some fd)) (io_table f).
Proof. intros H. apply triple_update. intros w. apply H. Qed.

Lemma io_fsync_at o fd : keeps (io_at o) (io_fsync k_ret fd).
Proof. by apply triple_act. Qed.

Lemma clock_now_at o : keeps (io_at o) (clock_now k_time).
Proof. apply triple_act. intros w Hw. by destruct (chaos_clock_now_ns _ _). Qed.

Lemma jt_now_at o : keeps (io_at o) (jt_now_ns k_time).
Proof. by apply triple_act. Qed.

Lemma clock_set_at o f : keeps (io_at o) (clock_set f).
Proof. by apply triple_update. Qed.

End Files.

#[export] Hint Resolve io_open_at io_write_at io_close_at io_table_at io_fsync_at : triples.
#[export] Hint Resolve clock_now_at jt_now_at clock_set_at : triples.

Section FileRuns.
Variable y : system.
Hypothesis ok : admissible y.

#[local] Hint Resolve ad_mkstemp : triples.

Lemma df_body_at fd i s : keeps (io_at (Some fd)) (df_body (y_write y) (y_errno y) fd i s).
Proof. destruct s as [[total n] first]. unfold df_body. triple_steps. Qed.

Lemma pw_body_at fd s : keeps (io_at (Some fd)) (pw_body (y_write y) (y_errno y) fd s).
Proof. destruct s as [[remaining calls] total]. unfold pw_body. triple_steps. Qed.

Lemma cj_body_at start s : keeps (io_at None) (cj_body (y_time y) start s).
Proof. destruct s as [iters bumped]. unfold cj_body. triple_steps. Qed.

Lemma jt_body_at i s : keeps (io_at None) (jt_body (y_time y) i s).
Proof. destruct s as [[total mn] mx]. unfold jt_body. triple_steps. Qed.

#[local] Hint Resolve df_body_at pw_body_at cj_body_at jt_body_at : triples.

Lemma disk_full_releases :
  keeps (io_at None) (ScenTimeio.df_run (y_mkstemp y) (y_write y) (y_errno y) (y_ret y)).
Proof. unfold ScenTimeio.df_run. triple_steps. Qed.

Lemma partial_write_releases : keeps (io_at None) (pw_run (y_mkstemp y) (y_write y) (y_errno y) (y_ret y)).
Proof. unfold pw_run. triple_steps. Qed.

Lemma slow_fsync_releases : keeps (io_at None) (sf_run (y_mkstemp y) (y_write y) (y_errno y) (y_time y) (y_ret y)).
Proof. unfold sf_run. triple_steps. Qed.

Lemma clock_jump_releases : keeps (io_at None) (cj_run (y_time y)).
Proof. unfold cj_run. triple_steps. Qed.

Lemma jittery_timer_releases : keeps (io_at None) (jt_run (y_time y)).
Proof. unfold jt_run. triple_steps. Qed.

End FileRuns.

(** ** Socket pairs *)

(** Everything obtained is closed; or closed but for what the pair still holds,
    whose A side is still open in a fresh one. *)
Definition net_idle (n : net_world) : Prop := nw_opened n ≡ₚ nw_closed n.
Definition net_held (n : net_world) (p : chaos_pair_t) : Prop :=
  nw_pair n = Some p /\ is_Some (_internal p) /\ nw_opened n ≡ₚ nw_closed n ++ (chaos_net_close (Some p)).2.
Definition net_open (n : net_world) : Prop := exists p, net_held n p.
Definition net_fresh (n : net_world) : Prop := exists p, net_held n p /\ 0 <= fd_a p.

Lemma net_empty_idle : net_idle net_empty.
Proof. exact (Permutation_refl []). Qed.

Lemma net_fresh_open n : net_fresh n -> net_open n.
Proof. intros (p & H & _). by exists p. Qed.

(** What a successful pair closes later is what it opened. *)
Lemma held_opened k seed env p :
  Forall (fun fd => 0 <= fd) (opened env) -> chaos_net_pair (Some k) seed env = (0, Some p, []) ->
  is_Some (_internal p) /\ (chaos_net_close (Some p)).2 ≡ₚ opened env /\ 0 <= fd_a p.
Proof.
  unfold opened, chaos_net_pair. destruct (pe_sp1 env) as [[a b]|]; [|done].
  destruct (pe_sp2 env) as [[c d]|]; [|done].
  intros [Ha [Hb [Hc [Hd _]%Forall_cons]%Forall_cons]%Forall_cons]%Forall_cons.
  destruct (pe_calloc env); [|done]. destruct (pe_thread1 env); [|done]. destruct (pe_thread2 env); [|done].
  intros [= <-]. cbn [chaos_net_close _internal fd_a fd_b proxy_a proxy_b].
  rewrite !(proj2 (Z.leb_le _ _)) by done. cbn [snd app]. split_and!; [done|solve_Permutation|done].
Qed.

(** A failure closes what was opened, a success nothing. *)
Lemma pair_cases k seed env :
  let '(rc, out, closed) := chaos_net_pair (Some k) seed env in
  (rc = -1 /\ closed = opened env) \/ (rc = 0 /\ closed = [] /\ exists p, out = Some p).
Proof.
  unfold opened, chaos_net_pair. destruct (pe_sp1 env) as [[a b]|]; [|by left].
  destruct (pe_sp2 env) as [[c d]|]; [|by left].
  destruct (pe_calloc env); [|by left]. destruct (pe_thread1 env); [|by left].
  destruct (pe_thread2 env); [|by left]. right. split_and!; [done..|by eexists].
Qed.

Lemma do_pair_holds k seed env n rc n' :
  Forall (fun fd => 0 <= fd) (opened env) -> net_idle n -> do_pair k seed env n = (rc, n') ->
  if rc <? 0 then net_idle n' else net_fresh n'.
Proof.
  unfold do_pair, net_idle. intros Ho Hn. pose proof (pair_cases k seed env) as Hc.
  destruct (chaos_net_pair (Some k) seed env) as [[rc' out] closed] eqn:E. intros [= <- <-].
  destruct Hc as [[-> ->]|(-> & -> & p & ->)]; cbn.
  - by rewrite Hn.
  - destruct (held_opened k seed env p Ho E) as (H1 & H2 & H3). exists p. split; [|done].
    split; [done|]. split; [done|]. cbn. by rewrite app_nil_r, H2, Hn.
Qed.

Lemma do_set_knobs_holds k n : net_open n -> net_open (do_set_knobs k n).
Proof.
  intros (p & Hp & [P HP] & Ho). cbn in Ho. rewrite HP in Ho.
  unfold do_set_knobs. rewrite Hp. cbn [chaos_net_set_knobs]. rewrite HP.
  eexists. split; [reflexivity|]. split; [by eexists|]. exact Ho.
Qed.

Lemma do_net_close_idle n : net_open n -> net_idle (do_net_close n).
Proof.
  intros (p & Hp & _ & Ho). unfold do_net_close, net_idle. rewrite Hp.
  by destruct (chaos_net_close (Some p)).
Qed.

Lemma do_close_a_holds n : net_fresh n -> net_open (do_close_a n).
Proof.
  intros (p & (Hp & [P HP] & Ho) & Ha). unfold do_close_a. rewrite Hp. eexists. split; [reflexivity|].
  split; [by exists P|]. cbn in *. rewrite HP in *. rewrite (proj2 (Z.leb_le 0 (fd_a p)) Ha) in Ho.
  change (0 <=? -1) with false. cbv iota. rewrite Ho.
  by destruct (0 <=? fd_b p), (0 <=? proxy_a P), (0 <=? proxy_b P); cbn; rewrite <- ?app_assoc.
Qed.

Section Nets.
Variables (k : chaos_net_knobs_t) (seed : Z) (env : pair_env).
Hypothesis env_ok : Forall (fun fd => 0 <= fd) (opened env).

Lemma do_pair_at :
  triple net_idle (act (do_pair k seed env)) (fun rc n => if rc <? 0 then net_idle n else net_fresh n).
Proof.
  apply triple_act. intros n Hn. destruct (do_pair k seed env n) as [rc n'] eqn:E.
  by eapply do_pair_holds.
Qed.
End Nets.

Lemma net_close_at : triple net_open (update do_net_close) (fun _ => net_idle).
Proof. apply triple_update. apply do_net_close_idle. Qed.
Lemma net_close_fresh_at : triple net_fresh (update do_net_close) (fun _ => net_idle).
Proof. apply triple_update. intros n H. by apply do_net_close_idle, net_fresh_open. Qed.
Lemma set_knobs_at k : triple net_fresh (update (do_set_knobs k)) (fun _ => net_open).
Proof. apply triple_update. intros n H. by apply do_set_knobs_holds, net_fresh_open. Qed.

Lemma pr_recv_at l calls total : keeps net_fresh (pr_recv l calls total).
Proof.
  revert calls total. induction l as [|[p r] l IH]; intros calls total; cbn [pr_recv]; triple_steps. Qed.

#[export] Hint Resolve do_pair_at net_close_at net_close_fresh_at set_knobs_at pr_recv_at : triples.

Section NetRuns.
Variable y : system.
Hypothesis ok : admissible y.

#[local] Hint Resolve ad_pair : triples.

Lemma packet_loss_releases seed k_send : keeps net_idle (pl_run seed (y_pair y) k_send (y_recv y)).
Proof. unfold pl_run. triple_steps. Qed.

Lemma partial_read_releases seed w : keeps net_idle (pr_run seed (y_pair y) w (y_recv y)).
Proof. unfold pr_run. triple_steps. Qed.

Lemma split_brain_releases seed r1 r2 dt : keeps net_idle (sb_run seed (y_pair y) r1 r2 dt).
Proof. unfold sb_run. triple_steps. Qed.
End NetRuns.

(** ** Descriptors and pairs together *)

Definition rt_at (o : option Z) (N : net_world -> Prop) (w : rt_world) : Prop :=
  io_holds o (rt_slots w) /\ N (rt_net w).

Section Rt.
Variables (k_took : nat -> Z) (k_mkstemp : nat -> option (Z * string)) (k_write : nat -> Z -> Z) (k_ret : nat -> Z).
Variable N : net_world -> Prop.
Hypothesis mkstemp_ok : forall i fd name, k_mkstemp i = Some (fd, name) -> 0 <= fd.

Lemma rt_open_at :
  triple (rt_at None N) (rt_open k_took k_mkstemp) (fun fd => rt_at (if fd <? 0 then None else Some fd) N).
Proof.
  apply triple_act. intros w [Hw HN]. destruct (chaos_io_open (k_mkstemp (rt_calls w)) (rt_slots w)) as [o g] eqn:E.
  split; [exact (holds_open _ _ _ _ (mkstemp_ok _) Hw E)|exact HN].
Qed.

Lemma rt_write_at fd n : keeps (rt_at (Some fd) N) (rt_write k_took k_write fd n).
Proof.
  apply triple_act. intros w [Hw HN]. pose proof (holds_write (k_write (rt_calls w)) fd n _ Hw) as H.
  by destruct (chaos_io_write _ _ _ _) as [o g].
Qed.

Lemma rt_close_at fd : triple (rt_at (Some fd) N) (rt_close k_took k_ret fd) (fun _ => rt_at None N).
Proof. apply triple_act. intros w [Hw HN]. exact (conj (holds_close (k_ret (rt_calls w)) fd _ Hw) HN). Qed.

Lemma rt_table_at fd f :
  (forall g, io_holds (Some fd) g -> io_holds (Some fd) (f g)) -> keeps (rt_at (Some fd) N) (rt_table f).
Proof. intros H. apply triple_update. intros w [Hw HN]. split; [by apply H|exact HN]. Qed.

Lemma rt_fsync_at o fd : keeps (rt_at o N) (rt_fsync k_took k_ret fd).
Proof. apply triple_act. intros w Hw. destruct (chaos_io_fsync (k_ret (rt_calls w)) fd (rt_slots w)). exact Hw. Qed.

Lemma rt_clock_now_at o : keeps (rt_at o N) (rt_clock_now k_took).
Proof.
  apply triple_act. intros w Hw. cbv zeta.
  destruct (chaos_clock_now_ns (to_timespec (rt_now w + k_took (rt_calls w))) (rt_clock w)). exact Hw.
Qed.

Lemma rt_sleep_at o ts : keeps (rt_at o N) (rt_sleep k_took ts).
Proof. by apply triple_act. Qed.

Lemma rt_jitter_at o j : keeps (rt_at o N) (rt_jitter j).
Proof. by apply triple_update. Qed.

Lemma rt_send_at o : keeps (rt_at o N) (rt_send k_took).
Proof. by apply triple_update. Qed.

Lemma rt_net_op_at o N' f :
  (forall n, N n -> N' (f n)) -> triple (rt_at o N) (rt_net_op k_took f) (fun _ => rt_at o N').
Proof. intros H. apply triple_update. intros w [Hw HN]. split; [exact Hw|by apply H]. Qed.
End Rt.

Lemma rt_pair_at k_took k seed env o :
  Forall (fun fd => 0 <= fd) (opened env) ->
  triple (rt_at o net_idle) (rt_pair k_took k seed env)
    (fun rc => rt_at o (if rc <? 0 then net_idle else net_fresh)).
Proof.
  intros Ho. apply triple_act. intros w [Hw HN]. destruct (do_pair k seed env (rt_net w)) as [rc n] eqn:E.
  pose proof (do_pair_holds _ _ _ _ _ _ Ho HN E) as H. split; [exact Hw|]. cbn in *. by destruct (rc <? 0).
Qed.

Section RtNet.
Variables (k_took : nat -> Z) (o : option Z).

Lemma rt_net_close_at : triple (rt_at o net_open) (rt_net_op k_took do_net_close) (fun _ => rt_at o net_idle).
Proof. apply rt_net_op_at, do_net_close_idle. Qed.
Lemma rt_net_close_fresh_at : triple (rt_at o net_fresh) (rt_net_op k_took do_net_close) (fun _ => rt_at o net_idle).
Proof. apply rt_net_op_at. intros n H. by apply do_net_close_idle, net_fresh_open. Qed.
Lemma rt_close_a_at : triple (rt_at o net_fresh) (rt_net_op k_took do_close_a) (fun _ => rt_at o net_open).
Proof. apply rt_net_op_at, do_close_a_holds. Qed.
End RtNet.

#[export] Hint Resolve rt_open_at rt_write_at rt_close_at rt_table_at rt_fsync_at rt_clock_now_at : triples.
#[export] Hint Resolve rt_sleep_at rt_jitter_at rt_send_at rt_pair_at : triples.
#[export] Hint Resolve rt_net_close_at rt_net_close_fresh_at rt_close_a_at : triples.

Section RtRuns.
Variable y : system.
Hypothesis ok : admissible y.

#[local] Hint Resolve ad_mkstemp ad_pair : triples.

Lemma receiver_at fd reads s :
  keeps (rt_at (Some fd) net_open) (receiver_fn (y_took y) (y_write y) (y_ret y) fd reads s).
Proof. revert s. induction reads as [|n reads IH]; intros s; cbn [receiver_fn]; triple_steps. Qed.

Lemma drain_at P reads : keeps P (drain_fn reads).
Proof. induction reads as [|n reads IH]; cbn [drain_fn]; triple_steps. Qed.

Lemma wait_body_at o N d u : keeps (rt_at o N) (wait_body (y_took y) d u).
Proof. unfold wait_body. triple_steps. Qed.

#[local] Hint Resolve receiver_at drain_at wait_body_at : triples.

Lemma tick_body_at N rounds fd start i s :
  keeps (rt_at (Some fd) N) (tick_body (y_took y) (y_write y) (y_ret y) rounds fd start i s).
Proof. unfold tick_body. triple_steps. Qed.

#[local] Hint Resolve tick_body_at : triples.

Lemma cascading_releases seed k_send reads :
  keeps (rt_at None net_idle)
    (cf_run (y_took y) (y_mkstemp y) (y_write y) (y_ret y) seed (y_pair y) k_send reads).
Proof. unfold cf_run. triple_steps. Qed.

Lemma flaky_releases rounds seed reads :
  keeps (rt_at None net_idle)
    (fl_run (y_took y) (y_mkstemp y) (y_write y) (y_ret y) rounds seed (y_pair y) reads).
Proof. unfold fl_run. triple_steps. Qed.

Lemma herd_releases wall wait work answers :
  keeps (rt_at None net_idle) (th_run (y_took y) (y_mkstemp y) (y_ret y) wall wait work answers).
Proof. unfold th_run. triple_steps. Qed.
End RtRuns.

(** ** connection_reset *)

(** The peer's side is closed by the peer, ours still to close: what is open is
    ours and what the peer will close. *)
Definition cr_holds (ours : list Z) (w : cr_world) : Prop :=
  cw_opened w ≡ₚ cw_closed w ++ peer_closes (cw_pending w) ++ ours.
Definition cr_joined (ours : list Z) (w : cr_world) : Prop :=
  cw_pending w = [] /\ cw_opened w ≡ₚ cw_closed w ++ ours.

Lemma peer_moves_at ours n : keeps (cr_holds ours) (peer_moves n).
Proof.
  intros w Hw. cbn. unfold cr_holds in *. cbn. rewrite Hw, <- (take_drop n (cw_pending w)) at 1.
  unfold peer_closes. by rewrite omap_app, !app_assoc.
Qed.

Lemma peer_join_at ours : triple (cr_holds ours) peer_join (fun _ => cr_joined ours).
Proof.
  intros w Hw. unfold peer_join, peer_moves, cr_holds, cr_joined in *. cbn.
  rewrite firstn_all, drop_all. split; [done|]. by rewrite Hw, app_assoc.
Qed.

Lemma cr_body_at strerror ours k_peer k_write s : keeps (cr_holds ours) (cr_body strerror k_peer k_write s).
Proof.
  destruct s as [i total errors fi fe]. unfold cr_body.
  eapply triple_bind; [apply peer_moves_at|]. intros ?. cbv beta. destruct (k_write i). triple_steps.
Qed.

Lemma connection_reset_releases strerror sp recv k_peer k_write :
  keeps (cr_joined []) (cr_run strerror sp recv k_peer k_write).
Proof.
  unfold cr_run. eapply (triple_bind _ _ _ (fun sp =>
    cr_joined match sp with Some (my_fd, peer_fd) => [peer_fd; my_fd] | None => [] end)).
  { apply triple_act. intros w [Hp Hw]. destruct sp as [[my_fd peer_fd]|]; [|done].
    split; [exact Hp|]. cbn. rewrite Hw, app_nil_r. solve_Permutation. }
  intros [[my_fd peer_fd]|]; [|triple_steps]. triple_step.
  eapply (triple_bind _ _ _ (fun _ => cr_holds [my_fd])).
  { apply triple_update. intros w [_ Hw]. exact Hw. }
  intros ?. triple_step. eapply triple_bind; [apply keeps_niter; intros s; apply cr_body_at|]. intros r. cbv zeta.
  eapply triple_bind; [apply peer_join_at|]. intros ?.
  eapply (triple_bind _ _ _ (fun _ => cr_joined [])).
  { apply triple_update. intros w [Hp Hw]. split; [exact Hp|]. cbn. by rewrite app_nil_r. }
  intros ?. cbv beta. destruct r; triple_steps.
Qed.

(** ** The arena *)

(** Whatever a scenario does with its arena, it ends by destroying it. *)
Lemma arena_calls_at {A} (f : option chaos_arena -> res (A * option chaos_arena)) : keeps (fun _ => True) (access f).
Proof. intros w _. unfold access. by destruct (f w) as [[] | |]. Qed.

Lemma mem_write_at p off bs : keeps (fun _ => True) (mem_write p off bs).
Proof. apply arena_calls_at. Qed.
Lemma mem_write32_at p off v : keeps (fun _ => True) (mem_write32 p off v).
Proof. apply arena_calls_at. Qed.
Lemma mem_read_at p off n : keeps (fun _ => True) (mem_read p off n).
Proof. apply arena_calls_at. Qed.
Lemma mem_read32_at p off : keeps (fun _ => True) (mem_read32 p off).
Proof. unfold mem_read32. eapply triple_bind; [apply arena_calls_at|]. intros bs. by apply triple_ret. Qed.
Lemma arena_alloc_at n : keeps (fun _ => True) (arena_alloc n).
Proof. apply arena_calls_at. Qed.
Lemma arena_free_at p : keeps (fun _ => True) (arena_free p).
Proof. apply arena_calls_at. Qed.
Lemma arena_check_at : keeps (fun _ => True) arena_check.
Proof. apply arena_calls_at. Qed.
Lemma arena_destroy_at : triple (fun _ => True) arena_destroy (fun _ a => a = None).
Proof. by apply triple_update. Qed.

#[export] Hint Resolve mem_write_at mem_write32_at mem_read_at mem_read32_at : triples.
#[export] Hint Resolve arena_alloc_at arena_free_at arena_check_at arena_destroy_at : triples.

Lemma with_arena_at ok m body :
  triple (fun _ => True) body (fun _ a => a = None) -> keeps (fun a => a = None) (with_arena ok m body).
Proof.
  intros H. unfold with_arena. destruct (chaos_arena_create _ _ _ _) as [e|a]; [triple_steps|].
  eapply triple_bind; [by apply (triple_update _ _ (fun _ _ => True))|]. intros ?. exact H.
Qed.

Lemma arena_corrupt_releases ok m : keeps (fun a => a = None) (ac_run ok m).
Proof. apply with_arena_at. triple_steps. Qed.

Lemma double_free_releases ok m : keeps (fun a => a = None) (ScenMemory.df_run ok m).
Proof. apply with_arena_at. triple_steps. Qed.

Lemma uaf_callback_releases ok m : keeps (fun a => a = None) (uc_run ok m).
Proof. apply with_arena_at. triple_steps. Qed.

(** A NULL store does not return. *)
Lemma crash_releases : keeps (fun a => a = None) cn_run.
Proof.
  unfold cn_run. do 4 triple_step.
  eapply (triple_bind _ _ _ (fun _ (a : option chaos_arena) => a = None)); [by intros w ->|]. intros ?. triple_steps.
Qed.

(** ** Every callback *)

(** Some invariant that holds nothing is kept. *)
Definition releases (r : runnable) : Prop :=
  exists I : rn_world r -> Prop, keeps I (rn_prog r) /\ I (rn_init r) /\ forall w, I w -> @released _ (rn_released r) w.

Lemma releases_released r : releases r ->
  match rn_prog r (rn_init r) with
  | (_, FRet _, w) => @released _ (rn_released r) w
  | _ => True
  end.
Proof.
  intros (I & Hk & Hi & Hr). specialize (Hk _ Hi). destruct (rn_prog r (rn_init r)) as [[evs [a|sig|c|]] w]; try done.
  by apply Hr.
Qed.

Lemma releases_unit (p : prog unit Z) : releases (Runnable p tt).
Proof.
  exists (fun _ => True). split_and!; [intros w _; cbn; by destruct (p w).1.2|done|].
  intros w _. exact I.
Qed.

Lemma releases_rt p seed now : keeps (rt_at None net_idle) p -> releases (Runnable p (rt_init seed now)).
Proof.
  intros H. exists (rt_at None net_idle). split_and!; [exact H|split; [exact init_sim|exact net_empty_idle]|].
  intros w [H1 H2]. split; [by apply holds_none|exact H2].
Qed.

Lemma releases_io p seed : keeps (io_at None) p -> releases (Runnable p (io_world_init seed)).
Proof. intros H. exists (io_at None). split_and!; [exact H|exact init_sim|]. intros w. apply holds_none. Qed.

Lemma releases_net p : keeps net_idle p -> releases (Runnable p net_empty).
Proof. intros H. exists net_idle. split_and!; [exact H|exact net_empty_idle|done]. Qed.

Lemma releases_arena p : keeps (fun a => a = None) p -> releases (Runnable p None).
Proof. intros H. exists (fun a => a = None). by split_and!. Qed.

Lemma releases_cr p : keeps (cr_joined []) p -> releases (Runnable p cr_empty).
Proof.
  intros H. exists (cr_joined []). split_and!; [exact H|split; [done|exact (Permutation_refl [])]|].
  intros w [H1 H2]. split; [exact H1|]. by rewrite app_nil_r in H2.
Qed.

Lemma program_releases y seed f : admissible y -> releases (program y seed f).
Proof.
  intros ok. destruct f; cbv beta iota zeta delta [program].
  - apply releases_rt; by apply cascading_releases.
  - apply releases_rt; by apply flaky_releases.
  - apply releases_net; by apply split_brain_releases.
  - apply releases_rt; by apply herd_releases.
  - apply releases_unit.
  - apply releases_unit.
  - apply releases_unit.
  - apply releases_arena, arena_corrupt_releases.
  - apply releases_arena, crash_releases.
  - apply releases_arena, double_free_releases.
  - apply releases_arena, uaf_callback_releases.
  - apply releases_cr, connection_reset_releases.
  - apply releases_net; by apply packet_loss_releases.
  - apply releases_net; by apply partial_read_releases.
  - apply releases_io; by apply clock_jump_releases.
  - apply releases_io; by apply disk_full_releases.
  - apply releases_io; by apply jittery_timer_releases.
  - apply releases_io; by apply partial_write_releases.
  - apply releases_io; by apply slow_fsync_releases.
  - apply releases_unit.
Qed.

(** ** Properties *)

(** C9: a scenario that returns has given everything back: on any system whose
    answers its interfaces allow, with any seed and any failures of [mkstemp],
    [socketpair], [calloc], [mmap], the writes, and those [pthread_create]s whose
    result the code looks at, whichever registered callback runs, if it returns
    (with 0 or on an error path) then every socket it obtained, through a chaos
    pair or by itself, has been closed exactly once, no file is tracked any more
    and the arena is destroyed.  The threads that connection_reset,
    cascading_failure, flaky_environment and split_brain start without looking
    at the result are taken to start; if connection_reset's peer did not, the
    descriptor only that peer closes would stay open. *)
Theorem resources_released y seed f :
  admissible y ->
  let r := program y seed f in
  match rn_prog r (rn_init r) with
  | (_, FRet _, w) => @released _ (rn_released r) w
  | _ => True
  end.
Proof. intros ok r. by apply releases_released, program_releases. Qed.

Lemma resources_released_witness :
  let r := program quiet 42 Run_cascading_failure in
  (rn_prog r (rn_init r)).1.2 = FRet 0 /\ @released _ (rn_released r) (rn_prog r (rn_init r)).2.
Proof.
  intros r. pose proof (resources_released quiet 42 Run_cascading_failure quiet_admissible) as H.
  assert (E : (rn_prog r (rn_init r)).1.2 = FRet 0) by (vm_compute; reflexivity). split; [exact E|].
  subst r. cbv zeta in H. destruct (rn_prog _ _) as [[evs res] w]. cbn in E. subst res. exact H.
Defined.
