(* ===== verification/UnitTests.v ===== *)
(** * The unit tests (src/tests/unit/)

    The four test programs over the models of the libraries they test: a failed
    [assert] aborts, a test that passes returns 0 after printing its line.
    test_arena and test_io are programs in the language of Prog.v; test_net and
    test_thread take what the sockets, the scheduler and [pthread] answer. *)

From S2P Require Import Prelude CLib Rand Event Runner ChaosMem ChaosIo ChaosNet ChaosThread Prog.
From S2P Require Import ScenMemory ScenTimeio ScenNetwork.

#[local] Open Scope Z_scope.
#[local] Open Scope list_scope.

(** ** Assertions *)

Definition assert {W} (b : bool) : prog W unit :=
  fun w => ([], if b then FRet tt else FSignal SIGABRT, w).

(** [printf("<name>: ok\n"); return 0;] *)
Definition pass {W} (name : string) : prog W (string * Z) := ret (name +:+ ": ok", 0).

Lemma assert_true {W B} (b : bool) (q : unit -> prog W B) w R : b = true -> q tt w = R -> (assert b ≫= q) w = R.
Proof. intros -> H. by eapply run_silent. Qed.

Lemma assert_false {W B} (b : bool) (q : unit -> prog W B) w : b = false -> (assert b ≫= q) w = ([], FSignal SIGABRT, w).
Proof. intros ->. by apply run_crash. Qed.

(** ** test_arena.c *)

(* @ tests/unit/test_arena.c:10-43 main *)
Definition test_arena (calloc_ok : bool) (m : option Z) : prog (option chaos_arena) (string * Z) :=
  match chaos_arena_create arena_bytes CHAOS_ARENA_REDZONES calloc_ok m with
  | CreateNull _ => assert false;; pass "test_arena"
  | CreateOk a =>
      update (fun _ => Some a);;
      p ← arena_alloc 32;
      assert (bool_decide (is_Some p));;
      mem_write p 0 (replicate 32 65);;
      c ← arena_check;
      assert (c =? 0);;
      r ← arena_free p;
      assert (r =? 0);;
      r ← arena_free p;
      assert (r =? -1);;
      q ← arena_alloc 32;
      assert (bool_decide (is_Some q));;
      mem_write q 0 (replicate 64 88);;
      corrupted ← arena_check;
      assert (1 <=? corrupted);;
      arena_destroy;;
      assert match chaos_arena_create 128 CHAOS_ARENA_REDZONES calloc_ok m with
             | CreateNull _ => true | CreateOk _ => false end;;
      pass "test_arena"
  end.

(** ** test_io.c *)

Section TestIo.
Variable k_mkstemp : nat -> option (Z * string).
Variable k_write : nat -> Z -> Z.
Variable k_errno : nat -> Z.
Variable k_time : nat -> Z * Z.
Variable k_ret : nat -> Z.

(* @ tests/unit/test_io.c:11-49 main *)
Definition test_io : prog io_world (string * Z) :=
  fd ← io_open k_mkstemp;
  assert (0 <=? fd);;
  io_table (chaos_io_set_quota fd 100);;
  '(w1, _) ← io_write k_write k_errno fd 100;
  assert (w1 =? 100);;
  '(w2, errno) ← io_write k_write k_errno fd 1;
  assert (w2 =? -1);;
  assert (errno =? ENOSPC);;
  io_close k_ret fd;;
  fd2 ← io_open k_mkstemp;
  assert (0 <=? fd2);;
  io_table (chaos_io_set_partial fd2 17);;
  '(w3, _) ← io_write k_write k_errno fd2 100;
  assert (w3 =? 17);;
  io_close k_ret fd2;;
  t0 ← clock_now k_time;
  clock_set (chaos_clock_skew_set (-30 * 1000000000));;
  t1 ← clock_now k_time;
  assert (t1 <? t0);;
  clock_set (chaos_clock_skew_set 0);;
  pass "test_io".
End TestIo.

(** ** test_net.c *)

(** [reads]: what arrives at each read of at most [want - got] bytes; an empty
    one stands for a poll that timed out or failed, or a read of 0 or -1. *)
(* @ tests/unit/test_net.c:12-24 read_until *)
Fixpoint read_until (want : nat) (reads : list (list Z)) (got : list Z) : list Z :=
  if (length got <? want)%nat then
    match reads with
    | [] | [] :: _ => got
    | r :: reads => read_until want reads (got ++ r)
    end
  else got.

(** [for (i = 0; i < 1024; ++i) tx[i] = (char)(i & 0xFF);] *)
(* @ tests/unit/test_net.c:32-33 tx *)
Definition tx : list Z := map (fun i => Z.land (Z.of_nat i) 0xFF) (seq 0 1024).

(** The pairs' system calls, the bytes the first [write] took, the reads of the
    first pair, and what the last read returned if [poll] announced one. *)
(* @ tests/unit/test_net.c:26-66 main *)
Definition test_net (env env2 : pair_env) (w : Z) (reads : list (list Z)) (last : option (list Z))
  : prog unit (string * Z) :=
  assert ((chaos_net_pair (Some zero_knobs) 42 env).1.1 =? 0);;
  assert (w =? Z.of_nat (length tx));;
  let rx := read_until (length tx) reads [] in
  assert (length rx =? length tx)%nat;;
  assert (bool_decide (tx = rx));;
  let k2 := NetKnobs d_one 0 0 16 in
  assert ((chaos_net_pair (Some k2) 42 env2).1.1 =? 0);;
  match last with
  | Some r => assert (length r =? 0)%nat
  | None => mret tt
  end;;
  pass "test_net".

(** ** test_thread.c *)

(** The function of the first test, on the cell its argument points to. *)
(* @ tests/unit/test_thread.c:12-16 write_42 *)
Definition write_42 (v : Z) : Z := 42.

(* @ tests/unit/test_thread.c:18-24 test_spawn_join *)
Definition test_spawn_join (e : spawn_env) (join_rc : Z) (tag : Z) : prog unit unit :=
  match (chaos_thread_spawn (Some write_42) 0 (Some "writer"%string) e tag).1 with
  | None => assert false
  | Some (t, wrapped) =>
      let '(_, (fn, cell)) := thread_wrap wrapped in
      let v := fn cell in
      assert (chaos_thread_join (Some t) join_rc =? 0);;
      assert (v =? 42)
  end.

(** The handle as the spinner finds it at each turn of its loop; [None] if it
    is still spinning, else [a->ran]. *)
(* @ tests/unit/test_thread.c:36-52 spinner *)
Fixpoint spinner (views : list chaos_thread_t) : option Z :=
  match views with
  | [] => None
  | self :: views => if chaos_thread_should_stop (Some self) =? 0 then spinner views else Some 1
  end.

(** [before] and [after]: how often the spinner looks before and after the flag
    is set; cancellation is disabled in it, so [join] waits until it returns. *)
(* @ tests/unit/test_thread.c:54-78 test_cooperative_cancel *)
Definition test_cooperative_cancel (e : spawn_env) (cancel_rc join_rc : Z) (before after : nat) (tag : Z)
  : prog unit unit :=
  match (chaos_thread_spawn (Some spinner) tt (Some "spinner"%string) e tag).1 with
  | None => assert false
  | Some (self, _) =>
      assert (chaos_thread_should_stop (Some self) =? 0);;
      match (chaos_thread_cancel (Some self) cancel_rc).2 with
      | None => hangs
      | Some cancelled =>
          match spinner (replicate before self ++ replicate after cancelled) with
          | None => hangs
          | Some ran =>
              assert (chaos_thread_join (Some cancelled) join_rc =? 0);;
              assert (ran =? 1)
          end
      end
  end.

(* @ tests/unit/test_thread.c:80-85 main *)
Definition test_thread (e1 e2 : spawn_env) (cancel_rc : Z) (before after : nat) : prog unit (string * Z) :=
  test_spawn_join e1 0 1;;
  test_cooperative_cancel e2 cancel_rc 0 before after 2;;
  pass "test_thread".

(** ** They pass *)

(** The operations on a well-formed arena that stays where it is. *)
Definition arena_at (base : Z) (bs : list block) (a : chaos_arena) : Prop :=
  arena_wf a bs /\ a_base a = base /\ a_total a = arena_bytes.

Lemma check_at base bs a : arena_at base bs a -> arena_check (Some a) = ([], FRet 0, Some a).
Proof.
  intros ([Hl Hz] & _). unfold arena_check, access. by rewrite (chaos_arena_check_layout _ _ Hl), Hz.
Qed.

Lemma alloc_at base bs n a :
  arena_at base bs a -> in_u32 n -> extents bs + extent (Block n Live) <= arena_bytes ->
  exists a', arena_alloc n (Some a) = ([], FRet (Some (user_ptr (base + extents bs))), Some a') /\
    arena_at base (bs ++ [Block n Live]) a'.
Proof.
  intros ([Hl Hz] & Hb & Ht) Hn Hf. rewrite <- (al_used _ _ Hl), <- Ht in Hf.
  unfold arena_alloc, access. rewrite (chaos_arena_alloc_eq a bs n Hl Hn), (proj2 (Z.ltb_ge _ _)) by lia.
  rewrite <- Hb, <- (al_used _ _ Hl). eexists. split; [done|].
  destruct (alloc_layout a bs n Hl Hn Hf) as [Hl' Hz'].
  split; [split; [exact Hl'|exact (eq_trans Hz' Hz)]|done].
Qed.

Lemma free_at base bs1 n st bs2 a :
  arena_at base (bs1 ++ Block n st :: bs2) a ->
  exists a', arena_free (Some (user_ptr (base + extents bs1))) (Some a)
      = ([], FRet (match st with Live => 0 | Freed => -1 end), Some a') /\
    arena_at base (bs1 ++ Block n Freed :: bs2) a'.
Proof.
  intros ([Hl Hz] & <- & Ht). unfold arena_free, access. rewrite (chaos_arena_free_eq a bs1 _ bs2 Hl).
  cbn [b_status b_size]. destruct st; eexists; (split; [done|]); [|by split].
  destruct (free_layout a bs1 _ bs2 Hl) as [Hl' Hz'].
  split; [split; [exact Hl'|exact (eq_trans Hz' Hz)]|done].
Qed.

Lemma write_at base bs1 b bs2 cs a :
  arena_at base (bs1 ++ b :: bs2) a -> Z.of_nat (length cs) <= round8 (b_size b) ->
  exists a', mem_write (Some (user_ptr (base + extents bs1))) 0 cs (Some a) = ([], FRet tt, Some a') /\
    arena_at base (bs1 ++ b :: bs2) a'.
Proof.
  intros ([Hl Hz] & <- & Ht) Hc.
  destruct (write_in_bounds a bs1 b bs2 0 cs Hl) as (a' & E & -> & Hl' & Hz'); [lia..|].
  eexists. unfold mem_write, access. rewrite E. split; [done|].
  split; [split; [exact Hl'|exact (eq_trans Hz' Hz)]|done].
Qed.

Lemma test_arena_lemma base :
  0 < base -> base + arena_bytes <= 2 ^ 63 ->
  test_arena true (Some base) None = ([], FRet ("test_arena: ok"%string, 0), None).
Proof.
  intros Hb Ht. unfold test_arena.
  change (chaos_arena_create arena_bytes CHAOS_ARENA_REDZONES true (Some base))
    with (CreateOk (Arena base arena_bytes 0 1 ∅)).
  eapply run_silent; [reflexivity|].
  assert (H0 : arena_at base [] (Arena base arena_bytes 0 1 ∅)).
  { repeat split; cbn; unfold arena_bytes in *; lia || done. }
  destruct (alloc_at _ _ 32 _ H0) as (a1 & E1 & H1); [lia|done|].
  eapply run_silent; [exact E1|]. apply assert_true; [done|].
  destruct (write_at _ [] _ [] (replicate 32 65) _ H1) as (a2 & E2 & H2); [done|].
  eapply run_silent; [exact E2|].
  eapply run_silent; [exact (check_at _ _ _ H2)|]. apply assert_true; [done|].
  destruct (free_at _ [] _ _ [] _ H2) as (a3 & E3 & H3).
  eapply run_silent; [exact E3|]. apply assert_true; [done|].
  destruct (free_at _ [] _ _ [] _ H3) as (a4 & E4 & H4).
  eapply run_silent; [exact E4|]. apply assert_true; [done|]. cbn [app] in H4.
  destruct (alloc_at _ _ 32 _ H4) as (a5 & E5 & H5); [lia|done|].
  eapply run_silent; [exact E5|]. apply assert_true; [done|].
  destruct H5 as (Hw & Hb5 & Ht5).
  destruct (overrun_lemma a5 [Block 32 Freed] (Block 32 Live) [] (replicate 64 88) Hw) as [_ H].
  destruct (H 32%nat 88) as (a6 & E6 & E7); [done..| |by right|].
  { rewrite Hb5, Ht5. unfold user_ptr. change (extents [Block 32 Freed]) with 72. unfold arena_bytes. cbn. lia. }
  rewrite Hb5 in E6.
  eapply run_silent; [unfold mem_write, access; rewrite Z.add_0_r; rewrite E6; reflexivity|].
  eapply run_silent; [unfold arena_check, access; by rewrite E7|]. apply assert_true; [done|].
  eapply run_silent; [reflexivity|]. apply assert_true; [done|]. done.
Qed.

(** Opening the only descriptor tracked, using it, closing it. *)
Lemma open_at k_mkstemp fd name w :
  io_sim (w_slots w) ∅ -> k_mkstemp (w_calls w) = Some (fd, name) ->
  exists g, io_open k_mkstemp w = ([], FRet fd, IoWorld g (w_clock w) (S (w_calls w))) /\
    io_sim g {[fd := no_knobs]}.
Proof.
  intros Hs Hk. unfold io_open, act. rewrite Hk.
  pose proof (open_sim fd name _ _ Hs (lookup_empty fd)) as H.
  destruct (chaos_io_open (Some (fd, name)) (w_slots w)) as [[f| |c] g]; [|by destruct H|].
  - destruct H as (-> & _ & Hg). by exists g.
  - destruct H as (_ & Hz & _). by rewrite map_size_empty in Hz.
Qed.

Lemma close_at k_ret fd k g c n :
  io_sim g {[fd := k]} ->
  exists g', io_close k_ret fd (IoWorld g c n) = ([], FRet (k_ret n), IoWorld g' c (S n)) /\ io_sim g' ∅.
Proof.
  intros [[Hl Hn] Hg]. destruct (table_close fd g Hn) as [E Hn'].
  eexists. split; [reflexivity|]. split; [split; [by rewrite length_on_slot|exact Hn']|].
  refine (eq_trans E _). by rewrite Hg, delete_singleton_eq.
Qed.

Lemma knob_at fd f h k g c n :
  (forall s, sl_in_use (f s) = sl_in_use s /\ sl_fd (f s) = sl_fd s) ->
  (forall s, slot_is fd s -> slot_knobs (f s) = h (slot_knobs s)) ->
  io_sim g {[fd := k]} ->
  exists g', io_table (on_slot fd f) (IoWorld g c n) = ([], FRet tt, IoWorld g' c n) /\
    io_sim g' {[fd := h k]}.
Proof.
  intros Hf Hh Hg. apply (io_sim_on_slot fd f h) in Hg; [|done|done].
  eexists. split; [reflexivity|]. by rewrite alter_singleton_eq in Hg.
Qed.

Lemma write_at_fd k_write k_errno fd n k g c i want r :
  io_sim g {[fd := k]} -> k_want k n = Some want -> k_write i want = r -> 0 < r ->
  exists g', io_write k_write k_errno fd n (IoWorld g c i) = ([], FRet (r, k_errno i), IoWorld g' c (S i)) /\
    io_sim g' {[fd := k_set_written (u64 (k_written k + r)) k]}.
Proof.
  intros Hg Hk <- Hr. unfold io_write, act, chaos_io_write. cbn [w_slots w_clock w_calls].
  rewrite write_begin_spec, (proj2 Hg), lookup_singleton_eq, Hk.
  pose proof (write_commit_sim fd (k_write i want) g _ Hg) as Hs.
  rewrite (proj2 (Z.ltb_lt _ _)), alter_singleton_eq in Hs by done. by eexists.
Qed.

Lemma write_full k_write k_errno fd n k g c i :
  io_sim g {[fd := k]} -> k_want k n = None ->
  io_write k_write k_errno fd n (IoWorld g c i) = ([], FRet (-1, ENOSPC), IoWorld g c i).
Proof.
  intros Hg Hk. unfold io_write, act, chaos_io_write. cbn [w_slots w_clock w_calls].
  by rewrite write_begin_spec, (proj2 Hg), lookup_singleton_eq, Hk.
Qed.

(** The clock test at times [t0] and [t1]: the second reading is below the first
    exactly when the machine has been up for the 30 seconds taken off; before
    that the unsigned reading wraps. *)
Lemma skewed_reading t c :
  g_clock_jitter_max_ns c <= 0 -> g_clock_skew_ns c = 0 -> 0 <= real_ns t <= 2 ^ 62 ->
  chaos_clock_now_ns t c = (real_ns t, c) /\
  chaos_clock_now_ns t (chaos_clock_skew_set (-30 * 1000000000) c)
  = (u64 (real_ns t - 30 * 1000000000), chaos_clock_skew_set (-30 * 1000000000) c).
Proof.
  intros Hj Hs Ht. unfold chaos_clock_now_ns, real_ns in *. cbn [g_clock_jitter_max_ns g_clock_skew_ns chaos_clock_skew_set].
  rewrite (proj2 (Z.ltb_ge _ _)), Hs by done.
  rewrite !(i64_small (_ + t.2)) by lia.
  rewrite !i64_small by lia. rewrite (u64_small (_ + 0)) by lia. split; [f_equal; lia|done].
Qed.

Lemma test_io_lemma k_mkstemp k_write k_errno k_time k_ret fd fd2 n1 n2 :
  k_mkstemp 0%nat = Some (fd, n1) -> 0 <= fd -> k_mkstemp 3%nat = Some (fd2, n2) -> 0 <= fd2 ->
  k_write 1%nat 100 = 100 -> k_write 4%nat 17 = 17 ->
  let t0 := real_ns (k_time 6%nat) in
  let t1 := real_ns (k_time 7%nat) in
  0 <= t0 <= t1 -> t1 < t0 + 30 * 1000000000 -> t1 <= 2 ^ 62 ->
  exists w, test_io k_mkstemp k_write k_errno k_time k_ret (IoWorld g_slots_init clock_init 0)
  = ([], if 30 * 1000000000 <=? t1 then FRet ("test_io: ok"%string, 0) else FSignal SIGABRT, w).
Proof.
  intros Hm1 Hf1 Hm2 Hf2 Hw1 Hw2 t0 t1 Ht Hd Hmax.
  destruct (open_at k_mkstemp fd n1 (IoWorld g_slots_init clock_init 0) init_sim Hm1) as (g1 & E1 & S1).
  destruct (knob_at fd (set_quota 100) (fun k => Knobs 100 (k_written k) (k_partial k) (k_fsync_delay k))
    no_knobs g1 clock_init 1) as (g2 & E2 & S2); [done..|].
  destruct (write_at_fd k_write k_errno fd 100 _ g2 clock_init 1 _ _ S2 eq_refl Hw1) as (g3 & E3 & S3); [done|].
  pose proof (write_full k_write k_errno fd 1 _ g3 clock_init 2 S3 eq_refl) as E4.
  destruct (close_at k_ret fd _ g3 clock_init 2 S3) as (g4 & E5 & S5).
  destruct (open_at k_mkstemp fd2 n2 (IoWorld g4 clock_init 3) S5 Hm2) as (g5 & E6 & S6).
  destruct (knob_at fd2 (set_partial 17) (fun k => Knobs (k_quota k) (k_written k) 17 (k_fsync_delay k))
    no_knobs g5 clock_init 4) as (g6 & E7 & S7); [done..|].
  destruct (write_at_fd k_write k_errno fd2 100 _ g6 clock_init 4 _ _ S7 eq_refl Hw2) as (g7 & E8 & S8); [done|].
  destruct (close_at k_ret fd2 _ g7 clock_init 5 S8) as (g8 & E9 & S9).
  destruct (skewed_reading (k_time 6%nat) clock_init) as [E10 _]; [done..|fold t0; lia|].
  destruct (skewed_reading (k_time 7%nat) clock_init) as [_ E11]; [done..|fold t1; lia|].
  eassert (E : test_io k_mkstemp k_write k_errno k_time k_ret (IoWorld g_slots_init clock_init 0) = _).
  { eapply run_silent; [exact E1|]. apply assert_true; [lia|].
    eapply run_silent; [exact E2|]. eapply run_silent; [exact E3|]. apply assert_true; [done|].
    eapply run_silent; [exact E4|]. apply assert_true; [done|]. apply assert_true; [done|].
    eapply run_silent; [exact E5|]. eapply run_silent; [exact E6|]. apply assert_true; [lia|].
    eapply run_silent; [exact E7|]. eapply run_silent; [exact E8|]. apply assert_true; [done|].
    eapply run_silent; [exact E9|].
    eapply run_silent; [unfold clock_now, act; cbn [w_calls w_clock]; rewrite E10; reflexivity|].
    eapply run_silent; [reflexivity|].
    eapply run_silent; [unfold clock_now, act; cbn [w_calls w_clock]; rewrite E11; reflexivity|].
    reflexivity. }
  rewrite E. fold t0 t1. destruct (Z.leb_spec (30 * 1000000000) t1) as [Hu|Hu].
  - rewrite u64_small by lia. eexists. apply assert_true; [lia|]. by eapply run_silent.
  - eexists. apply assert_false. apply Z.ltb_ge.
    replace (u64 (t1 - 30 * 1000000000)) with (t1 - 30 * 1000000000 + 2 ^ 64); [lia|].
    unfold u64. zlia.
Qed.

(** What arrives in pieces is read whole. *)
Lemma read_until_all want reads got :
  Forall (fun r => r <> []) reads -> (length got + length (concat reads) = want)%nat ->
  read_until want reads got = got ++ concat reads.
Proof.
  intros Hr. revert got. induction Hr as [|r reads Hr _ IH]; intros got Hw; cbn [read_until concat] in *.
  - rewrite app_nil_r. by destruct (_ <? _)%nat.
  - rewrite length_app in Hw. destruct (Nat.ltb_spec (length got) want).
    + destruct r; [done|]. rewrite IH; [by rewrite app_assoc|]. rewrite length_app. lia.
    + destruct r; [done|]. cbn in Hw. lia.
Qed.

(** What reaches [fd_b] of a pair when its A-to-B forwarder reads [bufs], with
    the pair's knobs, and its writes return [ws]. *)
Definition arriving (k : chaos_net_knobs_t) (seed : Z) (e : pair_env) (bufs : list (list Z)) (ws : list Z) : list Z :=
  match (chaos_net_pair (Some k) seed e).1.2 with
  | Some (Pair _ _ (Some P)) =>
      let f := fa_a_to_b P in
      delivered (forward_fn (fa_dst_fd f) (fa_rng f) (map (fun buf => (buf, pi_knobs P)) bufs) ws).1.1
  | _ => []
  end.

Definition full_env (sp1 sp2 : Z * Z) : pair_env := PairEnv (Some sp1) (Some sp2) true true true.

Lemma arriving_clean seed sp1 sp2 bufs ws :
  Forall (fun b => b <> []) bufs -> Forall (fun w => 0 < w) ws -> (length (concat bufs) <= length ws)%nat ->
  arriving zero_knobs seed (full_env sp1 sp2) bufs ws = concat bufs.
Proof.
  intros Hb Hw Hl. destruct sp1 as [a b], sp2 as [c d]. unfold arriving, full_env.
  rewrite chaos_net_pair_ok. cbn [fst snd fa_a_to_b pi_knobs fa_dst_fd fa_rng].
  set (ins := map _ bufs). assert (Hc : map fst ins = bufs) by (unfold ins; rewrite map_map; apply map_id).
  assert (Hne : Forall (fun i => i.1 <> []) ins) by (unfold ins; apply Forall_map; exact Hb).
  destruct (forward_fn_done c (rng_a_to_b seed) ins ws Hne Hw) as (acts & rng & E); [by rewrite Hc|].
  rewrite E. cbn [fst]. destruct (forward_fn_spec _ _ _ _ _ _ _ Hne E) as (_ & (rest & Hr & Hn) & _ & _ & Hd).
  rewrite delivered_no_drop by (apply Hd; unfold ins; apply Forall_map, Forall_true; done).
  by rewrite <- Hc, Hr, Hn, app_nil_r.
Qed.

Lemma arriving_partition seed chunk sp1 sp2 bufs ws :
  Forall (fun b => b <> []) bufs ->
  arriving (NetKnobs d_one 0 0 chunk) seed (full_env sp1 sp2) bufs ws = [].
Proof.
  intros Hb. destruct sp1 as [a b], sp2 as [c d]. unfold arriving, full_env.
  rewrite chaos_net_pair_ok. cbn [fst snd fa_a_to_b pi_knobs fa_dst_fd fa_rng].
  destruct (forward_fn_lost c (rng_a_to_b seed) (map (fun buf => (buf, NetKnobs d_one 0 0 chunk)) bufs) ws)
    as (acts & rng & E & Hd); [|apply pg_xosh_seed_live|by rewrite E].
  apply Forall_map. eapply Forall_impl; [exact Hb|]. by intros buf H.
Qed.

Lemma test_net_lemma sp1 sp2 sp3 sp4 bufs ws reads bufs2 ws2 last :
  Forall (fun b => b <> []) bufs -> concat bufs = tx ->
  Forall (fun w => 0 < w) ws -> (length tx <= length ws)%nat ->
  Forall (fun r => r <> []) reads -> concat reads = arriving zero_knobs 42 (full_env sp1 sp2) bufs ws ->
  Forall (fun b => b <> []) bufs2 ->
  (forall r, last = Some r -> r `prefix_of` arriving (NetKnobs d_one 0 0 16) 42 (full_env sp3 sp4) bufs2 ws2) ->
  test_net (full_env sp1 sp2) (full_env sp3 sp4) (Z.of_nat (length tx)) reads last tt
  = ([], FRet ("test_net: ok"%string, 0), tt).
Proof.
  intros Hb Ht Hw Hl Hr Ha Hb2 Hlast.
  rewrite arriving_clean, Ht in Ha by (rewrite ?Ht; done).
  unfold test_net. rewrite (read_until_all _ _ [] Hr) by (by rewrite Ha). cbn [app]. rewrite Ha.
  destruct sp1 as [a b], sp2 as [c d], sp3, sp4. unfold full_env in *. rewrite !chaos_net_pair_ok.
  do 2 (apply assert_true; [done|]). apply assert_true; [by apply Nat.eqb_refl|].
  apply assert_true; [by apply bool_decide_true|]. apply assert_true; [done|].
  destruct last as [r|]; [|by eapply run_silent].
  specialize (Hlast r eq_refl). setoid_rewrite arriving_partition in Hlast; [|done].
  apply prefix_nil_inv in Hlast as ->. by apply assert_true.
Qed.

(** The spinner ends as soon as it looks after the flag was set. *)
Lemma spinner_stops before after t :
  th_stop_flag t = 0 -> (0 < after)%nat ->
  spinner (replicate before t ++ replicate after (Thread (th_pt t) (th_tag_name t) (th_tag_id t) 1)) = Some 1.
Proof.
  intros Ht Ha. induction before as [|n IH]; cbn [replicate app spinner].
  - by destruct after; [lia|].
  - unfold chaos_thread_should_stop. by rewrite Ht.
Qed.

Lemma test_thread_lemma pt1 pt2 cancel_rc before after :
  (0 < after)%nat ->
  test_thread (SpawnEnv true true (Some pt1)) (SpawnEnv true true (Some pt2)) cancel_rc before after tt
  = ([], FRet ("test_thread: ok"%string, 0), tt).
Proof.
  intros Ha. unfold test_thread. eapply run_silent; [reflexivity|]. eapply run_silent; [|reflexivity].
  unfold test_cooperative_cancel. cbv beta iota zeta delta [chaos_thread_spawn se_calloc se_malloc se_create negb].
  cbn [fst snd pg_alloc_thread_tag chaos_thread_cancel].
  set (t := Thread pt2 _ _ 0). change (Thread _ _ _ 1) with (Thread (th_pt t) (th_tag_name t) (th_tag_id t) 1).
  apply assert_true; [done|]. rewrite spinner_stops by done. apply assert_true; [done|reflexivity].
Qed.

(** ** Property *)

(** C36: the repository's unit tests hold of the models, for whatever the
    system answers: test_arena passes wherever the region is mapped; test_net
    passes however the forwarders' reads and writes and the test's own reads cut
    the streams (the clean pair delivers all 1024 bytes, the partitioned one
    nothing); test_thread passes however often the spinner looks before the stop
    flag is set, as long as it looks once afterwards.  test_io, however, passes
    only on a machine that has been up for 30 seconds: its last assertion
    compares the unsigned clock before and after taking 30 seconds off, so
    earlier it wraps and the test aborts. *)
Theorem unit_tests_hold :
  (forall base, 0 < base -> base + arena_bytes <= 2 ^ 63 ->
     test_arena true (Some base) None = ([], FRet ("test_arena: ok"%string, 0), None)) /\
  (forall sp1 sp2 sp3 sp4 bufs ws reads bufs2 ws2 last,
     Forall (fun b => b <> []) bufs -> concat bufs = tx ->
     Forall (fun w => 0 < w) ws -> (length tx <= length ws)%nat ->
     Forall (fun r => r <> []) reads -> concat reads = arriving zero_knobs 42 (full_env sp1 sp2) bufs ws ->
     Forall (fun b => b <> []) bufs2 ->
     (forall r, last = Some r -> r `prefix_of` arriving (NetKnobs d_one 0 0 16) 42 (full_env sp3 sp4) bufs2 ws2) ->
     test_net (full_env sp1 sp2) (full_env sp3 sp4) (Z.of_nat (length tx)) reads last tt
     = ([], FRet ("test_net: ok"%string, 0), tt)) /\
  (forall pt1 pt2 cancel_rc before after, (0 < after)%nat ->
     test_thread (SpawnEnv true true (Some pt1)) (SpawnEnv true true (Some pt2)) cancel_rc before after tt
     = ([], FRet ("test_thread: ok"%string, 0), tt)) /\
  (forall k_mkstemp k_write k_errno k_time k_ret fd fd2 n1 n2,
     k_mkstemp 0%nat = Some (fd, n1) -> 0 <= fd -> k_mkstemp 3%nat = Some (fd2, n2) -> 0 <= fd2 ->
     k_write 1%nat 100 = 100 -> k_write 4%nat 17 = 17 ->
     let t0 := real_ns (k_time 6%nat) in
     let t1 := real_ns (k_time 7%nat) in
     0 <= t0 <= t1 -> t1 < t0 + 30 * 1000000000 -> t1 <= 2 ^ 62 ->
     exists w, test_io k_mkstemp k_write k_errno k_time k_ret (IoWorld g_slots_init clock_init 0)
     = ([], if 30 * 1000000000 <=? t1 then FRet ("test_io: ok"%string, 0) else FSignal SIGABRT, w)).
Proof.
  split_and!; [apply test_arena_lemma|apply test_net_lemma|apply test_thread_lemma|apply test_io_lemma].
Qed.

Lemma unit_tests_hold_witness :
  test_arena true (Some 65536) None = ([], FRet ("test_arena: ok"%string, 0), None) /\
  test_net (full_env (3, 4) (5, 6)) (full_env (3, 4) (5, 6)) (Z.of_nat (length tx)) [tx] None tt
  = ([], FRet ("test_net: ok"%string, 0), tt) /\
  exists w, test_io (fun _ => Some (3, "/tmp/playground.abcdef"%string)) (fun _ n => n) (fun _ => 0)
    (fun i => (20, Z.of_nat i)) (fun _ => 0) (IoWorld g_slots_init clock_init 0) = ([], FSignal SIGABRT, w).
Proof.
  destruct unit_tests_hold as (Ha & Hn & _ & Hi). split; [apply Ha; [lia|unfold arena_bytes; lia]|]. split.
  - apply (Hn _ _ _ _ [tx] (replicate 1024 1) [tx] [] []).
    1, 5, 7: by repeat constructor.
    + reflexivity.
    + by apply Forall_replicate.
    + rewrite length_replicate. apply Nat.eq_le_incl. reflexivity.
    + rewrite arriving_clean; [reflexivity|by repeat constructor|by apply Forall_replicate|].
      apply Nat.eq_le_incl. reflexivity.
    + intros r [=].
  - destruct (Hi (fun _ => Some (3, "/tmp/playground.abcdef"%string)) (fun _ n => n) (fun _ => 0)
      (fun i => (20, Z.of_nat i)) (fun _ => 0) 3 3 "/tmp/playground.abcdef"%string "/tmp/playground.abcdef"%string)
      as [w E]; try reflexivity; try (unfold real_ns; cbn; lia).
    exists w. exact E.
Defined.
