(* ===== verification/Playground.v ===== *)
(** * The program's promises

    What the assembled program does, end to end: any registered scenario, run
    headless or in the interface, shows exactly the records its child wrote; and
    the seven deterministic ones print the golden files that tests/golden/run.sh
    compares with [playground_run --scenario ID --seed 42 --json] once timestamps
    and pointers are normalised.  The files are quoted here byte for byte. *)

From S2P Require Import Prelude CLib Rand Event Registry Runner Main ChaosMem ChaosIo ChaosNet Prog Catalogue.
From S2P Require Import ScenMemory ScenTimeio ScenConcurrency ScenCompound ScenReplicas Tui TuiLoop Assembly.

#[local] Open Scope Z_scope.
#[local] Open Scope list_scope.

(** ** The normalisation of tests/golden/run.sh *)

Definition ts_label : list Z := str (dq +:+ "ts_ns" +:+ dq +:+ ":").

Fixpoint skip_while (f : Z -> bool) (l : list Z) : list Z :=
  match l with
  | [] => []
  | c :: l' => if f c then skip_while f l' else l
  end.

Definition strip_prefix (p l : list Z) : option (list Z) :=
  if decide (take (length p) l = p) then Some (drop (length p) l) else None.

(** [s/"ts_ns":[0-9]+,?//]: the leftmost match is removed. *)
(* @ tests/golden/run.sh:34-35 sed *)
Fixpoint sed_ts (l : list Z) : list Z :=
  match l with
  | [] => []
  | c :: l' =>
      match strip_prefix ts_label l with
      | Some (d :: r) =>
          if is_digit d then
            match skip_while is_digit r with 44 :: r => r | r => r end
          else c :: sed_ts l'
      | _ => c :: sed_ts l'
      end
  end.

(** [s/0x[0-9a-fA-F]+/0xPTR/g]. *)
Inductive sed_state := Copying | SwallowX | SwallowHex.

(* @ tests/golden/run.sh:34-35 sed *)
Fixpoint sed_hex (st : sed_state) (l : list Z) : list Z :=
  match l with
  | [] => []
  | c :: l' =>
      let copy :=
        match l with
        | 48 :: 120 :: d :: _ => if is_xdigit d then str "0xPTR" ++ sed_hex SwallowX l' else c :: sed_hex Copying l'
        | _ => c :: sed_hex Copying l'
        end in
      match st with
      | SwallowX => sed_hex SwallowHex l'
      | SwallowHex => if is_xdigit c then sed_hex SwallowHex l' else copy
      | Copying => copy
      end
  end.

(** The filter, line by line; [sed] ends every line it prints. *)
Definition normalise (out : list Z) : list Z :=
  concat (map (fun l => sed_hex Copying (sed_ts l) ++ [10]) (lines out)).

(** ** The golden files *)

(** Quotes are written [~], which the files do not use. *)
Definition unquote (s : string) : list Z := map (fun c => if c =? 126 then 34 else c) (str s).

(* @ tests/golden/arena_corrupt.jsonl:1-9 kind *)
Definition golden_arena_corrupt : list Z := unquote "{~kind~:~phase~,~thread~:0,~key~:~~,~num~:0,~text~:~alloc 32 bytes (with 16B redzones front & back)~}
{~kind~:~phase~,~thread~:0,~key~:~~,~num~:0,~text~:~write 64 bytes — that's 32 bytes off the end~}
{~kind~:~phase~,~thread~:0,~key~:~~,~num~:0,~text~:~scan arena for redzone corruption~}
{~kind~:~expect~,~thread~:0,~key~:~redzones_corrupt~,~num~:1,~text~:~~}
{~kind~:~actual~,~thread~:0,~key~:~redzones_corrupt~,~num~:1,~text~:~~}
{~kind~:~sut_fault~,~thread~:0,~key~:~~,~num~:0,~text~:~out-of-bounds write detected by redzone scan~}
{~kind~:~log~,~thread~:0,~key~:~~,~num~:0,~text~:~without redzones, this write would silently corrupt the next allocation.~}
{~kind~:~log~,~thread~:0,~key~:~~,~num~:0,~text~:~the bug would manifest as a crash or wrong value far from the cause.~}
{~kind~:~done~,~thread~:0,~key~:~~,~num~:0,~text~:~~}
".

(* @ tests/golden/double_free.jsonl:1-12 kind *)
Definition golden_double_free : list Z := unquote "{~kind~:~phase~,~thread~:0,~key~:~~,~num~:0,~text~:~alloc 128 bytes~}
{~kind~:~log~,~thread~:0,~key~:~~,~num~:0,~text~:~alloc returned 0xPTR~}
{~kind~:~phase~,~thread~:0,~key~:~~,~num~:0,~text~:~first free (legitimate)~}
{~kind~:~log~,~thread~:0,~key~:~~,~num~:0,~text~:~first free: rc=0  (0 = ok)~}
{~kind~:~phase~,~thread~:0,~key~:~~,~num~:0,~text~:~second free of the SAME pointer~}
{~kind~:~log~,~thread~:0,~key~:~~,~num~:0,~text~:~second free: rc=-1  (-1 = arena detected double-free)~}
{~kind~:~expect~,~thread~:0,~key~:~double_free_caught~,~num~:1,~text~:~~}
{~kind~:~actual~,~thread~:0,~key~:~double_free_caught~,~num~:1,~text~:~~}
{~kind~:~sut_fault~,~thread~:0,~key~:~~,~num~:0,~text~:~double-free detected~}
{~kind~:~log~,~thread~:0,~key~:~~,~num~:0,~text~:~with libc malloc this would corrupt the freelist; the next~}
{~kind~:~log~,~thread~:0,~key~:~~,~num~:0,~text~:~alloc could return a pointer someone else still uses.~}
{~kind~:~done~,~thread~:0,~key~:~~,~num~:0,~text~:~~}
".

(* @ tests/golden/uaf_callback.jsonl:1-10 kind *)
Definition golden_uaf_callback : list Z :=
  unquote "{~kind~:~phase~,~thread~:0,~key~:~~,~num~:0,~text~:~alloc closure~}
{~kind~:~log~,~thread~:0,~key~:~~,~num~:0,~text~:~before free: secret=0xPTR refcount=1 name=\~callback-state\~~}
{~kind~:~expect~,~thread~:0,~key~:~secret~,~num~:51966,~text~:~~}
{~kind~:~phase~,~thread~:0,~key~:~~,~num~:0,~text~:~free closure (other code still holds the pointer)~}
{~kind~:~phase~,~thread~:0,~key~:~~,~num~:0,~text~:~use after free -- read the dangling pointer~}
{~kind~:~log~,~thread~:0,~key~:~~,~num~:0,~text~:~after free:  secret=0xPTR refcount=-555819298 name=\~" ++
  replicate 16 POISON_BYTE ++
  unquote "\~~}
{~kind~:~actual~,~thread~:0,~key~:~secret~,~num~:57054,~text~:~~}
{~kind~:~log~,~thread~:0,~key~:~~,~num~:0,~text~:~the value silently changed; if `name` were the only valid string in a logger,~}
{~kind~:~log~,~thread~:0,~key~:~~,~num~:0,~text~:~you'd be writing 0xPTR garbage to disk and never know.~}
{~kind~:~done~,~thread~:0,~key~:~~,~num~:0,~text~:~~}
".

(* @ tests/golden/crash_null_deref.jsonl:1-5 kind *)
Definition golden_crash_null_deref : list Z := unquote "{~kind~:~phase~,~thread~:0,~key~:~~,~num~:0,~text~:~about to dereference NULL~}
{~kind~:~log~,~thread~:0,~key~:~~,~num~:0,~text~:~the runner's signal handler should catch SIGSEGV,~}
{~kind~:~log~,~thread~:0,~key~:~~,~num~:0,~text~:~emit PG_EV_FAULT(\~child crashed: SIGSEGV\~), and re-raise.~}
{~kind~:~log~,~thread~:0,~key~:~~,~num~:0,~text~:~the parent TUI must survive.~}
{~kind~:~child_crash~,~thread~:0,~key~:~~,~num~:0,~text~:~child crashed: SIGSEGV~}
".

(* @ tests/golden/partial_write.jsonl:1-10 kind *)
Definition golden_partial_write : list Z := unquote "{~kind~:~phase~,~thread~:0,~key~:~~,~num~:0,~text~:~naive call: write(fd, buf, 2048) -- expect 2048 back~}
{~kind~:~expect~,~thread~:0,~key~:~naive_returned~,~num~:2048,~text~:~~}
{~kind~:~actual~,~thread~:0,~key~:~naive_returned~,~num~:137,~text~:~~}
{~kind~:~log~,~thread~:0,~key~:~~,~num~:0,~text~:~naive write returned 137 of 2048 bytes -- the other 1911 are LOST~}
{~kind~:~phase~,~thread~:0,~key~:~~,~num~:0,~text~:~correct call: loop on partial writes~}
{~kind~:~expect~,~thread~:0,~key~:~looped_total~,~num~:2048,~text~:~~}
{~kind~:~actual~,~thread~:0,~key~:~looped_total~,~num~:2048,~text~:~~}
{~kind~:~counter~,~thread~:0,~key~:~loop_iterations~,~num~:15,~text~:~~}
{~kind~:~log~,~thread~:0,~key~:~~,~num~:0,~text~:~loop wrote 2048 bytes in 15 calls~}
{~kind~:~done~,~thread~:0,~key~:~~,~num~:0,~text~:~~}
".

(* @ tests/golden/disk_full.jsonl:1-7 kind *)
Definition golden_disk_full : list Z := unquote "{~kind~:~phase~,~thread~:0,~key~:~~,~num~:0,~text~:~writing 64 chunks of 64 bytes; quota is 1024 bytes~}
{~kind~:~expect~,~thread~:0,~key~:~bytes_written_ok~,~num~:1024,~text~:~~}
{~kind~:~actual~,~thread~:0,~key~:~bytes_written_ok~,~num~:1024,~text~:~~}
{~kind~:~counter~,~thread~:0,~key~:~enospc_errors~,~num~:48,~text~:~~}
{~kind~:~log~,~thread~:0,~key~:~~,~num~:0,~text~:~first ENOSPC at iteration 16; 48 total ENOSPC errors~}
{~kind~:~log~,~thread~:0,~key~:~~,~num~:0,~text~:~code that ignores the return value of write() silently loses data here.~}
{~kind~:~done~,~thread~:0,~key~:~~,~num~:0,~text~:~~}
".

(* @ tests/golden/clock_jump.jsonl:1-8 kind *)
Definition golden_clock_jump : list Z := unquote "{~kind~:~phase~,~thread~:0,~key~:~~,~num~:0,~text~:~naive timeout: while (now - start < 100ms)~}
{~kind~:~log~,~thread~:0,~key~:~~,~num~:0,~text~:~we'll start the loop, then have someone jump the clock backward 30s.~}
{~kind~:~expect~,~thread~:0,~key~:~loop_terminated~,~num~:1,~text~:~~}
{~kind~:~log~,~thread~:0,~key~:~~,~num~:0,~text~:~  ...someone bumps the clock backward 30s mid-loop~}
{~kind~:~actual~,~thread~:0,~key~:~loop_terminated~,~num~:1,~text~:~~}
{~kind~:~counter~,~thread~:0,~key~:~iterations~,~num~:1000,~text~:~~}
{~kind~:~log~,~thread~:0,~key~:~~,~num~:0,~text~:~loop terminated after 1000 iterations (safety net engaged)~}
{~kind~:~done~,~thread~:0,~key~:~~,~num~:0,~text~:~~}
".

(** ** Lemmas: the normalisation *)

Lemma skip_digits l c r :
  Forall is_digit l -> is_digit c = false -> skip_while is_digit (l ++ c :: r) = c :: r.
Proof.
  intros Hl Hc. induction Hl as [|d l Hd _ IH]; cbn; [by rewrite Hc|].
  by rewrite (Is_true_true_1 _ Hd).
Qed.

(** The part of a record's line before the timestamp, and the part after. *)
Definition json_head (ev : pg_event_t) : list Z :=
  str ("{" +:+ dq +:+ "kind" +:+ dq +:+ ":") ++
  json_escape (str (pg_event_kind_name (ev_kind ev))) ++ [44].
Definition json_tail (ev : pg_event_t) : list Z :=
  str (dq +:+ "thread" +:+ dq +:+ ":" +:+ fmt_d (ev_thread_tag ev) +:+
       "," +:+ dq +:+ "key" +:+ dq +:+ ":") ++
  json_escape (key_chars ev) ++
  str ("," +:+ dq +:+ "num" +:+ dq +:+ ":" +:+ fmt_d (ev_num ev) +:+
       "," +:+ dq +:+ "text" +:+ dq +:+ ":") ++
  json_escape (ev_text ev) ++ str "}".

Lemma render_json_split ev :
  render_json ev = (json_head ev ++ ts_label ++ str (fmt_d (ev_ts_ns ev)) ++ 44 :: json_tail ev) ++ [10].
Proof.
  change (44 :: json_tail ev) with ([44] ++ json_tail ev).
  unfold render_json, json_head, json_tail, ts_label. by rewrite !str_app, <- !app_assoc.
Qed.

Lemma sed_ts_label l r :
  Forall is_digit l -> l <> [] -> sed_ts (ts_label ++ l ++ 44 :: r) = r.
Proof.
  intros Hl Hne. destruct l as [|d l]; [done|].
  pose proof (Forall_inv Hl) as Hd. apply Forall_inv_tail in Hl.
  change (sed_ts (ts_label ++ (d :: l) ++ 44 :: r))
    with (if is_digit d then match skip_while is_digit (l ++ 44 :: r) with 44 :: r => r | r => r end
          else 34 :: sed_ts (drop 1 ts_label ++ (d :: l) ++ 44 :: r)).
  by rewrite (Is_true_true_1 _ Hd), skip_digits.
Qed.

(** What a record looks like in a golden file, whenever it was stamped. *)
Definition golden_line (ev : pg_event_t) : list Z := sed_hex Copying (json_head ev ++ json_tail ev).

Lemma sed_ts_line k t tail :
  0 <= t ->
  sed_ts (json_head (ev_init k) ++ ts_label ++ str (fmt_d t) ++ 44 :: tail) = json_head (ev_init k) ++ tail.
Proof.
  intros Ht. destruct (fmt_d_digits t Ht) as (d & l & E & Hd). rewrite E.
  assert (H : forall r, sed_ts (ts_label ++ (d :: l) ++ 44 :: r) = r) by (intros; by apply sed_ts_label).
  specialize (H tail). revert H. generalize ((d :: l) ++ 44 :: tail). intros X <-.
  destruct k; reflexivity.
Qed.

(** A record as the goldens need it: a known kind. *)
Definition golden_ok (ev : pg_event_t) : Prop :=
  event_wf ev /\ exists k, ev_kind ev = kind_code k.

Lemma json_head_kind ev k : ev_kind ev = kind_code k -> json_head ev = json_head (ev_init k).
Proof. unfold json_head. by intros ->. Qed.

Lemma printable_app_inv (l : list Z) x :
  Forall (fun b => 32 <= b) (l ++ x) -> Forall (fun b => 32 <= b) l.
Proof. intros H. by apply Forall_app in H as [? _]. Qed.

Lemma normalise_records evs :
  Forall golden_ok evs ->
  normalise (concat (map render_json evs)) = concat (map (fun ev => golden_line ev ++ [10]) evs).
Proof.
  induction 1 as [|ev evs [Hw [k Hk]] _ IH]; [done|].
  destruct (render_json_printable ev Hw) as (line & E & Hp).
  cbn [map concat]. rewrite E, <- app_assoc. cbn [app]. unfold normalise. rewrite lines_cons by done.
  cbn [map concat]. unfold normalise in IH. rewrite IH. f_equal. f_equal. unfold golden_line. f_equal.
  rewrite render_json_split in E. apply app_inj_tail in E as [<- _].
  rewrite (json_head_kind ev k) by done. apply sed_ts_line. destruct (wf_ts ev Hw). lia.
Qed.

Lemma length_rendered evs : Forall event_wf evs -> length (lines (concat (map render_json evs))) = length evs.
Proof.
  induction 1 as [|ev evs Hw _ IH]; [done|]. destruct (render_json_printable ev Hw) as (line & E & Hp).
  cbn [map concat]. rewrite E, <- app_assoc. cbn [app]. rewrite lines_cons by done. cbn [length]. by rewrite IH.
Qed.

(** ** A scenario, from its descriptor to the terminal *)

(** [playground_run --scenario <id of s> --seed 42 --json] on the system [y]:
    however reads are cut up, it returns 0 and its normalised output is [golden]. *)
Definition headless_prints (y : system) (s : pg_scenario_t scenario_fn) (golden : list Z) : Prop :=
  forall done_now start rd wr pid rs ws,
  0 <= rd -> 0 < pid ->
  let '(evs, x) := child_main (callbacks y) no_callbacks done_now s wr 42 start in
  RErr ∉ rs -> (EVENT_SIZE * S (length evs) <= reads rs)%nat -> reap_wait ws = Some (Some x) ->
  exists out msg,
    run_headless g_reg (Some (sc_id s)) 42 true (Some (rd, wr)) (Some pid)
      (Pipe (concat (map encode evs)) true) rs ws = HeadRet out msg 0 /\
    normalise out = golden.

(** What the scenarios' own records look like before the stamp. *)
Record plain (ev : pg_event_t) : Prop := {
  pl_wf : event_wf ev;
  pl_strings : strings_end ev;
  pl_tag : ev_thread_tag ev = 0;
  pl_kind : exists k, ev_kind ev = kind_code k /\ k <> PG_EV_DONE
}.

Lemma plain_text k s : k <> PG_EV_DONE -> plain (ev_set_text (snprintf PG_EVENT_TEXT_LEN (str s)) (ev_init k)).
Proof. intros Hk. split; [by apply ev_text_wf|by apply ev_text_strings|done|by exists k]. Qed.

Lemma plain_kv k key v : k <> PG_EV_DONE -> in_i64 v -> plain (emit_kv k key v).
Proof. intros Hk Hv. split; [by apply emit_kv_wf|by apply emit_kv_strings|done|by exists k]. Qed.

(** Discharges [Forall plain] of a report. *)
Ltac plain_report :=
  repeat first [ apply Forall_nil_2 | apply Forall_cons_2 ];
  first [ by apply plain_text | apply plain_kv; [done|lia] ].

Lemma stamp_plain ctx now report :
  ctx_thread_tag ctx = 0 ->
  Forall plain report ->
  Forall sound_event (stamp ctx now (map (pair 0) report)) /\
  Forall golden_ok (stamp ctx now (map (pair 0) report)) /\
  map golden_line (stamp ctx now (map (pair 0) report)) = map golden_line report /\
  length (stamp ctx now (map (pair 0) report)) = length report.
Proof.
  intros Hc H. unfold stamp. revert now.
  induction H as [|ev report [Hw Hst Ht (k & Hk & Hd)] _ IH]; intros now; [by repeat constructor|].
  destruct (IH (fun i => now (S i))) as (H1 & H2 & H3 & H4).
  cbn [map imap length]. unfold compose in *.
  assert (Hs : sound_event (pg_emit_copy ctx 0 (now O) ev)).
  { apply sound_emit; [done|done|lia|done|]. unfold is_done. rewrite Hk.
    apply Z.eqb_neq. by apply kind_not_done. }
  split_and!.
  - by constructor.
  - constructor; [|done]. split; [apply Hs|by exists k].
  - rewrite H3. f_equal. unfold golden_line, json_head, json_tail. cbn. by rewrite Ht, Hc.
  - by rewrite H4.
Qed.

(** How the scenario program ended, as the records that follow its own. *)
Definition end_records (r : fin Z) : option (list pg_event_t) :=
  match r with
  | FRet 0 => Some [pg_done]
  | FSignal sig => Some (signal_records sig)
  | _ => None
  end.

Lemma signal_records_ok sig : Forall golden_ok (signal_records sig).
Proof.
  apply signal_records_Forall. intros s. split; [apply fault_event_wf|].
  exists PG_EV_CHILD_CRASH. by destruct s.
Qed.

(** The run callback of [s] is the program [p] started in [w]. *)
Definition runs {W} (y : system) (s : pg_scenario_t scenario_fn) (p : prog W Z) (w : W) : Prop :=
  sc_init s = None /\ sc_teardown s = None /\
  forall ctx st, ctx_seed ctx = 42 -> callbacks y (sc_run s) ctx st = run_on y ctx st p w.

Lemma child_of_program {W} y s done_now wr start (p : prog W Z) w raw r w' tail :
  runs y s p w -> p w = (raw, r, w') -> end_records r = Some tail ->
  exists tl x,
    child_main (callbacks y) no_callbacks done_now s wr 42 start
    = (stamp (child_ctx wr 42 start) (y_now y) raw ++ tl, x) /\
    Forall golden_ok tl /\ map golden_line tl = map golden_line tail.
Proof.
  intros (Hi & Ht & Hrun) Hp He. unfold child_main, run_and_finish, teardown_and_finish.
  rewrite Hi, Ht. cbn [Z.eqb]. rewrite Hrun by done. unfold run_on, as_callback. rewrite Hp.
  destruct r as [[| |]|sig| |]; try done; injection He as <-; cbn [Z.eqb finish].
  - do 2 eexists. split; [reflexivity|]. split; [|done].
    constructor; [|constructor]. split; [by apply pg_done_wf|by exists PG_EV_DONE].
  - do 2 eexists. split; [reflexivity|]. split; [apply signal_records_ok|done].
Qed.

(** The run of a scenario, given its program's records and that they normalise
    to the golden file. *)
Lemma headless_prints_child {W} y s (p : prog W Z) w report r w' tail golden :
  admissible y -> s ∈ scenarios -> runs y s p w ->
  p w = (map (pair 0) report, r, w') -> Forall plain report -> end_records r = Some tail ->
  concat (map (fun ev => golden_line ev ++ [10]) (report ++ tail)) = golden ->
  headless_prints y s golden.
Proof.
  intros ok Hs Hruns Hp Hr Htl <- done_now start rd wr pid rs ws Hrd Hpid.
  destruct (stamp_plain (child_ctx wr 42 start) (y_now y) report eq_refl Hr) as (_ & Hok & Hgl & _).
  destruct (child_of_program y s done_now wr start p w _ r w' tail Hruns Hp Htl) as (tl & x & E & Hokt & Hglt).
  pose proof (run_headless_child (callbacks y) no_callbacks done_now g_reg s (sc_id s) 42 true rd wr pid start
    [] rs ws (callbacks_sound y ok) no_callbacks_sound (g_reg_find s Hs) Hrd Hpid) as H.
  rewrite E in *. intros He Hrs Hw. rewrite app_nil_r in H.
  do 2 eexists. split; [apply H; [unfold EVENT_SIZE; cbn; lia|exact He|exact Hrs|exact Hw]|].
  change (render true) with render_json.
  rewrite normalise_records by (apply Forall_app_2; assumption).
  rewrite <- !(map_map golden_line (fun l => l ++ [10])), !map_app. by rewrite Hgl, Hglt.
Qed.

(** *** The pointer in double_free's log line *)

Lemma xdigit_range c : is_xdigit c -> 48 <= c <= 57 \/ 65 <= c <= 102 /\ c <> 92.
Proof.
  unfold is_xdigit, digit_in, digit_val. intros [d Hd]%bool_decide_unpack. revert Hd.
  repeat case_match; intros; simplify_eq; zlia.
Qed.

Lemma xdigits_nul_free ds : Forall is_xdigit ds -> nul_free ds.
Proof. intros H. eapply Forall_impl; [exact H|]. intros c Hc%xdigit_range. lia. Qed.

Lemma json_esc_xdigits ds : Forall is_xdigit ds -> concat (map json_esc_char ds) = ds.
Proof.
  induction 1 as [|c ds Hc _ IH]; [done|]. cbn [map concat]. rewrite IH.
  apply xdigit_range in Hc. unfold json_esc_char.
  by rewrite !(proj2 (Z.eqb_neq c _)), (proj2 (Z.ltb_ge c 32)) by lia.
Qed.

Lemma sed_hex_run ds c r :
  Forall is_xdigit ds -> is_xdigit c = false -> c <> 48 ->
  sed_hex SwallowHex (ds ++ c :: r) = c :: sed_hex Copying r.
Proof.
  intros Hds Hc Hn. induction Hds as [|d ds Hd _ IH].
  - cbn [app sed_hex]. rewrite Hc. destruct c as [|p|p]; try done.
    repeat (destruct p as [p|p|]; try done).
  - cbn [app sed_hex]. by rewrite (Is_true_true_1 _ Hd).
Qed.

(** The line up to the pointer. *)
Definition ptr_prefix : list Z := Eval vm_compute in
  json_head (pg_logf "") ++
  str (dq +:+ "thread" +:+ dq +:+ ":0," +:+ dq +:+ "key" +:+ dq +:+ ":" +:+ dq +:+ dq +:+
       "," +:+ dq +:+ "num" +:+ dq +:+ ":0," +:+ dq +:+ "text" +:+ dq +:+ ":" +:+ dq +:+ "alloc returned ").

Lemma sed_hex_ptr_prefix d r :
  sed_hex Copying (ptr_prefix ++ 48 :: 120 :: d :: r)
  = ptr_prefix ++ (if is_xdigit d then str "0xPTR" ++ sed_hex SwallowHex (d :: r)
                   else 48 :: sed_hex Copying (120 :: d :: r)).
Proof. reflexivity. Qed.

Lemma golden_line_ptr z :
  golden_line (pg_logf ("alloc returned " +:+ fmt_p z)) = golden_line (pg_logf "alloc returned 0x0").
Proof.
  destruct (fmt_x_digits z) as (d & t & E & Hd & Hl).
  assert (Hs : str ("alloc returned " +:+ fmt_p z) = str "alloc returned 0x" ++ d :: t)
    by (unfold fmt_p; by rewrite !str_app, E).
  assert (Ht : cstr (ev_text (pg_logf ("alloc returned " +:+ fmt_p z))) = str "alloc returned 0x" ++ d :: t).
  { cbn [pg_logf ev_set_text ev_text]. rewrite cstr_snprintf, Hs by (cbv; lia).
    rewrite cstr_id by (apply Forall_app_2; [by repeat constructor|by apply xdigits_nul_free]).
    apply take_ge. rewrite length_app. cbn [length]. change (length (str _)) with 17%nat.
    change (PG_EVENT_TEXT_LEN - 1)%nat with 191%nat. lia. }
  assert (He : json_escape (ev_text (pg_logf ("alloc returned " +:+ fmt_p z)))
               = [34] ++ str "alloc returned 0x" ++ (d :: t) ++ [34]).
  { unfold json_escape. rewrite Ht, map_app, concat_app, (json_esc_xdigits (d :: t)), <- app_assoc by done. reflexivity. }
  transitivity (sed_hex Copying (ptr_prefix ++ 48 :: 120 :: d :: (t ++ [34; 125]))).
  - unfold golden_line, json_tail. rewrite He, <- !app_assoc. reflexivity.
  - rewrite sed_hex_ptr_prefix, (Is_true_true_1 _ (Forall_inv Hd)).
    pose proof (sed_hex_run (d :: t) 34 [125] Hd eq_refl ltac:(lia)) as Hrun.
    cbn [app] in Hrun. rewrite Hrun. reflexivity.
Qed.

(** ** The seven scenarios *)

(** A system on which the seven runs are reproducible: memory is there, files
    take every write whole, a thousand clock readings take less than 100 ms. *)
Record reproducible (y : system) (base fd : Z) (name : string) : Prop := {
  rp_admissible : admissible y;
  rp_calloc : y_calloc y = true;
  rp_mmap : y_mmap y = Some base;
  rp_mkstemp : y_mkstemp y O = Some (fd, name);
  rp_fd : 0 <= fd;
  rp_write : roomy (y_write y);
  rp_steady : steady (y_time y);
  rp_quick : real (y_time y) 1000 - real (y_time y) 0 < 100000000
}.

(** From the scenario's run lemma to its golden file. *)
Ltac prints H :=
  eapply headless_prints_child; [assumption| |split; [reflexivity|split; [reflexivity|]]|exact H| |reflexivity|];
  [by repeat constructor| |plain_report|].

Section Seven.
Variables (y : system) (base fd : Z) (name : string).
Hypothesis rp : reproducible y base fd name.

Lemma rp_base : 0 < base /\ base + arena_bytes <= 2 ^ 63.
Proof. destruct rp as [ok _ Hm]. by apply (ad_mmap y ok). Qed.

Lemma ac_prints : headless_prints y scen_arena_corrupt golden_arena_corrupt.
Proof.
  destruct rp_base as [Hb Ht]. destruct rp as [ok Hc Hm _ _ _ _ _]. prints (ac_run_lemma base Hb Ht).
  - intros ctx st _. unfold callbacks. cbn. by rewrite Hc, Hm.
  - vm_compute. reflexivity.
Qed.

Lemma uc_prints : headless_prints y scen_uaf_callback golden_uaf_callback.
Proof.
  destruct rp_base as [Hb Ht]. destruct rp as [ok Hc Hm _ _ _ _ _]. prints (uc_run_lemma base Hb Ht).
  - intros ctx st _. unfold callbacks. cbn. by rewrite Hc, Hm.
  - vm_compute. reflexivity.
Qed.

Lemma df_prints : headless_prints y scen_double_free golden_double_free.
Proof.
  destruct rp_base as [Hb Ht]. destruct rp as [ok Hc Hm _ _ _ _ _]. prints (double_free_run_lemma base Hb Ht).
  - intros ctx st _. unfold callbacks. cbn. by rewrite Hc, Hm.
  - unfold ScenMemory.df_report. cbn [map app]. rewrite golden_line_ptr. vm_compute. reflexivity.
Qed.

Lemma cn_prints : headless_prints y scen_crash_null_deref golden_crash_null_deref.
Proof. destruct rp as [ok _ _ _ _ _ _ _]. prints (cn_run_lemma None); [done|vm_compute; reflexivity]. Qed.

(** A file scenario is started from the world the child's seed gives. *)
Ltac seeded := intros [] st; cbn [ctx_seed]; intros ->; reflexivity.

Lemma pw_prints : headless_prints y scen_partial_write golden_partial_write.
Proof.
  destruct rp as [ok _ _ Hm Hfd Hr _ _].
  destruct (pw_run_lemma (y_mkstemp y) (y_write y) (y_errno y) (y_time y) (y_ret y) fd name 42 Hm Hfd
    (roomy_accepting _ Hr)) as (naive & calls & w' & E & _ & _ & H).
  destruct (H Hr) as [-> ->]. prints E; [seeded|vm_compute; reflexivity].
Qed.

Lemma disk_full_prints : headless_prints y scen_disk_full golden_disk_full.
Proof.
  destruct rp as [ok _ _ Hm Hfd Hr _ _].
  destruct (df_run_roomy (y_mkstemp y) (y_write y) (y_errno y) (y_ret y) fd name 42 Hm Hfd Hr) as (w' & E).
  prints E; [seeded|vm_compute; reflexivity].
Qed.

Lemma cj_prints : headless_prints y scen_clock_jump golden_clock_jump.
Proof.
  destruct rp as [ok _ _ _ _ _ Hs Hq].
  destruct (cj_run_lemma (y_mkstemp y) (y_write y) (y_errno y) (y_time y) (y_ret y) g_slots_init
    (pg_xosh_seed (clock_seed_of 42)) Hs) as (iters & w' & E & _ & _ & H).
  rewrite (H Hq) in E. prints E; [seeded|vm_compute; reflexivity].
Qed.
End Seven.

(** ** The witnesses' system *)

Lemma quiet_reproducible : reproducible quiet 65536 5 "/tmp/playground.abcdef".
Proof.
  split; [apply quiet_admissible|done..|lia|by intros i n Hn| |].
  - intros i. unfold real, real_ns. cbn [quiet y_time fst snd]. lia.
  - unfold real, real_ns. cbn [quiet y_time fst snd]. lia.
Qed.

(** ** Properties *)

(** The models print the golden files: for each of the seven deterministic
    scenarios, running its catalogue descriptor through the child, the pipe, the
    headless pump and the JSON renderer with seed 42 returns 0 and prints what
    the checked-in file holds, byte for byte after the script's normalisation,
    wherever the arena is mapped, whatever the clock reads when records are
    stamped and however the kernel cuts up the reads; the system has to provide
    memory, a temporary file that takes every write whole, and a monotonic clock
    that makes a thousand readings within 100 ms. *)
Theorem golden_conformance y base fd name :
  reproducible y base fd name ->
  headless_prints y scen_uaf_callback golden_uaf_callback /\
  headless_prints y scen_double_free golden_double_free /\
  headless_prints y scen_arena_corrupt golden_arena_corrupt /\
  headless_prints y scen_crash_null_deref golden_crash_null_deref /\
  headless_prints y scen_partial_write golden_partial_write /\
  headless_prints y scen_disk_full golden_disk_full /\
  headless_prints y scen_clock_jump golden_clock_jump.
Proof.
  intros rp. split_and!; [by eapply uc_prints|by eapply df_prints|by eapply ac_prints|by eapply cn_prints|
    by eapply pw_prints|by eapply disk_full_prints|by eapply cj_prints].
Qed.

Lemma golden_conformance_witness :
  headless_prints quiet scen_double_free golden_double_free /\
  headless_prints quiet scen_clock_jump golden_clock_jump.
Proof.
  destruct (golden_conformance quiet 65536 5 "/tmp/playground.abcdef" quiet_reproducible)
    as (_ & H1 & _ & _ & _ & _ & H2).
  split; [exact H1|exact H2].
Defined.

(** C1: every registered scenario is shown as it ran: on any system whose answers
    its interfaces allow, with any seed, each of the 19 scenarios emits only
    records within the wire format (numbers in 64 bits, texts in 192 bytes), and
    forges no DONE: a DONE is the very last record, and only of a child that ends
    with status 0 or 1 by itself.  Suppose further that the pipe and the fork
    succeed, that no read of the pipe fails, that the kernel goes on answering
    reads until the records and the end of the pipe are through, and that waiting
    for the child answers its status.  Then the headless mode prints exactly the
    records the child wrote, one JSON line each, and returns 0.  And if, in the
    interface, also no [poll] fails, nobody presses [q] and the loop finds the pipe
    ready once for each record and once more, then it logs and summarises exactly
    those records and keeps the child's exit status. *)
Theorem every_scenario_shown y s seed json rd wr pid start done_now rs ws :
  admissible y -> s ∈ scenarios -> 0 <= rd -> 0 < pid ->
  let '(evs, x) := child_main (callbacks y) no_callbacks done_now s wr seed start in
  let p := Pipe (concat (map encode evs)) true in
  Forall event_wf evs /\
  (forall i e, evs !! i = Some e -> is_done e = true -> S i = length evs /\ (x = Exited 0 \/ x = Exited 1)) /\
  (RErr ∉ rs -> (EVENT_SIZE * S (length evs) <= reads rs)%nat -> reap_wait ws = Some (Some x) ->
   run_headless g_reg (Some (sc_id s)) seed json (Some (rd, wr)) (Some pid) p rs ws
     = HeadRet (concat (map (render json) evs)) (end_message (existsb is_done evs) x) 0 /\
   length (lines (concat (map render_json evs))) = length evs /\
   forall hc rounds t, Forall calm rounds -> (length evs < ready_rounds rounds)%nat ->
     exists t', run_scenario g_reg hc s seed (RunEnv (Some (rd, wr)) (Some pid) p rs rounds ws) t
         = Some (0, t', []) /\
       t_log t' = push_all (t_log t) (start_line s seed :: map event_entry evs ++ exit_line x) /\
       t_stats t' = foldl (fun s ev => stats_event ev s) (stats_clear (t_stats t)) evs /\
       g_last_exit t' = x).
Proof.
  intros ok Hs Hrd Hpid. pose proof (callbacks_sound y ok) as Hc.
  pose proof (child_records_wf _ _ done_now s wr seed start Hc no_callbacks_sound) as Hw.
  pose proof (child_done_last _ _ done_now s wr seed start Hc no_callbacks_sound) as Hd.
  pose proof (run_headless_child _ _ done_now g_reg s (sc_id s) seed json rd wr pid start [] rs ws
    Hc no_callbacks_sound (g_reg_find s Hs) Hrd Hpid) as Hh.
  pose proof (fun hc rounds t Hcalm => run_scenario_child g_reg hc _ _ done_now s seed rd wr pid start rounds
    [] rs ws t Hc no_callbacks_sound Hrd Hpid Hcalm) as Ht.
  destruct (child_main _ _ _ _ _ _ _) as [evs x]. cbn [fst] in Hw. rewrite app_nil_r in *.
  assert (H0 : (@length Z [] < EVENT_SIZE)%nat) by (unfold EVENT_SIZE; cbn; lia).
  split; [exact Hw|]. split; [exact Hd|]. intros He Hn Hx. split; [by apply Hh|]. split; [by apply length_rendered|].
  intros hc rounds t Hcalm Hr. destruct (Ht hc rounds t Hcalm H0 He Hn Hr Hx) as (t' & H1 & H2 & H3 & H4 & _).
  exists t'. split; [exact H1|]. split; [exact H2|]. split; [exact H3|exact H4].
Qed.

Lemma every_scenario_shown_witness :
  let '(evs, x) := child_main (callbacks quiet) no_callbacks 9000 scen_packet_loss 4 7 1000 in
  run_headless g_reg (Some "packet_loss"%string) 7 true (Some (3, 4)) (Some 77)
    (Pipe (concat (map encode evs)) true) (replicate 3000 (RChunk 512)) [WaitOk x]
  = HeadRet (concat (map (render true) evs)) (end_message (existsb is_done evs) x) 0 /\
  length evs = 9%nat.
Proof.
  pose proof (every_scenario_shown quiet scen_packet_loss 7 true 3 4 77 1000 9000 (replicate 3000 (RChunk 512))
    [WaitOk (Exited 0)] quiet_admissible) as H.
  assert (E : exists evs, child_main (callbacks quiet) no_callbacks 9000 scen_packet_loss 4 7 1000 = (evs, Exited 0)
                         /\ length evs = 9%nat) by (eexists; split; vm_compute; reflexivity).
  destruct E as (evs & E & Hl). rewrite E in *. split; [|exact Hl].
  apply H; [by apply (list_elem_of_lookup_2 _ 12)|lia|lia|by intros [? _]%elem_of_replicate|rewrite Hl; vm_compute; lia|reflexivity].
Defined.
