(* ===== verification/GoldenScript.v ===== *)
(** * The golden-file script (tests/golden/run.sh)

    The whole script: its arguments, the loop over the seven ids with its two
    modes, and the exit status, over a directory of files and the binary's
    answers.  [set -euo pipefail] makes a failing binary end the script at once.
    The filter is [normalise], the files are quoted in Playground. *)

From S2P Require Import Prelude CLib Rand Event Registry Runner Main ChaosMem ChaosIo ChaosNet Prog Catalogue.
From S2P Require Import Assembly Playground.

#[local] Open Scope Z_scope.
#[local] Open Scope list_scope.

(** ** The binary *)

(** [playground_run] with these arguments: the exit status and the standard
    output; [None] when it does not come back. *)
(* @ src/main.c:142-144 main *)
Definition playground_run {C} (reg : list (pg_scenario_t C)) (now : Z) (argv0 : string) (args : list string)
    (pipe_ans : option (Z * Z)) (fork_ans : option Z) (p : pipe) (rs : list rres) (ws : list waitres)
  : option (Z * list Z) :=
  match main false reg now argv0 args with
  | ActExit rc out _ => Some (rc, str out)
  | ActHeadless id seed json _ =>
      match run_headless reg (Some id) seed json pipe_ans fork_ans p rs ws with
      | HeadRet out _ rc => Some (rc, out)
      | _ => None
      end
  | ActTui _ => None
  end.

(** ** The script *)

Open Scope string_scope.

(* @ tests/golden/run.sh:18-26 scenarios *)
Definition golden_ids : list string :=
  ["uaf_callback"; "double_free"; "arena_corrupt"; "crash_null_deref"; "partial_write"; "disk_full"; "clock_jump"].

(** What [$( )] makes of an output: no NULs, no newlines at the end. *)
Fixpoint strip_newlines (l : list Z) : list Z :=
  match l with
  | [] => []
  | c :: l => match strip_newlines l with
              | [] => if (c =? 10)%Z then [] else [c]
              | l => c :: l
              end
  end.

Definition captured (out : list Z) : list Z := strip_newlines (filter (fun c => c <> 0%Z) out).

(** [printf '%s\n' "$actual"]. *)
(* @ tests/golden/run.sh:34-35 actual *)
Definition actual_text (out : list Z) : list Z := captured (normalise out) ++ [10%Z].

Arguments actual_text : simpl never.

(** The files by name, both output streams, [$fail]. *)
Record script := Script {
  gs_files : gmap string (list Z);
  gs_out : list Z;
  gs_err : list Z;
  gs_fail : bool
}.

(* @ tests/golden/run.sh:30-30 expected_file *)
Definition expected_file (gdir id : string) : string := gdir +:+ "/" +:+ id +:+ ".jsonl".

Section Script.

(** What the binary answers for an id: its status ([128 + n] when a signal killed
    it) and its standard output.  What [diff -u] prints of two different texts.
    Which files can be written; the shell's complaint about one that cannot is not
    kept. *)
Variable run : string -> Z * list Z.
Variable diff_u : list Z -> list Z -> list Z.
Variable writable : string -> bool.

(** One id; with an exit status when the script ends there. *)
(* @ tests/golden/run.sh:30-52 expected_file *)
Definition script_id (mode gdir id : string) (s : script) : script * option Z :=
  let expected := expected_file gdir id in
  let '(rc, out) := run id in
  if negb (rc =? 0)%Z then (s, Some rc)
  else
    let actual := actual_text out in
    if decide (mode = "--regenerate") then
      if writable expected then
        (Script (<[expected := actual]> (gs_files s)) (gs_out s ++ str ("regenerated: " +:+ expected +:+ nl))
                (gs_err s) (gs_fail s), None)
      else (s, Some 1%Z)
    else
      match gs_files s !! expected with
      | None => (Script (gs_files s) (gs_out s) (gs_err s ++ str ("MISSING golden: " +:+ expected +:+ nl)) true, None)
      | Some text =>
          if decide (text = actual) then (s, None)
          else (Script (gs_files s) (gs_out s)
                       (gs_err s ++ diff_u text actual ++ str ("MISMATCH: " +:+ id +:+ nl)) true, None)
      end.

(* @ tests/golden/run.sh:28-58 scenarios *)
Fixpoint script_loop (mode gdir : string) (ids : list string) (s : script) : script * Z :=
  match ids with
  | [] =>
      if gs_fail s then (s, 1%Z)
      else (Script (gs_files s)
                   (gs_out s ++ str ("golden: " +:+ fmt_d (Z.of_nat (length golden_ids)) +:+ " scenarios match" +:+ nl))
                   (gs_err s) false, 0%Z)
  | id :: ids =>
      match script_id mode gdir id s with
      | (s, Some rc) => (s, rc)
      | (s, None) => script_loop mode gdir ids s
      end
  end.

(** [${1:?}], [${2:?}] and [${3:-check}]: unset or empty. *)
Definition argument (args : list string) (n : nat) : option string :=
  match nth_error args n with Some "" | None => None | a => a end.

(** [name]: how the shell was told to call the script. *)
(* @ tests/golden/run.sh:11-58 binary *)
Definition golden_script (name : string) (args : list string) (files : gmap string (list Z)) : script * Z :=
  match argument args 0, argument args 1 with
  | None, _ =>
      (Script files [] (str (name +:+ ": line 11: 1: usage: run.sh <playground_run> <golden_dir> [--regenerate]" +:+ nl))
              false, 1%Z)
  | _, None => (Script files [] (str (name +:+ ": line 12: 2: golden dir required" +:+ nl)) false, 1%Z)
  | Some binary, Some gdir =>
      script_loop (default "check" (argument args 2)) gdir golden_ids (Script files [] [] false)
  end.

End Script.

Close Scope string_scope.

(** ** The checked-in directory *)

Definition golden_files : list (string * list Z) :=
  [("uaf_callback", golden_uaf_callback); ("double_free", golden_double_free);
   ("arena_corrupt", golden_arena_corrupt); ("crash_null_deref", golden_crash_null_deref);
   ("partial_write", golden_partial_write); ("disk_full", golden_disk_full); ("clock_jump", golden_clock_jump)]%string.

(** The directory holds the checked-in files. *)
Definition goldens_in (gdir : string) (files : gmap string (list Z)) : Prop :=
  Forall (fun g => files !! expected_file gdir g.1 = Some g.2) golden_files.

(** [run] is the binary on the system [y]: for each of the seven ids one of the
    runs [playground_run --scenario ID --seed 42 --json] can make, the child being
    the scenario's own, the pipe its records, the pump reading on until it has
    them all. *)
Definition runs_binary (y : system) (run : string -> Z * list Z) : Prop :=
  forall s, s ∈ scenarios -> sc_id s ∈ golden_ids ->
  exists now argv0 done_now start rd wr pid rs ws,
    let '(evs, x) := child_main (callbacks y) no_callbacks done_now s wr 42 start in
    0 <= rd /\ 0 < pid /\ (RErr ∉ rs) /\ (EVENT_SIZE * S (length evs) <= reads rs)%nat /\ reap_wait ws = Some (Some x) /\
    playground_run g_reg now argv0 ["--scenario"; sc_id s; "--seed"; "42"; "--json"]%string (Some (rd, wr)) (Some pid)
      (Pipe (concat (map encode evs)) true) rs ws = Some (run (sc_id s)).

(** ** Lemmas *)

Lemma expected_file_inj gdir a b : expected_file gdir a = expected_file gdir b -> a = b.
Proof.
  unfold expected_file. intros H. apply (f_equal str) in H. rewrite !str_app in H.
  apply app_inv_head, app_inv_head, app_inv_tail in H.
  apply (f_equal unstr) in H. by rewrite !unstr_str in H.
Qed.

(** The binary's answers normalise to the golden files [gs]. *)
Definition good (run : string -> Z * list Z) (gs : list (string * list Z)) : Prop :=
  Forall (fun g => (run g.1).1 = 0 /\ actual_text (run g.1).2 = g.2) gs.

Definition all_match (gdir : string) (files : gmap string (list Z)) (gs : list (string * list Z)) : bool :=
  forallb (fun g => bool_decide (files !! expected_file gdir g.1 = Some g.2)) gs.

Section Loops.
Context (run : string -> Z * list Z) (diff_u : list Z -> list Z -> list Z) (writable : string -> bool).

(** Checking: the files stay; the status tells whether every one matched. *)
Lemma check_loop mode gdir gs s :
  good run gs -> mode <> "--regenerate"%string ->
  exists out err fail, script_loop run diff_u writable mode gdir (map fst gs) s
      = (Script (gs_files s) out err fail, if fail then 1 else 0) /\
    fail = gs_fail s || negb (all_match gdir (gs_files s) gs) /\
    (fail = false -> out = gs_out s ++ str ("golden: 7 scenarios match" +:+ nl) /\ err = gs_err s).
Proof.
  intros Hg Hm. revert s. induction Hg as [|[id text] gs [Hrc Ht] _ IH]; intros s; cbn [map script_loop fst].
  - cbn [all_match forallb negb]. rewrite orb_false_r. destruct (gs_fail s) eqn:E.
    + destruct s as [fs o e f]. cbn in *. subst. by exists o, e, true.
    + by eexists _, _, false.
  - unfold script_id. cbn [fst snd] in *. destruct (run id) as [rc out]. cbn in Hrc, Ht. subst rc. cbn [Z.eqb negb].
    rewrite decide_False by done.
    change (all_match gdir (gs_files s) ((id, text) :: gs))
      with (bool_decide (gs_files s !! expected_file gdir id = Some text) && all_match gdir (gs_files s) gs).
    destruct (gs_files s !! expected_file gdir id) as [t|] eqn:El.
    + rewrite Ht. destruct (decide (t = text)) as [->|Hne].
      * rewrite bool_decide_true by done. exact (IH s).
      * rewrite bool_decide_false by congruence. destruct (IH (Script (gs_files s) (gs_out s)
          (gs_err s ++ diff_u t text ++ str ("MISMATCH: " +:+ id +:+ nl)) true)) as (o & e & f & E & Hf & _).
        cbn in Hf. subst f. exists o, e, true. by rewrite E, andb_false_l, orb_true_r.
    + rewrite bool_decide_false by congruence. destruct (IH (Script (gs_files s) (gs_out s)
          (gs_err s ++ str ("MISSING golden: " +:+ expected_file gdir id +:+ nl)) true)) as (o & e & f & E & Hf & _).
      cbn in Hf. subst f. exists o, e, true. by rewrite E, andb_false_l, orb_true_r.
Qed.

Definition write_all (gdir : string) (gs : list (string * list Z)) (files : gmap string (list Z)) :=
  foldl (fun m g => <[expected_file gdir g.1 := g.2]> m) files gs.

(** Regenerating: every file is written. *)
Lemma regenerate_loop gdir gs s :
  good run gs -> (forall f, writable f = true) -> gs_fail s = false ->
  exists out err, script_loop run diff_u writable "--regenerate" gdir (map fst gs) s
    = (Script (write_all gdir gs (gs_files s)) (out ++ str ("golden: 7 scenarios match" +:+ nl)) err false, 0).
Proof.
  intros Hg Hw. revert s. induction Hg as [|[id text] gs [Hrc Ht] _ IH]; intros s Hs; cbn [map script_loop fst].
  - rewrite Hs. by exists (gs_out s), (gs_err s).
  - unfold script_id. cbn [fst snd] in *. destruct (run id) as [rc out]. cbn in Hrc, Ht. subst rc. cbn [Z.eqb negb].
    rewrite decide_True, Hw, Ht by done.
    exact (IH (Script (<[expected_file gdir id := text]> (gs_files s)) _ (gs_err s) (gs_fail s)) Hs).
Qed.

(** A binary that fails on some id ends the script with a failure. *)
Lemma failing_loop mode gdir ids s :
  Exists (fun id => (run id).1 <> 0) ids -> (script_loop run diff_u writable mode gdir ids s).2 <> 0.
Proof.
  intros He. revert s. induction He as [id ids Hid|id ids _ IH]; intros s; cbn [script_loop]; unfold script_id;
    destruct (run id) as [rc out]; cbn [fst] in *.
  - by rewrite (proj2 (Z.eqb_neq rc 0)).
  - destruct (Z.eqb_spec rc 0); [|done]. cbn [negb]. destruct (decide (mode = _)).
    + by destruct (writable _).
    + destruct (gs_files s !! _); [case_decide|]; apply IH.
Qed.
End Loops.

Lemma golden_ids_distinct : NoDup (map fst golden_files).
Proof. refine (bool_decide_unpack _ _). vm_compute. exact I. Qed.

Lemma write_all_others gdir gs files f :
  Forall (fun g => f <> expected_file gdir g.1) gs -> write_all gdir gs files !! f = files !! f.
Proof.
  unfold write_all. intros H. revert files. induction H as [|g gs Hg _ IH]; intros files; cbn [foldl]; [done|].
  by rewrite IH, lookup_insert_ne.
Qed.

Lemma write_all_goldens gdir gs files :
  NoDup (map fst gs) -> Forall (fun g => write_all gdir gs files !! expected_file gdir g.1 = Some g.2) gs.
Proof.
  revert files. induction gs as [|[id text] gs IH]; intros files Hn; [constructor|].
  apply NoDup_cons in Hn as [Hni Hn]. constructor; [|by apply IH].
  change (write_all gdir ((id, text) :: gs) files) with (write_all gdir gs (<[expected_file gdir id := text]> files)).
  rewrite write_all_others; [by rewrite lookup_insert_eq|]. apply Forall_forall. intros g Hg E.
  apply expected_file_inj in E. apply Hni. change (fst (id, text) ∈ fst <$> gs). rewrite E. by apply list_elem_of_fmap_2.
Qed.

(** The main program, asked for one of the scenarios. *)
Lemma run_asked now argv0 id pipe_ans fork_ans p rs ws :
  playground_run g_reg now argv0 ["--scenario"; id; "--seed"; "42"; "--json"]%string pipe_ans fork_ans p rs ws
  = match run_headless g_reg (Some id) 42 true pipe_ans fork_ans p rs ws with
    | HeadRet out _ rc => Some (rc, out)
    | _ => None
    end.
Proof. reflexivity. Qed.

Lemma prints_good y run s golden :
  runs_binary y run -> s ∈ scenarios -> sc_id s ∈ golden_ids -> headless_prints y s golden ->
  captured golden ++ [10] = golden -> (run (sc_id s)).1 = 0 /\ actual_text (run (sc_id s)).2 = golden.
Proof.
  intros Hr Hs Hid Hp Hc. destruct (Hr s Hs Hid) as (now & argv0 & done_now & start & rd & wr & pid & rs & ws & H).
  specialize (Hp done_now start rd wr pid rs ws).
  destruct (child_main _ _ _ _ _ _ _) as [evs x]. destruct H as (Hrd & Hpid & He & Hn & Hx & H). rewrite run_asked in H.
  destruct (Hp Hrd Hpid He Hn Hx) as (out & msg & E & Ho). rewrite E in H. injection H as H. rewrite <- H.
  split; [done|]. unfold actual_text. cbn [snd]. by rewrite Ho.
Qed.

(** From a scenario's golden conformance. *)
Ltac by_golden H :=
  refine (prints_good _ _ _ _ _ _ _ H _);
  [eassumption|by repeat constructor|refine (bool_decide_unpack _ _); vm_compute; exact I|vm_compute; reflexivity].

Lemma binary_good y base fd name run : reproducible y base fd name -> runs_binary y run -> good run golden_files.
Proof.
  intros rp Hr.
  destruct (golden_conformance y base fd name rp) as (H1 & H2 & H3 & H4 & H5 & H6 & H7).
  repeat apply Forall_cons_2; [..|by apply Forall_nil_2]; cbn [fst snd];
    [by_golden H1|by_golden H2|by_golden H3|by_golden H4|by_golden H5|by_golden H6|by_golden H7].
Qed.

(** *** A binary for the witnesses *)

Definition quiet_child (s : pg_scenario_t scenario_fn) : list pg_event_t * exit_status :=
  child_main (callbacks quiet) no_callbacks 9000 s 4 42 1000.

Definition quiet_reads : list rres := replicate 4000 (RChunk 512).

Definition quiet_answer (s : pg_scenario_t scenario_fn) : option (Z * list Z) :=
  playground_run g_reg 0 "playground_run" ["--scenario"; sc_id s; "--seed"; "42"; "--json"]%string (Some (3, 4)) (Some 77)
    (Pipe (concat (map encode (quiet_child s).1)) true) quiet_reads [WaitOk (quiet_child s).2].

Definition quiet_run (id : string) : Z * list Z :=
  default (2, []) (s ← pg_registry_find (Some id) g_reg; quiet_answer s).

Definition quiet_enough (s : pg_scenario_t scenario_fn) : bool :=
  (EVENT_SIZE * S (length (quiet_child s).1) <=? reads quiet_reads)%nat.
Definition quiet_answers (s : pg_scenario_t scenario_fn) : bool :=
  match quiet_answer s with Some _ => true | None => false end.

Lemma quiet_checks :
  forallb (fun s => negb (bool_decide (sc_id s ∈ golden_ids)) || (quiet_enough s && quiet_answers s)) scenarios = true.
Proof. vm_compute. reflexivity. Qed.

Lemma forallb_when {A} (p q r : A -> bool) l x :
  forallb (fun x => negb (p x) || (q x && r x)) l = true -> x ∈ l -> p x = true -> q x = true /\ r x = true.
Proof.
  intros H Hx Hp. rewrite forallb_forall in H. specialize (H x (proj1 (list_elem_of_In _ _) Hx)). cbn beta in H.
  rewrite Hp in H. by apply andb_true_iff in H.
Qed.

#[local] Opaque quiet_child quiet_answer quiet_reads.

Lemma quiet_run_of s a : s ∈ scenarios -> quiet_answer s = Some a -> quiet_run (sc_id s) = a.
Proof. intros Hs E. unfold quiet_run. rewrite (g_reg_find s Hs). cbn [mbind option_bind]. by rewrite E. Qed.

Lemma quiet_enough_of s :
  s ∈ scenarios -> sc_id s ∈ golden_ids ->
  (EVENT_SIZE * S (length (quiet_child s).1) <= reads quiet_reads)%nat /\ is_Some (quiet_answer s).
Proof.
  intros Hs Hid.
  destruct (forallb_when _ quiet_enough quiet_answers scenarios s quiet_checks Hs (bool_decide_eq_true_2 _ Hid)) as [Hn Ha].
  split; [by apply Nat.leb_le|]. unfold quiet_answers in Ha. destruct (quiet_answer s) as [a|]; [by exists a|done].
Qed.

#[local] Transparent quiet_child quiet_answer quiet_reads.

Lemma quiet_runs_binary : runs_binary quiet quiet_run.
Proof.
  intros s Hs Hid. destruct (quiet_enough_of s Hs Hid) as [Hn [a Ea]].
  exists 0, "playground_run"%string, 9000, 1000, 3, 4, 77, quiet_reads, [WaitOk (quiet_child s).2].
  rewrite (quiet_run_of s a Hs Ea). unfold quiet_answer in Ea. fold (quiet_child s).
  destruct (quiet_child s) as [evs x]. split_and!; [lia|lia| |exact Hn|reflexivity|exact Ea].
  unfold quiet_reads. by intros [? _]%elem_of_replicate.
Qed.

(** ** Properties *)

(** C3: the golden files are what the program prints, by the project's own script.
    On any system where the seven runs are reproducible, tests/golden/run.sh
    accepts a directory exactly when its seven files are the checked-in ones byte
    for byte, saying so and nothing else, exits 1 otherwise, and never writes;
    with --regenerate, and every file writable, it writes exactly the checked-in
    files and touches no other, but announces a match it did not look for.  And
    whatever the binary
    does, if one of its runs fails the script fails. *)
Theorem golden_script_accepts y base fd tmpl run diff_u writable name binary gdir :
  reproducible y base fd tmpl -> runs_binary y run -> binary <> ""%string -> gdir <> ""%string ->
  (forall files,
     let '(s, rc) := golden_script run diff_u writable name [binary; gdir] files in
     gs_files s = files /\ (rc = 0 <-> goldens_in gdir files) /\ (rc = 0 \/ rc = 1) /\
     (rc = 0 -> gs_out s = str ("golden: 7 scenarios match" +:+ nl) /\ gs_err s = [])) /\
  ((forall f, writable f = true) -> forall files,
     let '(s, rc) := golden_script run diff_u writable name [binary; gdir; "--regenerate"%string] files in
     rc = 0 /\ goldens_in gdir (gs_files s) /\
     (exists out, gs_out s = out ++ str ("golden: 7 scenarios match" +:+ nl)) /\
     forall f, Forall (fun id => f <> expected_file gdir id) golden_ids -> gs_files s !! f = files !! f) /\
  (forall run' args files, Exists (fun id => (run' id).1 <> 0) golden_ids ->
     (golden_script run' diff_u writable name args files).2 <> 0).
Proof.
  intros rp Hr Hb Hd. pose proof (binary_good y base fd tmpl run rp Hr) as Hg.
  assert (Ha : forall rest, argument (binary :: gdir :: rest) 0 = Some binary /\ argument (binary :: gdir :: rest) 1 = Some gdir)
    by (intros rest; split; [by destruct binary|by destruct gdir]).
  split_and!.
  - intros files. unfold golden_script. destruct (Ha []) as [-> ->].
    destruct (check_loop run diff_u writable "check" gdir golden_files (Script files [] [] false) Hg ltac:(done))
      as (out & err & fail & E & Hf & Ho).
    change (map fst golden_files) with golden_ids in E. cbn [argument nth_error default]. rewrite E. cbn [gs_files gs_out gs_err].
    cbn [gs_files gs_fail orb] in Hf. unfold goldens_in.
    assert (Hm : all_match gdir files golden_files = true <-> goldens_in gdir files).
    { unfold all_match, goldens_in. rewrite forallb_forall, Forall_forall. setoid_rewrite list_elem_of_In.
      setoid_rewrite bool_decide_eq_true. done. }
    destruct fail; (split_and!; [done| |by (left + right)|]).
    + split; [done|]. intros H%Hm. by rewrite H in Hf.
    + done.
    + split; [|done]. intros _. apply Hm. by destruct (all_match gdir files golden_files).
    + intros _. by apply Ho.
  - intros Hw files. unfold golden_script. destruct (Ha ["--regenerate"%string]) as [-> ->].
    destruct (regenerate_loop run diff_u writable gdir golden_files (Script files [] [] false) Hg Hw eq_refl) as (out & err & E).
    change (map fst golden_files) with golden_ids in E. change (default _ _) with "--regenerate"%string. rewrite E.
    cbn [gs_files]. split_and!; [done|apply write_all_goldens, golden_ids_distinct|by exists out|].
    intros f Hf. apply write_all_others. exact (proj1 (Forall_fmap fst _ golden_files) Hf).
  - intros run' args files He. unfold golden_script. destruct (argument args 0), (argument args 1); [|done..].
    by apply failing_loop.
Qed.

Lemma golden_script_accepts_witness :
  (golden_script quiet_run (fun _ _ => []) (fun _ => true) "run.sh" ["build/playground_run"; "tests/golden"]%string ∅).2 = 1 /\
  goldens_in "tests/golden" (gs_files (golden_script quiet_run (fun _ _ => []) (fun _ => true) "run.sh"
    ["build/playground_run"; "tests/golden"; "--regenerate"]%string ∅).1).
Proof.
  destruct (golden_script_accepts quiet 65536 5 "/tmp/playground.abcdef" quiet_run (fun _ _ => []) (fun _ => true) "run.sh"
    "build/playground_run" "tests/golden" quiet_reproducible quiet_runs_binary ltac:(done) ltac:(done)) as (H1 & H2 & _).
  specialize (H1 ∅). specialize (H2 (fun _ => eq_refl) ∅).
  destruct (golden_script _ _ _ _ [_; _] ∅) as [s rc]. destruct (golden_script _ _ _ _ _ ∅) as [s' rc'].
  destruct H1 as (_ & H0 & [-> | ->] & _); [|split; [done|apply H2]].
  exfalso. pose proof (Forall_inv (proj1 H0 eq_refl)) as H. discriminate H.
Defined.
